(** * dsc_database: the results database of DSC, embedded in Rocq

    A shallow embedding of [src/dsc/dsc_database.py] (class [ResultDB]):
    record ingestion ([load_parameters]), dependency-chain resolution
    ([__get_sequence]), the master-table pivot ([write_master_table]),
    output enrichment ([cbind_output]) and [Build]; and of class
    [ConfigDB], whose [Build] collects the input and output files of the
    steps.

    Conventions of the embedding.
    - The values that the code stores and compares are [value]s: [None],
      integers and strings.
    - A Python [dict] (insertion ordered) is an association list with the
      dictionary operations [dget], [dset], [ddel]; a well-formed
      dictionary has pairwise distinct keys ([NoDup (dkeys d)]).
    - An exception is a value of [exn]; a computation that may raise
      returns a [result], and the first exception ends it.
    - The recursion limit of the interpreter is the [fuel] of
      [get_sequence]; running out of it is [RecursionError].
    - The files on disk are parameters: the sources are the list of
      dictionaries that [ordered_load] returns for the files of [glob],
      and [os.path.isfile] and [load_rds] are functions; for [ConfigDB]
      the files of [glob] are a list of paths, and the stripped content of
      a file, [int] and [sos_pair_input] are functions.
    - A pandas frame is a [DataFrame]: column labels and rows of cells,
      a missing cell being [VNone]; [frame_of_rows], [frame_of_columns],
      [concat_columns], [select] and [merge_outer] stand for the pandas
      calls of the code. *)

From Stdlib Require Import List String Ascii ZArith Lia Bool Arith.
From Stdlib Require Import Permutation Sorted DecimalString.
Import ListNotations.
Local Open Scope string_scope.
Local Open Scope list_scope.

Set Implicit Arguments.

(** ** Python values, exceptions and results *)

Inductive value : Type :=
| VNone
| VInt (z : Z)
| VStr (s : string).

Inductive exn : Type :=
| ResultDBError (msg : string)
| KeyError
| IndexError
| ValueError
| TypeError
| AttributeError
| RecursionError.

Inductive result (A : Type) : Type :=
| Ok (a : A)
| Raise (e : exn).
Arguments Ok {A} a.
Arguments Raise {A} e.

Definition bind {A B : Type} (r : result A) (f : A -> result B) : result B :=
  match r with
  | Ok a => f a
  | Raise e => Raise e
  end.

Notation "x <- r ;; k" := (bind r (fun x => k))
  (at level 61, r at next level, right associativity).

Class EqDec (A : Type) := eq_dec : forall x y : A, {x = y} + {x <> y}.

#[export] Instance string_EqDec : EqDec string := string_dec.

#[export] Instance value_EqDec : EqDec value.
Proof.
  intros x y. unfold EqDec in *.
  decide equality; [apply Z.eq_dec | apply string_dec].
Defined.

#[export] Instance list_EqDec {A : Type} `{EqDec A} : EqDec (list A).
Proof. intros x y. apply list_eq_dec. exact eq_dec. Defined.

(** [x in l] *)
Definition mem {A : Type} `{EqDec A} (x : A) (l : list A) : bool :=
  if in_dec eq_dec x l then true else false.

(** [l.index(x)]: position of the first occurrence. *)
Fixpoint index_of {A : Type} `{EqDec A} (x : A) (l : list A) : option nat :=
  match l with
  | [] => None
  | y :: l' => if eq_dec x y then Some 0%nat
               else option_map S (index_of x l')
  end.

(** [l[i]], raising [IndexError] out of range (non-negative [i]). *)
Definition getidx {A : Type} (l : list A) (i : nat) : result A :=
  match nth_error l i with
  | Some a => Ok a
  | None => Raise IndexError
  end.

(** ** Strings: [split], [join], [str] and [format] *)

(** [s.split(c)] for a one-character separator. *)
Fixpoint split (c : ascii) (s : string) : list string :=
  match s with
  | EmptyString => [EmptyString]
  | String a s' =>
      if Ascii.eqb a c then EmptyString :: split c s'
      else match split c s' with
           | [] => [String a EmptyString]
           | w :: ws => String a w :: ws
           end
  end.

(** [sep.join(l)] *)
Definition join (sep : string) (l : list string) : string :=
  String.concat sep l.

(** [str(z)] for an integer. *)
Definition str_of_Z (z : Z) : string :=
  NilZero.string_of_int (Z.to_int z).

(** [str(x)], as [format] inserts it. *)
Definition str_of_value (x : value) : string :=
  match x with
  | VNone => "None"
  | VInt z => str_of_Z z
  | VStr s => s
  end.

(** [repr] of a string, of a value and of a list; escapes inside
    strings are not rendered (the only use is the text of a message). *)
Definition repr_str (s : string) : string := ("'" ++ s ++ "'")%string.

Definition repr_value (x : value) : string :=
  match x with
  | VStr s => repr_str s
  | _ => str_of_value x
  end.

Definition repr_list (l : list string) : string :=
  ("[" ++ join ", " l ++ "]")%string.

(** A format string is a sequence of literal pieces and replacement
    fields [{n}]; [format] raises [IndexError] when a field names an
    argument that was not passed. *)
Inductive piece : Type :=
| Lit (s : string)
| Field (n : nat).

Fixpoint format (t : list piece) (args : list string) : result string :=
  match t with
  | [] => Ok ""
  | Lit s :: t' => r <- format t' args ;; Ok (s ++ r)%string
  | Field n :: t' =>
      match nth_error args n with
      | Some a => r <- format t' args ;; Ok (a ++ r)%string
      | None => Raise IndexError
      end
  end.

(** [s1] occurs in [s2]. *)
Definition mentions (s1 s2 : string) : Prop :=
  exists pre post, s2 = (pre ++ s1 ++ post)%string.

(** ** Dictionaries *)

(** An insertion-ordered dictionary with keys [K] and values [V]. *)
Abbreviation dict K V := (list (K * V)).

Section Dict.
Context {K V : Type} `{EqDec K}.

Definition dkeys (d : dict K V) : list K := map fst d.

Fixpoint dget (k : K) (d : dict K V) : option V :=
  match d with
  | [] => None
  | (k', v) :: d' => if eq_dec k k' then Some v else dget k d'
  end.

Definition dmem (k : K) (d : dict K V) : bool :=
  match dget k d with Some _ => true | None => false end.

(** [d[k] = v]: in place when the key exists, at the end otherwise. *)
Fixpoint dset (k : K) (v : V) (d : dict K V) : dict K V :=
  match d with
  | [] => [(k, v)]
  | (k', v') :: d' =>
      if eq_dec k k' then (k', v) :: d' else (k', v') :: dset k v d'
  end.

(** [del d[k]] for a present key; nothing to remove otherwise. *)
Fixpoint ddel (k : K) (d : dict K V) : dict K V :=
  match d with
  | [] => []
  | (k', v') :: d' =>
      if eq_dec k k' then d' else (k', v') :: ddel k d'
  end.

(** [d[k]], raising [KeyError]. *)
Definition getitem (k : K) (d : dict K V) : result V :=
  match dget k d with
  | Some v => Ok v
  | None => Raise KeyError
  end.

(** [d.update(s)] *)
Definition dupdate (d s : dict K V) : dict K V :=
  fold_left (fun acc kv => dset (fst kv) (snd kv) acc) s d.
End Dict.

(** [sorted(l)] on strings (code-point order; the result of a sort by a
    total order does not depend on the algorithm). *)
Fixpoint insert_sorted (x : string) (l : list string) : list string :=
  match l with
  | [] => [x]
  | y :: l' => if String.leb x y then x :: l else y :: insert_sorted x l'
  end.

Definition sorted (l : list string) : list string :=
  fold_right insert_sorted [] l.

(** ** The database object *)

(** A raw per-step metadata block: the mapping loaded from YAML. *)
Abbreviation raw := (dict string value).

(** A table of [self.data]: a dict of parallel columns. *)
Abbreviation table := (dict string (list value)).

Record ResultDB : Type := mkDB {
  data : dict value table;
  last_block : list string;
  groups : dict string (list value)
}.

(** [ResultDB.__init__] *)
Definition init : ResultDB :=
  {| data := []; last_block := []; groups := [] |}.

Definition bookkeeping : list string :=
  ["sequence_id"; "sequence_name"; "step_name"; "exec"].

Definition system_cols : list string :=
  ["step_id"; "return"; "depends"].

Definition underscore : ascii := "_"%char.
Definition plus_sign : ascii := "+"%char.

(** ** Record ingestion: [load_parameters] *)

(** The files matched by [glob], each as loaded by [ordered_load], merged
    into the ordered dictionary [data] (lines 45-47). *)
Definition load_sources (files : list (dict string raw)) : dict string raw :=
  fold_left dupdate files [].

(** ['_'.join(k.split('_')[1:])] *)
Definition key_suffix (k : string) : string :=
  join "_" (tl (split underscore k)).

(** [k.split('_')[1]], the return id of a key, and [k.split('_')[-1]],
    the return id it depends on when the key has more than two parts. *)
Abbreviation key_return k := (getidx (split underscore k) 1).
Abbreviation key_last k := (last (split underscore k) "").

(** Lines 50-56: the loop over [list(data.keys())]. *)
Fixpoint dedup_loop (ks : list string) (seen : list string)
    (d : dict string raw) : dict string raw :=
  match ks with
  | [] => d
  | k :: ks' =>
      let k1 := key_suffix k in
      if mem k1 seen then dedup_loop ks' seen (ddel k d)
      else dedup_loop ks' (seen ++ [k1]) d
  end.

Definition dedup (d : dict string raw) : dict string raw :=
  dedup_loop (dkeys d) [] d.

(** Lines 34-42: [search_dependent_index], over the keys of [data]. *)
Fixpoint search_loop (x : string) (ii : nat) (ks : list string)
    : result (option Z) :=
  match ks with
  | [] => Ok None
  | kk :: ks' =>
      r <- key_return kk ;;
      if eq_dec r x then Ok (Some (Z.of_nat ii + 1)%Z)
      else search_loop x (S ii) ks'
  end.

Definition dependency_msg (x : string) : string :=
  ("Cannot find dependency step for output ``" ++ x ++ "``!")%string.

Definition search_dependent_index (keys : list string) (x : string)
    : result Z :=
  res <- search_loop x 0 keys ;;
  match res with
  | None => Raise (ResultDBError (dependency_msg x))
  | Some i => Ok i
  end.

(** [v['step_name'].split(c)]: only a string has [split]. *)
Definition as_str (x : value) : result string :=
  match x with
  | VStr s => Ok s
  | _ => Raise AttributeError
  end.

(** Lines 62-65 *)
Definition add_group (block_name : string) (tbl : value)
    (g : dict string (list value)) : result (dict string (list value)) :=
  let g1 := if dmem block_name g then g else dset block_name [] g in
  members <- getitem block_name g1 ;;
  if mem tbl members then Ok g1
  else Ok (dset block_name (members ++ [tbl]) g1).

(** Lines 66-67 *)
Definition add_last_block (block_name : string) (v : raw)
    (lb : list string) : result (list string) :=
  if mem block_name lb then Ok lb
  else
    sn <- getitem "step_name" v ;;
    sq <- getitem "sequence_name" v ;;
    parts <- as_str sq ;;
    if eq_dec sn (VStr (last (split plus_sign parts) "")) then
      Ok (lb ++ [block_name])
    else Ok lb.

(** Lines 69-71: a field named like a system column gets a leading dot;
    [rename_field] is the body of the loop. *)
Definition rename_field (acc : raw) (x : string) : raw :=
  match dget x acc with
  | Some y => dset ("." ++ x)%string y (ddel x acc)
  | None => acc
  end.

Definition rename_fields (v : raw) : raw :=
  fold_left rename_field system_cols v.

Definition not_in (l : list string) (x : string) : bool := negb (mem x l).

(** Lines 74-77: [new_column] is the body of the loop. *)
Definition new_column (acc : table) (x : string) : table :=
  if not_in bookkeeping x then dset x [] acc else acc.

Definition new_table (v : raw) : table :=
  fold_left new_column (dkeys v ++ system_cols) [].

(** The format string of line 84-85 and its four arguments. *)
Definition inconsistent_template : list piece :=
  [Lit "Inconsistent keys between step ``"; Field 1; Lit " (value ";
   Field 3; Lit ")`` and ``"; Field 2; Lit " (value "; Field 4;
   Lit ")``."].

(** Lines 79-86.  The code compares the [repr] of the two sorted lists,
    which are equal exactly when the lists are; the lists are compared
    here. *)
Definition check_keys (idx : nat) (v : raw) (tbl : table) : result unit :=
  let keys1 := sorted (filter (not_in bookkeeping) (dkeys v)) in
  let keys2 := sorted (filter (not_in system_cols) (dkeys tbl)) in
  if eq_dec keys1 keys2 then Ok tt
  else
    ids <- getitem "step_id" tbl ;;
    msg <- format inconsistent_template
             [str_of_Z (Z.of_nat idx + 1);
              repr_list (map repr_str keys1);
              repr_list (map repr_value ids);
              repr_list (map repr_str keys2)] ;;
    Raise (ResultDBError msg).

(** [self.data[t][col].append(x)] *)
Definition append_col (t : value) (col : string) (x : value)
    (d : dict value table) : result (dict value table) :=
  tbl <- getitem t d ;;
  xs <- getitem col tbl ;;
  Ok (dset t (dset col (xs ++ [x]) tbl) d).

(** Lines 94-96 *)
Fixpoint append_attrs (t : value) (items : raw) (d : dict value table)
    : result (dict value table) :=
  match items with
  | [] => Ok d
  | (k1, v1) :: items' =>
      if not_in bookkeeping k1 then
        d' <- append_col t k1 v1 d ;;
        append_attrs t items' d'
      else append_attrs t items' d
  end.

(** Lines 88-93: the value appended to [depends]. *)
Definition depends_of (keys : list string) (k : list string)
    : result value :=
  if (2 <? List.length k)%nat then
    i <- search_dependent_index keys (last k "") ;;
    Ok (VInt i)
  else Ok VNone.

(** Lines 73-86: the table of the record, created at its first record
    and checked against the record's keys afterwards. *)
Definition prepare_table (idx : nat) (v' : raw) (tbl : value)
    (d : dict value table) : result (dict value table) :=
  match dget tbl d with
  | None => Ok (dset tbl (new_table v') d)
  | Some cols => _ <- check_keys idx v' cols ;; Ok d
  end.

(** What the first part of the loop body hands to the second. *)
Record pending : Type := mkPending {
  p_table : value;
  p_fields : raw;
  p_key : list string;
  p_groups : dict string (list value);
  p_last_block : list string;
  p_data : dict value table
}.

(** The body of the loop of line 57 for the item [(k, v)] at position
    [idx], from line 60 to the point of line 91 where the dependency is
    about to be looked up. *)
Definition record_head (idx : nat) (k : string) (v : raw) (db : ResultDB)
    : result pending :=
  tbl <- getitem "exec" v ;;
  sn <- getitem "step_name" v ;;
  sname <- as_str sn ;;
  let block_name := hd "" (split underscore sname) in
  groups' <- add_group block_name tbl (groups db) ;;
  last_block' <- add_last_block block_name v (last_block db) ;;
  let v' := rename_fields v in
  d1 <- prepare_table idx v' tbl (data db) ;;
  d2 <- append_col tbl "step_id" (VInt (Z.of_nat idx + 1)) d1 ;;
  let ks := split underscore k in
  cols <- getitem tbl d2 ;;
  _ <- getitem "return" cols ;;
  ret <- getidx ks 1 ;;
  d3 <- append_col tbl "return" (VStr ret) d2 ;;
  cols' <- getitem tbl d3 ;;
  _ <- getitem "depends" cols' ;;
  Ok (mkPending tbl v' ks groups' last_block' d3).

(** The rest of the body: lines 90-96; [keys] are the keys of [data]. *)
Definition record_tail (keys : list string) (p : pending)
    : result ResultDB :=
  dep <- depends_of keys (p_key p) ;;
  d4 <- append_col (p_table p) "depends" dep (p_data p) ;;
  d5 <- append_attrs (p_table p) (p_fields p) d4 ;;
  Ok {| data := d5; last_block := p_last_block p; groups := p_groups p |}.

Definition load_step (keys : list string) (idx : nat) (k : string)
    (v : raw) (db : ResultDB) : result ResultDB :=
  p <- record_head idx k v db ;;
  record_tail keys p.

(** The loop of line 57 over [enumerate(data.items())]. *)
Fixpoint load_loop (keys : list string) (idx : nat)
    (items : dict string raw) (db : ResultDB) : result ResultDB :=
  match items with
  | [] => Ok db
  | (k, v) :: items' =>
      db' <- load_step keys idx k v db ;;
      load_loop keys (S idx) items' db'
  end.

(** [load_parameters] on the merged dictionary [d]. *)
Definition load_data (d : dict string raw) (db : ResultDB)
    : result ResultDB :=
  let d' := dedup d in
  load_loop (dkeys d') 0 d' db.

Definition load_parameters (files : list (dict string raw))
    (db : ResultDB) : result ResultDB :=
  load_data (load_sources files) db.

(** ** Dependency chains: [__find_block] and [__get_sequence] *)

Definition block_msg (step : value) : string :=
  ("Cannot find ``" ++ str_of_value step ++ "`` in any blocks!")%string.

(** Lines 98-102, the loop over the keys [ks] of [self.groups]. *)
Fixpoint find_block_loop (g : dict string (list value)) (ks : list string)
    (step : value) : result string :=
  match ks with
  | [] => Raise (ResultDBError (block_msg step))
  | k :: ks' =>
      members <- getitem k g ;;
      if mem step members then Ok k else find_block_loop g ks' step
  end.

Definition find_block (g : dict string (list value)) (step : value)
    : result string :=
  find_block_loop g (dkeys g) step.

Definition step_id_msg (depend_id : value) : string :=
  ("Cannot find step_id ``" ++ str_of_value depend_id
     ++ "`` in any tables!")%string.

(** Lines 113-118: the first table, in the order of [self.data], whose
    [step_id] column holds [depend_id], with the position in it. *)
Fixpoint find_step (d : dict value table) (ks : list value)
    (depend_id : value) : result (option (value * nat)) :=
  match ks with
  | [] => Ok None
  | k :: ks' =>
      cols <- getitem k d ;;
      ids <- getitem "step_id" cols ;;
      match index_of depend_id ids with
      | Some idx => Ok (Some (k, idx))
      | None => find_step d ks' depend_id
      end
  end.

(** Lines 104-121.  [res] is the list the caller passes in; the list
    after the call is returned.  [fuel] is the recursion limit.  Line 119
    also raises when the table found is named [None]. *)
Fixpoint get_sequence (fuel : nat) (d : dict value table)
    (step step_id : value) (step_idx : nat) (res : list (value * value))
    : result (list (value * value)) :=
  match fuel with
  | O => Raise RecursionError
  | S fuel' =>
      let res' := res ++ [(step, step_id)] in
      cols <- getitem step d ;;
      deps <- getitem "depends" cols ;;
      depend_id <- getidx deps step_idx ;;
      match depend_id with
      | VNone => Ok res'
      | _ =>
          found <- find_step d (dkeys d) depend_id ;;
          match found with
          | None => Raise (ResultDBError (step_id_msg depend_id))
          | Some (VNone, _) => Raise (ResultDBError (step_id_msg depend_id))
          | Some (k, idx) => get_sequence fuel' d k depend_id idx res'
          end
      end
  end.

(** ** Data frames *)

Record DataFrame : Type := mkDF {
  columns : list string;
  rows : list (list value)
}.

Definition nrows (f : DataFrame) : nat := List.length (rows f).
Definition width (f : DataFrame) : nat := List.length (columns f).

Definition nulls (n : nat) : list value := repeat VNone n.

Definition pad (n : nat) (row : list value) : list value :=
  row ++ nulls (n - List.length row).

(** [pd.DataFrame(rows, columns = header)] for a list of rows: short rows
    are filled with nulls up to the longest one, whose length must be the
    number of column labels. *)
Definition frame_of_rows (rs : list (list value)) (header : list string)
    : result DataFrame :=
  let w := list_max (map (@List.length value) rs) in
  match rs with
  | [] => Ok (mkDF header [])
  | _ =>
      if (w =? List.length header)%nat then Ok (mkDF header (map (pad w) rs))
      else Raise ValueError
  end.

Definition row_at (f : DataFrame) (i : nat) : list value :=
  nth i (rows f) (nulls (width f)).

(** [pd.concat(frames, axis = 1)] for frames with the default index: the
    frames side by side, row [i] of the result made of the rows [i],
    nulls under a frame that has fewer rows. *)
Definition concat_columns (fs : list DataFrame) : result DataFrame :=
  match fs with
  | [] => Raise ValueError
  | _ =>
      let n := list_max (map nrows fs) in
      Ok (mkDF (List.concat (map columns fs))
               (map (fun i => List.concat (map (fun f => row_at f i) fs))
                    (seq 0 n)))
  end.

(** The cell of a row under the column at position [j]. *)
Definition key_at (j : nat) (row : list value) : value := nth j row VNone.

(** [table[label]], as the loop of line 176 iterates over it: the cells
    of the column when the label is unique; when several columns carry
    the label the selection is a frame, which iterates over its column
    labels; [KeyError] without such a column. *)
Definition select (label : string) (f : DataFrame) : result (list value) :=
  match count_occ string_dec (columns f) label with
  | O => Raise KeyError
  | S O =>
      match index_of label (columns f) with
      | Some j => Ok (map (key_at j) (rows f))
      | None => Raise KeyError
      end
  | S (S n) => Ok (repeat (VStr label) (S (S n)))
  end.

(** ** The master table: [write_master_table] *)

(** Modelled from the spec: [flatten_list] of [utils], not among the
    sources; section 4.3 has the header as [<block>_name, <block>_id] per
    block and a row as the table name and step id per chain position, so
    a list of pairs is flattened into the list of their components. *)
Definition flatten_list {A : Type} (l : list (A * A)) : list A :=
  flat_map (fun p => [fst p; snd p]) l.

Abbreviation chain := (list (value * value)).

(** Lines 135-139: the chains of the records of one table. *)
Fixpoint chains_of_table (fuel : nat) (d : dict value table) (step : value)
    (step_idx : nat) (ids : list value) (res : list chain)
    : result (list chain) :=
  match ids with
  | [] => Ok res
  | step_id :: ids' =>
      tmp <- get_sequence fuel d step step_id step_idx [] ;;
      chains_of_table fuel d step (S step_idx) ids' (res ++ [rev tmp])
  end.

(** Lines 133-139 *)
Fixpoint chains_of_block (fuel : nat) (d : dict value table)
    (steps : list value) (res : list chain) : result (list chain) :=
  match steps with
  | [] => Ok res
  | step :: steps' =>
      cols <- getitem step d ;;
      ids <- getitem "step_id" cols ;;
      res' <- chains_of_table fuel d step 0 ids res ;;
      chains_of_block fuel d steps' res'
  end.

(** [[self.__find_block(x[0]) for x in item]] *)
Fixpoint shape (g : dict string (list value)) (item : chain)
    : result (list string) :=
  match item with
  | [] => Ok []
  | x :: item' =>
      b <- find_block g (fst x) ;;
      bs <- shape g item' ;;
      Ok (b :: bs)
  end.

Definition header_of (key : list string) : list string :=
  flatten_list
    (map (fun x => ((x ++ "_name")%string, (x ++ "_id")%string)) key).

(** A value of the dictionary [data] of line 140: the header, which the
    code keeps as the first element of the list, and the rows after it. *)
Abbreviation group := (list string * list (list value))%type.

(** Lines 141-145 *)
Fixpoint group_chains (g : dict string (list value)) (res : list chain)
    (acc : dict (list string) group) : result (dict (list string) group) :=
  match res with
  | [] => Ok acc
  | item :: res' =>
      key <- shape g item ;;
      let acc1 :=
        if dmem key acc then acc else dset key (header_of key, []) acc in
      gr <- getitem key acc1 ;;
      group_chains g res'
        (dset key (fst gr, snd gr ++ [flatten_list item]) acc1)
  end.

(** Lines 146-148 *)
Fixpoint frames_of_groups (ks : list (list string))
    (acc : dict (list string) group) : result (list DataFrame) :=
  match ks with
  | [] => Ok []
  | key :: ks' =>
      gr <- getitem key acc ;;
      f <- frame_of_rows (snd gr) (fst gr) ;;
      fs <- frames_of_groups ks' acc ;;
      Ok (f :: fs)
  end.

Definition write_master_table (fuel : nat) (db : ResultDB) (block : string)
    : result DataFrame :=
  steps <- getitem block (groups db) ;;
  res <- chains_of_block fuel (data db) steps [] ;;
  grouped <- group_chains (groups db) res [] ;;
  frames <- frames_of_groups (dkeys grouped) grouped ;;
  concat_columns frames.

(** ** Joining and assembling frames *)

Definition set_nth {A : Type} (j : nat) (x : A) (l : list A) : list A :=
  firstn j l ++ match skipn j l with [] => [] | _ :: tl => x :: tl end.

Definition drop_nth {A : Type} (j : nat) (l : list A) : list A :=
  firstn j l ++ skipn (S j) l.

(** The right row [rr] has the key of the left row [lr]. *)
Definition matches (jl jr : nat) (lr rr : list value) : bool :=
  if eq_dec (key_at jr rr) (key_at jl lr) then true else false.

(** The rows an outer join makes of the left row [lr]. *)
Definition join_left (jl jr : nat) (r : DataFrame) (lr : list value)
    : list (list value) :=
  match filter (matches jl jr lr) (rows r) with
  | [] => [lr ++ nulls (List.length (drop_nth jr (columns r)))]
  | ms => map (fun rr => lr ++ drop_nth jr rr) ms
  end.

(** The rows it makes of the right rows whose key no left row has. *)
Definition right_only (jl jr : nat) (l r : DataFrame) : list (list value) :=
  map (fun rr => set_nth jl (key_at jr rr) (nulls (width l))
                   ++ drop_nth jr rr)
      (filter (fun rr => negb (mem (key_at jr rr)
                                   (map (key_at jl) (rows l))))
              (rows r)).

(** The labels of the join: a label that both sides have outside the
    key gets the suffixes [_x] and [_y]. *)
Definition merged_columns (key : string) (jr : nat) (l r : DataFrame)
    : list string :=
  let rcols := drop_nth jr (columns r) in
  map (fun c => if eq_dec c key then c
                else if mem c rcols then (c ++ "_x")%string
                else c) (columns l)
  ++ map (fun c => if mem c (columns l) then (c ++ "_y")%string else c)
         rcols.

(** [pd.merge(l, r, on = key, how = 'outer')] on one key column.  A left
    row is paired with every right row of the same key, or with nulls
    when there is none; a right row whose key no left row has comes with
    nulls on the left.  pandas orders the rows of an outer join by key;
    the rows are given here in the order left, then right only. *)
Definition merge_outer (key : string) (l r : DataFrame) : result DataFrame :=
  match count_occ string_dec (columns l) key,
        count_occ string_dec (columns r) key with
  | O, _ | _, O => Raise KeyError
  | S O, S O =>
      match index_of key (columns l), index_of key (columns r) with
      | Some jl, Some jr =>
          Ok (mkDF (merged_columns key jr l r)
                   (flat_map (join_left jl jr r) (rows l)
                      ++ right_only jl jr l r))
      | _, _ => Raise KeyError
      end
  | _, _ => Raise ValueError
  end.

(** [pd.DataFrame(t, columns = cols)] for a dict of columns: all columns
    must have one length; a label of [cols] without a column is null. *)
Definition frame_of_columns (t : table) (cols : list string)
    : result DataFrame :=
  let n := match t with [] => O | (_, xs) :: _ => List.length xs end in
  if forallb (fun kv => (List.length (snd kv) =? n)%nat) t then
    Ok (mkDF cols
          (map (fun i =>
                  map (fun c => match dget c t with
                                | Some xs => nth i xs VNone
                                | None => VNone
                                end) cols)
               (seq 0 n)))
  else Raise ValueError.

(** [s.split(c, 1)] *)
Fixpoint split_once (c : ascii) (s : string) : list string :=
  match s with
  | EmptyString => [EmptyString]
  | String a s' =>
      if Ascii.eqb a c then [EmptyString; s']
      else match split_once c s' with
           | [] => [String a EmptyString]
           | w :: ws => String a w :: ws
           end
  end.

(** ** Output enrichment ([cbind_output]) and [Build] *)

Section Collaborators.
(** [self.name], [os.path.isfile] and [load_rds] of [utils]. *)
Variable name : string.
Variable isfile : string -> bool.
Variable load_rds : string -> result (dict string (list value)).

Definition rds_path (ret : value) : string :=
  (name ++ "/" ++ str_of_value ret ++ ".rds")%string.

Definition variables_msg (rds : string) : string :=
  ("Variables in ``" ++ rds
     ++ "`` are not consistent with existing variables!")%string.

(** Lines 184-190 *)
Fixpoint artifact_columns (rdata : dict string (list value))
    (ks : list string) (tmp_colnames : list string) (values : list value)
    : result (list string * list value) :=
  match ks with
  | [] => Ok (tmp_colnames, values)
  | k :: ks' =>
      xs <- getitem k rdata ;;
      match xs with
      | [x] => artifact_columns rdata ks' (tmp_colnames ++ [k])
                 (values ++ [x])
      | _ =>
          artifact_columns rdata ks'
            (tmp_colnames
               ++ map (fun i => (k ++ "_" ++ str_of_Z (Z.of_nat i + 1))%string)
                      (seq 0 (List.length xs)))
            (values ++ xs)
      end
  end.

(** Lines 177-178: the [return] of the step [idx] of table [step]. *)
Definition return_of (d : dict value table) (step idx : value)
    : result value :=
  cols <- getitem step d ;;
  rets <- getitem "return" cols ;;
  ids <- getitem "step_id" cols ;;
  i <- match index_of idx ids with
       | Some i => Ok i
       | None => Raise ValueError
       end ;;
  getidx rets i.

(** Lines 176-197: the loop; [acc] is the list [data] of line 174. *)
Fixpoint cbind_loop (d : dict value table) (pairs : list (value * value))
    (acc : list (list value)) (colnames : option (list string))
    : result (list (list value) * option (list string)) :=
  match pairs with
  | [] => Ok (acc, colnames)
  | (step, idx) :: pairs' =>
      ret <- return_of d step idx ;;
      let rds := rds_path ret in
      if negb (isfile rds) then cbind_loop d pairs' acc colnames
      else
        rdata <- load_rds rds ;;
        cv <- artifact_columns rdata (sorted (dkeys rdata)) [] [] ;;
        colnames' <-
          match colnames with
          | None => Ok (fst cv)
          | Some c =>
              if eq_dec c (fst cv) then Ok c
              else Raise (ResultDBError (variables_msg rds))
          end ;;
        cbind_loop d pairs' (acc ++ [idx :: snd cv]) (Some colnames')
  end.

(** Lines 166-200.  [[label] + colnames] with [colnames] still [None]
    is a [TypeError]. *)
Definition cbind_output (d : dict value table) (bname : string)
    (t : DataFrame) : result DataFrame :=
  names <- select (bname ++ "_name")%string t ;;
  ids <- select (bname ++ "_id")%string t ;;
  r <- cbind_loop d (combine names ids) [] None ;;
  match snd r with
  | None => Raise TypeError
  | Some colnames =>
      right <- frame_of_rows (fst r) ((bname ++ "_id")%string :: colnames) ;;
      merge_outer (bname ++ "_id")%string t right
  end.

(** Lines 204-205 *)
Fixpoint build_masters (fuel : nat) (db : ResultDB) (blocks : list string)
    (m : dict string DataFrame) : result (dict string DataFrame) :=
  match blocks with
  | [] => Ok m
  | block :: blocks' =>
      t <- write_master_table fuel db block ;;
      build_masters fuel db blocks' (dset ("master_" ++ block)%string t m)
  end.

(** Lines 206-207 *)
Fixpoint enrich_masters (d : dict value table) (items : list string)
    (m : dict string DataFrame) : result (dict string DataFrame) :=
  match items with
  | [] => Ok m
  | item :: items' =>
      bname <- getidx (split_once underscore item) 1 ;;
      t <- getitem item m ;;
      t' <- cbind_output d bname t ;;
      enrich_masters d items' (dset item t' m)
  end.

(** Lines 208-211 *)
Fixpoint assemble (ks : list value) (d : dict value table)
    (out : dict value DataFrame) : result (dict value DataFrame) :=
  match ks with
  | [] => Ok out
  | k :: ks' =>
      t <- getitem k d ;;
      let tmp := ["step_id"; "depends"; "return"] in
      f <- frame_of_columns t (tmp ++ filter (not_in tmp) (dkeys t)) ;;
      assemble ks' d (dset k f out)
  end.

(** Lines 202-213; the result is the dictionary handed to [save_rds]. *)
Definition Build (fuel : nat) (files : list (dict string raw))
    : result (dict value DataFrame) :=
  db <- load_parameters files init ;;
  m <- build_masters fuel db (last_block db) [] ;;
  m' <- enrich_masters (data db) (dkeys m) m ;;
  frames <- assemble (dkeys (data db)) (data db) [] ;;
  Ok (dupdate frames (map (fun kf => (VStr (fst kf), snd kf)) m')).
End Collaborators.

(** Lines 204-213: what [Build] does with the database once
    [load_parameters] has returned. *)
Definition build_results (name : string) (isfile : string -> bool)
    (load_rds : string -> result (dict string (list value)))
    (fuel : nat) (db : ResultDB) : result (dict value DataFrame) :=
  m <- build_masters fuel db (last_block db) [] ;;
  m' <- enrich_masters name isfile load_rds (data db) (dkeys m) m ;;
  frames <- assemble (dkeys (data db)) (data db) [] ;;
  Ok (dupdate frames (map (fun kf => (VStr (fst kf), snd kf)) m')).

(** ** The configuration database: [ConfigDB] *)

(** [os.path.basename] of [posixpath]: what follows the last [/]. *)
Definition basename (p : string) : string := last (split "/"%char p) "".

Definition starts_with (c : ascii) (s : string) : bool :=
  match s with
  | EmptyString => false
  | String a _ => Ascii.eqb a c
  end.

Fixpoint ends_with (c : ascii) (s : string) : bool :=
  match s with
  | EmptyString => false
  | String a EmptyString => Ascii.eqb a c
  | String _ s' => ends_with c s'
  end.

(** [os.path.join(a, b)] of [posixpath]. *)
Definition path_join (a b : string) : string :=
  if starts_with "/" b then b
  else if (String.eqb a "" || ends_with "/" a)%bool then (a ++ b)%string
  else (a ++ "/" ++ b)%string.

(** [s.split(sep)] for a separator made of the character [c] twice. *)
Fixpoint split_pair (c : ascii) (s : string) : list string :=
  match s with
  | EmptyString => [EmptyString]
  | String a s' =>
      match s' with
      | EmptyString => [String a EmptyString]
      | String b s'' =>
          if (Ascii.eqb a c && Ascii.eqb b c)%bool
          then EmptyString :: split_pair c s''
          else match split_pair c s' with
               | [] => [String a EmptyString]
               | w :: ws => String a w :: ws
               end
      end
  end.

(** [a, b, c = l]: unpacking a list into three names. *)
Definition unpack3 {A : Type} (l : list A) : result (A * A * A) :=
  match l with
  | [a; b; c] => Ok (a, b, c)
  | _ => Raise ValueError
  end.

Module ConfigDB.
Section Collaborators.
(** [self.name]; [open(f).read().strip()]; [int]; and [sos_pair_input] of
    [utils], whose result is of a type [P]. *)
Variable name : string.
Variable read : string -> string.
Variable int : string -> result Z.
Variable P : Type.
Variable sos_pair_input : list string -> result P.

(** What an entry holds under [input] and [output]. *)
Inductive listing : Type :=
| Paths (l : list string)
| Paired (p : P).

(** Lines 232-235: the comprehension over [x.split(',')]. *)
Definition paths (x : string) : list string :=
  map (fun item => path_join name (basename item))
      (filter (fun item => negb (String.eqb item "")) (split ","%char x)).

(** [os.path.basename(f).split('.')[:3]] *)
Definition name_parts (f : string) : list string :=
  firstn 3 (split "."%char (basename f)).

(** The body of the loop of line 223 for the file [f]. *)
Definition add_file (f : string)
    (data : dict string (dict string (dict string (dict string listing))))
    : result (dict string (dict string (dict string (dict string listing)))) :=
  parts <- unpack3 (name_parts f) ;;
  let fid := fst (fst parts) in
  let sid := snd (fst parts) in
  let nm := snd parts in
  let data1 := if dmem fid data then data else dset fid [] data in
  by_sid <- getitem fid data1 ;;
  let by_sid1 := if dmem sid by_sid then by_sid else dset sid [] by_sid in
  by_name <- getitem sid by_sid1 ;;
  let by_name1 := if dmem nm by_name then by_name else dset nm [] by_name in
  e <- getitem nm by_name1 ;;
  xyz <- unpack3 (split_pair ":"%char (read f)) ;;
  let x := fst (fst xyz) in
  let y := snd (fst xyz) in
  let z := snd xyz in
  let e1 := dset "input" (Paths (paths x)) e in
  let e2 := dset "output" (Paths (paths y)) e1 in
  n <- int z ;;
  e3 <- (if (n =? 0)%Z then Ok e2
         else p <- sos_pair_input (paths x) ;;
              Ok (dset "input" (Paired p) e2)) ;;
  Ok (dset fid (dset sid (dset nm e3 by_name1) by_sid1) data1).

(** The loop of line 223 over the files of [glob]. *)
Fixpoint build_loop (files : list string)
    (data : dict string (dict string (dict string (dict string listing))))
    : result (dict string (dict string (dict string (dict string listing)))) :=
  match files with
  | [] => Ok data
  | f :: files' =>
      data' <- add_file f data ;;
      build_loop files' data'
  end.

(** Lines 220-241; the result is the dictionary handed to [json.dumps]. *)
Definition Build (files : list string)
    : result (dict string (dict string (dict string (dict string listing)))) :=
  build_loop files [].

(** The entry of [data[fid][sid][nm]]. *)
Definition entry_at
    (data : dict string (dict string (dict string (dict string listing))))
    (fid sid nm : string) : option (dict string listing) :=
  match dget fid data with
  | Some by_sid =>
      match dget sid by_sid with
      | Some by_name => dget nm by_name
      | None => None
      end
  | None => None
  end.
End Collaborators.
Arguments Paths {P} l.
Arguments Paired {P} p.
End ConfigDB.

(** ** The conditions the properties speak of *)

(** *** Sources *)

(** The raw blocks are dictionaries: their keys are pairwise distinct. *)
Definition blocks_ok (d : dict string raw) : Prop :=
  forall k v, In (k, v) d -> NoDup (dkeys v).

(** The deduplication in the words of section 4.1 of the specification:
    of the raw blocks that share a key suffix, only the first
    encountered is kept. *)
Fixpoint keep_first (seen : list string) (d : dict string raw)
    : dict string raw :=
  match d with
  | [] => []
  | (k, v) :: d' =>
      if mem (key_suffix k) seen then keep_first seen d'
      else (k, v) :: keep_first (seen ++ [key_suffix k]) d'
  end.

(** The records of the table [t] among [items]: the position, counted
    from [n], and the key of every item whose [exec] is [t]. *)
Fixpoint records_of (t : value) (items : dict string raw) (n : nat)
    : list (nat * string) :=
  match items with
  | [] => []
  | (k, v) :: rest =>
      match dget "exec" v with
      | Some t' =>
          if eq_dec t' t then (n, k) :: records_of t rest (S n)
          else records_of t rest (S n)
      | None => records_of t rest (S n)
      end
  end.

(** The order of [sorted]. *)
Definition sle (a b : string) : Prop := String.leb a b = true.

(** *** The store during ingestion *)

(** Every column of the table [T] is a system column or is named by a
    field of the record [v'] that is not a bookkeeping field. *)
Definition covered (v' : raw) (T : table) : Prop :=
  forall c, In c (dkeys T) ->
    In c system_cols \/ (In c (dkeys v') /\ not_in bookkeeping c = true).

(** The column dictionaries of the store have pairwise distinct keys. *)
Definition columns_distinct (d : dict value table) : Prop :=
  forall t cols, dget t d = Some cols -> NoDup (dkeys cols).

(** The table a record is appended to: the one of its [exec], or a new
    one at the first record of an [exec]. *)
Definition table_before (tbl : value) (v : raw) (d : dict value table)
    : table :=
  match dget tbl d with
  | Some cols => cols
  | None => new_table (rename_fields v)
  end.

(** The table [T5] is the table [T0] with one element more in every
    column: the step id [idx + 1], the return id and the resolved
    dependency of the key [k] in the system columns. *)
Definition extends_by (keys : list string) (idx : nat) (k : string)
    (T0 T5 : table) : Prop :=
  dkeys T5 = dkeys T0 /\
  (exists ids,
      dget "step_id" T0 = Some ids /\
      dget "step_id" T5 = Some (ids ++ [VInt (Z.of_nat idx + 1)])) /\
  (exists rets ret,
      dget "return" T0 = Some rets /\ key_return k = Ok ret /\
      dget "return" T5 = Some (rets ++ [VStr ret])) /\
  (exists deps dep,
      dget "depends" T0 = Some deps /\
      depends_of keys (split underscore k) = Ok dep /\
      dget "depends" T5 = Some (deps ++ [dep])) /\
  (forall c xs, dget c T0 = Some xs ->
     exists x, dget c T5 = Some (xs ++ [x])).

(** The store after the items [pre] have been ingested: a table holds,
    record after record of its [exec], the step id (position plus one),
    the return id and the resolved dependency, and all its columns have
    as many elements as it has records; an [exec] without a table has no
    record. *)
Definition store_inv (keys : list string) (pre : dict string raw)
    (d : dict value table) : Prop :=
  (forall t cols, dget t d = Some cols ->
     NoDup (dkeys cols) /\
     dget "step_id" cols
     = Some (map (fun r => VInt (Z.of_nat (fst r) + 1)) (records_of t pre 0)) /\
     (exists rets,
         dget "return" cols = Some rets /\
         Forall2 (fun r x => exists s, key_return (snd r) = Ok s /\
                                       x = VStr s)
                 (records_of t pre 0) rets) /\
     (exists deps,
         dget "depends" cols = Some deps /\
         Forall2 (fun r x => depends_of keys (split underscore (snd r)) = Ok x)
                 (records_of t pre 0) deps) /\
     (forall c xs, dget c cols = Some xs ->
        List.length xs = List.length (records_of t pre 0))) /\
  (forall t, dget t d = None -> records_of t pre 0 = []).

(** *** Record stores and chains *)

(** Every step id of the store, table after table. *)
Definition all_ids (d : dict value table) : list value :=
  flat_map (fun kv => match dget "step_id" (snd kv) with
                      | Some ids => ids
                      | None => []
                      end) d.

(** [(t, i)] is the record at position [idx] of the table [t]. *)
Definition record_at (d : dict value table) (t i : value) (idx : nat)
    : Prop :=
  exists cols ids,
    dget t d = Some cols /\ dget "step_id" cols = Some ids /\
    nth_error ids idx = Some i.

(** [p] is a record whose [depends] is [None]. *)
Definition initial_record (d : dict value table) (p : value * value)
    : Prop :=
  exists cols ids deps idx,
    dget (fst p) d = Some cols /\
    dget "step_id" cols = Some ids /\ dget "depends" cols = Some deps /\
    nth_error ids idx = Some (snd p) /\ nth_error deps idx = Some VNone.

(** [x] is the [depends] of a record. *)
Definition depends_value (d : dict value table) (x : value) : Prop :=
  exists t cols deps idx,
    dget t d = Some cols /\ dget "depends" cols = Some deps /\
    nth_error deps idx = Some x.

(** [x] is the step id of no record. *)
Definition dangling (d : dict value table) (x : value) : Prop :=
  forall k cols ids,
    dget k d = Some cols -> dget "step_id" cols = Some ids -> ~ In x ids.

(** Every [depends] that is not [None] is an integer strictly less than
    the integer [step_id] of its record. *)
Definition decreasing (d : dict value table) : Prop :=
  forall t cols ids deps idx s x,
    dget t d = Some cols ->
    dget "step_id" cols = Some ids -> dget "depends" cols = Some deps ->
    nth_error ids idx = Some s -> nth_error deps idx = Some x ->
    x <> VNone ->
    exists zs zx, s = VInt zs /\ x = VInt zx /\ (zx < zs)%Z.

(** The tables have a name and parallel [step_id] and [depends] columns. *)
Definition wf_store (d : dict value table) : Prop :=
  ~ In VNone (dkeys d) /\
  forall t cols, dget t d = Some cols ->
    exists ids deps,
      dget "step_id" cols = Some ids /\ dget "depends" cols = Some deps /\
      List.length ids = List.length deps.

(** How many step ids of [l] are integers below [z]; the measure of the
    walk along [depends]. *)
Definition below (z : Z) (l : list value) : nat :=
  List.length
    (filter (fun v => match v with VInt y => (y <? z)%Z | _ => false end) l).

Definition rank (d : dict value table) (i : value) : nat :=
  match i with
  | VInt z => below z (all_ids d)
  | _ => O
  end.

(** *** Groups of chains *)

(** The chain [c] has the shape [key]. *)
Definition has_shape (g : dict string (list value)) (key : list string)
    (c : chain) : bool :=
  match shape g c with
  | Ok k => if eq_dec k key then true else false
  | Raise _ => false
  end.

(** All the rows of the groups of [data], line 140. *)
Definition group_rows (acc : dict (list string) group)
    : list (list value) :=
  List.concat (map (fun kg => snd (snd kg)) acc).

(** The frame line 148 makes of a group. *)
Definition frame_of_group (kg : list string * group) : DataFrame :=
  mkDF (fst (snd kg)) (snd (snd kg)).

(** What lines 140-145 have built from the chains [seen]: under a key,
    the header of the key and the rows of the chains of that shape, in
    their order; no key for a shape without a chain. *)
Definition grouped_as (g : dict string (list value)) (seen : list chain)
    (acc : dict (list string) group) : Prop :=
  NoDup (dkeys acc) /\
  forall key,
    dget key acc =
    if existsb (has_shape g key) seen then
      Some (header_of key, map flatten_list (filter (has_shape g key) seen))
    else None.

(** *** Artifacts *)

(** The step [idx] of table [step] has an output artifact. *)
Definition has_artifact (name : string) (isfile : string -> bool)
    (d : dict value table) (step idx : value) : Prop :=
  exists ret, return_of d step idx = Ok ret /\
              isfile (rds_path name ret) = true.

(** The rows collected at line 197 fit the column names. *)
Definition rows_fit (acc : list (list value)) (cn : option (list string))
    : Prop :=
  match cn with
  | Some c => Forall (fun r => List.length r = S (List.length c)) acc
  | None => acc = []
  end.

(** *** Blocks *)

(** The block of a raw block: [v['step_name'].split('_')[0]], line 61. *)
Definition block_of (v : raw) : option string :=
  match dget "step_name" v with
  | Some (VStr s) => Some (hd "" (split underscore s))
  | _ => None
  end.

(** The step of the raw block is the last one of its sequence: the test
    of line 66. *)
Definition ends_sequence (v : raw) : Prop :=
  exists s q,
    dget "step_name" v = Some (VStr s) /\
    dget "sequence_name" v = Some (VStr q) /\
    s = last (split plus_sign q) "".

(** What lines 62-65 have made of the items [pre]: a block lists,
    without repetition, the tables of its items. *)
Definition groups_inv (pre : dict string raw) (g : dict string (list value))
    : Prop :=
  NoDup (dkeys g) /\
  forall b,
    match dget b g with
    | Some members =>
        NoDup members /\
        forall t, In t members <->
                  exists k v, In (k, v) pre /\ dget "exec" v = Some t /\
                              block_of v = Some b
    | None => forall k v, In (k, v) pre -> block_of v <> Some b
    end.

(** What lines 66-67 have made of the items [pre]. *)
Definition last_block_inv (pre : dict string raw) (lb : list string)
    : Prop :=
  NoDup lb /\
  forall b, In b lb <->
            exists k v, In (k, v) pre /\ block_of v = Some b /\
                        ends_sequence v.

(** The tables of the store are the [exec] of the items [pre]. *)
Definition tables_inv (pre : dict string raw) (d : dict value table)
    : Prop :=
  NoDup (dkeys d) /\
  forall t, In t (dkeys d) <->
            exists k v, In (k, v) pre /\ dget "exec" v = Some t.

(** What the loop of line 57 has stored of the fields of the items
    [pre]: at the position of a record in its table, a column holds the
    field of its name, and the table has a column for every field that is
    not a bookkeeping field and no other column but the system columns. *)
Definition fields_inv (pre : dict string raw) (d : dict value table)
    : Prop :=
  forall t cols idx j k,
    dget t d = Some cols ->
    nth_error (records_of t pre 0) idx = Some (j, k) ->
    exists v,
      nth_error pre j = Some (k, v) /\
      covered (rename_fields v) cols /\
      forall c x,
        dget c (rename_fields v) = Some x ->
        not_in bookkeeping c = true ->
        exists xs, dget c cols = Some xs /\ nth_error xs idx = Some x.

(** *** Sources that are ingested *)

(** Two raw blocks have the same fields, bookkeeping fields apart, in
    some order. *)
Definition same_fields (v1 v2 : raw) : Prop :=
  Permutation (filter (not_in bookkeeping) (dkeys (rename_fields v1)))
              (filter (not_in bookkeeping) (dkeys (rename_fields v2))).

(** What the loop of line 57 asks of the items it runs over: a raw block
    is a dictionary with an [exec], a [step_name] and a [sequence_name]
    that are strings; its key has a return id, and when it has more than
    two parts the last one is the return id of some key; two raw blocks of
    one [exec] have the same fields. *)
Definition ingestible (items : dict string raw) : Prop :=
  (forall k v, In (k, v) items ->
     NoDup (dkeys v) /\
     (exists t, dget "exec" v = Some t) /\
     (exists s, dget "step_name" v = Some (VStr s)) /\
     (exists q, dget "sequence_name" v = Some (VStr q)) /\
     (exists r, key_return k = Ok r) /\
     ((2 < List.length (split underscore k))%nat ->
      exists kk, In kk (dkeys items) /\ key_return kk = Ok (key_last k))) /\
  (forall k1 v1 k2 v2,
     In (k1, v1) items -> In (k2, v2) items ->
     dget "exec" v1 = dget "exec" v2 -> same_fields v1 v2).

(** The columns of a table of the store, system columns apart, are the
    fields of an ingested item of the table. *)
Definition cols_inv (pre : dict string raw) (d : dict value table) : Prop :=
  forall t cols, dget t d = Some cols ->
    exists k0 v0,
      In (k0, v0) pre /\ dget "exec" v0 = Some t /\
      Permutation (filter (not_in bookkeeping) (dkeys (rename_fields v0)))
                  (filter (not_in system_cols) (dkeys cols)).

(** *** Links of a chain *)

(** The record [a] depends on the record [b]: where the table of [a]
    has the step id of [a], its [depends] column has the step id of [b],
    which is not [None] and is a step id of the table of [b]. *)
Definition depends_on (d : dict value table) (a b : value * value) : Prop :=
  exists cols ids deps idx,
    dget (fst a) d = Some cols /\
    dget "step_id" cols = Some ids /\ dget "depends" cols = Some deps /\
    nth_error ids idx = Some (snd a) /\ nth_error deps idx = Some (snd b) /\
    snd b <> VNone /\ exists idx', record_at d (fst b) (snd b) idx'.

(** Every key with more than two parts names last the return id of a key
    that comes before it. *)
Definition backward (keys : list string) : Prop :=
  forall j k,
    nth_error keys j = Some k ->
    (2 < List.length (split underscore k))%nat ->
    exists p kk, (p < j)%nat /\ nth_error keys p = Some kk /\
                 key_return kk = Ok (key_last k).

(** *** The records of a block *)

(** The records that lines 134-135 run over: table after table of
    [steps], the table, the step id and its position in the table. *)
Definition block_records (d : dict value table) (steps : list value)
    : list (value * value * nat) :=
  flat_map
    (fun step =>
       match dget step d with
       | Some cols =>
           match dget "step_id" cols with
           | Some ids =>
               map (fun p => (step, snd p, fst p))
                   (combine (seq 0 (List.length ids)) ids)
           | None => []
           end
       | None => []
       end) steps.

(** The chain [c] of a row of the master table is the reversed walk from
    the record [r]. *)
Definition chain_of (fuel : nat) (d : dict value table)
    (r : value * value * nat) (c : chain) : Prop :=
  get_sequence fuel d (fst (fst r)) (snd (fst r)) (snd r) [] = Ok (rev c).

(** *** The frame of a table *)

(** The frame that line 211 makes of a table of parallel columns with
    [n] records: the system columns first, then the other columns in
    their order, and a row per record. *)
Definition table_frame (t : table) (n : nat) : DataFrame :=
  let cols := ["step_id"; "depends"; "return"]
                ++ filter (not_in ["step_id"; "depends"; "return"]) (dkeys t) in
  mkDF cols
       (map (fun i =>
               map (fun c => match dget c t with
                             | Some xs => nth i xs VNone
                             | None => VNone
                             end) cols)
            (seq 0 n)).

(** *** Keys *)

(** The string [w] does not hold the character [c]. *)
Definition without (c : ascii) (w : string) : Prop :=
  ~ In c (list_ascii_of_string w).

(** *** Walks and the placement of groups *)

(** The walk of [__get_sequence] from the position [idx] of the table
    [t] comes, after [n] recursive calls, to the position [idx'] of the
    table [t']. *)
Inductive walks (d : dict value table)
    : nat -> value -> nat -> value -> nat -> Prop :=
| walks_here t idx : walks d 0 t idx t idx
| walks_on n t idx cols deps x k idx1 t' idx' :
    dget t d = Some cols -> dget "depends" cols = Some deps ->
    nth_error deps idx = Some x -> x <> VNone ->
    find_step d (dkeys d) x = Ok (Some (k, idx1)) -> k <> VNone ->
    walks d n k idx1 t' idx' ->
    walks d (S n) t idx t' idx'.

(** The [w] elements of a row, or of the labels, from the position
    [off] on. *)
Definition segment {A : Type} (off w : nat) (l : list A) : list A :=
  firstn w (skipn off l).

(** Where the columns of the group at position [g] start in the master
    table: after the headers of the groups before it. *)
Definition offset_of (keys : list (list string)) (g : nat) : nat :=
  List.length (List.concat (map header_of (firstn g keys))).

(** The shapes [keys] stand in the order in which the chains of [res]
    first show them: of two of them, the earlier one is the shape of a
    chain that comes before every chain of the later one. *)
Definition by_first_chain (g : dict string (list value)) (res : list chain)
    (keys : list (list string)) : Prop :=
  forall g1 g2 k1 k2,
    (g1 < g2)%nat ->
    nth_error keys g1 = Some k1 -> nth_error keys g2 = Some k2 ->
    exists p1 c1,
      nth_error res p1 = Some c1 /\ shape g c1 = Ok k1 /\
      forall p2 c2,
        nth_error res p2 = Some c2 -> shape g c2 = Ok k2 -> (p1 < p2)%nat.

(** *** The files of the configuration database *)

(** [f] is a match of the pattern [.sos/.dsc/*.io.tmp] of line 223: its
    base name ends with [.io.tmp]. *)
Definition io_tmp (f : string) : Prop :=
  exists stem, basename f = (stem ++ ".io.tmp")%string.

(** ** Inputs of the examples *)

(** Two steps: [A] simulates, [B] estimates from the output of [A]. *)
Definition raw_A : raw :=
  [("exec", VStr "A"); ("step_name", VStr "sim_1");
   ("sequence_name", VStr "sim_1+est_1"); ("x", VInt 1)].

Definition raw_B : raw :=
  [("exec", VStr "B"); ("step_name", VStr "est_1");
   ("sequence_name", VStr "sim_1+est_1"); ("y", VInt 2)].

(** A second record of [A] whose fields are named differently. *)
Definition raw_A' : raw :=
  [("exec", VStr "A"); ("step_name", VStr "sim_1");
   ("sequence_name", VStr "sim_1+est_1"); ("z", VInt 1)].

(** The step of [B] depends on the output [a] of the step of [A]. *)
Definition source_chain : dict string raw :=
  [("1_a", raw_A); ("2_b_a", raw_B)].

(** The same run written again under other insertion numbers. *)
Definition source_chain_again : dict string raw :=
  [("3_a", raw_A); ("4_b_a", raw_B)].

(** Two records of the table [A] with different fields. *)
Definition source_mismatch : dict string raw :=
  [("1_a", raw_A); ("2_c", raw_A')].

(** The first step depends on the output of the second. *)
Definition source_forward : dict string raw :=
  [("1_a_b", raw_A); ("2_b", raw_B)].

(** The only step depends on its own output. *)
Definition source_self : dict string raw := [("1_a_a", raw_A)].

(** The second step depends on an output [zz] that no step returns. *)
Definition source_dangling : dict string raw :=
  [("1_a", raw_A); ("2_b_zz", raw_B)].

(** The store ingested from [source_chain]: step 2 of [B] depends on
    step 1 of [A]. *)
Definition store_chain : dict value table :=
  [(VStr "A", [("x", [VInt 1]); ("step_id", [VInt 1]);
               ("return", [VStr "a"]); ("depends", [VNone])]);
   (VStr "B", [("y", [VInt 2]); ("step_id", [VInt 2]);
               ("return", [VStr "b"]); ("depends", [VInt 1])])].

(** A store whose table [B] has two steps. *)
Definition store_two : dict value table :=
  [(VStr "A", [("x", [VInt 1]); ("step_id", [VInt 1]);
               ("return", [VStr "a"]); ("depends", [VNone])]);
   (VStr "B", [("y", [VInt 2; VInt 4]); ("step_id", [VInt 2; VInt 3]);
               ("return", [VStr "b"; VStr "c"]);
               ("depends", [VInt 1; VInt 1])])].

(** The master tables of [store_chain] and of [store_two] for the block
    [est], and the enrichment of the second when only [b] has an
    artifact. *)
Definition master_chain : DataFrame :=
  mkDF ["sim_name"; "sim_id"; "est_name"; "est_id"]
       [[VStr "A"; VInt 1; VStr "B"; VInt 2]].

Definition master_two : DataFrame :=
  mkDF ["sim_name"; "sim_id"; "est_name"; "est_id"]
       [[VStr "A"; VInt 1; VStr "B"; VInt 2];
        [VStr "A"; VInt 1; VStr "B"; VInt 3]].

Definition enriched_two : DataFrame :=
  mkDF ["sim_name"; "sim_id"; "est_name"; "est_id";
        "beta_1"; "beta_2"; "score"]
       [[VStr "A"; VInt 1; VStr "B"; VInt 2; VInt 7; VInt 8; VInt 5];
        [VStr "A"; VInt 1; VStr "B"; VInt 3; VNone; VNone; VNone]].

(** An artifact store without files, and one with the file of [b]. *)
Definition no_file (path : string) : bool := false.

Definition file_of_b (path : string) : bool :=
  if string_dec path "db/b.rds" then true else false.

Definition rds_of_b (path : string) : result (dict string (list value)) :=
  Ok [("score", [VInt 5]); ("beta", [VInt 7; VInt 8])].

(** An artifact store with the files of [b] and of [c], whose variables
    differ. *)
Definition files_of_b_c (path : string) : bool :=
  if string_dec path "db/b.rds" then true
  else if string_dec path "db/c.rds" then true else false.

Definition rds_of_b_c (path : string) : result (dict string (list value)) :=
  if string_dec path "db/b.rds" then Ok [("score", [VInt 5])]
  else Ok [("beta", [VInt 7])].

(** A master table of two shapes that both hold the block [est]. *)
Definition master_two_shapes : DataFrame :=
  mkDF ["est_name"; "est_id"; "sim_name"; "sim_id"; "est_name"; "est_id"]
       [[VStr "C"; VInt 3; VStr "A"; VInt 1; VStr "B"; VInt 2]].

(** What [Build] returns for [source_chain] when only [b] has an
    artifact. *)
Definition built_chain : dict value DataFrame :=
  [(VStr "A", mkDF ["step_id"; "depends"; "return"; "x"]
                   [[VInt 1; VNone; VStr "a"; VInt 1]]);
   (VStr "B", mkDF ["step_id"; "depends"; "return"; "y"]
                   [[VInt 2; VInt 1; VStr "b"; VInt 2]]);
   (VStr "master_est",
    mkDF ["sim_name"; "sim_id"; "est_name"; "est_id";
          "beta_1"; "beta_2"; "score"]
         [[VStr "A"; VInt 1; VStr "B"; VInt 2; VInt 7; VInt 8; VInt 5]])].

(** One [.io.tmp] file, its content after [strip], and an [int] for the
    examples. *)
Definition io_file : string := ".sos/.dsc/1.2.sim.io.tmp".

Definition io_read (f : string) : string := "a.txt,,b/c.txt::out/d.rds::0".

Definition io_int (z : string) : result Z :=
  if string_dec z "0" then Ok 0%Z else Raise ValueError.

Definition io_pair (l : list string) : result (list string) := Ok l.

(** The first step has no [exec]: its value is null in the source. *)
Definition raw_unnamed : raw :=
  [("exec", VNone); ("step_name", VStr "sim_1");
   ("sequence_name", VStr "sim_1+est_1"); ("x", VInt 1)].

Definition source_unnamed : dict string raw :=
  [("1_a", raw_unnamed); ("2_b_a", raw_B)].

(** The store ingested from [source_unnamed]: a table named [None]. *)
Definition store_unnamed : dict value table :=
  [(VNone, [("x", [VInt 1]); ("step_id", [VInt 1]);
            ("return", [VStr "a"]); ("depends", [VNone])]);
   (VStr "B", [("y", [VInt 2]); ("step_id", [VInt 2]);
               ("return", [VStr "b"]); ("depends", [VInt 1])])].

Definition db_unnamed : ResultDB :=
  mkDB store_unnamed ["est"] [("sim", [VNone]); ("est", [VStr "B"])].

(** Step 2 of [B] depends on step 1 of [A], which depends on the step id
    99 that no record has. *)
Definition store_chain_99 : dict value table :=
  [(VStr "A", [("x", [VInt 1]); ("step_id", [VInt 1]);
               ("return", [VStr "a"]); ("depends", [VInt 99])]);
   (VStr "B", [("y", [VInt 2]); ("step_id", [VInt 2]);
               ("return", [VStr "b"]); ("depends", [VInt 1])])].

Definition db_chain_99 : ResultDB :=
  mkDB store_chain_99 ["est"] [("sim", [VStr "A"]); ("est", [VStr "B"])].

(** Three blocks: [M] transforms the output of [A], and the three steps
    of [B] estimate from the output of [A], of [M] and of [A] again. *)
Definition raw_M : raw :=
  [("exec", VStr "M"); ("step_name", VStr "mid_1");
   ("sequence_name", VStr "sim_1+mid_1+est_1"); ("w", VInt 3)].

Definition source_shapes : dict string raw :=
  [("1_a", raw_A); ("2_m_a", raw_M); ("3_b_a", raw_B); ("4_c_m", raw_B);
   ("5_e_a", raw_B)].

Definition store_shapes : dict value table :=
  [(VStr "A", [("x", [VInt 1]); ("step_id", [VInt 1]);
               ("return", [VStr "a"]); ("depends", [VNone])]);
   (VStr "M", [("w", [VInt 3]); ("step_id", [VInt 2]);
               ("return", [VStr "m"]); ("depends", [VInt 1])]);
   (VStr "B", [("y", [VInt 2; VInt 2; VInt 2]);
               ("step_id", [VInt 3; VInt 4; VInt 5]);
               ("return", [VStr "b"; VStr "c"; VStr "e"]);
               ("depends", [VInt 1; VInt 2; VInt 1])])].

Definition db_shapes : ResultDB :=
  mkDB store_shapes ["est"]
       [("sim", [VStr "A"]); ("mid", [VStr "M"]); ("est", [VStr "B"])].

(** The master table of [db_shapes] for the block [est]: two chains of
    the shape [sim, est] beside one of the shape [sim, mid, est]. *)
Definition master_shapes : DataFrame :=
  mkDF ["sim_name"; "sim_id"; "est_name"; "est_id";
        "sim_name"; "sim_id"; "mid_name"; "mid_id"; "est_name"; "est_id"]
       [[VStr "A"; VInt 1; VStr "B"; VInt 3;
         VStr "A"; VInt 1; VStr "M"; VInt 2; VStr "B"; VInt 4];
        [VStr "A"; VInt 1; VStr "B"; VInt 5;
         VNone; VNone; VNone; VNone; VNone; VNone]].

(** Two more [.io.tmp] files: the content of the first has two parts,
    and the third part of the content of the second is no number. *)
Definition io_file_short : string := ".sos/.dsc/1.3.est.io.tmp".

Definition io_file_count : string := ".sos/.dsc/2.1.sim.io.tmp".

Definition io_read_each (f : string) : string :=
  if string_dec f io_file_short then "a.txt::out/d.rds"
  else if string_dec f io_file_count then "a.txt::out/d.rds::x"
  else "a.txt,,b/c.txt::out/d.rds::0".

(** * Properties *)

(** ** Results, membership and positions *)

Lemma bind_ok {A B : Type} (r : result A) (f : A -> result B) (b : B) :
  bind r f = Ok b -> exists a, r = Ok a /\ f a = Ok b.
Proof. destruct r as [a|e]; simpl; intros E; [eauto | discriminate]. Qed.

Lemma bind_raise {A B : Type} (r : result A) (f : A -> result B) (e : exn) :
  r = Raise e -> bind r f = Raise e.
Proof. intros ->. reflexivity. Qed.

Lemma getitem_ok {K V : Type} `{EqDec K} (k : K) (d : dict K V) (v : V) :
  getitem k d = Ok v <-> dget k d = Some v.
Proof.
  unfold getitem. destruct (dget k d); split; intros E;
    inversion E; reflexivity.
Qed.

Lemma getidx_ok {A : Type} (l : list A) (i : nat) (a : A) :
  getidx l i = Ok a <-> nth_error l i = Some a.
Proof.
  unfold getidx. destruct (nth_error l i); split; intros E;
    inversion E; reflexivity.
Qed.

(** Unfolds one successful [bind] of a hypothesis. *)
Ltac bind_inv H :=
  let a := fresh "a" in
  let E := fresh "E" in
  apply bind_ok in H; destruct H as (a & E & H).

Lemma mem_true {A : Type} `{EqDec A} (x : A) (l : list A) :
  mem x l = true <-> In x l.
Proof.
  unfold mem. destruct (in_dec eq_dec x l); split; intros; try assumption;
    try reflexivity; try discriminate; contradiction.
Qed.

Lemma mem_false {A : Type} `{EqDec A} (x : A) (l : list A) :
  mem x l = false <-> ~ In x l.
Proof.
  unfold mem. destruct (in_dec eq_dec x l); split; intros; try assumption;
    try reflexivity; try discriminate; contradiction.
Qed.

Lemma index_of_some {A : Type} `{EqDec A} (x : A) (l : list A) (i : nat) :
  index_of x l = Some i ->
  nth_error l i = Some x /\
  forall j y, (j < i)%nat -> nth_error l j = Some y -> y <> x.
Proof.
  revert i. induction l as [|y l IH]; simpl; intros i E; [discriminate|].
  destruct (eq_dec x y) as [->|N].
  - inversion E; subst. split; [reflexivity|]. intros j z Hj. lia.
  - destruct (index_of x l) as [i'|]; [|discriminate].
    inversion E; subst. destruct (IH i' eq_refl) as [E1 E2].
    split; [assumption|]. intros [|j] z Hj Hz; simpl in Hz.
    + inversion Hz; subst. congruence.
    + apply (E2 j); [lia | assumption].
Qed.

Lemma index_of_none {A : Type} `{EqDec A} (x : A) (l : list A) :
  index_of x l = None <-> ~ In x l.
Proof.
  induction l as [|y l IH]; simpl.
  - split; [intros _ []| reflexivity].
  - destruct (eq_dec x y) as [->|N].
    + split; [discriminate | intros N; exfalso; apply N; left; reflexivity].
    + destruct (index_of x l).
      * split; [discriminate|]. intros N'. exfalso.
        assert (E : @None nat = None) by reflexivity.
        destruct IH as [IH1 IH2].
        assert (~ In x l) by (intros I; apply N'; right; exact I).
        specialize (IH2 H0). discriminate.
      * split; [|reflexivity]. intros _ [E|I]; [congruence|].
        destruct IH as [IH1 _]. apply (IH1 eq_refl I).
Qed.

(** ** Dictionary facts *)

Section DictFacts.
Context {K V : Type} `{EqDec K}.
Implicit Types (d : dict K V) (k : K) (v : V).

Lemma dget_dset_eq k v d : dget k (dset k v d) = Some v.
Proof.
  induction d as [|[k' v'] d IH]; simpl.
  - destruct (eq_dec k k); congruence.
  - destruct (eq_dec k k') as [->|N]; simpl.
    + destruct (eq_dec k' k'); congruence.
    + destruct (eq_dec k k'); congruence.
Qed.

Lemma dget_dset_neq k k' v d :
  k <> k' -> dget k' (dset k v d) = dget k' d.
Proof.
  intros N. induction d as [|[k2 v2] d IH]; simpl.
  - destruct (eq_dec k' k); congruence.
  - destruct (eq_dec k k2) as [->|N2]; simpl.
    + destruct (eq_dec k' k2); congruence.
    + destruct (eq_dec k' k2); congruence.
Qed.

Lemma dget_none k d : dget k d = None <-> ~ In k (dkeys d).
Proof.
  induction d as [|[k' v'] d IH]; simpl.
  - split; [intros _ [] | reflexivity].
  - destruct (eq_dec k k') as [->|N].
    + split; [discriminate | intros N; exfalso; apply N; left; reflexivity].
    + rewrite IH. split.
      * intros N' [E|I]; [congruence | exact (N' I)].
      * intros N' I. apply N'. right. exact I.
Qed.

Lemma dget_in k v d : dget k d = Some v -> In (k, v) d.
Proof.
  induction d as [|[k' v'] d IH]; simpl; [discriminate|].
  destruct (eq_dec k k') as [->|N]; intros E.
  - inversion E; subst. left. reflexivity.
  - right. exact (IH E).
Qed.

Lemma dget_in_keys k v d : dget k d = Some v -> In k (dkeys d).
Proof.
  intros E. apply dget_in in E. apply (in_map fst) in E. exact E.
Qed.

Lemma in_keys_dget k d : In k (dkeys d) -> exists v, dget k d = Some v.
Proof.
  intros I. destruct (dget k d) as [v|] eqn:E; [eauto|].
  apply dget_none in E. contradiction.
Qed.

Lemma in_dget k v d : NoDup (dkeys d) -> In (k, v) d -> dget k d = Some v.
Proof.
  induction d as [|[k' v'] d IH]; simpl; intros ND I; [contradiction|].
  inversion ND as [|? ? Hn ND']; subst.
  destruct I as [E|I].
  - inversion E; subst. destruct (eq_dec k k); congruence.
  - destruct (eq_dec k k') as [->|N]; [|exact (IH ND' I)].
    exfalso. apply Hn. apply (in_map fst) in I. exact I.
Qed.

Lemma dkeys_dset_in k v d :
  In k (dkeys d) -> dkeys (dset k v d) = dkeys d.
Proof.
  induction d as [|[k' v'] d IH]; simpl; intros I; [contradiction|].
  destruct (eq_dec k k') as [->|N]; simpl; [reflexivity|].
  f_equal. apply IH. destruct I as [E|I]; [congruence | exact I].
Qed.

Lemma dkeys_dset_notin k v d :
  ~ In k (dkeys d) -> dkeys (dset k v d) = dkeys d ++ [k].
Proof.
  induction d as [|[k' v'] d IH]; simpl; intros I; [reflexivity|].
  destruct (eq_dec k k') as [->|N]; simpl.
  - exfalso. apply I. left. reflexivity.
  - f_equal. apply IH. intros I'. apply I. right. exact I'.
Qed.

Lemma dset_notin k v d : ~ In k (dkeys d) -> dset k v d = d ++ [(k, v)].
Proof.
  induction d as [|[k' v'] d IH]; simpl; intros I; [reflexivity|].
  destruct (eq_dec k k') as [->|N]; simpl.
  - exfalso. apply I. left. reflexivity.
  - f_equal. apply IH. intros I'. apply I. right. exact I'.
Qed.

Lemma nodup_dset k v d : NoDup (dkeys d) -> NoDup (dkeys (dset k v d)).
Proof.
  intros ND. destruct (in_dec eq_dec k (dkeys d)) as [I|N].
  - rewrite dkeys_dset_in; assumption.
  - rewrite dkeys_dset_notin by assumption.
    apply NoDup_app; [assumption | repeat constructor; intros [] |].
    intros x Ix [E|[]]. subst. contradiction.
Qed.

Lemma dict_ext d1 d2 :
  NoDup (dkeys d1) -> dkeys d1 = dkeys d2 ->
  (forall k, dget k d1 = dget k d2) -> d1 = d2.
Proof.
  revert d2. induction d1 as [|[k v] d1 IH]; intros [|[k2 v2] d2] ND EK EG;
    simpl in EK; try discriminate; [reflexivity|].
  inversion EK; subst. inversion ND as [|? ? Hn ND']; subst.
  assert (E := EG k2). simpl in E.
  destruct (eq_dec k2 k2) as [_|N]; [|congruence]. inversion E; subst.
  f_equal. apply IH; [assumption | assumption |].
  intros k. specialize (EG k). simpl in EG.
  destruct (eq_dec k k2) as [->|N]; [|exact EG].
  assert (G1 : dget k2 d1 = None) by (apply dget_none; exact Hn).
  assert (G2 : dget k2 d2 = None).
  { apply dget_none. unfold dkeys in *. rewrite <- H2. exact Hn. }
  congruence.
Qed.

Lemma ddel_notin k d : ~ In k (dkeys d) -> ddel k d = d.
Proof.
  induction d as [|[k' v'] d IH]; simpl; intros I; [reflexivity|].
  destruct (eq_dec k k') as [->|N].
  - exfalso. apply I. left. reflexivity.
  - f_equal. apply IH. intros I'. apply I. right. exact I'.
Qed.

Lemma ddel_app_cons k v d1 d2 :
  ~ In k (dkeys d1) -> ddel k (d1 ++ (k, v) :: d2) = d1 ++ d2.
Proof.
  induction d1 as [|[k' v'] d1 IH]; simpl; intros I.
  - destruct (eq_dec k k); congruence.
  - destruct (eq_dec k k') as [->|N].
    + exfalso. apply I. left. reflexivity.
    + f_equal. apply IH. intros I'. apply I. right. exact I'.
Qed.

Lemma dget_ddel_neq k k' d : k <> k' -> dget k' (ddel k d) = dget k' d.
Proof.
  intros N. induction d as [|[k2 v2] d IH]; simpl; [reflexivity|].
  destruct (eq_dec k k2) as [->|N2]; simpl.
  - destruct (eq_dec k' k2); congruence.
  - destruct (eq_dec k' k2); congruence.
Qed.

Lemma in_keys_ddel k k' d : In k' (dkeys (ddel k d)) -> In k' (dkeys d).
Proof.
  induction d as [|[k2 v2] d IH]; simpl; [tauto|].
  destruct (eq_dec k k2) as [->|N2]; simpl; [tauto|].
  intros [E|I]; [left; exact E | right; exact (IH I)].
Qed.

Lemma nodup_ddel k d : NoDup (dkeys d) -> NoDup (dkeys (ddel k d)).
Proof.
  induction d as [|[k2 v2] d IH]; simpl; intros ND; [constructor|].
  inversion ND as [|? ? Hn ND']; subst.
  destruct (eq_dec k k2) as [->|N2]; simpl; [assumption|].
  constructor; [|exact (IH ND')].
  intros I. apply Hn. eapply in_keys_ddel. exact I.
Qed.

Lemma ddel_self_notin k d :
  NoDup (dkeys d) -> ~ In k (dkeys (ddel k d)).
Proof.
  induction d as [|[k2 v2] d IH]; simpl; intros ND; [tauto|].
  inversion ND as [|? ? Hn ND']; subst.
  destruct (eq_dec k k2) as [->|N2]; simpl; [assumption|].
  intros [E|I]; [congruence | exact (IH ND' I)].
Qed.
End DictFacts.

(** ** Chain resolution *)

Lemma find_step_some d ks x k idx :
  find_step d ks x = Ok (Some (k, idx)) ->
  In k ks /\
  exists cols ids, dget k d = Some cols /\ dget "step_id" cols = Some ids /\
                   nth_error ids idx = Some x.
Proof.
  induction ks as [|k0 ks IH]; simpl; intros E; [discriminate|].
  bind_inv E. bind_inv E.
  apply getitem_ok in E0, E1.
  destruct (index_of x a0) as [j|] eqn:EI.
  - inversion E; subst. split; [left; reflexivity|].
    exists a, a0. repeat split; try assumption.
    apply index_of_some in EI. tauto.
  - destruct (IH E) as [I R]. split; [right; exact I | exact R].
Qed.

Lemma find_step_none d ks x :
  find_step d ks x = Ok None ->
  forall k, In k ks ->
    exists cols ids, dget k d = Some cols /\ dget "step_id" cols = Some ids /\
                     ~ In x ids.
Proof.
  induction ks as [|k0 ks IH]; simpl; intros E k I; [contradiction|].
  bind_inv E. bind_inv E.
  apply getitem_ok in E0, E1.
  destruct (index_of x a0) as [j|] eqn:EI; [discriminate|].
  destruct I as [<-|I]; [|exact (IH E k I)].
  exists a, a0. repeat split; try assumption.
  apply index_of_none. exact EI.
Qed.

Lemma find_step_absent d ks x :
  (forall k, In k ks ->
     exists cols ids, dget k d = Some cols /\ dget "step_id" cols = Some ids /\
                      ~ In x ids) ->
  find_step d ks x = Ok None.
Proof.
  induction ks as [|k0 ks IH]; simpl; intros A; [reflexivity|].
  destruct (A k0 (or_introl eq_refl)) as (cols & ids & E1 & E2 & N).
  unfold getitem. rewrite E1. simpl. rewrite E2. simpl.
  apply index_of_none in N. rewrite N.
  apply IH. intros k I. apply A. right. exact I.
Qed.

Lemma find_step_present d ks x k cols ids :
  (forall k', In k' ks ->
     exists cols' ids', dget k' d = Some cols' /\
                        dget "step_id" cols' = Some ids') ->
  In k ks -> dget k d = Some cols -> dget "step_id" cols = Some ids ->
  In x ids ->
  exists k' idx, find_step d ks x = Ok (Some (k', idx)).
Proof.
  induction ks as [|k0 ks IH]; simpl; intros W I E1 E2 Ix; [contradiction|].
  destruct (W k0 (or_introl eq_refl)) as (cols0 & ids0 & F1 & F2).
  unfold getitem. rewrite F1. simpl. rewrite F2. simpl.
  destruct (index_of x ids0) as [j|] eqn:EI; [eauto|].
  destruct I as [->|I].
  - exfalso. apply index_of_none in EI. congruence.
  - apply IH; try assumption. intros k' I'. apply W. right. exact I'.
Qed.

Lemma get_sequence_S fuel d step step_id step_idx res :
  get_sequence (S fuel) d step step_id step_idx res =
  (cols <- getitem step d ;;
   deps <- getitem "depends" cols ;;
   depend_id <- getidx deps step_idx ;;
   match depend_id with
   | VNone => Ok (res ++ [(step, step_id)])
   | _ =>
       found <- find_step d (dkeys d) depend_id ;;
       match found with
       | None => Raise (ResultDBError (step_id_msg depend_id))
       | Some (VNone, _) => Raise (ResultDBError (step_id_msg depend_id))
       | Some (k, idx) =>
           get_sequence fuel d k depend_id idx (res ++ [(step, step_id)])
       end
   end).
Proof. reflexivity. Qed.

(** The list after the call is the list before it followed by the chain,
    which starts with the step of the call and does not depend on what
    the list held. *)
Lemma get_sequence_acc fuel d :
  forall t i idx acc r,
    get_sequence fuel d t i idx acc = Ok r ->
    exists c, r = acc ++ (t, i) :: c /\
              forall acc', get_sequence fuel d t i idx acc'
                           = Ok (acc' ++ (t, i) :: c).
Proof.
  induction fuel as [|fuel IH]; intros t i idx acc r E; [discriminate|].
  rewrite get_sequence_S in E.
  bind_inv E. bind_inv E. bind_inv E.
  assert (Hrec : forall k j x,
             get_sequence fuel d k x j (acc ++ [(t, i)]) = Ok r ->
             exists c, r = acc ++ (t, i) :: c /\
               forall acc', get_sequence fuel d k x j (acc' ++ [(t, i)])
                            = Ok (acc' ++ (t, i) :: c)).
  { intros k j x G. destruct (IH _ _ _ _ _ G) as (c & -> & F).
    exists ((k, x) :: c). split; [rewrite <- app_assoc; reflexivity|].
    intros acc'. rewrite F, <- app_assoc. reflexivity. }
  destruct a1 as [|z|s].
  - inversion E; subst. exists []. split; [reflexivity|].
    intros acc'. rewrite get_sequence_S, E0. simpl. rewrite E1. simpl.
    rewrite E2. reflexivity.
  - bind_inv E. destruct a1 as [[k j]|]; [|discriminate].
    destruct k as [|zk|sk]; [discriminate| |];
      (destruct (Hrec _ _ _ E) as (c & -> & F); exists c;
       split; [reflexivity|]; intros acc';
       rewrite get_sequence_S, E0; simpl; rewrite E1; simpl; rewrite E2;
       simpl; rewrite E3; simpl; apply F).
  - bind_inv E. destruct a1 as [[k j]|]; [|discriminate].
    destruct k as [|zk|sk]; [discriminate| |];
      (destruct (Hrec _ _ _ E) as (c & -> & F); exists c;
       split; [reflexivity|]; intros acc';
       rewrite get_sequence_S, E0; simpl; rewrite E1; simpl; rewrite E2;
       simpl; rewrite E3; simpl; apply F).
Qed.

(** A result does not depend on the recursion limit once it is reached. *)
Lemma get_sequence_mono fuel d :
  forall t i idx acc r,
    get_sequence fuel d t i idx acc = Ok r ->
    forall fuel', (fuel <= fuel')%nat ->
                  get_sequence fuel' d t i idx acc = Ok r.
Proof.
  induction fuel as [|fuel IH]; intros t i idx acc r E fuel' L;
    [discriminate|].
  destruct fuel' as [|fuel']; [lia|].
  rewrite get_sequence_S in *.
  bind_inv E. bind_inv E. bind_inv E.
  rewrite E0. simpl. rewrite E1. simpl. rewrite E2. simpl.
  destruct a1 as [|z|s]; [exact E| |];
    (bind_inv E; rewrite E3; simpl;
     destruct a1 as [[k j]|]; [|discriminate];
     destruct k as [|zk|sk]; [discriminate| |];
     (apply IH; [exact E | lia])).
Qed.

(** *** Termination *)

Lemma below_le z1 z2 l :
  (z1 <= z2)%Z -> (below z1 l <= below z2 l)%nat.
Proof.
  unfold below. intros L. induction l as [|v l IH]; simpl; [lia|].
  destruct v as [|y|s]; try exact IH.
  destruct (y <? z1)%Z eqn:E1, (y <? z2)%Z eqn:E2; simpl; lia.
Qed.

Lemma below_lt z1 z2 l :
  In (VInt z1) l -> (z1 < z2)%Z -> (below z1 l < below z2 l)%nat.
Proof.
  intros I L. induction l as [|v l IH]; [contradiction|].
  assert (M : (below z1 l <= below z2 l)%nat) by (apply below_le; lia).
  unfold below in *. simpl. destruct I as [->|I].
  - rewrite Z.ltb_irrefl.
    destruct (z1 <? z2)%Z eqn:E2; [simpl; lia|].
    apply Z.ltb_ge in E2. lia.
  - specialize (IH I). destruct v as [|y|s]; try exact IH.
    destruct (y <? z1)%Z eqn:E1, (y <? z2)%Z eqn:E2; simpl; lia.
Qed.

Lemma below_lt_length z l :
  In (VInt z) l -> (below z l < List.length l)%nat.
Proof.
  unfold below. induction l as [|v l IH]; simpl; intros I; [contradiction|].
  assert (M : forall f, (List.length (filter f l) <= List.length l)%nat).
  { intros f. clear. induction l as [|v l IH]; simpl; [lia|].
    destruct (f v); simpl; lia. }
  destruct I as [->|I].
  - rewrite Z.ltb_irrefl. specialize (M (fun v => match v with
      | VInt y => (y <? z)%Z | _ => false end)). lia.
  - specialize (IH I). destruct v as [|y|s]; try lia.
    destruct (y <? z)%Z; simpl; lia.
Qed.

Lemma record_in_all_ids d t i idx : record_at d t i idx -> In i (all_ids d).
Proof.
  intros (cols & ids & E1 & E2 & E3).
  unfold all_ids. apply in_flat_map. exists (t, cols). split.
  - apply dget_in. exact E1.
  - simpl. rewrite E2. eapply nth_error_In. exact E3.
Qed.

Lemma rank_lt_length d t i idx :
  record_at d t i idx -> (rank d i < List.length (all_ids d))%nat.
Proof.
  intros R. apply record_in_all_ids in R. destruct i as [|z|s]; simpl.
  - destruct (all_ids d); [contradiction | simpl; lia].
  - apply below_lt_length. exact R.
  - destruct (all_ids d); [contradiction | simpl; lia].
Qed.

Lemma find_step_total d ks x :
  (forall k, In k ks ->
     exists cols ids, dget k d = Some cols /\ dget "step_id" cols = Some ids) ->
  exists r, find_step d ks x = Ok r.
Proof.
  induction ks as [|k0 ks IH]; simpl; intros W; [eauto|].
  destruct (W k0 (or_introl eq_refl)) as (cols0 & ids0 & F1 & F2).
  unfold getitem. rewrite F1. simpl. rewrite F2. simpl.
  destruct (index_of x ids0); [eauto|].
  apply IH. intros k I. apply W. right. exact I.
Qed.

Lemma wf_store_keys d :
  wf_store d ->
  forall k, In k (dkeys d) ->
    exists cols ids, dget k d = Some cols /\ dget "step_id" cols = Some ids.
Proof.
  intros [_ W] k I. destruct (in_keys_dget _ _ I) as [cols E].
  destruct (W _ _ E) as (ids & deps & E1 & _). eauto.
Qed.

(** The walk from a record of rank below [n] needs at most [n] calls. *)
Lemma get_sequence_terminates d :
  wf_store d -> decreasing d ->
  forall n t i idx acc fuel,
    record_at d t i idx -> (rank d i < n)%nat -> (n <= fuel)%nat ->
    (exists c p, get_sequence fuel d t i idx acc = Ok (acc ++ c ++ [p]) /\
                 (List.length (c ++ [p]) <= rank d i + 1)%nat /\
                 initial_record d p)
    \/ (exists x, get_sequence fuel d t i idx acc
                  = Raise (ResultDBError (step_id_msg x)) /\
                  x <> VNone /\ depends_value d x /\ dangling d x).
Proof.
  intros W D. induction n as [|n IH]; intros t i idx acc fuel R Ln Lf; [lia|].
  destruct fuel as [|fuel]; [lia|].
  assert (R' := R). destruct R' as (cols & ids & E1 & E2 & E3).
  destruct W as [WN W]. destruct (W _ _ E1) as (ids' & deps & F1 & F2 & FL).
  rewrite E2 in F1. inversion F1; subst ids'. clear F1.
  assert (Hx : exists x, nth_error deps idx = Some x).
  { destruct (nth_error deps idx) as [x|] eqn:N; [eauto|].
    apply nth_error_None in N.
    assert (idx < List.length ids)%nat
      by (apply nth_error_Some; congruence).
    lia. }
  destruct Hx as [x Ex].
  assert (Eg : get_sequence (S fuel) d t i idx acc =
               match x with
               | VNone => Ok (acc ++ [(t, i)])
               | _ =>
                   found <- find_step d (dkeys d) x ;;
                   match found with
                   | None => Raise (ResultDBError (step_id_msg x))
                   | Some (VNone, _) => Raise (ResultDBError (step_id_msg x))
                   | Some (k, j) =>
                       get_sequence fuel d k x j (acc ++ [(t, i)])
                   end
               end).
  { rewrite get_sequence_S. unfold getitem. rewrite E1. simpl.
    rewrite F2. simpl. unfold getidx. rewrite Ex. reflexivity. }
  rewrite Eg. clear Eg.
  destruct (eq_dec x VNone) as [->|Nx].
  - left. exists [], (t, i). repeat split.
    + simpl. lia.
    + exists cols, ids, deps, idx. simpl. tauto.
  - destruct (D _ _ _ _ _ _ _ E1 E2 F2 E3 Ex Nx) as (zs & zx & -> & -> & Lz).
    destruct (find_step_total d (dkeys d) (VInt zx)
                (wf_store_keys (conj WN W))) as [r Er].
    rewrite Er. simpl.
    destruct r as [[k j]|].
    + destruct (find_step_some _ _ _ Er) as (Ik & cols' & ids' & G1 & G2 & G3).
      assert (Rk : record_at d k (VInt zx) j) by (exists cols', ids'; tauto).
      assert (Lr : (rank d (VInt zx) < rank d (VInt zs))%nat).
      { simpl. apply below_lt; [|exact Lz].
        eapply record_in_all_ids. exact Rk. }
      assert (Hk : k <> VNone) by (intros ->; contradiction).
      destruct (IH k (VInt zx) j (acc ++ [(t, VInt zs)]) fuel Rk)
        as [(c & p & G & Lc & Ip)|(y & G & Ny & Vy & Dy)]; try lia.
      * left. exists ((t, VInt zs) :: c), p.
        destruct k as [|zk|sk]; [congruence| |];
          (rewrite G; split; [rewrite <- app_assoc; reflexivity|];
           split; [simpl in *; lia | exact Ip]).
      * right. exists y.
        destruct k as [|zk|sk]; [congruence| |]; (rewrite G; tauto).
    + right. exists (VInt zx). split; [reflexivity|]. split; [exact Nx|].
      split; [exists t, cols, deps, idx; tauto|].
      intros k cols' ids' G1 G2.
      destruct (find_step_none _ _ _ Er k (dget_in_keys _ _ G1))
        as (c2 & i2 & H1 & H2 & H3).
      congruence.
Qed.







(** ** Output enrichment without artifacts *)

Lemma cbind_loop_no_artifact name isfile load_rds d pairs :
  (forall step idx, In (step, idx) pairs ->
     exists ret, return_of d step idx = Ok ret /\
                 isfile (rds_path name ret) = false) ->
  forall acc colnames,
    cbind_loop name isfile load_rds d pairs acc colnames
    = Ok (acc, colnames).
Proof.
  induction pairs as [|[step idx] pairs IH]; intros A acc colnames;
    [reflexivity|].
  destruct (A step idx (or_introl eq_refl)) as (ret & E1 & E2).
  simpl. rewrite E1. simpl. rewrite E2. simpl.
  apply IH. intros s i I. apply A. right. exact I.
Qed.

(** C6, the defect.  When the steps of all rows are found and none has
    an artifact, every row is skipped, [colnames] is still [None] at
    line 199 and [cbind_output] raises [TypeError] instead of returning
    the table. *)
Theorem cbind_output_without_artifacts :
  forall name isfile load_rds d bname t names ids,
    select (bname ++ "_name")%string t = Ok names ->
    select (bname ++ "_id")%string t = Ok ids ->
    (forall step idx, In (step, idx) (combine names ids) ->
       exists ret, return_of d step idx = Ok ret /\
                   isfile (rds_path name ret) = false) ->
    cbind_output name isfile load_rds d bname t = Raise TypeError.
Proof.
  intros name isfile load_rds d bname t names ids E1 E2 A.
  unfold cbind_output. rewrite E1, E2. simpl.
  rewrite (cbind_loop_no_artifact name isfile load_rds d _ A).
  reflexivity.
Qed.

Lemma cbind_output_without_artifacts_witness :
  select "est_name" master_chain = Ok [VStr "B"] /\
  select "est_id" master_chain = Ok [VInt 2] /\
  cbind_output "db" no_file rds_of_b store_chain "est" master_chain
  = Raise TypeError.
Proof.
  split; [reflexivity|]. split; [reflexivity|].
  apply (@cbind_output_without_artifacts "db" no_file rds_of_b store_chain
           "est" master_chain [VStr "B"] [VInt 2]); try reflexivity.
  intros step idx [E|[]]. inversion E; subst.
  exists (VStr "b"). split; reflexivity.
Defined.

(** ** The key check *)

Lemma format_inconsistent args :
  List.length args = 4%nat -> format inconsistent_template args = Raise IndexError.
Proof.
  destruct args as [|a0 [|a1 [|a2 [|a3 [|a4 args]]]]]; simpl; intros E;
    try discriminate. reflexivity.
Qed.

Lemma check_keys_differ idx v tbl ids :
  sorted (filter (not_in bookkeeping) (dkeys v))
  <> sorted (filter (not_in system_cols) (dkeys tbl)) ->
  dget "step_id" tbl = Some ids ->
  check_keys idx v tbl = Raise IndexError.
Proof.
  intros N E. unfold check_keys.
  destruct (eq_dec _ _) as [Eq|_]; [contradiction|].
  unfold getitem. rewrite E. cbn [bind].
  rewrite format_inconsistent by reflexivity. reflexivity.
Qed.

Lemma check_keys_agree idx v tbl :
  sorted (filter (not_in bookkeeping) (dkeys v))
  = sorted (filter (not_in system_cols) (dkeys tbl)) ->
  check_keys idx v tbl = Ok tt.
Proof.
  intros E. unfold check_keys.
  destruct (eq_dec _ _) as [_|N]; [reflexivity | contradiction].
Qed.

(** ** Sorting keys: the comparison of key sets ignores their order *)

Lemma ascii_compare_trans (a b c : ascii) (o : comparison) :
  Ascii.compare a b = o -> Ascii.compare b c = o -> Ascii.compare a c = o.
Proof.
  unfold Ascii.compare. intros E1 E2.
  destruct o.
  - apply N.compare_eq_iff in E1, E2. apply N.compare_eq_iff. congruence.
  - rewrite N.compare_lt_iff in *. lia.
  - rewrite N.compare_gt_iff in *. lia.
Qed.

Lemma ascii_compare_eq_l (a b c : ascii) :
  Ascii.compare a b = Eq -> Ascii.compare a c = Ascii.compare b c.
Proof. intros E. apply Ascii.compare_eq_iff in E. subst. reflexivity. Qed.

Lemma string_compare_le_trans :
  forall a b c,
    String.compare a b <> Gt -> String.compare b c <> Gt ->
    String.compare a c <> Gt.
Proof.
  induction a as [|x a IH]; intros [|y b] [|z c]; simpl; intros H1 H2;
    try congruence.
  destruct (Ascii.compare x y) eqn:Exy.
  - rewrite (ascii_compare_eq_l _ _ _ Exy).
    destruct (Ascii.compare y z) eqn:Eyz; try congruence.
    exact (IH _ _ H1 H2).
  - destruct (Ascii.compare y z) eqn:Eyz.
    + apply Ascii.compare_eq_iff in Eyz. subst. rewrite Exy. congruence.
    + rewrite (ascii_compare_trans _ _ _ Exy Eyz). congruence.
    + congruence.
  - congruence.
Qed.

Lemma sle_trans a b c : sle a b -> sle b c -> sle a c.
Proof.
  unfold sle, String.leb. intros H1 H2.
  assert (N1 : String.compare a b <> Gt)
    by (destruct (String.compare a b); congruence).
  assert (N2 : String.compare b c <> Gt)
    by (destruct (String.compare b c); congruence).
  assert (N := string_compare_le_trans _ _ _ N1 N2).
  destruct (String.compare a c); congruence.
Qed.

Lemma sle_total a b : sle a b \/ sle b a.
Proof. apply String.leb_total. Qed.

Lemma sle_antisym a b : sle a b -> sle b a -> a = b.
Proof. apply String.leb_antisym. Qed.

Lemma insert_sorted_perm x l : Permutation (insert_sorted x l) (x :: l).
Proof.
  induction l as [|y l IH]; simpl; [apply Permutation_refl|].
  destruct (String.leb x y); [apply Permutation_refl|].
  eapply Permutation_trans; [apply perm_skip, IH | apply perm_swap].
Qed.

Lemma sorted_perm l : Permutation (sorted l) l.
Proof.
  induction l as [|x l IH]; simpl; [constructor|].
  eapply Permutation_trans; [apply insert_sorted_perm|].
  apply perm_skip, IH.
Qed.

Lemma insert_sorted_strongly x l :
  StronglySorted sle l -> StronglySorted sle (insert_sorted x l).
Proof.
  induction l as [|y l IH]; simpl; intros S.
  - repeat constructor.
  - inversion S as [|? ? S' F]; subst.
    destruct (String.leb x y) eqn:E.
    + constructor; [exact S|]. constructor; [exact E|].
      eapply Forall_impl; [|exact F]. intros z Hz.
      eapply sle_trans; [exact E | exact Hz].
    + constructor; [exact (IH S')|].
      assert (Hyx : sle y x).
      { destruct (sle_total x y) as [H|H]; [unfold sle in H; congruence|].
        exact H. }
      eapply Permutation_Forall;
        [apply Permutation_sym, insert_sorted_perm|].
      constructor; assumption.
Qed.

Lemma sorted_strongly l : StronglySorted sle (sorted l).
Proof.
  induction l as [|x l IH]; simpl; [constructor|].
  apply insert_sorted_strongly, IH.
Qed.

Lemma strongly_sorted_unique l1 :
  forall l2, StronglySorted sle l1 -> StronglySorted sle l2 ->
             Permutation l1 l2 -> l1 = l2.
Proof.
  induction l1 as [|x l1 IH]; intros l2 S1 S2 P.
  - apply Permutation_nil in P. congruence.
  - destruct l2 as [|y l2];
      [apply Permutation_sym, Permutation_nil in P; discriminate|].
    inversion S1 as [|? ? S1' F1]; subst.
    inversion S2 as [|? ? S2' F2]; subst.
    assert (E : x = y).
    { assert (Ix : In x (y :: l2))
        by (eapply Permutation_in; [exact P | left; reflexivity]).
      assert (Iy : In y (x :: l1))
        by (eapply Permutation_in;
            [apply Permutation_sym; exact P | left; reflexivity]).
      destruct Ix as [->|Ix]; [reflexivity|].
      destruct Iy as [->|Iy]; [reflexivity|].
      rewrite Forall_forall in F1, F2.
      apply sle_antisym; [apply F1, Iy | apply F2, Ix]. }
    subst y. f_equal. apply IH; try assumption.
    eapply Permutation_cons_inv. exact P.
Qed.

(** The key comparison of lines 79-83 holds exactly when the two key
    lists are permutations of each other. *)
Lemma sorted_eq_iff l1 l2 : sorted l1 = sorted l2 <-> Permutation l1 l2.
Proof.
  split; intros H.
  - eapply Permutation_trans; [apply Permutation_sym, sorted_perm|].
    rewrite H. apply sorted_perm.
  - apply strongly_sorted_unique; try apply sorted_strongly.
    eapply Permutation_trans; [apply sorted_perm|].
    eapply Permutation_trans; [exact H|].
    apply Permutation_sym, sorted_perm.
Qed.

(** C3, the defect.  When the fields of a record (bookkeeping fields
    apart) are not, in some order, the columns of its table (system
    columns apart), the mismatch is found at line 83, but line 84 formats
    a message that names the replacement field 4 with four arguments
    passed: the check, and with it the turn of the loop, raises
    [IndexError], and no [ResultDBError] that names the steps is
    built. *)
Theorem schema_mismatch_raises_index_error :
  forall idx v cols ids,
    ~ Permutation (filter (not_in bookkeeping) (dkeys v))
                  (filter (not_in system_cols) (dkeys cols)) ->
    dget "step_id" cols = Some ids ->
    check_keys idx v cols = Raise IndexError /\
    forall tbl d, dget tbl d = Some cols ->
                  prepare_table idx v tbl d = Raise IndexError.
Proof.
  intros idx v cols ids N E.
  assert (C : check_keys idx v cols = Raise IndexError).
  { eapply check_keys_differ; [|exact E].
    intros S. apply N. apply sorted_eq_iff. exact S. }
  split; [exact C|].
  intros tbl d G. unfold prepare_table. rewrite G, C. reflexivity.
Qed.

Lemma schema_mismatch_raises_index_error_witness :
  check_keys 1 (rename_fields raw_A')
    [("x", [VInt 1]); ("step_id", [VInt 1]); ("return", [VStr "a"]);
     ("depends", [VNone])] = Raise IndexError /\
  load_parameters [source_mismatch] init = Raise IndexError /\
  Build "db" no_file rds_of_b 2 [source_mismatch] = Raise IndexError.
Proof.
  split; [|split; reflexivity].
  apply (@schema_mismatch_raises_index_error 1%nat (rename_fields raw_A')
           [("x", [VInt 1]); ("step_id", [VInt 1]); ("return", [VStr "a"]);
            ("depends", [VNone])] [VInt 1]); [|reflexivity].
  cbn. intros P. apply Permutation_length_1 in P. discriminate.
Defined.

(** The other half: fields that are the columns in any order pass. *)
Lemma check_keys_permutation idx v cols :
  Permutation (filter (not_in bookkeeping) (dkeys v))
              (filter (not_in system_cols) (dkeys cols)) ->
  check_keys idx v cols = Ok tt.
Proof.
  intros P. apply check_keys_agree. apply sorted_eq_iff. exact P.
Qed.

(** ** Merging the sources and deduplication *)

Section UpdateFacts.
Context {K V : Type} `{EqDec K}.
Implicit Types (d s : dict K V) (k : K).

Lemma dupdate_cons k (v : V) s d :
  dupdate d ((k, v) :: s) = dupdate (dset k v d) s.
Proof. reflexivity. Qed.

Lemma dupdate_app d s1 s2 :
  dupdate d (s1 ++ s2) = dupdate (dupdate d s1) s2.
Proof. unfold dupdate. apply fold_left_app. Qed.

Lemma nodup_dupdate s : forall d,
  NoDup (dkeys d) -> NoDup (dkeys (dupdate d s)).
Proof.
  induction s as [|[k v] s IH]; intros d ND; [exact ND|].
  rewrite dupdate_cons. apply IH, nodup_dset, ND.
Qed.

Lemma dkeys_dupdate_sub s : forall d,
  (forall k, In k (dkeys s) -> In k (dkeys d)) ->
  dkeys (dupdate d s) = dkeys d.
Proof.
  induction s as [|[k v] s IH]; intros d S; [reflexivity|].
  rewrite dupdate_cons.
  assert (E : dkeys (dset k v d) = dkeys d).
  { apply dkeys_dset_in. apply S. left. reflexivity. }
  rewrite IH; [exact E|].
  intros k' I. rewrite E. apply S. right. exact I.
Qed.

Lemma in_keys_dset k k' (v : V) d :
  In k' (dkeys (dset k v d)) <-> k' = k \/ In k' (dkeys d).
Proof.
  destruct (in_dec eq_dec k (dkeys d)) as [I|N].
  - rewrite dkeys_dset_in by assumption. split; [tauto|].
    intros [->|I']; assumption.
  - rewrite dkeys_dset_notin by assumption. rewrite in_app_iff. simpl.
    split; [intros [I|[E|[]]]; [tauto | left; congruence]|].
    intros [->|I]; tauto.
Qed.

Lemma in_keys_dupdate s : forall d k,
  In k (dkeys (dupdate d s)) <-> In k (dkeys s) \/ In k (dkeys d).
Proof.
  induction s as [|[k0 v0] s IH]; intros d k.
  - simpl. tauto.
  - rewrite dupdate_cons, IH, in_keys_dset. simpl. intuition congruence.
Qed.

Lemma dget_app k d1 d2 :
  dget k (d1 ++ d2) = match dget k d1 with
                      | Some v => Some v
                      | None => dget k d2
                      end.
Proof.
  induction d1 as [|[k' v'] d1 IH]; simpl; [reflexivity|].
  destruct (eq_dec k k'); [reflexivity | exact IH].
Qed.

Lemma dget_dupdate s : forall d k,
  dget k (dupdate d s) = match dget k (rev s) with
                         | Some v => Some v
                         | None => dget k d
                         end.
Proof.
  induction s as [|[k0 v0] s IH]; intros d k; [reflexivity|].
  rewrite dupdate_cons, IH. simpl rev. rewrite dget_app.
  destruct (dget k (rev s)); [reflexivity|]. simpl.
  destruct (eq_dec k k0) as [->|N].
  - apply dget_dset_eq.
  - apply dget_dset_neq. congruence.
Qed.

(** Updating twice with the same source changes nothing more. *)
Lemma dupdate_idem d s :
  NoDup (dkeys d) -> dupdate (dupdate d s) s = dupdate d s.
Proof.
  intros ND. apply dict_ext.
  - apply nodup_dupdate, nodup_dupdate, ND.
  - apply dkeys_dupdate_sub. intros k I. apply in_keys_dupdate. tauto.
  - intros k. rewrite !dget_dupdate. destruct (dget k (rev s)); reflexivity.
Qed.
End UpdateFacts.

Lemma load_sources_fold files : forall d : dict string raw,
  fold_left dupdate files d = dupdate d (List.concat files).
Proof.
  induction files as [|f files IH]; intros d; [reflexivity|].
  simpl. rewrite IH, dupdate_app. reflexivity.
Qed.

Lemma load_sources_nodup files : NoDup (dkeys (load_sources files)).
Proof.
  unfold load_sources. rewrite load_sources_fold.
  apply nodup_dupdate. constructor.
Qed.

Lemma load_sources_twice files :
  load_sources (files ++ files) = load_sources files.
Proof.
  unfold load_sources. rewrite fold_left_app, !load_sources_fold.
  apply dupdate_idem. constructor.
Qed.

Lemma keep_first_incl seen d x : In x (keep_first seen d) -> In x d.
Proof.
  revert seen. induction d as [|[k v] d IH]; simpl; intros seen I;
    [contradiction|].
  destruct (mem (key_suffix k) seen).
  - right. exact (IH _ I).
  - destruct I as [E|I]; [left; exact E | right; exact (IH _ I)].
Qed.

(** The loop of lines 50-56 computes [keep_first]. *)
Lemma dedup_loop_keep_first rest : forall done seen,
  NoDup (dkeys (done ++ rest)) ->
  dedup_loop (dkeys rest) seen (done ++ rest)
  = done ++ keep_first seen rest.
Proof.
  induction rest as [|[k v] rest IH]; intros done seen ND; simpl.
  - reflexivity.
  - destruct (mem (key_suffix k) seen).
    + assert (Nk : ~ In k (dkeys done)).
      { unfold dkeys in *. rewrite map_app in ND. simpl in ND.
        apply NoDup_remove_2 in ND. intros I. apply ND.
        apply in_or_app. left. exact I. }
      rewrite ddel_app_cons by exact Nk. apply IH.
      unfold dkeys in *. rewrite map_app in *. simpl in ND.
      apply NoDup_remove_1 in ND. exact ND.
    + replace (done ++ (k, v) :: rest) with ((done ++ [(k, v)]) ++ rest)
        by (rewrite <- app_assoc; reflexivity).
      rewrite IH; [rewrite <- app_assoc; reflexivity|].
      rewrite <- app_assoc. exact ND.
Qed.

Lemma dedup_keep_first d :
  NoDup (dkeys d) -> dedup d = keep_first [] d.
Proof.
  intros ND. unfold dedup. apply (dedup_loop_keep_first d [] []). exact ND.
Qed.

(** First wins: a block is kept exactly when no block before it has its
    key suffix. *)
Lemma keep_first_in pre : forall seen k v post,
  NoDup (dkeys (pre ++ (k, v) :: post)) ->
  (In (k, v) (keep_first seen (pre ++ (k, v) :: post)) <->
   ~ In (key_suffix k) (seen ++ map key_suffix (dkeys pre))).
Proof.
  induction pre as [|[k0 v0] pre IH]; intros seen k v post ND; simpl.
  - rewrite app_nil_r. destruct (mem (key_suffix k) seen) eqn:M.
    + apply mem_true in M. split; [|contradiction].
      intros I. apply keep_first_incl in I. simpl in ND.
      inversion ND as [|? ? Hn _]; subst. exfalso. apply Hn.
      apply (in_map fst) in I. exact I.
    + apply mem_false in M. split; [intros _; exact M|].
      intros _. left. reflexivity.
  - simpl in ND. inversion ND as [|? ? Hn ND']; subst.
    assert (Nk : k <> k0).
    { intros ->. apply Hn. unfold dkeys. rewrite map_app.
      apply in_or_app. right. left. reflexivity. }
    destruct (mem (key_suffix k0) seen) eqn:M.
    + apply mem_true in M. rewrite (IH seen k v post ND').
      rewrite !in_app_iff. simpl. intuition congruence.
    + simpl. rewrite (IH (seen ++ [key_suffix k0]) k v post ND').
      rewrite <- app_assoc. simpl.
      split; [intros [E|N]; [congruence | exact N] | tauto].
Qed.

Lemma keep_first_fixed d : forall seen,
  (forall k, In k (dkeys d) -> ~ In (key_suffix k) seen) ->
  NoDup (map key_suffix (dkeys d)) ->
  keep_first seen d = d.
Proof.
  induction d as [|[k v] d IH]; intros seen F ND; simpl; [reflexivity|].
  simpl in ND. inversion ND as [|? ? Hn ND']; subst.
  destruct (mem (key_suffix k) seen) eqn:M.
  - apply mem_true in M. exfalso. apply (F k); [left; reflexivity | exact M].
  - f_equal. apply IH; [|exact ND'].
    intros k' I N. apply in_app_or in N. destruct N as [N|[E|[]]].
    + apply (F k'); [right; exact I | exact N].
    + apply Hn. rewrite E. apply in_map. exact I.
Qed.

Lemma keep_first_distinct d : forall seen,
  (forall k, In k (dkeys (keep_first seen d)) -> ~ In (key_suffix k) seen) /\
  NoDup (map key_suffix (dkeys (keep_first seen d))).
Proof.
  induction d as [|[k v] d IH]; intros seen; simpl.
  - split; [intros k [] | constructor].
  - destruct (mem (key_suffix k) seen) eqn:M; [apply IH|].
    apply mem_false in M. destruct (IH (seen ++ [key_suffix k])) as [F ND].
    split.
    + simpl. intros k' [<-|I]; [exact M|].
      intros N. apply (F k' I). apply in_or_app. left. exact N.
    + simpl. constructor; [|exact ND].
      intros I. apply in_map_iff in I. destruct I as (k' & E & I).
      apply (F k' I). apply in_or_app. right. left. congruence.
Qed.

Lemma keep_first_idem d : keep_first [] (keep_first [] d) = keep_first [] d.
Proof.
  destruct (keep_first_distinct d []) as [F ND].
  apply keep_first_fixed; [intros k _ [] | exact ND].
Qed.

Lemma keep_first_nodup seen d :
  NoDup (dkeys d) -> NoDup (dkeys (keep_first seen d)).
Proof.
  revert seen. induction d as [|[k v] d IH]; intros seen ND; simpl;
    [constructor|].
  simpl in ND. inversion ND as [|? ? Hn ND']; subst.
  destruct (mem (key_suffix k) seen); [apply IH, ND'|].
  simpl. constructor; [|apply IH, ND'].
  intros I. apply Hn. apply in_map_iff in I. destruct I as ([k' v'] & E & I).
  simpl in E. subst k'. apply keep_first_incl in I.
  apply (in_map fst) in I. exact I.
Qed.

(** Blocks whose key suffixes were all seen add nothing. *)
Lemma keep_first_app_seen d : forall seen d',
  (forall k, In k (dkeys d') ->
     In (key_suffix k) (seen ++ map key_suffix (dkeys d))) ->
  keep_first seen (d ++ d') = keep_first seen d.
Proof.
  induction d as [|[k v] d IH]; intros seen d' S; simpl.
  - simpl in S. rewrite app_nil_r in S.
    induction d' as [|[k' v'] d' IH']; simpl; [reflexivity|].
    assert (M : mem (key_suffix k') seen = true)
      by (apply mem_true, S; left; reflexivity).
    rewrite M. apply IH'. intros k I. apply S. right. exact I.
  - destruct (mem (key_suffix k) seen) eqn:M.
    + apply IH. intros k' I. specialize (S k' I). simpl in S.
      apply mem_true in M. rewrite in_app_iff in *. simpl in S.
      intuition congruence.
    + f_equal. apply IH. intros k' I. specialize (S k' I). simpl in S.
      rewrite <- app_assoc. exact S.
Qed.

(** C7.  Deduplication is first-wins and idempotent.  In the dictionary
    merged from the source files, a raw block survives lines 50-56
    exactly when no block before it has its key suffix (the loop computes
    [keep_first]); deduplicating again changes nothing; and ingesting the
    files followed by the same files again, or by blocks that repeat key
    suffixes already present under other insertion numbers, gives the
    same result, record store included, as ingesting the files once. *)
Theorem dedup_first_wins_idempotent :
  forall (files : list (dict string raw)) (db : ResultDB),
    (forall pre k v post,
        load_sources files = pre ++ (k, v) :: post ->
        (In (k, v) (dedup (load_sources files)) <->
         ~ In (key_suffix k) (map key_suffix (dkeys pre)))) /\
    dedup (load_sources files) = keep_first [] (load_sources files) /\
    dedup (dedup (load_sources files)) = dedup (load_sources files) /\
    load_parameters (files ++ files) db = load_parameters files db /\
    (forall d' : dict string raw,
        NoDup (dkeys (load_sources files ++ d')) ->
        (forall k, In k (dkeys d') ->
           In (key_suffix k)
              (map key_suffix (dkeys (load_sources files)))) ->
        load_data (load_sources files ++ d') db
        = load_data (load_sources files) db).
Proof.
  intros files db.
  assert (ND := load_sources_nodup files).
  assert (EK := @dedup_keep_first _ ND).
  repeat split.
  - rewrite EK. intros I. rewrite H in I.
    rewrite H in ND. apply (keep_first_in pre [] k v post ND) in I. exact I.
  - rewrite EK. intros N. rewrite H. rewrite H in ND.
    apply (keep_first_in pre [] k v post ND). exact N.
  - exact EK.
  - rewrite EK. rewrite dedup_keep_first by (apply keep_first_nodup, ND).
    apply keep_first_idem.
  - unfold load_parameters. rewrite load_sources_twice. reflexivity.
  - intros d' ND' S. unfold load_data.
    rewrite (@dedup_keep_first _ ND'), EK.
    rewrite keep_first_app_seen by exact S. reflexivity.
Qed.

Lemma dedup_first_wins_idempotent_witness :
  NoDup (dkeys (load_sources [source_chain] ++ source_chain_again)) /\
  load_data (load_sources [source_chain] ++ source_chain_again) init
  = load_data (load_sources [source_chain]) init.
Proof.
  assert (ND : NoDup (dkeys (load_sources [source_chain]
                               ++ source_chain_again))).
  { cbn. repeat constructor; cbn; intuition discriminate. }
  split; [exact ND|].
  apply (proj2 (proj2 (proj2 (proj2
           (dedup_first_wins_idempotent [source_chain] init))))).
  - exact ND.
  - cbn. intros k [<-|[<-|[]]]; cbn; tauto.
Defined.

(** ** Grouping chains by shape *)

Lemma flatten_list_length {A : Type} (l : list (A * A)) :
  List.length (flatten_list l) = (2 * List.length l)%nat.
Proof. induction l as [|p l IH]; simpl; [reflexivity | rewrite IH; lia]. Qed.

Lemma flatten_list_nth {A : Type} (l : list (A * A)) :
  forall p a b,
    nth_error l p = Some (a, b) ->
    nth_error (flatten_list l) (2 * p) = Some a /\
    nth_error (flatten_list l) (2 * p + 1) = Some b.
Proof.
  induction l as [|x l IH]; intros [|p] a b E; simpl in E; try discriminate.
  - inversion E; subst. split; reflexivity.
  - destruct (IH p a b E) as [E1 E2].
    replace (2 * S p)%nat with (S (S (2 * p))) by lia.
    replace (S (S (2 * p)) + 1)%nat with (S (S (2 * p + 1))) by lia.
    split; assumption.
Qed.

Lemma header_of_length key :
  List.length (header_of key) = (2 * List.length key)%nat.
Proof.
  unfold header_of. rewrite flatten_list_length, length_map. reflexivity.
Qed.

Lemma header_of_nth key p b :
  nth_error key p = Some b ->
  nth_error (header_of key) (2 * p) = Some (b ++ "_name")%string /\
  nth_error (header_of key) (2 * p + 1) = Some (b ++ "_id")%string.
Proof.
  intros E. unfold header_of. apply flatten_list_nth.
  rewrite nth_error_map, E. reflexivity.
Qed.

Lemma shape_length g c key :
  shape g c = Ok key -> List.length key = List.length c.
Proof.
  revert key. induction c as [|x c IH]; simpl; intros key E.
  - inversion E. reflexivity.
  - bind_inv E. bind_inv E. inversion E; subst. simpl.
    f_equal. apply IH. exact E1.
Qed.

Lemma has_shape_true g key c : has_shape g key c = true <-> shape g c = Ok key.
Proof.
  unfold has_shape. destruct (shape g c) as [k|e].
  - destruct (eq_dec k key) as [->|N]; split; intros E;
      try reflexivity; try discriminate. inversion E. contradiction.
  - split; discriminate.
Qed.

Lemma group_chains_grouped g res : forall seen acc out,
  grouped_as g seen acc ->
  group_chains g res acc = Ok out ->
  grouped_as g (seen ++ res) out /\
  forall c, In c res -> exists key, shape g c = Ok key.
Proof.
  induction res as [|item res IH]; intros seen acc out [ND G] E; simpl in E.
  - inversion E; subst. rewrite app_nil_r.
    split; [split; assumption | intros c []].
  - bind_inv E. rename a into key. bind_inv E. rename a into gr.
    apply getitem_ok in E1.
    assert (Hs : has_shape g key item = true) by (apply has_shape_true, E0).
    assert (Egr : gr = (header_of key,
                        map flatten_list (filter (has_shape g key) seen))).
    { unfold dmem in E1. rewrite (G key) in E1.
      destruct (existsb (has_shape g key) seen) eqn:X.
      - rewrite (G key), X in E1. inversion E1. reflexivity.
      - rewrite dget_dset_eq in E1. inversion E1; subst. f_equal.
        destruct (filter (has_shape g key) seen) as [|c l] eqn:F;
          [reflexivity|].
        assert (I : In c (filter (has_shape g key) seen))
          by (rewrite F; left; reflexivity).
        apply filter_In in I. destruct I as [I1 I2].
        assert (X' : existsb (has_shape g key) seen = true)
          by (apply existsb_exists; eauto).
        congruence. }
    subst gr. simpl in E.
    match type of E with
    | group_chains _ _ ?acc2 = _ => assert (G2 : grouped_as g (seen ++ [item]) acc2)
    end.
    { split.
      - apply nodup_dset. destruct (dmem key acc); [exact ND|].
        apply nodup_dset, ND.
      - intros key'. rewrite existsb_app, filter_app, map_app. simpl.
        destruct (eq_dec key key') as [<-|N].
        + rewrite dget_dset_eq, Hs, orb_true_r. reflexivity.
        + rewrite dget_dset_neq by exact N.
          assert (Hn : has_shape g key' item = false).
          { destruct (has_shape g key' item) eqn:Y; [|reflexivity].
            apply has_shape_true in Y. congruence. }
          rewrite Hn, orb_false_r, app_nil_r.
          destruct (dmem key acc); [apply G|].
          rewrite dget_dset_neq by exact N. apply G. }
    destruct (IH _ _ _ G2 E) as [G3 S].
    rewrite <- app_assoc in G3. split; [exact G3|].
    intros c [<-|I]; [eauto | exact (S c I)].
Qed.

Lemma grouped_as_nil g : grouped_as g [] [].
Proof. split; [constructor | reflexivity]. Qed.

Lemma group_rows_app acc1 acc2 :
  group_rows (acc1 ++ acc2) = group_rows acc1 ++ group_rows acc2.
Proof. unfold group_rows. rewrite map_app, concat_app. reflexivity. Qed.

Lemma group_rows_dset_row key h rs r : forall acc,
  dget key acc = Some (h, rs) ->
  Permutation (group_rows (dset key (h, rs ++ [r]) acc))
              (group_rows acc ++ [r]).
Proof.
  induction acc as [|[k0 g0] acc IH]; simpl; intros E; [discriminate|].
  destruct (eq_dec key k0) as [->|N].
  - inversion E; subst. unfold group_rows. simpl.
    rewrite <- !app_assoc. apply Permutation_app_head.
    apply Permutation_app_comm.
  - unfold group_rows in *. simpl. rewrite <- app_assoc.
    apply Permutation_app_head. apply IH, E.
Qed.

Lemma group_rows_dset_new key h acc :
  ~ In key (dkeys acc) ->
  group_rows (dset key (h, []) acc) = group_rows acc.
Proof.
  intros N. rewrite dset_notin by exact N. rewrite group_rows_app.
  unfold group_rows at 2. simpl. rewrite app_nil_r. reflexivity.
Qed.

(** Every chain gives one row, whatever the group it lands in. *)
Lemma group_chains_rows g res : forall acc out,
  group_chains g res acc = Ok out ->
  Permutation (group_rows out) (group_rows acc ++ map flatten_list res).
Proof.
  induction res as [|item res IH]; intros acc out E; simpl in E.
  - inversion E; subst. rewrite app_nil_r. apply Permutation_refl.
  - bind_inv E. rename a into key. bind_inv E. destruct a as [h rs].
    apply getitem_ok in E1. simpl in E.
    eapply Permutation_trans; [apply (IH _ _ E)|].
    simpl. replace (flatten_list item :: map flatten_list res)
      with ([flatten_list item] ++ map flatten_list res) by reflexivity.
    rewrite app_assoc. apply Permutation_app_tail.
    eapply Permutation_trans; [apply group_rows_dset_row, E1|].
    apply Permutation_app_tail.
    unfold dmem in *. destruct (dget key acc) as [gr|] eqn:D.
    + apply Permutation_refl.
    + rewrite dget_dset_eq in E1. inversion E1; subst.
      rewrite group_rows_dset_new; [apply Permutation_refl|].
      apply dget_none. exact D.
Qed.

Lemma list_max_const n l :
  l <> [] -> Forall (fun m => m = n) l -> list_max l = n.
Proof.
  induction l as [|m l IH]; intros N F; [congruence|].
  inversion F as [|? ? E F']; subst. simpl.
  destruct l as [|m' l]; [simpl; lia|].
  rewrite IH; [lia | discriminate | exact F'].
Qed.

Lemma pad_exact n row : List.length row = n -> pad n row = row.
Proof.
  intros <-. unfold pad. rewrite Nat.sub_diag. apply app_nil_r.
Qed.

(** Rows of the width of the header make the frame of these rows. *)
Lemma frame_of_rows_exact rs header :
  Forall (fun r => List.length r = List.length header) rs ->
  frame_of_rows rs header = Ok (mkDF header rs).
Proof.
  intros F. unfold frame_of_rows. destruct rs as [|r rs]; [reflexivity|].
  assert (M : list_max (map (@List.length value) (r :: rs))
              = List.length header).
  { apply list_max_const; [discriminate|].
    apply Forall_map. exact F. }
  rewrite M, Nat.eqb_refl. do 2 f_equal.
  rewrite <- (map_id (r :: rs)) at 2. apply map_ext_in.
  intros x I. apply pad_exact. rewrite Forall_forall in F. exact (F x I).
Qed.

Lemma grouped_rows_width g seen acc key gr :
  grouped_as g seen acc -> dget key acc = Some gr ->
  fst gr = header_of key /\
  snd gr = map flatten_list (filter (has_shape g key) seen) /\
  Forall (fun r => List.length r = List.length (fst gr)) (snd gr).
Proof.
  intros [ND G] E. rewrite (G key) in E.
  destruct (existsb (has_shape g key) seen); [|discriminate].
  inversion E; subst. simpl. repeat split.
  apply Forall_map. apply Forall_forall. intros c I.
  apply filter_In in I. destruct I as [_ S]. apply has_shape_true in S.
  rewrite flatten_list_length, header_of_length.
  rewrite (@shape_length _ _ _ S). reflexivity.
Qed.

Lemma frames_of_groups_exact g seen acc :
  grouped_as g seen acc ->
  forall l, incl l acc ->
    frames_of_groups (map fst l) acc = Ok (map frame_of_group l).
Proof.
  intros GA. induction l as [|[key gr] l IH]; intros I; [reflexivity|].
  simpl. assert (E : dget key acc = Some gr).
  { apply in_dget; [apply GA | apply I; left; reflexivity]. }
  unfold getitem. rewrite E. simpl.
  destruct (@grouped_rows_width _ _ _ _ _ GA E) as (_ & _ & F).
  rewrite (@frame_of_rows_exact _ _ F). simpl.
  rewrite IH; [reflexivity|]. intros x Ix. apply I. right. exact Ix.
Qed.

Lemma concat_columns_columns fs t :
  concat_columns fs = Ok t -> columns t = List.concat (map columns fs).
Proof.
  unfold concat_columns. destruct fs; intros E; inversion E. reflexivity.
Qed.

(** ** Output enrichment: the outer join keeps the rows *)

Lemma select_unique label f ids :
  select label f = Ok ids -> NoDup ids ->
  count_occ string_dec (columns f) label = 1%nat /\
  exists j, index_of label (columns f) = Some j /\
            ids = map (key_at j) (rows f).
Proof.
  unfold select. intros E ND.
  destruct (count_occ string_dec (columns f) label) as [|[|n]];
    [discriminate| |].
  - split; [reflexivity|].
    destruct (index_of label (columns f)) as [j|]; [|discriminate].
    inversion E. eauto.
  - inversion E; subst. simpl in ND.
    inversion ND as [|? ? Hn _]; subst. exfalso. apply Hn. left. reflexivity.
Qed.

Lemma artifact_columns_lengths rdata ks : forall cols vals cols' vals',
  artifact_columns rdata ks cols vals = Ok (cols', vals') ->
  List.length cols = List.length vals ->
  List.length cols' = List.length vals'.
Proof.
  induction ks as [|k ks IH]; intros cols vals cols' vals' E L; simpl in E.
  - inversion E; subst. exact L.
  - bind_inv E. rename a into xs.
    destruct xs as [|x [|y xs]]; apply IH in E; try exact E;
      rewrite !length_app, ?length_map, ?length_seq; simpl; lia.
Qed.

Lemma combine_snd_incl {A B : Type} (l1 : list A) (l2 : list B) :
  incl (map snd (combine l1 l2)) l2.
Proof.
  intros b I. apply in_map_iff in I. destruct I as ([a b'] & E & I).
  simpl in E. subst. eapply in_combine_r. exact I.
Qed.

Lemma combine_snd_nodup {A B : Type} (l1 : list A) : forall l2 : list B,
  NoDup l2 -> NoDup (map snd (combine l1 l2)).
Proof.
  induction l1 as [|a l1 IH]; intros [|b l2] ND; simpl; try constructor.
  - inversion ND as [|? ? Hn ND']; subst. intros I. apply Hn.
    apply (@combine_snd_incl A B l1 l2). exact I.
  - inversion ND; subst. apply IH. assumption.
Qed.

Lemma in_pairs_unique {A B : Type} (pairs : list (A * B)) a a' b :
  NoDup (map snd pairs) -> In (a, b) pairs -> In (a', b) pairs -> a = a'.
Proof.
  induction pairs as [|[x y] pairs IH]; simpl; intros ND I I';
    [contradiction|].
  inversion ND as [|? ? Hn ND']; subst.
  destruct I as [E|I], I' as [E'|I'].
  - congruence.
  - inversion E; subst. exfalso. apply Hn.
    apply (in_map snd) in I'. exact I'.
  - inversion E'; subst. exfalso. apply Hn.
    apply (in_map snd) in I. exact I.
  - exact (IH ND' I I').
Qed.

(** What the loop of lines 176-197 adds to [data]: one row per pair with
    an artifact, headed by the step id of the pair. *)
Lemma cbind_loop_rows name isfile load_rds d pairs :
  forall acc cn acc' cn',
    cbind_loop name isfile load_rds d pairs acc cn = Ok (acc', cn') ->
    exists new,
      acc' = acc ++ new /\
      (forall r, In r new ->
         exists step idx vals,
           r = idx :: vals /\ In (step, idx) pairs /\
           has_artifact name isfile d step idx) /\
      (NoDup (map snd pairs) -> NoDup (map (key_at 0) new)) /\
      (rows_fit acc cn -> rows_fit acc' cn').
Proof.
  induction pairs as [|[step idx] pairs IH]; intros acc cn acc' cn' E.
  - simpl in E. inversion E; subst. exists []. rewrite app_nil_r.
    split; [reflexivity|]. split; [intros r []|].
    split; [intros _; constructor | tauto].
  - simpl in E. bind_inv E. rename a into ret.
    destruct (isfile (rds_path name ret)) eqn:F; simpl in E.
    + bind_inv E. rename a into rdata. bind_inv E. destruct a as [cols vals].
      bind_inv E. rename a into cn1. simpl in *.
      destruct (IH _ _ _ _ E) as (new & -> & R & ND & Fit).
      exists ((idx :: vals) :: new).
      split; [rewrite <- app_assoc; reflexivity|].
      split; [|split].
      * intros r [<-|I].
        -- exists step, idx, vals. repeat split; [left; reflexivity|].
           exists ret. split; assumption.
        -- destruct (R r I) as (s' & i' & v' & -> & I' & A).
           exists s', i', v'. repeat split; [right; exact I' | exact A].
      * intros N. inversion N as [|? ? Hn N']; subst. simpl.
        constructor; [|exact (ND N')].
        intros I. apply in_map_iff in I. destruct I as (r & Er & Ir).
        destruct (R r Ir) as (s' & i' & v' & -> & I' & _).
        unfold key_at in Er. simpl in Er. subst i'.
        apply Hn. apply (in_map snd) in I'. exact I'.
      * intros Fit0. apply Fit.
        assert (L : List.length cols = List.length vals).
        { eapply artifact_columns_lengths; [exact E2 | reflexivity]. }
        assert (Ecn : cn1 = cols /\ rows_fit acc (Some cn1)).
        { destruct cn as [c|]; simpl in *.
          - destruct (eq_dec c cols) as [->|]; [|discriminate].
            inversion E3; subst. split; [reflexivity | exact Fit0].
          - inversion E3; subst. split; [reflexivity | constructor]. }
        destruct Ecn as [-> Fit1]. simpl in *.
        apply Forall_app. split; [exact Fit1|].
        constructor; [simpl; lia | constructor].
    + destruct (IH _ _ _ _ E) as (new & -> & R & ND & Fit).
      exists new. split; [reflexivity|]. split; [|split].
      * intros r I. destruct (R r I) as (s' & i' & v' & -> & I' & A).
        exists s', i', v'. repeat split; [right; exact I' | exact A].
      * intros N. inversion N; subst. apply ND. assumption.
      * exact Fit.
Qed.

Lemma filter_matches_le jl jr lr rs :
  NoDup (map (key_at jr) rs) ->
  (List.length (filter (matches jl jr lr) rs) <= 1)%nat.
Proof.
  induction rs as [|rr rs IH]; simpl; intros ND; [lia|].
  inversion ND as [|? ? Hn ND']; subst. specialize (IH ND').
  destruct (matches jl jr lr rr) eqn:M; [|lia]. simpl.
  destruct (filter (matches jl jr lr) rs) as [|r2 l2] eqn:F; [simpl; lia|].
  exfalso. apply Hn.
  assert (I : In r2 (filter (matches jl jr lr) rs))
    by (rewrite F; left; reflexivity).
  apply filter_In in I. destruct I as [I M2].
  unfold matches in *.
  destruct (eq_dec (key_at jr rr) (key_at jl lr)); [|discriminate].
  destruct (eq_dec (key_at jr r2) (key_at jl lr)); [|discriminate].
  apply in_map_iff. exists r2. split; [congruence | exact I].
Qed.

Lemma join_left_one jl jr r lr :
  NoDup (map (key_at jr) (rows r)) ->
  List.length (join_left jl jr r lr) = 1%nat.
Proof.
  intros ND. unfold join_left.
  assert (L := @filter_matches_le jl jr lr (rows r) ND).
  destruct (filter (matches jl jr lr) (rows r)) as [|m [|m' ms]];
    simpl in *; try reflexivity. lia.
Qed.

Lemma join_left_null jl jr r lr :
  ~ In (key_at jl lr) (map (key_at jr) (rows r)) ->
  join_left jl jr r lr
  = [lr ++ nulls (List.length (drop_nth jr (columns r)))].
Proof.
  intros N. unfold join_left.
  destruct (filter (matches jl jr lr) (rows r)) as [|m ms] eqn:F;
    [reflexivity|].
  exfalso. apply N.
  assert (I : In m (filter (matches jl jr lr) (rows r)))
    by (rewrite F; left; reflexivity).
  apply filter_In in I. destruct I as [I M]. unfold matches in M.
  destruct (eq_dec (key_at jr m) (key_at jl lr)) as [E|]; [|discriminate].
  apply in_map_iff. exists m. split; assumption.
Qed.

Lemma flat_map_length_one {A B : Type} (f : A -> list B) (l : list A) :
  (forall x, In x l -> List.length (f x) = 1%nat) ->
  List.length (flat_map f l) = List.length l.
Proof.
  induction l as [|x l IH]; simpl; intros F; [reflexivity|].
  rewrite length_app, F, IH; [reflexivity | | left; reflexivity].
  intros y I. apply F. right. exact I.
Qed.

Lemma right_only_nil jl jr l r :
  incl (map (key_at jr) (rows r)) (map (key_at jl) (rows l)) ->
  right_only jl jr l r = [].
Proof.
  intros S. unfold right_only.
  replace (filter _ (rows r)) with (@nil (list value)); [reflexivity|].
  symmetry. induction (rows r) as [|rr rs IH]; [reflexivity|].
  simpl. assert (M : mem (key_at jr rr) (map (key_at jl) (rows l)) = true).
  { apply mem_true. apply S. left. reflexivity. }
  rewrite M. simpl. apply IH. intros x I. apply S. right. exact I.
Qed.

(** An outer join with a right side whose keys are pairwise distinct and
    all occur on the left has the rows of the left side, one for one. *)
Lemma merge_outer_rows key l r t' :
  merge_outer key l r = Ok t' ->
  exists jl jr,
    index_of key (columns l) = Some jl /\
    index_of key (columns r) = Some jr /\
    width t' = (width l + List.length (drop_nth jr (columns r)))%nat /\
    (NoDup (map (key_at jr) (rows r)) ->
     incl (map (key_at jr) (rows r)) (map (key_at jl) (rows l)) ->
     nrows t' = nrows l /\
     forall lr, In lr (rows l) ->
       ~ In (key_at jl lr) (map (key_at jr) (rows r)) ->
       In (lr ++ nulls (List.length (drop_nth jr (columns r)))) (rows t')).
Proof.
  unfold merge_outer. intros E.
  destruct (count_occ string_dec (columns l) key) as [|[|n]];
    [discriminate| |destruct (count_occ string_dec (columns r) key);
                     discriminate].
  destruct (count_occ string_dec (columns r) key) as [|[|n]];
    try discriminate.
  destruct (index_of key (columns l)) as [jl|]; [|discriminate].
  destruct (index_of key (columns r)) as [jr|]; [|discriminate].
  inversion E; subst. clear E. exists jl, jr.
  split; [reflexivity|]. split; [reflexivity|]. split.
  { unfold width, merged_columns. simpl.
    rewrite length_app, !length_map. reflexivity. }
  intros ND S. unfold nrows. simpl.
  rewrite (@right_only_nil _ _ _ _ S), app_nil_r. split.
  - apply flat_map_length_one. intros lr _. apply join_left_one, ND.
  - intros lr I N. apply in_flat_map. exists lr. split; [exact I|].
    rewrite (@join_left_null _ _ _ _ N). left. reflexivity.
Qed.

Lemma nth_error_combine_in {A B : Type} (l1 : list A) :
  forall (l2 : list B) p a b,
    nth_error l1 p = Some a -> nth_error l2 p = Some b ->
    In (a, b) (combine l1 l2).
Proof.
  induction l1 as [|x l1 IH]; intros [|y l2] [|p] a b E1 E2; simpl in *;
    try discriminate.
  - inversion E1; inversion E2; subst. left. reflexivity.
  - right. exact (IH l2 p a b E1 E2).
Qed.

(** C5.  When the [<block>_id] column of a master table has pairwise
    distinct values and [cbind_output] returns, the table it returns has
    exactly the rows of the master table in number, and a row whose step
    has no artifact is in it with nulls in all the columns that the
    enrichment added. *)
Theorem enrichment_preserves_rows :
  forall name isfile load_rds d bname t t' ids,
    select (bname ++ "_id")%string t = Ok ids -> NoDup ids ->
    cbind_output name isfile load_rds d bname t = Ok t' ->
    nrows t' = nrows t /\
    (forall names p row step idx ret,
        select (bname ++ "_name")%string t = Ok names ->
        nth_error (rows t) p = Some row ->
        nth_error names p = Some step -> nth_error ids p = Some idx ->
        return_of d step idx = Ok ret ->
        isfile (rds_path name ret) = false ->
        In (row ++ nulls (width t' - width t)) (rows t')).
Proof.
  intros name isfile load_rds d bname t t' ids Es ND E.
  unfold cbind_output in E. bind_inv E. rename a into names.
  bind_inv E. rewrite Es in E1. inversion E1; subst a. clear E1.
  bind_inv E. destruct a as [acc' cn']. simpl in E.
  destruct cn' as [c|]; [|discriminate].
  bind_inv E. rename a into right.
  destruct (@cbind_loop_rows _ _ _ _ _ _ _ _ _ E1)
    as (new & -> & R & NDn & Fit).
  simpl in *. specialize (Fit eq_refl). simpl in Fit.
  assert (Er : right = mkDF ((bname ++ "_id")%string :: c) new).
  { rewrite frame_of_rows_exact in E2; [inversion E2; reflexivity|].
    exact Fit. }
  subst right.
  destruct (@merge_outer_rows _ _ _ _ E)
    as (jl & jr & Il & Ir & W & M).
  assert (jr = 0%nat).
  { simpl in Ir. destruct (eq_dec _ _) as [_|N]; [|congruence].
    inversion Ir. reflexivity. }
  subst jr. simpl in *.
  destruct (@select_unique _ _ _ Es ND) as (_ & j & Ij & Eids).
  rewrite Il in Ij. inversion Ij; subst j. clear Ij.
  assert (NDp : NoDup (map snd (combine names ids)))
    by (apply combine_snd_nodup, ND).
  assert (Sub : incl (map (key_at 0) new) (map (key_at jl) (rows t))).
  { intros k I. apply in_map_iff in I. destruct I as (r & <- & I).
    destruct (R r I) as (s' & i' & v' & -> & I' & _).
    unfold key_at at 1. simpl. rewrite <- Eids.
    eapply in_combine_r. exact I'. }
  destruct (M (NDn NDp) Sub) as [N1 N2].
  split; [exact N1|].
  intros names' p row step idx ret En Erow Estep Eidx Eret Ef.
  rewrite E0 in En. inversion En; subst names'. clear En.
  replace (width t' - width t)%nat
    with (List.length (drop_nth 0 ((bname ++ "_id")%string :: c)))
    by (rewrite W; lia).
  assert (Ek : key_at jl row = idx).
  { rewrite Eids, nth_error_map, Erow in Eidx. simpl in Eidx. congruence. }
  apply N2; [eapply nth_error_In; exact Erow|].
  rewrite Ek. intros I. apply in_map_iff in I. destruct I as (r & Er & I).
  destruct (R r I) as (s' & i' & v' & -> & I' & ret' & Eret' & Ef').
  unfold key_at in Er. simpl in Er. subst i'.
  assert (Ip : In (step, idx) (combine names ids))
    by (eapply nth_error_combine_in; eassumption).
  assert (s' = step) by (eapply in_pairs_unique; eassumption).
  subst s'. congruence.
Qed.

Lemma enrichment_preserves_rows_witness :
  select "est_id" master_two = Ok [VInt 2; VInt 3] /\
  NoDup [VInt 2; VInt 3] /\
  cbind_output "db" file_of_b rds_of_b store_two "est" master_two
  = Ok enriched_two /\
  nrows enriched_two = nrows master_two /\
  In ([VStr "A"; VInt 1; VStr "B"; VInt 3] ++ nulls 3) (rows enriched_two).
Proof.
  assert (ND : NoDup [VInt 2; VInt 3]).
  { repeat constructor; simpl; intuition discriminate. }
  split; [reflexivity|]. split; [exact ND|]. split; [reflexivity|].
  destruct (@enrichment_preserves_rows "db" file_of_b rds_of_b store_two
              "est" master_two enriched_two [VInt 2; VInt 3]
              eq_refl ND eq_refl) as [H1 H2].
  split; [exact H1|].
  apply (H2 [VStr "B"; VStr "B"] 1%nat
            [VStr "A"; VInt 1; VStr "B"; VInt 3] (VStr "B") (VInt 3)
            (VStr "c")); reflexivity.
Defined.

(** ** Ingestion: preparing a record and its table *)

Lemma in_keys_ddel_neq {K V : Type} `{EqDec K} (k k' : K) (d : dict K V) :
  k <> k' -> In k' (dkeys d) -> In k' (dkeys (ddel k d)).
Proof.
  intros N I. destruct (in_keys_dget _ _ I) as [v E].
  rewrite <- (dget_ddel_neq d N) in E. eapply dget_in_keys. exact E.
Qed.

Lemma rename_field_spec (acc : raw) (x : string) :
  NoDup (dkeys acc) ->
  NoDup (dkeys (rename_field acc x)) /\
  ~ In x (dkeys (rename_field acc x)) /\
  (forall k, In k (dkeys (rename_field acc x)) ->
     k = ("." ++ x)%string \/ In k (dkeys acc)).
Proof.
  intros ND. unfold rename_field. destruct (dget x acc) as [y|] eqn:E.
  - split; [apply nodup_dset, nodup_ddel, ND|]. split.
    + intros I. apply in_keys_dset in I. destruct I as [I|I].
      * assert (L : String.length x = String.length ("." ++ x)%string)
          by congruence.
        simpl in L. lia.
      * exact (@ddel_self_notin _ _ _ x acc ND I).
    + intros k I. apply in_keys_dset in I. destruct I as [I|I];
        [left; exact I | right; eapply in_keys_ddel; exact I].
  - split; [exact ND|]. split; [apply dget_none, E | tauto].
Qed.

Lemma rename_fields_fold v :
  rename_fields v
  = rename_field (rename_field (rename_field v "step_id") "return") "depends".
Proof. reflexivity. Qed.

(** After lines 69-71 no field of the record is named like a system
    column, and the fields still have pairwise distinct names. *)
Lemma rename_fields_spec v :
  NoDup (dkeys v) ->
  NoDup (dkeys (rename_fields v)) /\
  forall x, In x system_cols -> ~ In x (dkeys (rename_fields v)).
Proof.
  intros ND. rewrite rename_fields_fold.
  destruct (@rename_field_spec _ "step_id" ND) as (N1 & A1 & B1).
  destruct (@rename_field_spec _ "return" N1) as (N2 & A2 & B2).
  destruct (@rename_field_spec _ "depends" N2) as (N3 & A3 & B3).
  split; [exact N3|].
  intros x [<-|[<-|[<-|[]]]] I.
  - destruct (B3 _ I) as [E|I2]; [discriminate|].
    destruct (B2 _ I2) as [E|I1]; [discriminate | exact (A1 I1)].
  - destruct (B3 _ I) as [E|I2]; [discriminate | exact (A2 I2)].
  - exact (A3 I).
Qed.

Lemma new_columns_spec l : forall acc : table,
  NoDup (dkeys acc) ->
  (forall c xs, dget c acc = Some xs -> xs = []) ->
  NoDup (dkeys (fold_left new_column l acc)) /\
  (forall c xs, dget c (fold_left new_column l acc) = Some xs -> xs = []) /\
  (forall c, In c (dkeys (fold_left new_column l acc)) <->
             In c (dkeys acc) \/ (In c l /\ not_in bookkeeping c = true)).
Proof.
  induction l as [|x l IH]; intros acc ND E; simpl.
  - split; [exact ND|]. split; [exact E | tauto].
  - assert (ND' : NoDup (dkeys (new_column acc x))).
    { unfold new_column. destruct (not_in bookkeeping x);
        [apply nodup_dset, ND | exact ND]. }
    assert (E' : forall c xs, dget c (new_column acc x) = Some xs -> xs = []).
    { unfold new_column. destruct (not_in bookkeeping x); [|exact E].
      intros c xs G. destruct (eq_dec x c) as [->|N].
      - rewrite dget_dset_eq in G. congruence.
      - rewrite dget_dset_neq in G by exact N. exact (E c xs G). }
    destruct (IH _ ND' E') as (H1 & H2 & H3).
    split; [exact H1|]. split; [exact H2|].
    intros c. rewrite H3. unfold new_column.
    destruct (not_in bookkeeping x) eqn:B.
    + rewrite in_keys_dset. intuition congruence.
    + intuition congruence.
Qed.

Lemma new_table_fold v' :
  new_table v' = fold_left new_column (dkeys v' ++ system_cols) [].
Proof. reflexivity. Qed.

(** The table made at lines 74-77: empty columns, for the fields of the
    record that are not bookkeeping and for the system columns. *)
Lemma new_table_spec v' :
  NoDup (dkeys (new_table v')) /\
  (forall c xs, dget c (new_table v') = Some xs -> xs = []) /\
  covered v' (new_table v') /\
  (forall c, In c system_cols -> dget c (new_table v') = Some []).
Proof.
  rewrite new_table_fold.
  destruct (@new_columns_spec (dkeys v' ++ system_cols) [])
    as (H1 & H2 & H3); [constructor | discriminate |].
  split; [exact H1|]. split; [exact H2|]. split.
  - intros c I. apply H3 in I. destruct I as [[]|[I B]].
    apply in_app_or in I. tauto.
  - intros c I.
    assert (Ik : In c (dkeys (fold_left new_column
                                (dkeys v' ++ system_cols) []))).
    { apply H3. right. split; [apply in_or_app; right; exact I|].
      destruct I as [<-|[<-|[<-|[]]]]; reflexivity. }
    destruct (in_keys_dget _ _ Ik) as [xs E].
    rewrite E. f_equal. exact (H2 _ _ E).
Qed.

Lemma check_keys_ok idx v' cols u :
  check_keys idx v' cols = Ok u ->
  Permutation (filter (not_in bookkeeping) (dkeys v'))
              (filter (not_in system_cols) (dkeys cols)).
Proof.
  unfold check_keys. destruct (eq_dec _ _) as [E|N].
  - intros _. apply sorted_eq_iff. exact E.
  - intros B. bind_inv B. bind_inv B. discriminate.
Qed.

Lemma not_in_true l x : not_in l x = true <-> ~ In x l.
Proof.
  unfold not_in. rewrite negb_true_iff. apply mem_false.
Qed.

Lemma check_keys_covered idx v' cols u :
  check_keys idx v' cols = Ok u -> covered v' cols.
Proof.
  intros E c I. apply check_keys_ok in E.
  destruct (in_dec string_dec c system_cols) as [S|S]; [left; exact S|].
  right. assert (F : In c (filter (not_in system_cols) (dkeys cols))).
  { apply filter_In. split; [exact I | apply not_in_true, S]. }
  apply Permutation_sym in E. apply (Permutation_in _ E) in F.
  apply filter_In in F. exact F.
Qed.

(** ** Ingestion: appending a record *)

Lemma dget_dset {K V : Type} `{EqDec K} (k k' : K) (v : V) (d : dict K V) :
  dget k' (dset k v d) = if eq_dec k k' then Some v else dget k' d.
Proof.
  destruct (eq_dec k k') as [->|N];
    [apply dget_dset_eq | apply dget_dset_neq, N].
Qed.

Lemma append_col_ok t c x d d' :
  append_col t c x d = Ok d' ->
  exists T xs, dget t d = Some T /\ dget c T = Some xs /\
               d' = dset t (dset c (xs ++ [x]) T) d.
Proof.
  unfold append_col. intros E. bind_inv E. bind_inv E.
  apply getitem_ok in E0, E1. inversion E; subst. eauto.
Qed.

Lemma append_attrs_spec t items : forall d d' T,
  append_attrs t items d = Ok d' ->
  NoDup (dkeys items) ->
  dget t d = Some T ->
  exists T',
    dget t d' = Some T' /\ dkeys T' = dkeys T /\
    (forall t', t' <> t -> dget t' d' = dget t' d) /\
    (forall c, dget c T' =
               match dget c items with
               | Some x => if not_in bookkeeping c
                           then option_map (fun xs => xs ++ [x]) (dget c T)
                           else dget c T
               | None => dget c T
               end).
Proof.
  induction items as [|[k1 v1] items IH]; intros d d' T E ND G; simpl in E.
  - inversion E; subst. exists T. repeat split; assumption.
  - simpl in ND. inversion ND as [|? ? Hn ND']; subst.
    destruct (not_in bookkeeping k1) eqn:B.
    + bind_inv E.
      destruct (@append_col_ok _ _ _ _ _ E0) as (T0 & xs & G0 & C0 & ->).
      rewrite G in G0. inversion G0; subst T0. clear G0.
      destruct (IH _ _ (dset k1 (xs ++ [v1]) T) E ND') as (T' & H1 & H2 & H3 & H4);
        [apply dget_dset_eq|].
      exists T'. split; [exact H1|]. split.
      { rewrite H2. apply dkeys_dset_in. eapply dget_in_keys. exact C0. }
      split.
      { intros t' N. rewrite (H3 t' N). apply dget_dset_neq. congruence. }
      intros c. rewrite H4. simpl. rewrite dget_dset.
      destruct (eq_dec k1 c) as [<-|N].
      * destruct (eq_dec k1 k1) as [_|N]; [|congruence].
        assert (D : dget k1 items = None) by (apply dget_none; exact Hn).
        rewrite D, B, C0. reflexivity.
      * destruct (eq_dec c k1) as [->|_]; [congruence | reflexivity].
    + destruct (IH _ _ T E ND' G) as (T' & H1 & H2 & H3 & H4).
      exists T'. repeat split; try assumption.
      intros c. rewrite H4. simpl.
      destruct (eq_dec c k1) as [->|_]; [|reflexivity].
      assert (D : dget k1 items = None) by (apply dget_none; exact Hn).
      rewrite D, B. reflexivity.
Qed.

Lemma prepare_table_spec idx v' tbl d d1 :
  columns_distinct d ->
  prepare_table idx v' tbl d = Ok d1 ->
  exists T0,
    T0 = match dget tbl d with Some cols => cols | None => new_table v' end /\
    dget tbl d1 = Some T0 /\
    (forall t, t <> tbl -> dget t d1 = dget t d) /\
    NoDup (dkeys T0) /\ covered v' T0 /\
    (dget tbl d = None -> forall c xs, dget c T0 = Some xs -> xs = []).
Proof.
  intros CD E. unfold prepare_table in E.
  destruct (dget tbl d) as [cols|] eqn:G.
  - bind_inv E. inversion E; subst d1. exists cols.
    split; [reflexivity|]. split; [exact G|]. split; [reflexivity|].
    split; [exact (CD _ _ G)|]. split; [|discriminate].
    eapply check_keys_covered. exact E0.
  - inversion E; subst d1. exists (new_table v').
    destruct (new_table_spec v') as (H1 & H2 & H3 & H4).
    split; [reflexivity|]. split; [apply dget_dset_eq|].
    split; [intros t N; apply dget_dset_neq; congruence|].
    split; [exact H1|]. split; [exact H3|]. intros _. exact H2.
Qed.

(** Unfolds one successful [bind], naming the value and the equation. *)
Ltac bind_as H x Ex :=
  apply bind_ok in H; destruct H as (x & Ex & H).

(** A key that has a value is a key, also after assignments. *)
Ltac in_keys :=
  repeat (apply in_keys_dset; right); eapply dget_in_keys; eassumption.

(** The effect of one turn of the loop of line 57 on the store. *)
Lemma load_step_effect keys idx k v db db' :
  NoDup (dkeys v) -> columns_distinct (data db) ->
  load_step keys idx k v db = Ok db' ->
  exists tbl T5,
    dget "exec" v = Some tbl /\
    dget tbl (data db') = Some T5 /\
    (forall t, t <> tbl -> dget t (data db') = dget t (data db)) /\
    NoDup (dkeys (table_before tbl v (data db))) /\
    (dget tbl (data db) = None ->
     forall c xs, dget c (table_before tbl v (data db)) = Some xs ->
                  xs = []) /\
    extends_by keys idx k (table_before tbl v (data db)) T5.
Proof.
  intros NDv CD E. unfold load_step in E. bind_as E p Eh.
  unfold record_head in Eh.
  bind_as Eh tbl Xexec. bind_as Eh sn Xsn. bind_as Eh sname Xsname.
  bind_as Eh g' Xg. bind_as Eh lb' Xlb. bind_as Eh d1 Xd1.
  bind_as Eh d2 Xd2. bind_as Eh cols Xc. bind_as Eh u1 Xr.
  bind_as Eh ret Xret. bind_as Eh d3 Xd3. bind_as Eh cols' Xc'.
  bind_as Eh u2 Xdp. inversion Eh; subst p; clear Eh.
  unfold record_tail in E. simpl in E.
  bind_as E dep Xdep. bind_as E d4 Xd4. bind_as E d5 Xd5.
  inversion E; subst db'; clear E. simpl.
  apply getitem_ok in Xexec.
  destruct (@rename_fields_spec _ NDv) as [NDv' NoSys].
  destruct (@prepare_table_spec _ _ _ _ _ CD Xd1)
    as (T0 & ET0 & G1 & O1 & ND0 & Cov & Emp).
  assert (ET : table_before tbl v (data db) = T0)
    by (unfold table_before; symmetry; exact ET0).
  clear ET0.
  destruct (@append_col_ok _ _ _ _ _ Xd2) as (Ta & ids & Ga & Ca & ->).
  rewrite G1 in Ga. inversion Ga; subst Ta. clear Ga.
  destruct (@append_col_ok _ _ _ _ _ Xd3) as (Tb & rets & Gb & Cb & ->).
  rewrite dget_dset_eq in Gb. inversion Gb; subst Tb. clear Gb.
  rewrite dget_dset_neq in Cb by discriminate.
  destruct (@append_col_ok _ _ _ _ _ Xd4) as (Tc & deps & Gc & Cc & ->).
  rewrite dget_dset_eq in Gc. inversion Gc; subst Tc. clear Gc.
  rewrite !dget_dset_neq in Cc by discriminate.
  destruct (@append_attrs_spec _ _ _ _ _ Xd5 NDv' (@dget_dset_eq _ _ _ _ _ _))
    as (T5 & H1 & H2 & H3 & H4).
  assert (Nsys : forall x, In x system_cols -> dget x (rename_fields v) = None).
  { intros x I. apply dget_none. apply NoSys. exact I. }
  assert (S1 : dget "step_id" T5 = Some (ids ++ [VInt (Z.of_nat idx + 1)])).
  { rewrite H4, Nsys by (simpl; tauto).
    rewrite !dget_dset_neq by discriminate. apply dget_dset_eq. }
  assert (S2 : dget "return" T5 = Some (rets ++ [VStr ret])).
  { rewrite H4, Nsys by (simpl; tauto).
    rewrite dget_dset_neq by discriminate. apply dget_dset_eq. }
  assert (S3 : dget "depends" T5 = Some (deps ++ [dep])).
  { rewrite H4, Nsys by (simpl; tauto). apply dget_dset_eq. }
  exists tbl, T5. rewrite ET.
  split; [exact Xexec|]. split; [exact H1|]. split.
  { intros t N. rewrite (H3 t N). rewrite !dget_dset_neq by congruence.
    apply O1. exact N. }
  split; [exact ND0|]. split; [exact Emp|].
  split.
  { rewrite H2. do 3 (rewrite dkeys_dset_in by in_keys). reflexivity. }
  split; [exists ids; tauto|].
  split; [exists rets, ret; tauto|].
  split; [exists deps, dep; tauto|].
  intros c xs G.
  destruct (in_dec string_dec c system_cols) as [S|S].
  - destruct S as [<-|[<-|[<-|[]]]].
    + exists (VInt (Z.of_nat idx + 1)). congruence.
    + exists (VStr ret). congruence.
    + exists dep. congruence.
  - destruct (Cov c (dget_in_keys _ _ G)) as [S'|[I B]]; [contradiction|].
    destruct (in_keys_dget _ _ I) as [x Ex]. exists x.
    rewrite H4, Ex, B.
    assert (N1 : "depends" <> c) by (intros <-; apply S; simpl; tauto).
    assert (N2 : "return" <> c) by (intros <-; apply S; simpl; tauto).
    assert (N3 : "step_id" <> c) by (intros <-; apply S; simpl; tauto).
    rewrite !dget_dset_neq by assumption. rewrite G. reflexivity.
Qed.

(** ** Ingestion: the store along the loop *)

Lemma records_of_app t pre : forall post n,
  records_of t (pre ++ post) n
  = records_of t pre n ++ records_of t post (n + List.length pre).
Proof.
  induction pre as [|[k v] pre IH]; intros post n; simpl.
  - rewrite Nat.add_0_r. reflexivity.
  - rewrite IH. replace (S n + List.length pre)%nat
      with (n + S (List.length pre))%nat by lia.
    destruct (dget "exec" v) as [t'|]; [|reflexivity].
    destruct (eq_dec t' t); reflexivity.
Qed.

Lemma records_of_snoc t pre k v :
  records_of t (pre ++ [(k, v)]) 0
  = records_of t pre 0
      ++ match dget "exec" v with
         | Some t' => if eq_dec t' t then [(List.length pre, k)] else []
         | None => []
         end.
Proof.
  rewrite records_of_app. simpl.
  destruct (dget "exec" v) as [t'|]; [|reflexivity].
  destruct (eq_dec t' t); reflexivity.
Qed.

Lemma records_of_in t items : forall n j k,
  In (j, k) (records_of t items n) ->
  (n <= j)%nat /\
  exists v, nth_error items (j - n) = Some (k, v) /\
            dget "exec" v = Some t.
Proof.
  induction items as [|[k0 v0] items IH]; intros n j k I; simpl in I;
    [contradiction|].
  assert (Rec : In (j, k) (records_of t items (S n)) ->
                (n <= j)%nat /\
                exists v, nth_error ((k0, v0) :: items) (j - n) = Some (k, v) /\
                          dget "exec" v = Some t).
  { intros I'. destruct (IH _ _ _ I') as (L & v & E & X).
    split; [lia|]. exists v. split; [|exact X].
    replace (j - n)%nat with (S (j - S n)) by lia. exact E. }
  destruct (dget "exec" v0) as [t'|] eqn:X; [|exact (Rec I)].
  destruct (eq_dec t' t) as [->|N]; [|exact (Rec I)].
  destruct I as [E|I]; [|exact (Rec I)].
  inversion E; subst. split; [lia|]. exists v0.
  rewrite Nat.sub_diag. split; [reflexivity | exact X].
Qed.

Lemma store_inv_init keys : store_inv keys [] (data init).
Proof. split; [intros t cols E; discriminate | reflexivity]. Qed.

Lemma store_inv_distinct keys pre d :
  store_inv keys pre d -> columns_distinct d.
Proof. intros [I _] t cols E. apply (I t cols E). Qed.

(** One turn of the loop keeps [store_inv]. *)
Lemma load_step_inv keys pre k v db db' :
  store_inv keys pre (data db) -> NoDup (dkeys v) ->
  load_step keys (List.length pre) k v db = Ok db' ->
  store_inv keys (pre ++ [(k, v)]) (data db').
Proof.
  intros Inv NDv E.
  destruct (@load_step_effect _ _ _ _ _ _ NDv (store_inv_distinct Inv) E)
    as (tbl & T5 & Xexec & G5 & Oth & ND0 & Emp & Ext).
  destruct Inv as [I1 I2].
  set (T0 := table_before tbl v (data db)) in *.
  set (R := records_of tbl pre 0).
  assert (P0 : dget "step_id" T0
               = Some (map (fun r => VInt (Z.of_nat (fst r) + 1)) R) /\
               (exists rets, dget "return" T0 = Some rets /\
                  Forall2 (fun r x => exists s,
                             key_return (snd r) = Ok s /\ x = VStr s)
                          R rets) /\
               (exists deps, dget "depends" T0 = Some deps /\
                  Forall2 (fun r x => depends_of keys (split underscore (snd r)) = Ok x)
                          R deps) /\
               (forall c xs, dget c T0 = Some xs ->
                  List.length xs = List.length R)).
  { unfold T0, table_before in *. destruct (dget tbl (data db)) as [cols|] eqn:G.
    - destruct (I1 _ _ G) as (_ & A & B & C & D). tauto.
    - specialize (Emp eq_refl). unfold R. rewrite (I2 _ G). simpl.
      destruct Ext as (_ & (ids & S1 & _) & (rets & ret & S2 & _)
                       & (deps & dep & S3 & _) & _).
      rewrite (Emp _ _ S1) in S1. rewrite (Emp _ _ S2) in S2.
      rewrite (Emp _ _ S3) in S3.
      split; [exact S1|]. split; [exists []; split; [exact S2 | constructor]|].
      split; [exists []; split; [exact S3 | constructor]|].
      intros c xs Gc. rewrite (Emp _ _ Gc). reflexivity. }
  destruct P0 as (A0 & (rets0 & B0 & FB) & (deps0 & C0 & FC) & D0).
  destruct Ext as (K & (ids & S1 & S1') & (rets & ret & S2 & Xret & S2')
                   & (deps & dep & S3 & Xdep & S3') & All).
  rewrite A0 in S1. inversion S1; subst ids. clear S1.
  rewrite B0 in S2. inversion S2; subst rets. clear S2.
  rewrite C0 in S3. inversion S3; subst deps. clear S3.
  split.
  - intros t cols G. rewrite records_of_snoc, Xexec.
    destruct (eq_dec tbl t) as [<-|N].
    + rewrite G5 in G. inversion G; subst cols. clear G. fold R.
      split; [rewrite K; exact ND0|].
      split; [rewrite map_app; exact S1'|].
      split.
      { exists (rets0 ++ [VStr ret]). split; [exact S2'|].
        apply Forall2_app; [exact FB|]. constructor; [|constructor].
        simpl. eauto. }
      split.
      { exists (deps0 ++ [dep]). split; [exact S3'|].
        apply Forall2_app; [exact FC|]. constructor; [|constructor].
        exact Xdep. }
      intros c xs Gc.
      assert (Ic : In c (dkeys T0))
        by (rewrite <- K; eapply dget_in_keys; exact Gc).
      destruct (in_keys_dget _ _ Ic) as [xs0 G0].
      destruct (All _ _ G0) as [x Gx].
      rewrite Gx in Gc. inversion Gc; subst xs.
      rewrite !length_app, (D0 _ _ G0). reflexivity.
    + rewrite app_nil_r. rewrite (Oth t) in G by congruence.
      exact (I1 _ _ G).
  - intros t G. rewrite records_of_snoc, Xexec.
    destruct (eq_dec tbl t) as [<-|N]; [congruence|].
    rewrite app_nil_r. rewrite (Oth t) in G by congruence. exact (I2 _ G).
Qed.

Lemma load_loop_app keys pre : forall n post db db',
  load_loop keys n (pre ++ post) db = Ok db' ->
  exists db1, load_loop keys n pre db = Ok db1 /\
              load_loop keys (n + List.length pre) post db1 = Ok db'.
Proof.
  induction pre as [|[k v] pre IH]; intros n post db db' E; simpl in *.
  - exists db. rewrite Nat.add_0_r. split; [reflexivity | exact E].
  - bind_inv E. destruct (IH _ _ _ _ E) as (db1 & L1 & L2).
    exists db1. rewrite E0. simpl. split; [exact L1|].
    replace (n + S (List.length pre))%nat with (S n + List.length pre)%nat
      by lia. exact L2.
Qed.

(** The loop keeps [store_inv]. *)
Lemma load_loop_inv keys items : forall pre db db',
  store_inv keys pre (data db) -> blocks_ok items ->
  load_loop keys (List.length pre) items db = Ok db' ->
  store_inv keys (pre ++ items) (data db').
Proof.
  induction items as [|[k v] items IH]; intros pre db db' Inv B E;
    simpl in E.
  - inversion E; subst. rewrite app_nil_r. exact Inv.
  - bind_inv E.
    assert (Inv1 : store_inv keys (pre ++ [(k, v)]) (data a)).
    { eapply load_step_inv; [exact Inv | | exact E0].
      apply (B k v). left. reflexivity. }
    replace (pre ++ (k, v) :: items) with ((pre ++ [(k, v)]) ++ items)
      by (rewrite <- app_assoc; reflexivity).
    apply (IH _ a db' Inv1).
    + intros k' v' I. apply (B k' v'). right. exact I.
    + rewrite length_app. simpl.
      replace (List.length pre + 1)%nat with (S (List.length pre)) by lia.
      exact E.
Qed.

Lemma dupdate_in {K V : Type} `{EqDec K} (s : dict K V) : forall d k v,
  In (k, v) (dupdate d s) -> In (k, v) d \/ In (k, v) s.
Proof.
  induction s as [|[k0 v0] s IH]; intros d k v I; [left; exact I|].
  rewrite dupdate_cons in I. destruct (IH _ _ _ I) as [I'|I'].
  - assert (D : In (k, v) (dset k0 v0 d) -> In (k, v) d \/ (k, v) = (k0, v0)).
    { clear. induction d as [|[k1 v1] d IHd]; simpl.
      - intros [E|[]]. right. congruence.
      - destruct (eq_dec k0 k1) as [->|N]; simpl.
        + intros [E|I]; [right; congruence | left; right; exact I].
        + intros [E|I]; [left; left; exact E|].
          destruct (IHd I); [left; right; assumption | right; assumption]. }
    destruct (D I') as [I2|E]; [left; exact I2 | right; left; congruence].
  - right. right. exact I'.
Qed.

Lemma dedup_incl d x : NoDup (dkeys d) -> In x (dedup d) -> In x d.
Proof.
  intros ND I. rewrite (@dedup_keep_first _ ND) in I.
  eapply keep_first_incl. exact I.
Qed.

Lemma blocks_ok_dedup d :
  NoDup (dkeys d) -> blocks_ok d -> blocks_ok (dedup d).
Proof.
  intros ND B k v I. apply (B k v). apply dedup_incl; assumption.
Qed.

(** The store after a successful [load_parameters]. *)
Lemma load_parameters_inv files db :
  blocks_ok (load_sources files) ->
  load_parameters files init = Ok db ->
  store_inv (dkeys (dedup (load_sources files)))
            (dedup (load_sources files)) (data db).
Proof.
  intros B E. unfold load_parameters, load_data in E.
  apply (@load_loop_inv _ _ [] init db (store_inv_init _)
           (blocks_ok_dedup (load_sources_nodup files) B) E).
Qed.

Lemma load_loop_split keys pre k v post db' :
  load_loop keys 0 (pre ++ (k, v) :: post) init = Ok db' ->
  exists db1 db2,
    load_loop keys 0 pre init = Ok db1 /\
    load_step keys (List.length pre) k v db1 = Ok db2 /\
    load_loop keys (S (List.length pre)) post db2 = Ok db'.
Proof.
  intros E. destruct (@load_loop_app _ _ _ _ _ _ E) as (db1 & L1 & L2).
  simpl in L2. bind_inv L2. exists db1, a. tauto.
Qed.

(** C10.  After a successful ingestion every column of every table has
    as many elements as the table has records among the deduplicated
    items; and the turn of the loop for an item leaves the other tables
    as they are and appends exactly one element to every column of the
    table of the item (a table made for the item has one element in every
    column).  The raw blocks are dictionaries. *)
Theorem parallel_columns_invariant :
  forall files db,
    blocks_ok (load_sources files) ->
    load_parameters files init = Ok db ->
    (forall t cols c xs,
        dget t (data db) = Some cols -> In (c, xs) cols ->
        List.length xs
        = List.length (records_of t (dedup (load_sources files)) 0)) /\
    (forall pre k v post,
        dedup (load_sources files) = pre ++ (k, v) :: post ->
        exists db1 db2 tbl T5,
          load_loop (dkeys (dedup (load_sources files))) 0 pre init = Ok db1 /\
          load_step (dkeys (dedup (load_sources files)))
                    (List.length pre) k v db1 = Ok db2 /\
          load_loop (dkeys (dedup (load_sources files)))
                    (S (List.length pre)) post db2 = Ok db /\
          dget "exec" v = Some tbl /\
          dget tbl (data db2) = Some T5 /\
          (forall t, t <> tbl -> dget t (data db2) = dget t (data db1)) /\
          match dget tbl (data db1) with
          | Some T0 =>
              dkeys T5 = dkeys T0 /\
              forall c xs, dget c T0 = Some xs ->
                           exists x, dget c T5 = Some (xs ++ [x])
          | None =>
              forall c xs, dget c T5 = Some xs -> List.length xs = 1%nat
          end).
Proof.
  intros files db B E.
  assert (Inv := load_parameters_inv files B E).
  assert (Bd := blocks_ok_dedup (load_sources_nodup files) B).
  split.
  - intros t cols c xs G I. destruct Inv as [I1 _].
    destruct (I1 _ _ G) as (ND & _ & _ & _ & L).
    apply (L c). apply in_dget; assumption.
  - intros pre k v post Ei.
    unfold load_parameters, load_data in E.
    set (keys := dkeys (dedup (load_sources files))) in *.
    rewrite Ei in E, Bd.
    destruct (@load_loop_split _ _ _ _ _ _ E) as (db1 & db2 & L1 & L2 & L3).
    assert (Inv1 : store_inv keys pre (data db1)).
    { apply (@load_loop_inv keys pre [] init db1); simpl.
      - apply store_inv_init.
      - intros k' v' I. apply (Bd k' v'). apply in_or_app. left. exact I.
      - exact L1. }
    assert (NDv : NoDup (dkeys v)).
    { apply (Bd k v). apply in_or_app. right. left. reflexivity. }
    destruct (@load_step_effect _ _ _ _ _ _ NDv (store_inv_distinct Inv1) L2)
      as (tbl & T5 & Xexec & G5 & Oth & ND0 & Emp & Ext).
    exists db1, db2, tbl, T5.
    repeat (split; [assumption|]).
    unfold table_before in *.
    destruct Ext as (K & _ & _ & _ & All).
    destruct (dget tbl (data db1)) as [T0|] eqn:G.
    + split; assumption.
    + intros c xs Gc.
      assert (Ic : In c (dkeys (new_table (rename_fields v))))
        by (rewrite <- K; eapply dget_in_keys; exact Gc).
      destruct (in_keys_dget _ _ Ic) as [xs0 G0].
      destruct (All _ _ G0) as [x Gx].
      rewrite (Emp eq_refl _ _ G0) in Gx.
      rewrite Gx in Gc. inversion Gc. reflexivity.
Qed.

Lemma source_chain_blocks_ok : blocks_ok (load_sources [source_chain]).
Proof.
  intros k v I. cbn in I.
  destruct I as [E|[E|[]]]; inversion E; subst;
    repeat constructor; simpl; intuition discriminate.
Qed.

Lemma parallel_columns_invariant_witness :
  blocks_ok (load_sources [source_chain]) /\
  load_parameters [source_chain] init
  = Ok (mkDB store_chain ["est"] [("sim", [VStr "A"]); ("est", [VStr "B"])]) /\
  (forall t cols c xs,
      dget t store_chain = Some cols -> In (c, xs) cols ->
      List.length xs
      = List.length (records_of t (dedup (load_sources [source_chain])) 0)).
Proof.
  split; [exact source_chain_blocks_ok|]. split; [reflexivity|].
  apply (proj1 (@parallel_columns_invariant [source_chain]
                  (mkDB store_chain ["est"]
                     [("sim", [VStr "A"]); ("est", [VStr "B"])])
                  source_chain_blocks_ok eq_refl)).
Defined.

(** ** Resolving a dependency *)

Lemma search_loop_some x : forall ks ii z,
  search_loop x ii ks = Ok (Some z) ->
  exists p kk,
    nth_error ks p = Some kk /\ key_return kk = Ok x /\
    z = (Z.of_nat (ii + p) + 1)%Z /\
    forall p' kk', (p' < p)%nat -> nth_error ks p' = Some kk' ->
                   key_return kk' <> Ok x.
Proof.
  induction ks as [|kk ks IH]; intros ii z E; simpl in E; [discriminate|].
  bind_inv E. destruct (eq_dec a x) as [->|N].
  - inversion E; subst. exists 0%nat, kk. rewrite Nat.add_0_r.
    repeat split; try assumption. intros p' kk' L. lia.
  - destruct (IH _ _ E) as (p & kk1 & E1 & E2 & E3 & E4).
    exists (S p), kk1. split; [exact E1|]. split; [exact E2|].
    split; [rewrite E3; f_equal; lia|].
    intros [|p'] kk' L G; simpl in G.
    + inversion G; subst. rewrite E0. congruence.
    + apply (E4 p' kk'); [lia | exact G].
Qed.

Lemma search_loop_none x : forall ks ii,
  (forall kk, In kk ks ->
     exists r, key_return kk = Ok r /\ r <> x) ->
  search_loop x ii ks = Ok None.
Proof.
  induction ks as [|kk ks IH]; intros ii A; simpl; [reflexivity|].
  destruct (A kk (or_introl eq_refl)) as (r & E & N).
  rewrite E. simpl. destruct (eq_dec r x); [contradiction|].
  apply IH. intros kk' I. apply A. right. exact I.
Qed.

Lemma depends_of_int keys ks dz :
  depends_of keys ks = Ok (VInt dz) ->
  (2 < List.length ks)%nat /\
  search_dependent_index keys (last ks "") = Ok dz.
Proof.
  unfold depends_of. destruct (2 <? List.length ks)%nat eqn:L.
  - intros E. bind_inv E. inversion E; subst.
    split; [apply Nat.ltb_lt, L | exact E0].
  - discriminate.
Qed.

Lemma search_dependent_index_ok keys x dz :
  search_dependent_index keys x = Ok dz ->
  exists p kk,
    nth_error keys p = Some kk /\ key_return kk = Ok x /\
    dz = (Z.of_nat p + 1)%Z /\
    forall p' kk', (p' < p)%nat -> nth_error keys p' = Some kk' ->
                   key_return kk' <> Ok x.
Proof.
  unfold search_dependent_index. intros E. bind_inv E.
  destruct a as [z|]; [|discriminate]. inversion E; subst.
  destruct (@search_loop_some _ _ _ _ E0) as (p & kk & H1 & H2 & H3 & H4).
  exists p, kk. repeat split; assumption.
Qed.

Lemma Forall2_nth_r {A B : Type} (R : A -> B -> Prop) (l1 : list A) :
  forall (l2 : list B) i y,
    Forall2 R l1 l2 -> nth_error l2 i = Some y ->
    exists x, nth_error l1 i = Some x /\ R x y.
Proof.
  induction l1 as [|a l1 IH]; intros l2 i y F E; inversion F; subst.
  - destruct i; discriminate.
  - destruct i as [|i]; simpl in *.
    + inversion E; subst. eauto.
    + eapply IH; eassumption.
Qed.

Lemma records_of_complete t items : forall n p kk v,
  nth_error items p = Some (kk, v) -> dget "exec" v = Some t ->
  In ((n + p)%nat, kk) (records_of t items n).
Proof.
  induction items as [|[k0 v0] items IH]; intros n p kk v E X;
    [destruct p; discriminate|].
  destruct p as [|p]; simpl in E |- *.
  - inversion E; subst. rewrite X.
    destruct (eq_dec t t) as [_|N]; [|congruence].
    rewrite Nat.add_0_r. left. reflexivity.
  - replace (n + S p)%nat with (S n + p)%nat by lia.
    specialize (IH (S n) p kk v E X).
    destruct (dget "exec" v0) as [t'|]; [|exact IH].
    destruct (eq_dec t' t); [right; exact IH | exact IH].
Qed.

Lemma load_step_exec keys idx k v db db' :
  load_step keys idx k v db = Ok db' -> exists tbl, dget "exec" v = Some tbl.
Proof.
  unfold load_step, record_head. intros E. bind_as E p Eh.
  bind_as Eh tbl Xexec. apply getitem_ok in Xexec. eauto.
Qed.

Lemma load_loop_exec keys items : forall n db db',
  load_loop keys n items db = Ok db' ->
  forall k v, In (k, v) items -> exists tbl, dget "exec" v = Some tbl.
Proof.
  induction items as [|[k0 v0] items IH]; intros n db db' E k v I;
    [contradiction|].
  simpl in E. bind_inv E. destruct I as [I|I].
  - inversion I; subst. eapply load_step_exec. exact E0.
  - eapply IH; eassumption.
Qed.

(** C8, as amended.  After a successful ingestion, a [depends] of a
    record that is not [None] is the step id of the first item of the
    whole deduplicated source whose return id is the one the key of the
    record names last, a step id that a record of the store has; it is
    strictly less than the step id of the record exactly when that item
    comes before the record.  The raw blocks are dictionaries. *)
Theorem resolved_depends_first_match :
  forall files db t cols ids deps idx s dz,
    blocks_ok (load_sources files) ->
    load_parameters files init = Ok db ->
    dget t (data db) = Some cols ->
    dget "step_id" cols = Some ids -> dget "depends" cols = Some deps ->
    nth_error ids idx = Some s -> nth_error deps idx = Some (VInt dz) ->
    exists j k p kk,
      s = VInt (Z.of_nat j + 1) /\
      nth_error (dkeys (dedup (load_sources files))) j = Some k /\
      (2 < List.length (split underscore k))%nat /\
      nth_error (dkeys (dedup (load_sources files))) p = Some kk /\
      key_return kk = Ok (key_last k) /\
      (forall p' kk', (p' < p)%nat ->
         nth_error (dkeys (dedup (load_sources files))) p' = Some kk' ->
         key_return kk' <> Ok (key_last k)) /\
      dz = (Z.of_nat p + 1)%Z /\
      ((dz < Z.of_nat j + 1)%Z <-> (p < j)%nat) /\
      exists t' cols' ids',
        dget t' (data db) = Some cols' /\
        dget "step_id" cols' = Some ids' /\ In (VInt dz) ids'.
Proof.
  intros files db t cols ids deps idx s dz B E G Gi Gd Ei Ed.
  destruct (load_parameters_inv files B E) as [I1 I2].
  destruct (I1 _ _ G) as (_ & A & _ & (deps' & C & FC) & _).
  rewrite Gi in A. inversion A; subst ids. clear A.
  rewrite Gd in C. inversion C; subst deps'. clear C.
  destruct (@Forall2_nth_r _ _ _ _ _ idx _ FC Ed) as ([j k] & Er & Dep).
  rewrite nth_error_map, Er in Ei. simpl in *. inversion Ei; subst s.
  destruct (@records_of_in _ _ _ _ _ (nth_error_In _ _ Er))
    as (_ & v & En & _).
  rewrite Nat.sub_0_r in En.
  destruct (@depends_of_int _ _ _ Dep) as [L S].
  destruct (@search_dependent_index_ok _ _ _ S)
    as (p & kk & H1 & H2 & H3 & H4).
  exists j, k, p, kk.
  split; [reflexivity|]. split.
  { unfold dkeys. rewrite nth_error_map, En. reflexivity. }
  split; [exact L|]. split; [exact H1|]. split; [exact H2|].
  split; [exact H4|]. split; [exact H3|]. split; [lia|].
  unfold dkeys in H1. rewrite nth_error_map in H1.
  destruct (nth_error (dedup (load_sources files)) p) as [[kk' vp]|] eqn:Ep;
    [|discriminate].
  simpl in H1. inversion H1; subst kk'. clear H1.
  unfold load_parameters, load_data in E.
  destruct (@load_loop_exec _ _ _ _ _ E kk vp (nth_error_In _ _ Ep))
    as [t' Xp].
  assert (Ir := @records_of_complete t' _ 0%nat p kk vp Ep Xp).
  simpl in Ir.
  destruct (dget t' (data db)) as [cols'|] eqn:G'.
  - destruct (I1 _ _ G') as (_ & A' & _).
    exists t', cols'. eexists. split; [exact G'|]. split; [exact A'|].
    rewrite H3. apply in_map_iff. exists (p, kk). split; [reflexivity|].
    exact Ir.
  - rewrite (I2 _ G') in Ir. contradiction.
Qed.

Lemma resolved_depends_first_match_witness :
  blocks_ok (load_sources [source_chain]) /\
  load_parameters [source_chain] init
  = Ok (mkDB store_chain ["est"] [("sim", [VStr "A"]); ("est", [VStr "B"])]) /\
  exists j k p kk,
    VInt 2 = VInt (Z.of_nat j + 1) /\
    nth_error (dkeys (dedup (load_sources [source_chain]))) j = Some k /\
    (2 < List.length (split underscore k))%nat /\
    nth_error (dkeys (dedup (load_sources [source_chain]))) p = Some kk /\
    key_return kk = Ok (key_last k) /\
    (forall p' kk', (p' < p)%nat ->
       nth_error (dkeys (dedup (load_sources [source_chain]))) p' = Some kk' ->
       key_return kk' <> Ok (key_last k)) /\
    1%Z = (Z.of_nat p + 1)%Z /\
    ((1 < Z.of_nat j + 1)%Z <-> (p < j)%nat) /\
    exists t' cols' ids',
      dget t' store_chain = Some cols' /\
      dget "step_id" cols' = Some ids' /\ In (VInt 1) ids'.
Proof.
  split; [exact source_chain_blocks_ok|]. split; [reflexivity|].
  apply (@resolved_depends_first_match [source_chain]
           (mkDB store_chain ["est"] [("sim", [VStr "A"]); ("est", [VStr "B"])])
           (VStr "B")
           [("y", [VInt 2]); ("step_id", [VInt 2]);
            ("return", [VStr "b"]); ("depends", [VInt 1])]
           [VInt 2] [VInt 1] 0%nat (VInt 2) 1%Z
           source_chain_blocks_ok); reflexivity.
Defined.

Lemma get_sequence_self_loop fuel :
  forall acc,
    get_sequence fuel
      [(VStr "A", [("x", [VInt 1]); ("step_id", [VInt 1]);
                   ("return", [VStr "a"]); ("depends", [VInt 1])])]
      (VStr "A") (VInt 1) 0 acc = Raise RecursionError.
Proof.
  induction fuel as [|fuel IH]; intros acc; [reflexivity|].
  rewrite get_sequence_S. cbn. apply IH.
Qed.

(** C8, the counterexample.  [source_forward] is ingested, and its first
    record, of step id 1, gets the [depends] 2: the search of line 36 runs
    over all keys of [data], the later ones too.  [source_self] is
    ingested with a record that depends on itself, and chain resolution
    from it exhausts every recursion limit. *)
Lemma depends_not_decreasing_counterexample :
  (exists db,
      load_parameters [source_forward] init = Ok db /\
      dget (VStr "A") (data db)
      = Some [("x", [VInt 1]); ("step_id", [VInt 1]);
              ("return", [VStr "a"]); ("depends", [VInt 2])]) /\
  (exists db,
      load_parameters [source_self] init = Ok db /\
      dget (VStr "A") (data db)
      = Some [("x", [VInt 1]); ("step_id", [VInt 1]);
              ("return", [VStr "a"]); ("depends", [VInt 1])] /\
      forall fuel,
        get_sequence fuel (data db) (VStr "A") (VInt 1) 0 []
        = Raise RecursionError).
Proof.
  split.
  - eexists. split; reflexivity.
  - eexists. split; [reflexivity|]. split; [reflexivity|].
    intros fuel. apply get_sequence_self_loop.
Qed.

(** ** A dependency that cannot be resolved *)

Lemma mentions_middle a x b : mentions x (a ++ x ++ b)%string.
Proof. exists a, b. reflexivity. Qed.

Lemma search_dependent_index_dangling keys x :
  (forall kk, In kk keys ->
     exists r, key_return kk = Ok r /\ r <> x) ->
  search_dependent_index keys x = Raise (ResultDBError (dependency_msg x)).
Proof.
  intros A. unfold search_dependent_index.
  rewrite (@search_loop_none x keys 0 A). reflexivity.
Qed.

Lemma search_dependent_index_not_ok keys x z :
  (forall kk, In kk keys -> key_return kk <> Ok x) ->
  search_dependent_index keys x <> Ok z.
Proof.
  intros A E.
  destruct (@search_dependent_index_ok _ _ _ E) as (p & kk & H1 & H2 & _).
  apply (A kk); [eapply nth_error_In; exact H1 | exact H2].
Qed.

Lemma record_head_key idx k v db p :
  record_head idx k v db = Ok p -> p_key p = split underscore k.
Proof.
  unfold record_head. intros Eh.
  do 13 (let x := fresh "x" in let X := fresh "X" in bind_as Eh x X).
  inversion Eh. reflexivity.
Qed.

Lemma load_loop_app_eq keys pre : forall n post db,
  load_loop keys n (pre ++ post) db
  = (db1 <- load_loop keys n pre db ;;
     load_loop keys (n + List.length pre) post db1).
Proof.
  induction pre as [|[k v] pre IH]; intros n post db; simpl.
  - rewrite Nat.add_0_r. reflexivity.
  - destruct (load_step keys n k v db) as [db1|e]; simpl; [|reflexivity].
    rewrite IH. replace (n + S (List.length pre))%nat
      with (S n + List.length pre)%nat by lia. reflexivity.
Qed.

Lemma Build_load_raise name isfile load_rds fuel files e :
  load_parameters files init = Raise e ->
  Build name isfile load_rds fuel files = Raise e.
Proof. intros E. unfold Build. rewrite E. reflexivity. Qed.

Lemma Build_load_ok name isfile load_rds fuel files out :
  Build name isfile load_rds fuel files = Ok out ->
  exists db, load_parameters files init = Ok db.
Proof. unfold Build. intros E. bind_inv E. eauto. Qed.

(** The walk stops with the error of line 120 at a [depends] that is the
    step id of no record. *)
Lemma get_sequence_dangling fuel d t i idx acc cols deps x :
  dget t d = Some cols -> dget "depends" cols = Some deps ->
  nth_error deps idx = Some x -> x <> VNone ->
  (forall k, In k (dkeys d) ->
     exists cols' ids, dget k d = Some cols' /\
                       dget "step_id" cols' = Some ids /\ ~ In x ids) ->
  get_sequence (S fuel) d t i idx acc
  = Raise (ResultDBError (step_id_msg x)).
Proof.
  intros E1 E2 E3 N A. rewrite get_sequence_S.
  unfold getitem. rewrite E1. cbn [bind]. rewrite E2. cbn [bind].
  unfold getidx. rewrite E3. cbn [bind].
  rewrite (@find_step_absent d (dkeys d) x A).
  destruct x; [congruence | reflexivity | reflexivity].
Qed.

Lemma chains_of_table_ok fuel d step ids : forall n res out,
  chains_of_table fuel d step n ids res = Ok out ->
  forall j i, nth_error ids j = Some i ->
    exists c, get_sequence fuel d step i (n + j) [] = Ok c.
Proof.
  induction ids as [|i0 ids IH]; intros n res out E j i G;
    [destruct j; discriminate|].
  simpl in E. bind_inv E. destruct j as [|j]; simpl in G.
  - inversion G; subst. rewrite Nat.add_0_r. eauto.
  - replace (n + S j)%nat with (S n + j)%nat by lia.
    eapply IH; eassumption.
Qed.

Lemma chains_of_block_ok fuel d steps : forall res out,
  chains_of_block fuel d steps res = Ok out ->
  forall step, In step steps ->
    exists cols ids,
      dget step d = Some cols /\ dget "step_id" cols = Some ids /\
      forall j i, nth_error ids j = Some i ->
        exists c, get_sequence fuel d step i j [] = Ok c.
Proof.
  induction steps as [|s steps IH]; intros res out E step I;
    [contradiction|].
  simpl in E. bind_inv E. bind_inv E. bind_inv E.
  apply getitem_ok in E0, E1.
  destruct I as [<-|I]; [|eapply IH; eassumption].
  exists a, a0. split; [exact E0|]. split; [exact E1|].
  intros j i G. apply (@chains_of_table_ok _ _ _ _ _ _ _ E2 j i G).
Qed.

(** ** Ingestion: blocks, terminal blocks and tables *)

Lemma add_group_spec b t (g : dict string (list value)) :
  exists g' members',
    add_group b t g = Ok g' /\
    dget b g' = Some members' /\
    members' = match dget b g with
               | Some m => if mem t m then m else m ++ [t]
               | None => [t]
               end /\
    (forall b', b' <> b -> dget b' g' = dget b' g) /\
    (NoDup (dkeys g) -> NoDup (dkeys g')).
Proof.
  unfold add_group, dmem. destruct (dget b g) as [m|] eqn:G.
  - unfold getitem. rewrite G. cbn [bind].
    destruct (mem t m) eqn:M.
    + exists g, m. repeat split; auto.
    + exists (dset b (m ++ [t]) g), (m ++ [t]).
      split; [reflexivity|]. split; [apply dget_dset_eq|].
      split; [reflexivity|]. split.
      * intros b' N. apply dget_dset_neq. congruence.
      * apply nodup_dset.
  - unfold getitem. rewrite dget_dset_eq. cbn [bind].
    assert (M : mem t (@nil value) = false) by (apply mem_false; intros []).
    rewrite M. exists (dset b ([] ++ [t]) (dset b [] g)), [t].
    split; [reflexivity|]. split; [apply dget_dset_eq|].
    split; [reflexivity|]. split.
    + intros b' N. rewrite !dget_dset_neq by congruence. reflexivity.
    + intros ND. apply nodup_dset, nodup_dset, ND.
Qed.

Lemma append_col_keys t c x d d' :
  append_col t c x d = Ok d' -> dkeys d' = dkeys d.
Proof.
  intros E. destruct (@append_col_ok _ _ _ _ _ E) as (T & xs & G & _ & ->).
  apply dkeys_dset_in. eapply dget_in_keys. exact G.
Qed.

Lemma append_attrs_keys t items : forall d d',
  append_attrs t items d = Ok d' -> dkeys d' = dkeys d.
Proof.
  induction items as [|[k1 v1] items IH]; intros d d' E; simpl in E.
  - inversion E. reflexivity.
  - destruct (not_in bookkeeping k1).
    + bind_inv E. rewrite (IH _ _ E). eapply append_col_keys. exact E0.
    + apply IH. exact E.
Qed.

Lemma prepare_table_keys idx v' tbl d d1 :
  prepare_table idx v' tbl d = Ok d1 ->
  dkeys d1 = if dmem tbl d then dkeys d else dkeys d ++ [tbl].
Proof.
  unfold prepare_table, dmem. destruct (dget tbl d) as [cols|] eqn:G.
  - intros E. bind_inv E. inversion E. reflexivity.
  - intros E. inversion E. apply dkeys_dset_notin. apply dget_none. exact G.
Qed.

(** What one turn of the loop of line 57 reads of its item and does to
    the blocks, the terminal blocks and the tables. *)
Lemma load_step_meta keys idx k v db db' :
  load_step keys idx k v db = Ok db' ->
  exists tbl sname ret,
    dget "exec" v = Some tbl /\
    dget "step_name" v = Some (VStr sname) /\
    key_return k = Ok ret /\
    add_group (hd "" (split underscore sname)) tbl (groups db)
    = Ok (groups db') /\
    add_last_block (hd "" (split underscore sname)) v (last_block db)
    = Ok (last_block db') /\
    dkeys (data db')
    = if dmem tbl (data db) then dkeys (data db)
      else dkeys (data db) ++ [tbl].
Proof.
  intros E. unfold load_step in E. bind_as E p Eh.
  unfold record_head in Eh.
  bind_as Eh tbl Xexec. bind_as Eh sn Xsn. bind_as Eh sname Xsname.
  bind_as Eh g' Xg. bind_as Eh lb' Xlb. bind_as Eh d1 Xd1.
  bind_as Eh d2 Xd2. bind_as Eh cols Xc. bind_as Eh u1 Xr.
  bind_as Eh ret Xret. bind_as Eh d3 Xd3. bind_as Eh cols' Xc'.
  bind_as Eh u2 Xdp. inversion Eh; subst p; clear Eh.
  unfold record_tail in E. simpl in E.
  bind_as E dep Xdep. bind_as E d4 Xd4. bind_as E d5 Xd5.
  inversion E; subst db'; clear E. simpl.
  apply getitem_ok in Xexec, Xsn.
  destruct sn as [| |s]; try discriminate. inversion Xsname; subst s.
  exists tbl, sname, ret.
  repeat (split; [assumption|]).
  apply append_attrs_keys in Xd5. apply append_col_keys in Xd4, Xd3, Xd2.
  rewrite Xd5, Xd4, Xd3, Xd2.
  eapply prepare_table_keys. exact Xd1.
Qed.

(** A property of the items ingested so far and of the database that
    every turn keeps holds along the loop. *)
Lemma load_loop_invariant (P : dict string raw -> ResultDB -> Prop) keys
    items :
  forall pre db db',
    (forall pre' k v db1 db2,
        In (k, v) items -> P pre' db1 ->
        load_step keys (List.length pre') k v db1 = Ok db2 ->
        P (pre' ++ [(k, v)]) db2) ->
    P pre db -> load_loop keys (List.length pre) items db = Ok db' ->
    P (pre ++ items) db'.
Proof.
  induction items as [|[k v] items IH]; intros pre db db' St Hp E;
    simpl in E.
  - inversion E; subst. rewrite app_nil_r. exact Hp.
  - bind_inv E.
    replace (pre ++ (k, v) :: items) with ((pre ++ [(k, v)]) ++ items)
      by (rewrite <- app_assoc; reflexivity).
    apply (IH _ a db').
    + intros pre' k' v' db1 db2 I. apply St. right. exact I.
    + eapply St; [left; reflexivity | exact Hp | exact E0].
    + rewrite length_app. simpl.
      replace (List.length pre + 1)%nat with (S (List.length pre)) by lia.
      exact E.
Qed.

Lemma load_parameters_invariant (P : dict string raw -> ResultDB -> Prop)
    files db :
  (forall pre k v db1 db2,
      In (k, v) (dedup (load_sources files)) -> P pre db1 ->
      load_step (dkeys (dedup (load_sources files))) (List.length pre)
                k v db1 = Ok db2 ->
      P (pre ++ [(k, v)]) db2) ->
  P [] init ->
  load_parameters files init = Ok db ->
  P (dedup (load_sources files)) db.
Proof.
  intros St H0 E. unfold load_parameters, load_data in E.
  apply (@load_loop_invariant P _ _ [] init db St H0 E).
Qed.

Lemma block_of_step_name v s :
  dget "step_name" v = Some (VStr s) ->
  block_of v = Some (hd "" (split underscore s)).
Proof. unfold block_of. intros ->. reflexivity. Qed.

Lemma load_step_groups keys pre k v db db' :
  groups_inv pre (groups db) ->
  load_step keys (List.length pre) k v db = Ok db' ->
  groups_inv (pre ++ [(k, v)]) (groups db').
Proof.
  intros [ND Inv] E.
  destruct (@load_step_meta _ _ _ _ _ _ E)
    as (tbl & sname & ret & Xe & Xs & _ & Xg & _ & _).
  set (b0 := hd "" (split underscore sname)) in *.
  assert (Bv : block_of v = Some b0) by (apply block_of_step_name, Xs).
  destruct (add_group_spec b0 tbl (groups db))
    as (g' & m' & A1 & A2 & A3 & A4 & A5).
  rewrite Xg in A1. inversion A1; subst g'. clear A1.
  split; [exact (A5 ND)|].
  intros b. destruct (eq_dec b b0) as [->|N].
  - rewrite A2. specialize (Inv b0).
    destruct (dget b0 (groups db)) as [m|] eqn:G.
    + destruct Inv as [NDm Im]. destruct (mem tbl m) eqn:M; subst m'.
      * split; [exact NDm|]. intros t. rewrite Im. split.
        -- intros (k1 & v1 & I & H1 & H2). exists k1, v1.
           split; [apply in_or_app; left; exact I | tauto].
        -- intros (k1 & v1 & I & H1 & H2).
           apply in_app_or in I. destruct I as [I|[I|[]]].
           ++ exists k1, v1. tauto.
           ++ inversion I; subst. apply Im. apply mem_true in M.
              rewrite Xe in H1. inversion H1; subst. exact M.
      * apply mem_false in M. split.
        -- apply NoDup_app; [exact NDm | repeat constructor; intros [] |].
           intros x Ix [<-|[]]. exact (M Ix).
        -- intros t. rewrite in_app_iff, Im. split.
           ++ intros [(k1 & v1 & I & H1 & H2)|[<-|[]]].
              ** exists k1, v1. split; [apply in_or_app; left; exact I|tauto].
              ** exists k, v. split; [apply in_or_app; right; left; reflexivity|].
                 tauto.
           ++ intros (k1 & v1 & I & H1 & H2).
              apply in_app_or in I. destruct I as [I|[I|[]]].
              ** left. exists k1, v1. tauto.
              ** inversion I; subst. right. left. congruence.
    + subst m'. split; [repeat constructor; intros []|].
      intros t. split.
      * intros [<-|[]]. exists k, v.
        split; [apply in_or_app; right; left; reflexivity | tauto].
      * intros (k1 & v1 & I & H1 & H2).
        apply in_app_or in I. destruct I as [I|[I|[]]].
        -- exfalso. exact (Inv k1 v1 I H2).
        -- inversion I; subst. left. congruence.
  - rewrite (A4 b N). specialize (Inv b).
    destruct (dget b (groups db)) as [m|].
    + destruct Inv as [NDm Im]. split; [exact NDm|].
      intros t. rewrite Im. split.
      * intros (k1 & v1 & I & H1 & H2). exists k1, v1.
        split; [apply in_or_app; left; exact I | tauto].
      * intros (k1 & v1 & I & H1 & H2).
        apply in_app_or in I. destruct I as [I|[I|[]]].
        -- exists k1, v1. tauto.
        -- inversion I; subst. congruence.
    + intros k1 v1 I. apply in_app_or in I. destruct I as [I|[I|[]]].
      * exact (Inv k1 v1 I).
      * inversion I; subst. congruence.
Qed.

Lemma groups_inv_load files db :
  load_parameters files init = Ok db ->
  groups_inv (dedup (load_sources files)) (groups db).
Proof.
  apply (@load_parameters_invariant
           (fun pre db => groups_inv pre (groups db))).
  - intros pre k v db1 db2 _. apply load_step_groups.
  - split; [constructor|]. intros b k v [].
Qed.

Lemma add_last_block_spec b v lb lb' s :
  dget "step_name" v = Some (VStr s) ->
  add_last_block b v lb = Ok lb' ->
  (lb' = lb /\ (In b lb \/ ~ ends_sequence v)) \/
  (lb' = lb ++ [b] /\ ~ In b lb /\ ends_sequence v).
Proof.
  intros Xs. unfold add_last_block. destruct (mem b lb) eqn:M.
  - intros E. inversion E; subst. left. split; [reflexivity|].
    left. apply mem_true. exact M.
  - apply mem_false in M. unfold getitem. rewrite Xs. cbn [bind].
    destruct (dget "sequence_name" v) as [sq|] eqn:Xq; [|discriminate].
    cbn [bind]. destruct sq as [| |q]; try discriminate. cbn [bind as_str].
    destruct (eq_dec (VStr s) (VStr (last (split plus_sign q) "")))
      as [Eq|Nq]; intros E; inversion E; subst.
    + right. split; [reflexivity|]. split; [exact M|].
      exists s, q. split; [exact Xs|]. split; [exact Xq | congruence].
    + left. split; [reflexivity|]. right.
      intros (s' & q' & H1 & H2 & H3). rewrite Xs in H1. rewrite Xq in H2.
      inversion H1; inversion H2; subst. apply Nq. reflexivity.
Qed.

Lemma load_step_last_block keys pre k v db db' :
  last_block_inv pre (last_block db) ->
  load_step keys (List.length pre) k v db = Ok db' ->
  last_block_inv (pre ++ [(k, v)]) (last_block db').
Proof.
  intros [ND Inv] E.
  destruct (@load_step_meta _ _ _ _ _ _ E)
    as (tbl & sname & ret & _ & Xs & _ & _ & Xl & _).
  set (b0 := hd "" (split underscore sname)) in *.
  assert (Bv : block_of v = Some b0) by (apply block_of_step_name, Xs).
  assert (Old : forall b,
             (exists k1 v1, In (k1, v1) pre /\ block_of v1 = Some b /\
                            ends_sequence v1) ->
             exists k1 v1, In (k1, v1) (pre ++ [(k, v)]) /\
                           block_of v1 = Some b /\ ends_sequence v1).
  { intros b (k1 & v1 & I & H). exists k1, v1.
    split; [apply in_or_app; left; exact I | exact H]. }
  destruct (@add_last_block_spec _ _ _ _ _ Xs Xl) as [[-> C]|(-> & Nb & Es)].
  - split; [exact ND|]. intros b. split.
    + intros I. apply Old. apply Inv. exact I.
    + intros (k1 & v1 & I & H1 & H2). apply in_app_or in I.
      destruct I as [I|[I|[]]].
      * apply Inv. exists k1, v1. tauto.
      * inversion I; subst. destruct C as [C|C]; [|contradiction].
        congruence.
  - split.
    + apply NoDup_app; [exact ND | repeat constructor; intros [] |].
      intros x Ix [<-|[]]. exact (Nb Ix).
    + intros b. rewrite in_app_iff. split.
      * intros [I|[<-|[]]]; [apply Old, Inv, I|].
        exists k, v. split; [apply in_or_app; right; left; reflexivity|].
        tauto.
      * intros (k1 & v1 & I & H1 & H2). apply in_app_or in I.
        destruct I as [I|[I|[]]].
        -- left. apply Inv. exists k1, v1. tauto.
        -- inversion I; subst. right. left. congruence.
Qed.

Lemma last_block_inv_load files db :
  load_parameters files init = Ok db ->
  last_block_inv (dedup (load_sources files)) (last_block db).
Proof.
  apply (@load_parameters_invariant
           (fun pre db => last_block_inv pre (last_block db))).
  - intros pre k v db1 db2 _. apply load_step_last_block.
  - split; [constructor|]. intros b. split; [intros []|].
    intros (k & v & [] & _).
Qed.

Lemma dmem_true {K V : Type} `{EqDec K} (k : K) (d : dict K V) :
  dmem k d = true <-> In k (dkeys d).
Proof.
  unfold dmem. destruct (dget k d) as [v|] eqn:G.
  - split; [intros _; eapply dget_in_keys; exact G | reflexivity].
  - split; [discriminate|]. intros I. apply dget_none in G. contradiction.
Qed.

Lemma load_step_tables keys pre k v db db' :
  tables_inv pre (data db) ->
  load_step keys (List.length pre) k v db = Ok db' ->
  tables_inv (pre ++ [(k, v)]) (data db').
Proof.
  intros [ND Inv] E.
  destruct (@load_step_meta _ _ _ _ _ _ E)
    as (tbl & sname & ret & Xe & _ & _ & _ & _ & K).
  unfold tables_inv. rewrite K. destruct (dmem tbl (data db)) eqn:M.
  - apply dmem_true in M. split; [exact ND|]. intros t. rewrite Inv. split.
    + intros (k1 & v1 & I & H). exists k1, v1.
      split; [apply in_or_app; left; exact I | exact H].
    + intros (k1 & v1 & I & H). apply in_app_or in I.
      destruct I as [I|[I|[]]]; [exists k1, v1; tauto|].
      inversion I; subst. apply Inv. congruence.
  - assert (N : ~ In tbl (dkeys (data db))).
    { intros I. apply dmem_true in I. congruence. }
    split.
    + apply NoDup_app; [exact ND | repeat constructor; intros [] |].
      intros x Ix [<-|[]]. exact (N Ix).
    + intros t. rewrite in_app_iff, Inv. split.
      * intros [(k1 & v1 & I & H)|[<-|[]]].
        -- exists k1, v1. split; [apply in_or_app; left; exact I | exact H].
        -- exists k, v. split; [apply in_or_app; right; left; reflexivity|].
           exact Xe.
      * intros (k1 & v1 & I & H). apply in_app_or in I.
        destruct I as [I|[I|[]]]; [left; exists k1, v1; tauto|].
        inversion I; subst. right. left. congruence.
Qed.

Lemma tables_inv_load files db :
  load_parameters files init = Ok db ->
  tables_inv (dedup (load_sources files)) (data db).
Proof.
  apply (@load_parameters_invariant
           (fun pre db => tables_inv pre (data db))).
  - intros pre k v db1 db2 _. apply load_step_tables.
  - split; [constructor|]. intros t. split; [intros []|].
    intros (k & v & [] & _).
Qed.

(** What every ingested item has: a table, a step name that is a string
    and a key with a return id. *)
Lemma load_parameters_items files db :
  load_parameters files init = Ok db ->
  forall k v, In (k, v) (dedup (load_sources files)) ->
    exists tbl sname ret,
      dget "exec" v = Some tbl /\ dget "step_name" v = Some (VStr sname) /\
      key_return k = Ok ret.
Proof.
  intros E.
  apply (@load_parameters_invariant
           (fun pre _ => forall k v, In (k, v) pre ->
              exists tbl sname ret,
                dget "exec" v = Some tbl /\
                dget "step_name" v = Some (VStr sname) /\
                key_return k = Ok ret) files db); [| intros k v [] | exact E].
  intros pre k v db1 db2 _ Hp St k1 v1 I. apply in_app_or in I.
  destruct I as [I|[I|[]]]; [exact (Hp _ _ I)|].
  inversion I; subst.
  destruct (@load_step_meta _ _ _ _ _ _ St)
    as (tbl & sname & ret & H1 & H2 & H3 & _).
  exists tbl, sname, ret. tauto.
Qed.

(** ** Finding the block of a table *)

Lemma find_block_loop_ok g ks t b :
  find_block_loop g ks t = Ok b ->
  exists p members,
    nth_error ks p = Some b /\ dget b g = Some members /\ In t members /\
    forall p' b' members',
      (p' < p)%nat -> nth_error ks p' = Some b' ->
      dget b' g = Some members' -> ~ In t members'.
Proof.
  revert b. induction ks as [|k ks IH]; intros b E; simpl in E;
    [discriminate|].
  bind_as E members Xm. apply getitem_ok in Xm.
  destruct (mem t members) eqn:M.
  - inversion E; subst. apply mem_true in M. exists 0%nat, members.
    repeat split; try assumption. intros p' b' members' L. lia.
  - apply mem_false in M.
    destruct (IH _ E) as (p & ms & H1 & H2 & H3 & H4).
    exists (S p), ms. repeat split; try assumption.
    intros [|p'] b' members' L G D; simpl in G.
    + inversion G; subst. congruence.
    + apply (H4 p' b' members'); [lia | exact G | exact D].
Qed.

Lemma find_block_loop_raise g ks t e :
  (forall k, In k ks -> In k (dkeys g)) ->
  find_block_loop g ks t = Raise e ->
  e = ResultDBError (block_msg t) /\
  forall k members, In k ks -> dget k g = Some members -> ~ In t members.
Proof.
  induction ks as [|k ks IH]; intros Sub E; simpl in E.
  - inversion E. split; [reflexivity|]. intros k members [].
  - destruct (in_keys_dget _ _ (Sub k (or_introl eq_refl))) as [ms G].
    unfold getitem in E. rewrite G in E. cbn [bind] in E.
    destruct (mem t ms) eqn:M; [discriminate|]. apply mem_false in M.
    destruct (IH (fun k' I => Sub k' (or_intror I)) E) as [-> A].
    split; [reflexivity|]. intros k' members [<-|I] D.
    + congruence.
    + exact (A k' members I D).
Qed.

Lemma find_block_loop_absent g ks t :
  (forall k, In k ks -> In k (dkeys g)) ->
  (forall k members, In k ks -> dget k g = Some members -> ~ In t members) ->
  find_block_loop g ks t = Raise (ResultDBError (block_msg t)).
Proof.
  intros Sub A. destruct (find_block_loop g ks t) as [b|e] eqn:E.
  - destruct (@find_block_loop_ok _ _ _ _ E) as (p & ms & H1 & H2 & H3 & _).
    exfalso. exact (A b ms (nth_error_In _ _ H1) H2 H3).
  - destruct (@find_block_loop_raise _ _ _ _ Sub E) as [-> _]. reflexivity.
Qed.

Lemma find_block_member g t b members :
  dget b g = Some members -> In t members ->
  exists b' members',
    find_block g t = Ok b' /\ dget b' g = Some members' /\ In t members'.
Proof.
  intros G I. unfold find_block.
  destruct (find_block_loop g (dkeys g) t) as [b'|e] eqn:E.
  - destruct (@find_block_loop_ok _ _ _ _ E) as (p & ms & _ & H2 & H3 & _).
    exists b', ms. tauto.
  - destruct (@find_block_loop_raise g (dkeys g) t _ (fun k I => I) E)
      as [_ A].
    exfalso. exact (A b members (dget_in_keys _ _ G) G I).
Qed.

(** X1.  [__find_block] has two outcomes.  It returns the first block,
    in the order of [self.groups], whose list holds the step; and it
    raises the error of line 102, which names the step, exactly when no
    block lists the step. *)
Theorem find_block_first_or_error :
  forall g t,
    (forall b, find_block g t = Ok b ->
       exists p members,
         nth_error (dkeys g) p = Some b /\
         dget b g = Some members /\ In t members /\
         forall p' b' members',
           (p' < p)%nat -> nth_error (dkeys g) p' = Some b' ->
           dget b' g = Some members' -> ~ In t members') /\
    (forall e, find_block g t = Raise e ->
       e = ResultDBError (block_msg t) /\
       mentions (str_of_value t) (block_msg t)) /\
    ((exists b, find_block g t = Ok b) <->
     (exists b members, dget b g = Some members /\ In t members)).
Proof.
  intros g t. split; [|split].
  - intros b E. apply find_block_loop_ok. exact E.
  - intros e E.
    destruct (@find_block_loop_raise g (dkeys g) t _ (fun k I => I) E)
      as [-> _].
    split; [reflexivity | apply mentions_middle].
  - split.
    + intros [b E].
      destruct (@find_block_loop_ok _ _ _ _ E) as (p & ms & _ & H2 & H3 & _).
      exists b, ms. tauto.
    + intros (b & ms & G & I).
      destruct (@find_block_member _ _ _ _ G I) as (b' & _ & E & _).
      exists b'. exact E.
Qed.

(** X2.  After a successful ingestion the blocks of [self.groups] are
    pairwise distinct, a block lists without repetition exactly the
    tables of the ingested items of the block, and every table of the
    store is listed by a block, so that [__find_block] returns for it a
    block that lists it. *)
Theorem groups_list_tables_of_blocks :
  forall files db,
    load_parameters files init = Ok db ->
    NoDup (dkeys (groups db)) /\
    (forall b members, dget b (groups db) = Some members -> NoDup members) /\
    (forall b t,
        (exists members, dget b (groups db) = Some members /\ In t members)
        <-> (exists k v, In (k, v) (dedup (load_sources files)) /\
                         dget "exec" v = Some t /\ block_of v = Some b)) /\
    (forall t, In t (dkeys (data db)) ->
       exists b members,
         find_block (groups db) t = Ok b /\
         dget b (groups db) = Some members /\ In t members).
Proof.
  intros files db E.
  destruct (@groups_inv_load _ _ E) as [ND Inv].
  assert (Iff : forall b t,
      (exists members, dget b (groups db) = Some members /\ In t members)
      <-> (exists k v, In (k, v) (dedup (load_sources files)) /\
                       dget "exec" v = Some t /\ block_of v = Some b)).
  { intros b t. specialize (Inv b).
    destruct (dget b (groups db)) as [m|].
    - destruct Inv as [_ Im]. rewrite <- Im. split.
      + intros (m' & Em & I). inversion Em; subst. exact I.
      + intros I. exists m. tauto.
    - split.
      + intros (m' & Em & _). discriminate.
      + intros (k & v & I & _ & B). exfalso. exact (Inv k v I B). }
  split; [exact ND|]. split; [|split; [exact Iff|]].
  - intros b members G. specialize (Inv b). rewrite G in Inv. tauto.
  - intros t I. destruct (@tables_inv_load _ _ E) as [_ T].
    apply T in I. destruct I as (k & v & I & Xe).
    destruct (@load_parameters_items _ _ E _ _ I)
      as (tbl & sname & ret & _ & Xs & _).
    destruct (proj2 (Iff (hd "" (split underscore sname)) t))
      as (m & G & Im).
    { exists k, v. split; [exact I|]. split; [exact Xe|].
      apply block_of_step_name. exact Xs. }
    exact (@find_block_member _ _ _ _ G Im).
Qed.

Lemma groups_list_tables_of_blocks_witness :
  load_parameters [source_chain] init
  = Ok (mkDB store_chain ["est"] [("sim", [VStr "A"]); ("est", [VStr "B"])])
  /\ (forall t, In t (dkeys store_chain) ->
        exists b members,
          find_block [("sim", [VStr "A"]); ("est", [VStr "B"])] t = Ok b /\
          dget b [("sim", [VStr "A"]); ("est", [VStr "B"])] = Some members /\
          In t members).
Proof.
  split; [reflexivity|].
  apply (@groups_list_tables_of_blocks [source_chain]
           (mkDB store_chain ["est"]
              [("sim", [VStr "A"]); ("est", [VStr "B"])]) eq_refl).
Defined.

(** X3.  After a successful ingestion [self.last_block] holds, without
    repetition, exactly the blocks of the ingested items whose step is the
    last one of its sequence; each of them is a block of [self.groups]
    that lists a table, so the lookup of line 134 finds it. *)
Theorem last_block_terminal_blocks :
  forall files db,
    load_parameters files init = Ok db ->
    NoDup (last_block db) /\
    (forall b, In b (last_block db) <->
               exists k v, In (k, v) (dedup (load_sources files)) /\
                           block_of v = Some b /\ ends_sequence v) /\
    (forall b, In b (last_block db) ->
       exists steps, getitem b (groups db) = Ok steps /\ steps <> []).
Proof.
  intros files db E.
  destruct (@last_block_inv_load _ _ E) as [ND Inv].
  split; [exact ND|]. split; [exact Inv|].
  intros b I. apply Inv in I. destruct I as (k & v & I & B & _).
  destruct (@load_parameters_items _ _ E _ _ I) as (tbl & sname & ret & Xe & _).
  destruct (@groups_inv_load _ _ E) as [_ G]. specialize (G b).
  destruct (dget b (groups db)) as [m|] eqn:D.
  - exists m. split; [apply getitem_ok; exact D|].
    intros ->. destruct G as [_ Im].
    apply (proj2 (Im tbl)). exists k, v. tauto.
  - exfalso. exact (G k v I B).
Qed.

Lemma last_block_terminal_blocks_witness :
  load_parameters [source_chain] init
  = Ok (mkDB store_chain ["est"] [("sim", [VStr "A"]); ("est", [VStr "B"])])
  /\ (forall b, In b ["est"] <->
                exists k v, In (k, v) (dedup (load_sources [source_chain])) /\
                            block_of v = Some b /\ ends_sequence v).
Proof.
  split; [reflexivity|].
  apply (@last_block_terminal_blocks [source_chain]
           (mkDB store_chain ["est"]
              [("sim", [VStr "A"]); ("est", [VStr "B"])]) eq_refl).
Defined.

(** ** Ingestion: the step ids and the fields of the records *)

Lemma records_of_position t items : forall n i1 i2 j k1 k2,
  nth_error (records_of t items n) i1 = Some (j, k1) ->
  nth_error (records_of t items n) i2 = Some (j, k2) ->
  i1 = i2.
Proof.
  induction items as [|[k0 v0] items IH]; intros n i1 i2 j k1 k2 E1 E2;
    simpl in E1, E2; [destruct i1; discriminate|].
  destruct (dget "exec" v0) as [t'|]; [|eapply IH; eassumption].
  destruct (eq_dec t' t); [|eapply IH; eassumption].
  destruct i1 as [|i1], i2 as [|i2]; simpl in E1, E2.
  - reflexivity.
  - inversion E1; subst.
    destruct (@records_of_in _ _ _ _ _ (nth_error_In _ _ E2)) as [L _]. lia.
  - inversion E2; subst.
    destruct (@records_of_in _ _ _ _ _ (nth_error_In _ _ E1)) as [L _]. lia.
  - f_equal. eapply IH; eassumption.
Qed.

Lemma table_before_lengths keys pre d tbl v :
  store_inv keys pre d ->
  (dget tbl d = None ->
   forall c xs, dget c (table_before tbl v d) = Some xs -> xs = []) ->
  forall c xs, dget c (table_before tbl v d) = Some xs ->
    List.length xs = List.length (records_of tbl pre 0).
Proof.
  intros [I1 I2] Emp c xs G. unfold table_before in *.
  destruct (dget tbl d) as [cols|] eqn:D.
  - destruct (I1 _ _ D) as (_ & _ & _ & _ & L). exact (L _ _ G).
  - rewrite (Emp eq_refl _ _ G), (I2 _ D). reflexivity.
Qed.

(** One turn of the loop of line 57 appends to the column of every field
    of the record that is not a bookkeeping field the value of the
    field. *)
Lemma load_step_fields keys idx k v db db' :
  NoDup (dkeys v) -> columns_distinct (data db) ->
  load_step keys idx k v db = Ok db' ->
  exists tbl T5,
    dget "exec" v = Some tbl /\
    dget tbl (data db') = Some T5 /\
    covered (rename_fields v) (table_before tbl v (data db)) /\
    forall c x,
      dget c (rename_fields v) = Some x ->
      not_in bookkeeping c = true ->
      exists xs, dget c (table_before tbl v (data db)) = Some xs /\
                 dget c T5 = Some (xs ++ [x]).
Proof.
  intros NDv CD E. unfold load_step in E. bind_as E p Eh.
  unfold record_head in Eh.
  bind_as Eh tbl Xexec. bind_as Eh sn Xsn. bind_as Eh sname Xsname.
  bind_as Eh g' Xg. bind_as Eh lb' Xlb. bind_as Eh d1 Xd1.
  bind_as Eh d2 Xd2. bind_as Eh cols Xc. bind_as Eh u1 Xr.
  bind_as Eh ret Xret. bind_as Eh d3 Xd3. bind_as Eh cols' Xc'.
  bind_as Eh u2 Xdp. inversion Eh; subst p; clear Eh.
  unfold record_tail in E. simpl in E.
  bind_as E dep Xdep. bind_as E d4 Xd4. bind_as E d5 Xd5.
  inversion E; subst db'; clear E. simpl.
  apply getitem_ok in Xexec.
  destruct (@rename_fields_spec _ NDv) as [NDv' NoSys].
  assert (In0 : forall c, In c (dkeys (rename_fields v)) ->
                          not_in bookkeeping c = true ->
                          In c (dkeys (table_before tbl v (data db)))).
  { intros c I B. unfold table_before, prepare_table in *.
    destruct (dget tbl (data db)) as [cols0|] eqn:G.
    - bind_as Xd1 u Xck. apply check_keys_ok in Xck.
      assert (F : In c (filter (not_in bookkeeping)
                               (dkeys (rename_fields v))))
        by (apply filter_In; tauto).
      apply (Permutation_in _ Xck) in F. apply filter_In in F. tauto.
    - rewrite new_table_fold.
      destruct (@new_columns_spec (dkeys (rename_fields v) ++ system_cols) [])
        as (_ & _ & H3); [constructor | discriminate |].
      apply H3. right. split; [apply in_or_app; left; exact I | exact B]. }
  destruct (@prepare_table_spec _ _ _ _ _ CD Xd1)
    as (T0 & ET0 & G1 & O1 & ND0 & Cov & Emp).
  assert (ET : table_before tbl v (data db) = T0)
    by (unfold table_before; symmetry; exact ET0).
  clear ET0. rewrite ET in *.
  destruct (@append_col_ok _ _ _ _ _ Xd2) as (Ta & ids & Ga & Ca & ->).
  rewrite G1 in Ga. inversion Ga; subst Ta. clear Ga.
  destruct (@append_col_ok _ _ _ _ _ Xd3) as (Tb & rets & Gb & Cb & ->).
  rewrite dget_dset_eq in Gb. inversion Gb; subst Tb. clear Gb.
  destruct (@append_col_ok _ _ _ _ _ Xd4) as (Tc & deps & Gc & Cc & ->).
  rewrite dget_dset_eq in Gc. inversion Gc; subst Tc. clear Gc.
  destruct (@append_attrs_spec _ _ _ _ _ Xd5 NDv' (@dget_dset_eq _ _ _ _ _ _))
    as (T5 & H1 & H2 & H3 & H4).
  exists tbl, T5. rewrite ET.
  split; [exact Xexec|]. split; [exact H1|]. split; [exact Cov|].
  intros c x Gx B.
  assert (Ic : In c (dkeys (rename_fields v)))
    by (eapply dget_in_keys; exact Gx).
  destruct (in_keys_dget _ _ (In0 c Ic B)) as [xs G0].
  exists xs. split; [exact G0|].
  assert (S : ~ In c system_cols) by (intros S; exact (NoSys c S Ic)).
  assert (N1 : "depends" <> c) by (intros <-; apply S; simpl; tauto).
  assert (N2 : "return" <> c) by (intros <-; apply S; simpl; tauto).
  assert (N3 : "step_id" <> c) by (intros <-; apply S; simpl; tauto).
  rewrite H4, Gx, B. rewrite !dget_dset_neq by assumption.
  rewrite G0. reflexivity.
Qed.

Lemma covered_keys v' (T T' : table) :
  dkeys T' = dkeys T -> covered v' T -> covered v' T'.
Proof. intros K C c I. apply C. rewrite <- K. exact I. Qed.

(** One turn of the loop keeps [fields_inv]. *)
Lemma load_step_fields_inv keys pre k v db db' :
  store_inv keys pre (data db) -> fields_inv pre (data db) ->
  NoDup (dkeys v) ->
  load_step keys (List.length pre) k v db = Ok db' ->
  fields_inv (pre ++ [(k, v)]) (data db').
Proof.
  intros Inv F NDv E.
  assert (CD := store_inv_distinct Inv).
  destruct (@load_step_effect _ _ _ _ _ _ NDv CD E)
    as (tbl & T5 & Xexec & G5 & Oth & ND0 & Emp & Ext).
  destruct (@load_step_fields _ _ _ _ _ _ NDv CD E)
    as (tbl' & T5' & Xexec' & G5' & Cov & Fld).
  rewrite Xexec in Xexec'. inversion Xexec'; subst tbl'. clear Xexec'.
  rewrite G5 in G5'. inversion G5'; subst T5'. clear G5'.
  assert (Len := @table_before_lengths _ _ _ tbl v Inv Emp).
  destruct Ext as (K & _ & _ & _ & All).
  intros t cols idx j k1 G R. rewrite records_of_snoc, Xexec in R.
  destruct (eq_dec tbl t) as [<-|N].
  - rewrite G5 in G. inversion G; subst cols. clear G.
    destruct (Nat.lt_ge_cases idx (List.length (records_of tbl pre 0)))
      as [L|L].
    + rewrite nth_error_app1 in R by exact L.
      destruct (dget tbl (data db)) as [cols0|] eqn:D.
      * assert (ET : table_before tbl v (data db) = cols0)
          by (unfold table_before; rewrite D; reflexivity).
        rewrite ET in *.
        destruct (F _ _ _ _ _ D R) as (v1 & En & Cov1 & Fl1).
        exists v1. split.
        { rewrite nth_error_app1; [exact En|].
          apply nth_error_Some. congruence. }
        split; [exact (covered_keys _ K Cov1)|].
        intros c x Gx B. destruct (Fl1 c x Gx B) as (xs & Gc & Ex).
        destruct (All _ _ Gc) as [x' Gc']. exists (xs ++ [x']).
        split; [exact Gc'|]. rewrite nth_error_app1; [exact Ex|].
        apply nth_error_Some. congruence.
      * destruct Inv as [_ I2]. rewrite (I2 _ D) in L. simpl in L. lia.
    + rewrite nth_error_app2 in R by exact L.
      destruct (idx - List.length (records_of tbl pre 0))%nat as [|n] eqn:Ei;
        [|destruct n; discriminate].
      simpl in R. inversion R; subst j k1. clear R.
      assert (Ex : idx = List.length (records_of tbl pre 0)) by lia.
      exists v. split.
      { rewrite nth_error_app2 by lia. rewrite Nat.sub_diag. reflexivity. }
      split; [exact (covered_keys _ K Cov)|].
      intros c x Gx B. destruct (Fld c x Gx B) as (xs & G0 & Gc).
      exists (xs ++ [x]). split; [exact Gc|].
      rewrite nth_error_app2 by (rewrite (Len _ _ G0); lia).
      rewrite (Len _ _ G0), Ex, Nat.sub_diag. reflexivity.
  - rewrite app_nil_r in R. rewrite (Oth t) in G by congruence.
    destruct (F _ _ _ _ _ G R) as (v1 & En & H).
    exists v1. split; [|exact H].
    rewrite nth_error_app1; [exact En|]. apply nth_error_Some. congruence.
Qed.

Lemma load_parameters_fields files db :
  blocks_ok (load_sources files) ->
  load_parameters files init = Ok db ->
  store_inv (dkeys (dedup (load_sources files)))
            (dedup (load_sources files)) (data db) /\
  fields_inv (dedup (load_sources files)) (data db).
Proof.
  intros B.
  assert (Bd := blocks_ok_dedup (load_sources_nodup files) B).
  apply (@load_parameters_invariant
           (fun pre db =>
              store_inv (dkeys (dedup (load_sources files))) pre (data db) /\
              fields_inv pre (data db))).
  - intros pre k v db1 db2 I [Inv F] E. split.
    + eapply load_step_inv; [exact Inv | exact (Bd k v I) | exact E].
    + eapply load_step_fields_inv;
        [exact Inv | exact F | exact (Bd k v I) | exact E].
  - split; [apply store_inv_init|]. intros t cols idx j k G. discriminate.
Qed.

Lemma Forall2_nth_l {A B : Type} (R : A -> B -> Prop) (l1 : list A) :
  forall (l2 : list B) i x,
    Forall2 R l1 l2 -> nth_error l1 i = Some x ->
    exists y, nth_error l2 i = Some y /\ R x y.
Proof.
  induction l1 as [|a l1 IH]; intros l2 i x F E; inversion F; subst.
  - destruct i; discriminate.
  - destruct i as [|i]; simpl in *.
    + inversion E; subst. eauto.
    + eapply IH; eassumption.
Qed.

(** X4.  After a successful ingestion the tables of the store are
    pairwise distinct and are the [exec] of the ingested items; the step
    id of the item at position [j] of the deduplicated source is [j + 1],
    it stands in the table of the [exec] of the item, every step id of
    the store is the one of such an item, and no step id stands at two
    places of the store.  The raw blocks are dictionaries. *)
Theorem step_ids_identify_records :
  forall files db,
    blocks_ok (load_sources files) ->
    load_parameters files init = Ok db ->
    NoDup (dkeys (data db)) /\
    (forall t, In t (dkeys (data db)) <->
               exists k v, In (k, v) (dedup (load_sources files)) /\
                           dget "exec" v = Some t) /\
    (forall j k v,
        nth_error (dedup (load_sources files)) j = Some (k, v) ->
        exists t cols ids idx,
          dget "exec" v = Some t /\ dget t (data db) = Some cols /\
          dget "step_id" cols = Some ids /\
          nth_error ids idx = Some (VInt (Z.of_nat j + 1))) /\
    (forall t cols ids idx s,
        dget t (data db) = Some cols -> dget "step_id" cols = Some ids ->
        nth_error ids idx = Some s ->
        exists j k v,
          s = VInt (Z.of_nat j + 1) /\
          nth_error (dedup (load_sources files)) j = Some (k, v) /\
          dget "exec" v = Some t) /\
    (forall t1 cols1 ids1 idx1 t2 cols2 ids2 idx2 s,
        dget t1 (data db) = Some cols1 -> dget "step_id" cols1 = Some ids1 ->
        nth_error ids1 idx1 = Some s ->
        dget t2 (data db) = Some cols2 -> dget "step_id" cols2 = Some ids2 ->
        nth_error ids2 idx2 = Some s ->
        t1 = t2 /\ idx1 = idx2).
Proof.
  intros files db B E.
  destruct (@tables_inv_load _ _ E) as [NDt Tab].
  destruct (load_parameters_inv files B E) as [I1 I2].
  set (items := dedup (load_sources files)) in *.
  assert (Pos : forall t cols ids idx s,
             dget t (data db) = Some cols -> dget "step_id" cols = Some ids ->
             nth_error ids idx = Some s ->
             exists j k v,
               s = VInt (Z.of_nat j + 1) /\
               nth_error (records_of t items 0) idx = Some (j, k) /\
               nth_error items j = Some (k, v) /\ dget "exec" v = Some t).
  { intros t cols ids idx s G Gi Ei.
    destruct (I1 _ _ G) as (_ & A & _). rewrite Gi in A.
    inversion A; subst ids. clear A. rewrite nth_error_map in Ei.
    destruct (nth_error (records_of t items 0) idx) as [[j k]|] eqn:Er;
      [|discriminate].
    simpl in Ei. inversion Ei; subst s.
    destruct (@records_of_in _ _ _ _ _ (nth_error_In _ _ Er))
      as (_ & v & En & Xe).
    rewrite Nat.sub_0_r in En. exists j, k, v. tauto. }
  split; [exact NDt|]. split; [exact Tab|]. split; [|split].
  - intros j k v En.
    unfold load_parameters, load_data in E.
    destruct (@load_loop_exec _ _ _ _ _ E k v (nth_error_In _ _ En))
      as [t Xe].
    assert (Ir := @records_of_complete t _ 0%nat j k v En Xe). simpl in Ir.
    destruct (dget t (data db)) as [cols|] eqn:G.
    + destruct (I1 _ _ G) as (_ & A & _).
      destruct (In_nth_error _ _ Ir) as [idx Ex].
      exists t, cols. eexists. exists idx.
      split; [exact Xe|]. split; [exact G|]. split; [exact A|].
      rewrite nth_error_map. fold items. rewrite Ex. reflexivity.
    + fold items in Ir. rewrite (I2 _ G) in Ir. contradiction.
  - intros t cols ids idx s G Gi Ei.
    destruct (Pos _ _ _ _ _ G Gi Ei) as (j & k & v & H1 & _ & H3 & H4).
    exists j, k, v. tauto.
  - intros t1 cols1 ids1 idx1 t2 cols2 ids2 idx2 s G1 Gi1 E1 G2 Gi2 E2.
    destruct (Pos _ _ _ _ _ G1 Gi1 E1) as (j1 & k1 & v1 & S1 & R1 & N1 & X1).
    destruct (Pos _ _ _ _ _ G2 Gi2 E2) as (j2 & k2 & v2 & S2 & R2 & N2 & X2).
    assert (Ej : j1 = j2) by (rewrite S1 in S2; inversion S2; lia).
    subst j2. rewrite N1 in N2. inversion N2; subst k2 v2.
    rewrite X1 in X2. inversion X2; subst t2. split; [reflexivity|].
    eapply records_of_position; eassumption.
Qed.

Lemma step_ids_identify_records_witness :
  blocks_ok (load_sources [source_chain]) /\
  load_parameters [source_chain] init
  = Ok (mkDB store_chain ["est"] [("sim", [VStr "A"]); ("est", [VStr "B"])])
  /\ NoDup (dkeys store_chain) /\
  (forall t, In t (dkeys store_chain) <->
             exists k v, In (k, v) (dedup (load_sources [source_chain])) /\
                         dget "exec" v = Some t).
Proof.
  split; [exact source_chain_blocks_ok|]. split; [reflexivity|].
  destruct (@step_ids_identify_records [source_chain]
              (mkDB store_chain ["est"]
                 [("sim", [VStr "A"]); ("est", [VStr "B"])])
              source_chain_blocks_ok eq_refl) as (H1 & H2 & _).
  split; [exact H1 | exact H2].
Defined.

(** X5.  What is ingested can be read back.  After a successful
    ingestion the item at position [j] of the deduplicated source has a
    row in the table of its [exec]: at one position the [step_id] column
    holds [j + 1], the [return] column the return id of the key, the
    [depends] column the resolved dependency of the key, and the column
    of every field of the item that is not a bookkeeping field (a field
    named like a system column under its dotted name) holds the value of
    the field; the table has no other column than these and the system
    columns.  The raw blocks are dictionaries. *)
Theorem ingested_record_fields :
  forall files db j k v,
    blocks_ok (load_sources files) ->
    load_parameters files init = Ok db ->
    nth_error (dedup (load_sources files)) j = Some (k, v) ->
    exists t cols idx ids rets deps ret dep,
      dget "exec" v = Some t /\ dget t (data db) = Some cols /\
      dget "step_id" cols = Some ids /\
      nth_error ids idx = Some (VInt (Z.of_nat j + 1)) /\
      dget "return" cols = Some rets /\ key_return k = Ok ret /\
      nth_error rets idx = Some (VStr ret) /\
      dget "depends" cols = Some deps /\
      depends_of (dkeys (dedup (load_sources files))) (split underscore k)
      = Ok dep /\
      nth_error deps idx = Some dep /\
      (forall c x,
          dget c (rename_fields v) = Some x ->
          not_in bookkeeping c = true ->
          exists xs, dget c cols = Some xs /\ nth_error xs idx = Some x) /\
      (forall c xs,
          dget c cols = Some xs -> ~ In c system_cols ->
          exists x, dget c (rename_fields v) = Some x /\
                    not_in bookkeeping c = true /\
                    nth_error xs idx = Some x).
Proof.
  intros files db j k v B E En.
  destruct (load_parameters_fields files B E) as [[I1 I2] F].
  set (items := dedup (load_sources files)) in *.
  assert (E' := E). unfold load_parameters, load_data in E'.
  destruct (@load_loop_exec _ _ _ _ _ E' k v (nth_error_In _ _ En))
    as [t Xe].
  assert (Ir := @records_of_complete t _ 0%nat j k v En Xe). simpl in Ir.
  destruct (dget t (data db)) as [cols|] eqn:G;
    [|rewrite (I2 _ G) in Ir; contradiction].
  destruct (In_nth_error _ _ Ir) as [idx Ex].
  destruct (I1 _ _ G) as (_ & A & (rets & Br & FB) & (deps & Cd & FC) & _).
  destruct (@Forall2_nth_l _ _ _ _ _ _ _ FB Ex) as (r & Er & s & Ks & ->).
  destruct (@Forall2_nth_l _ _ _ _ _ _ _ FC Ex) as (dep & Ed & Kd).
  simpl in Ks, Kd.
  destruct (F _ _ _ _ _ G Ex) as (v1 & En1 & Cov & Fl).
  rewrite En in En1. inversion En1; subst v1. clear En1.
  exists t, cols, idx. eexists. exists rets, deps, s, dep.
  split; [exact Xe|]. split; [exact G|]. split; [exact A|].
  split; [rewrite nth_error_map, Ex; reflexivity|].
  split; [exact Br|]. split; [exact Ks|]. split; [exact Er|].
  split; [exact Cd|]. split; [exact Kd|]. split; [exact Ed|].
  split; [exact Fl|].
  intros c xs Gc S.
  destruct (Cov c (dget_in_keys _ _ Gc)) as [S'|[I Bk]]; [contradiction|].
  destruct (in_keys_dget _ _ I) as [x Gx].
  destruct (Fl c x Gx Bk) as (xs' & Gc' & Ex').
  rewrite Gc in Gc'. inversion Gc'; subst xs'.
  exists x. tauto.
Qed.

Lemma ingested_record_fields_witness :
  blocks_ok (load_sources [source_chain]) /\
  load_parameters [source_chain] init
  = Ok (mkDB store_chain ["est"] [("sim", [VStr "A"]); ("est", [VStr "B"])])
  /\ nth_error (dedup (load_sources [source_chain])) 1 = Some ("2_b_a", raw_B)
  /\ exists t cols idx ids rets deps ret dep,
      dget "exec" raw_B = Some t /\ dget t store_chain = Some cols /\
      dget "step_id" cols = Some ids /\
      nth_error ids idx = Some (VInt (Z.of_nat 1 + 1)) /\
      dget "return" cols = Some rets /\ key_return "2_b_a" = Ok ret /\
      nth_error rets idx = Some (VStr ret) /\
      dget "depends" cols = Some deps /\
      depends_of (dkeys (dedup (load_sources [source_chain])))
                 (split underscore "2_b_a") = Ok dep /\
      nth_error deps idx = Some dep /\
      (forall c x,
          dget c (rename_fields raw_B) = Some x ->
          not_in bookkeeping c = true ->
          exists xs, dget c cols = Some xs /\ nth_error xs idx = Some x) /\
      (forall c xs,
          dget c cols = Some xs -> ~ In c system_cols ->
          exists x, dget c (rename_fields raw_B) = Some x /\
                    not_in bookkeeping c = true /\
                    nth_error xs idx = Some x).
Proof.
  split; [exact source_chain_blocks_ok|]. split; [reflexivity|].
  split; [reflexivity|].
  apply (@ingested_record_fields [source_chain]
           (mkDB store_chain ["est"]
              [("sim", [VStr "A"]); ("est", [VStr "B"])])
           1%nat "2_b_a" raw_B source_chain_blocks_ok eq_refl eq_refl).
Defined.

(** X6.  An item of the deduplicated source without an [exec], with a
    [step_name] that is not a string, or with a key that has no return
    id (no [_] in it) is never ingested: [load_parameters] and [Build]
    do not return. *)
Theorem incomplete_item_not_ingested :
  forall name isfile load_rds fuel files k v,
    In (k, v) (dedup (load_sources files)) ->
    dget "exec" v = None \/
    (forall s, dget "step_name" v <> Some (VStr s)) \/
    (List.length (split underscore k) < 2)%nat ->
    (forall db, load_parameters files init <> Ok db) /\
    (forall out, Build name isfile load_rds fuel files <> Ok out).
Proof.
  intros name isfile load_rds fuel files k v I C.
  assert (N : forall db, load_parameters files init <> Ok db).
  { intros db E.
    destruct (@load_parameters_items _ _ E _ _ I)
      as (tbl & sname & ret & H1 & H2 & H3).
    destruct C as [C|[C|C]].
    - congruence.
    - exact (C sname H2).
    - apply getidx_ok in H3.
      assert (L : (1 < List.length (split underscore k))%nat)
        by (apply nth_error_Some; congruence).
      lia. }
  split; [exact N|]. intros out E.
  destruct (@Build_load_ok _ _ _ _ _ _ E) as [db Ed]. exact (N db Ed).
Qed.

Lemma incomplete_item_not_ingested_witness :
  In ("a", raw_A) (dedup (load_sources [[("a", raw_A)]])) /\
  (forall db, load_parameters [[("a", raw_A)]] init <> Ok db) /\
  (forall out, Build "db" no_file rds_of_b 2 [[("a", raw_A)]] <> Ok out).
Proof.
  split; [left; reflexivity|].
  apply (@incomplete_item_not_ingested "db" no_file rds_of_b 2%nat
           [[("a", raw_A)]] "a" raw_A (or_introl eq_refl)).
  right. right. simpl. lia.
Defined.

(** ** Ingestion: sources that are ingested *)

Lemma search_loop_total x : forall ks ii,
  (forall kk, In kk ks -> exists r, key_return kk = Ok r) ->
  exists res,
    search_loop x ii ks = Ok res /\
    ((exists kk, In kk ks /\ key_return kk = Ok x) -> res <> None).
Proof.
  induction ks as [|kk ks IH]; intros ii A; simpl.
  - exists None. split; [reflexivity|]. intros (kk & [] & _).
  - destruct (A kk (or_introl eq_refl)) as [r Er]. rewrite Er. cbn [bind].
    destruct (eq_dec r x) as [->|N].
    + eexists. split; [reflexivity | discriminate].
    + destruct (IH (S ii) (fun kk' I => A kk' (or_intror I)))
        as (res & E & H).
      exists res. split; [exact E|].
      intros (kk' & [<-|I] & Ek); [congruence|].
      apply H. exists kk'. tauto.
Qed.

Lemma search_dependent_index_total keys x :
  (forall kk, In kk keys -> exists r, key_return kk = Ok r) ->
  (exists kk, In kk keys /\ key_return kk = Ok x) ->
  exists z, search_dependent_index keys x = Ok z.
Proof.
  intros A B. unfold search_dependent_index.
  destruct (@search_loop_total x keys 0 A) as (res & E & H).
  rewrite E. cbn [bind]. destruct res as [z|]; [eauto|].
  exfalso. exact (H B eq_refl).
Qed.

Lemma depends_of_total keys k :
  (forall kk, In kk keys -> exists r, key_return kk = Ok r) ->
  ((2 < List.length (split underscore k))%nat ->
   exists kk, In kk keys /\ key_return kk = Ok (key_last k)) ->
  exists dep, depends_of keys (split underscore k) = Ok dep.
Proof.
  intros A B. unfold depends_of.
  destruct (2 <? List.length (split underscore k))%nat eqn:L.
  - apply Nat.ltb_lt in L.
    destruct (@search_dependent_index_total keys _ A (B L)) as [z E].
    rewrite E. cbn [bind]. eauto.
  - eauto.
Qed.

Lemma add_last_block_total b v lb s q :
  dget "step_name" v = Some (VStr s) ->
  dget "sequence_name" v = Some (VStr q) ->
  exists lb', add_last_block b v lb = Ok lb'.
Proof.
  intros Xs Xq. unfold add_last_block, getitem.
  destruct (mem b lb); [eauto|]. rewrite Xs, Xq. cbn [bind as_str].
  destruct (eq_dec _ _); eauto.
Qed.

Lemma append_col_total t c x d (T : table) xs :
  dget t d = Some T -> dget c T = Some xs ->
  append_col t c x d = Ok (dset t (dset c (xs ++ [x]) T) d).
Proof.
  intros G C. unfold append_col, getitem. rewrite G. cbn [bind].
  rewrite C. reflexivity.
Qed.

Lemma append_attrs_total t items : forall d (T : table),
  dget t d = Some T ->
  (forall c, In c (dkeys items) -> not_in bookkeeping c = true ->
             In c (dkeys T)) ->
  exists d', append_attrs t items d = Ok d'.
Proof.
  induction items as [|[k1 v1] items IH]; intros d T G A; simpl.
  - eauto.
  - destruct (not_in bookkeeping k1) eqn:B.
    + destruct (in_keys_dget _ _ (A k1 (or_introl eq_refl) B)) as [xs C].
      rewrite (@append_col_total t k1 v1 d T xs G C). cbn [bind].
      apply (IH _ (dset k1 (xs ++ [v1]) T)); [apply dget_dset_eq|].
      intros c I Bc. apply in_keys_dset. right.
      apply A; [right; exact I | exact Bc].
    + apply (IH _ T G). intros c I Bc. apply A; [right; exact I | exact Bc].
Qed.

(** The table made for a record has, system columns apart, the fields of
    the record. *)
Lemma new_table_fields v' :
  NoDup (dkeys v') ->
  (forall x, In x system_cols -> ~ In x (dkeys v')) ->
  Permutation (filter (not_in bookkeeping) (dkeys v'))
              (filter (not_in system_cols) (dkeys (new_table v'))).
Proof.
  intros ND NoSys.
  destruct (new_table_spec v') as (H1 & _).
  destruct (@new_columns_spec (dkeys v' ++ system_cols) [])
    as (_ & _ & H3); [constructor | discriminate |].
  rewrite <- new_table_fold in H3.
  apply NoDup_Permutation.
  - apply NoDup_filter. exact ND.
  - apply NoDup_filter. exact H1.
  - intros c. rewrite !filter_In, H3, in_app_iff. split.
    + intros [I B]. split; [right; tauto|]. apply not_in_true.
      intros S. exact (NoSys c S I).
    + intros [[[]|[[I|I] B]] S]; [tauto|].
      apply not_in_true in S. contradiction.
Qed.

(** A turn of the loop of line 57 returns for an item that has what the
    loop reads and whose fields are the columns of its table. *)
Lemma load_step_total keys pre k v db tbl s q r :
  store_inv keys pre (data db) ->
  NoDup (dkeys v) ->
  dget "exec" v = Some tbl ->
  dget "step_name" v = Some (VStr s) ->
  dget "sequence_name" v = Some (VStr q) ->
  key_return k = Ok r ->
  (forall kk, In kk keys -> exists r', key_return kk = Ok r') ->
  ((2 < List.length (split underscore k))%nat ->
   exists kk, In kk keys /\ key_return kk = Ok (key_last k)) ->
  (forall cols, dget tbl (data db) = Some cols ->
     Permutation (filter (not_in bookkeeping) (dkeys (rename_fields v)))
                 (filter (not_in system_cols) (dkeys cols))) ->
  exists db', load_step keys (List.length pre) k v db = Ok db'.
Proof.
  intros Inv NDv Xe Xs Xq Xr Keys Dep Fit.
  assert (CD := store_inv_distinct Inv).
  destruct (@rename_fields_spec _ NDv) as [NDv' NoSys].
  set (v' := rename_fields v) in *.
  set (idx := List.length pre).
  unfold load_step, record_head. unfold getitem at 1 2.
  rewrite Xe, Xs. cbn [bind as_str].
  destruct (add_group_spec (hd "" (split underscore s)) tbl (groups db))
    as (g' & m' & A1 & _).
  rewrite A1. cbn [bind].
  destruct (@add_last_block_total (hd "" (split underscore s)) v
              (last_block db) s q Xs Xq) as [lb' L].
  rewrite L. cbn [bind]. fold v'.
  assert (P : exists d1, prepare_table idx v' tbl (data db) = Ok d1).
  { unfold prepare_table. destruct (dget tbl (data db)) as [cols|] eqn:G.
    - rewrite (@check_keys_permutation idx v' cols (Fit cols eq_refl)).
      cbn [bind]. eauto.
    - eauto. }
  destruct P as [d1 P]. rewrite P. cbn [bind].
  destruct (@prepare_table_spec _ _ _ _ _ CD P)
    as (T0 & ET0 & G1 & _ & ND0 & _ & _).
  assert (Sys : forall c, In c system_cols -> exists xs, dget c T0 = Some xs).
  { intros c I. subst T0. destruct (dget tbl (data db)) as [cols|] eqn:G.
    - destruct Inv as [I1 _].
      destruct (I1 _ _ G) as (_ & A & (rets & B & _) & (deps & C & _) & _).
      destruct I as [<-|[<-|[<-|[]]]]; eauto.
    - destruct (new_table_spec v') as (_ & _ & _ & H4). eauto. }
  assert (Fld : forall c, In c (dkeys v') -> not_in bookkeeping c = true ->
                          In c (dkeys T0)).
  { intros c I B.
    assert (F : In c (filter (not_in bookkeeping) (dkeys v')))
      by (apply filter_In; tauto).
    assert (Pm : Permutation (filter (not_in bookkeeping) (dkeys v'))
                             (filter (not_in system_cols) (dkeys T0))).
    { subst T0. destruct (dget tbl (data db)) as [cols|] eqn:G.
      - exact (Fit cols eq_refl).
      - apply new_table_fields; assumption. }
    apply (Permutation_in _ Pm) in F. apply filter_In in F. tauto. }
  destruct (Sys "step_id") as [ids Ci]; [simpl; tauto|].
  destruct (Sys "return") as [rets Cr]; [simpl; tauto|].
  destruct (Sys "depends") as [deps Cd]; [simpl; tauto|].
  set (T1 := dset "step_id" (ids ++ [VInt (Z.of_nat idx + 1)]) T0).
  set (T2 := dset "return" (rets ++ [VStr r]) T1).
  assert (C1 : dget "return" T1 = Some rets)
    by (unfold T1; rewrite dget_dset_neq by discriminate; exact Cr).
  assert (C2 : dget "depends" T2 = Some deps)
    by (unfold T2, T1; rewrite !dget_dset_neq by discriminate; exact Cd).
  rewrite (@append_col_total tbl "step_id" _ d1 T0 ids G1 Ci). cbn [bind].
  fold T1. unfold getitem at 1. rewrite dget_dset_eq. cbn [bind].
  unfold getitem at 1. rewrite C1. cbn [bind]. rewrite Xr. cbn [bind].
  rewrite (@append_col_total tbl "return" (VStr r) (dset tbl T1 d1) T1 rets
             (@dget_dset_eq _ _ _ _ _ _) C1).
  cbn [bind]. fold T2. unfold getitem at 1. rewrite dget_dset_eq.
  cbn [bind]. unfold getitem at 1. rewrite C2. cbn [bind].
  unfold record_tail.
  cbn [p_key p_table p_data p_fields p_groups p_last_block].
  destruct (@depends_of_total keys k Keys Dep) as [dep Ed].
  rewrite Ed. cbn [bind].
  rewrite (@append_col_total tbl "depends" dep
             (dset tbl T2 (dset tbl T1 d1)) T2 deps
             (@dget_dset_eq _ _ _ _ _ _) C2).
  cbn [bind].
  destruct (@append_attrs_total tbl v'
              (dset tbl (dset "depends" (deps ++ [dep]) T2)
                 (dset tbl T2 (dset tbl T1 d1)))
              (dset "depends" (deps ++ [dep]) T2)
              (@dget_dset_eq _ _ _ _ _ _))
    as [d5 E5].
  { intros c I B. unfold T2, T1. do 3 (apply in_keys_dset; right).
    exact (Fld c I B). }
  rewrite E5. cbn [bind]. eauto.
Qed.

(** One turn of the loop keeps [cols_inv]. *)
Lemma load_step_cols_inv keys pre k v db db' :
  store_inv keys pre (data db) -> cols_inv pre (data db) ->
  NoDup (dkeys v) ->
  load_step keys (List.length pre) k v db = Ok db' ->
  cols_inv (pre ++ [(k, v)]) (data db').
Proof.
  intros Inv C NDv E.
  destruct (@load_step_effect _ _ _ _ _ _ NDv (store_inv_distinct Inv) E)
    as (tbl & T5 & Xexec & G5 & Oth & _ & _ & (K & _)).
  destruct (@rename_fields_spec _ NDv) as [NDv' NoSys].
  intros t cols G. destruct (eq_dec tbl t) as [<-|N].
  - rewrite G5 in G. inversion G; subst cols. clear G. rewrite K.
    unfold table_before. destruct (dget tbl (data db)) as [cols0|] eqn:D.
    + destruct (C _ _ D) as (k0 & v0 & I & H).
      exists k0, v0. split; [apply in_or_app; left; exact I | exact H].
    + exists k, v. split; [apply in_or_app; right; left; reflexivity|].
      split; [exact Xexec|]. apply new_table_fields; assumption.
  - rewrite (Oth t) in G by congruence.
    destruct (C _ _ G) as (k0 & v0 & I & H).
    exists k0, v0. split; [apply in_or_app; left; exact I | exact H].
Qed.

Lemma load_loop_total keys items : forall pre db,
  store_inv keys pre (data db) -> cols_inv pre (data db) ->
  (forall kk, In kk keys -> exists r, key_return kk = Ok r) ->
  (forall k v, In (k, v) items ->
     NoDup (dkeys v) /\
     (exists t, dget "exec" v = Some t) /\
     (exists s, dget "step_name" v = Some (VStr s)) /\
     (exists q, dget "sequence_name" v = Some (VStr q)) /\
     (exists r, key_return k = Ok r) /\
     ((2 < List.length (split underscore k))%nat ->
      exists kk, In kk keys /\ key_return kk = Ok (key_last k))) ->
  (forall k1 v1 k2 v2,
     In (k1, v1) (pre ++ items) -> In (k2, v2) (pre ++ items) ->
     dget "exec" v1 = dget "exec" v2 -> same_fields v1 v2) ->
  exists db', load_loop keys (List.length pre) items db = Ok db'.
Proof.
  induction items as [|[k v] items IH]; intros pre db Inv C Keys It Same;
    simpl; [eauto|].
  destruct (It k v (or_introl eq_refl))
    as (NDv & [t Xe] & [s Xs] & [q Xq] & [r Xr] & Dep).
  destruct (@load_step_total keys pre k v db t s q r Inv NDv Xe Xs Xq Xr
              Keys Dep) as [db1 E1].
  { intros cols G. destruct (C _ _ G) as (k0 & v0 & I0 & X0 & Pm).
    eapply Permutation_trans; [|exact Pm].
    apply (Same k v k0 v0).
    - apply in_or_app. right. left. reflexivity.
    - apply in_or_app. left. exact I0.
    - congruence. }
  rewrite E1. cbn [bind].
  replace (S (List.length pre)) with (List.length (pre ++ [(k, v)]))
    by (rewrite length_app; simpl; lia).
  apply IH.
  - eapply load_step_inv; eassumption.
  - eapply load_step_cols_inv; eassumption.
  - exact Keys.
  - intros k' v' I. apply It. right. exact I.
  - intros k1 v1 k2 v2 I1 I2. rewrite <- app_assoc in I1, I2.
    exact (Same k1 v1 k2 v2 I1 I2).
Qed.

(** X7.  A source that has what the loop of line 57 reads is ingested:
    when every item of the deduplicated source is a dictionary with an
    [exec] and with a [step_name] and a [sequence_name] that are strings,
    its key has a return id and names last, when it has more than two
    parts, the return id of some key, and the items of one [exec] have the
    same fields, [load_parameters] returns. *)
Theorem ingestible_source_is_ingested :
  forall files,
    ingestible (dedup (load_sources files)) ->
    exists db, load_parameters files init = Ok db.
Proof.
  intros files [It Same]. unfold load_parameters, load_data.
  apply (@load_loop_total _ _ [] init).
  - apply store_inv_init.
  - intros t cols G. discriminate.
  - intros kk I. apply in_map_iff in I. destruct I as ([k v] & <- & I).
    destruct (It k v I) as (_ & _ & _ & _ & R & _). exact R.
  - exact It.
  - exact Same.
Qed.

Lemma source_chain_ingestible :
  ingestible (dedup (load_sources [source_chain])).
Proof.
  split.
  - intros k v I. cbn in I. destruct I as [E|[E|[]]]; inversion E; subst.
    + split; [repeat constructor; simpl; intuition discriminate|].
      split; [eexists; reflexivity|]. split; [eexists; reflexivity|].
      split; [eexists; reflexivity|]. split; [eexists; reflexivity|].
      cbn. lia.
    + split; [repeat constructor; simpl; intuition discriminate|].
      split; [eexists; reflexivity|]. split; [eexists; reflexivity|].
      split; [eexists; reflexivity|]. split; [eexists; reflexivity|].
      intros _. exists "1_a". split; [left; reflexivity | reflexivity].
  - intros k1 v1 k2 v2 I1 I2. cbn in I1, I2.
    destruct I1 as [E1|[E1|[]]]; destruct I2 as [E2|[E2|[]]];
      inversion E1; inversion E2; subst;
      try (intros _; apply Permutation_refl); discriminate.
Qed.

Lemma ingestible_source_is_ingested_witness :
  ingestible (dedup (load_sources [source_chain])) /\
  exists db, load_parameters [source_chain] init = Ok db.
Proof.
  split; [exact source_chain_ingestible|].
  apply (@ingestible_source_is_ingested [source_chain]
           source_chain_ingestible).
Defined.

(** ** Chain resolution: the links of a chain *)

Lemma get_sequence_links fuel d :
  forall t i idx acc r,
    record_at d t i idx ->
    get_sequence fuel d t i idx acc = Ok r ->
    exists c,
      r = acc ++ (t, i) :: c /\
      (forall p, In p c -> exists idx', record_at d (fst p) (snd p) idx') /\
      (forall c1 a b c2, (t, i) :: c = c1 ++ a :: b :: c2 ->
                         depends_on d a b) /\
      (exists c' p, (t, i) :: c = c' ++ [p] /\ initial_record d p).
Proof.
  induction fuel as [|fuel IH]; intros t i idx acc r Rec E;
    [discriminate|].
  rewrite get_sequence_S in E.
  bind_as E cols Xc. bind_as E deps Xd. bind_as E x Xx.
  apply getitem_ok in Xc, Xd. apply getidx_ok in Xx.
  destruct Rec as (cols0 & ids & G0 & Gi & Ei).
  rewrite Xc in G0. inversion G0; subst cols0. clear G0.
  assert (End : x = VNone -> r = acc ++ [(t, i)] ->
            exists c,
              r = acc ++ (t, i) :: c /\
              (forall p, In p c ->
                 exists idx', record_at d (fst p) (snd p) idx') /\
              (forall c1 a b c2, (t, i) :: c = c1 ++ a :: b :: c2 ->
                                 depends_on d a b) /\
              (exists c' p, (t, i) :: c = c' ++ [p] /\ initial_record d p)).
  { intros -> ->. exists []. split; [reflexivity|].
    split; [intros p []|]. split.
    - intros [|a0 [|a1 c1]] a b c2 Ec; discriminate.
    - exists [], (t, i). split; [reflexivity|].
      exists cols, ids, deps, idx. simpl. tauto. }
  assert (Step : x <> VNone ->
            (found <- find_step d (dkeys d) x ;;
             match found with
             | None => Raise (ResultDBError (step_id_msg x))
             | Some (VNone, _) => Raise (ResultDBError (step_id_msg x))
             | Some (k, idx') =>
                 get_sequence fuel d k x idx' (acc ++ [(t, i)])
             end) = Ok r ->
            exists c,
              r = acc ++ (t, i) :: c /\
              (forall p, In p c ->
                 exists idx', record_at d (fst p) (snd p) idx') /\
              (forall c1 a b c2, (t, i) :: c = c1 ++ a :: b :: c2 ->
                                 depends_on d a b) /\
              (exists c' p, (t, i) :: c = c' ++ [p] /\ initial_record d p)).
  { intros Nx E'. bind_as E' found Xf.
    destruct found as [[k idx']|]; [|discriminate].
    destruct (@find_step_some _ _ _ _ _ Xf) as (_ & cols' & ids' & G' & Gi' & Ei').
    assert (Rec' : record_at d k x idx') by (exists cols', ids'; tauto).
    assert (E2 : get_sequence fuel d k x idx' (acc ++ [(t, i)]) = Ok r)
      by (destruct k; [discriminate E' | exact E' | exact E']).
    destruct (IH _ _ _ _ _ Rec' E2) as (c0 & -> & P1 & P2 & (c' & p & P3 & P4)).
    exists ((k, x) :: c0). split; [rewrite <- app_assoc; reflexivity|].
    split; [|split].
    - intros p0 [<-|I]; [exists idx'; exact Rec' | exact (P1 p0 I)].
    - intros [|a0 c1] a b c2 Ec; simpl in Ec.
      + inversion Ec; subst. exists cols, ids, deps, idx. simpl.
        do 5 (split; [assumption|]). split; [exact Nx|].
        exists idx'. exact Rec'.
      + inversion Ec; subst. eapply P2. eassumption.
    - exists ((t, i) :: c'), p. rewrite P3. split; [reflexivity | exact P4]. }
  destruct x as [|z|s].
  - apply End; [reflexivity|]. inversion E. reflexivity.
  - apply Step; [discriminate | exact E].
  - apply Step; [discriminate | exact E].
Qed.

(** X8.  A chain that [__get_sequence] returns for a record of the
    store is a path along [depends]: it starts with the record, all its
    elements are records of the store, every element depends on the one
    after it, and the last one is a record whose [depends] is [None]. *)
Theorem chain_follows_depends :
  forall fuel d t i idx c,
    record_at d t i idx ->
    get_sequence fuel d t i idx [] = Ok c ->
    (exists c', c = (t, i) :: c') /\
    (forall p, In p c -> exists idx', record_at d (fst p) (snd p) idx') /\
    (forall c1 a b c2, c = c1 ++ a :: b :: c2 -> depends_on d a b) /\
    (exists c' p, c = c' ++ [p] /\ initial_record d p).
Proof.
  intros fuel d t i idx c Rec E.
  destruct (@get_sequence_links _ _ _ _ _ _ _ Rec E)
    as (c0 & -> & P1 & P2 & P3).
  simpl. split; [eauto|]. split; [|split; [exact P2 | exact P3]].
  intros p [<-|I]; [exists idx; exact Rec | exact (P1 p I)].
Qed.

Lemma chain_follows_depends_witness :
  record_at store_chain (VStr "B") (VInt 2) 0 /\
  get_sequence 2 store_chain (VStr "B") (VInt 2) 0 []
  = Ok [(VStr "B", VInt 2); (VStr "A", VInt 1)] /\
  depends_on store_chain (VStr "B", VInt 2) (VStr "A", VInt 1) /\
  (exists c' p, [(VStr "B", VInt 2); (VStr "A", VInt 1)] = c' ++ [p] /\
                initial_record store_chain p).
Proof.
  assert (R : record_at store_chain (VStr "B") (VInt 2) 0).
  { do 2 eexists. repeat split; reflexivity. }
  split; [exact R|]. split; [reflexivity|].
  destruct (@chain_follows_depends 2 store_chain (VStr "B") (VInt 2) 0%nat
              [(VStr "B", VInt 2); (VStr "A", VInt 1)] R eq_refl)
    as (_ & _ & H3 & H4).
  split; [|exact H4].
  apply (H3 [] (VStr "B", VInt 2) (VStr "A", VInt 1) []). reflexivity.
Defined.

(** ** Chain resolution on an ingested store *)

Lemma store_inv_wf keys items d :
  store_inv keys items d -> ~ In VNone (dkeys d) -> wf_store d.
Proof.
  intros [I1 _] N. split; [exact N|]. intros t cols G.
  destruct (I1 _ _ G) as (_ & A & _ & (deps & C & FC) & _).
  eexists. exists deps. split; [exact A|]. split; [exact C|].
  rewrite length_map. eapply Forall2_length. exact FC.
Qed.

Lemma depends_of_cases keys ks x :
  depends_of keys ks = Ok x -> x = VNone \/ exists dz, x = VInt dz.
Proof.
  unfold depends_of. destruct (2 <? List.length ks)%nat.
  - intros E. bind_inv E. inversion E. eauto.
  - intros E. inversion E. tauto.
Qed.

(** The record at a position of a table of an ingested store. *)
Lemma store_inv_record keys items d t cols ids deps idx s x :
  store_inv keys items d ->
  dget t d = Some cols ->
  dget "step_id" cols = Some ids -> dget "depends" cols = Some deps ->
  nth_error ids idx = Some s -> nth_error deps idx = Some x ->
  exists j k v,
    s = VInt (Z.of_nat j + 1) /\ nth_error items j = Some (k, v) /\
    dget "exec" v = Some t /\
    depends_of keys (split underscore k) = Ok x.
Proof.
  intros [I1 _] G Gi Gd Ei Ed.
  destruct (I1 _ _ G) as (_ & A & _ & (deps' & C & FC) & _).
  rewrite Gi in A. inversion A; subst ids. clear A.
  rewrite Gd in C. inversion C; subst deps'. clear C.
  rewrite nth_error_map in Ei.
  destruct (nth_error (records_of t items 0) idx) as [[j k]|] eqn:Er;
    [|discriminate].
  simpl in Ei. inversion Ei; subst s.
  destruct (@records_of_in _ _ _ _ _ (nth_error_In _ _ Er))
    as (_ & v & En & Xe).
  rewrite Nat.sub_0_r in En.
  destruct (@Forall2_nth_l _ _ _ _ _ _ _ FC Er) as (y & Ey & Dy).
  rewrite Ed in Ey. inversion Ey; subst y.
  exists j, k, v. tauto.
Qed.

Lemma store_inv_decreasing items d :
  store_inv (dkeys items) items d -> backward (dkeys items) ->
  decreasing d.
Proof.
  intros Inv Bw t cols ids deps idx s x G Gi Gd Ei Ed Nx.
  destruct (@store_inv_record _ _ _ _ _ _ _ _ _ _ Inv G Gi Gd Ei Ed)
    as (j & k & v & -> & En & _ & Dep).
  destruct (depends_of_cases _ _ Dep) as [->|[dz ->]]; [congruence|].
  destruct (@depends_of_int _ _ _ Dep) as [L S].
  destruct (@search_dependent_index_ok _ _ _ S)
    as (p & kk & H1 & H2 & H3 & H4).
  assert (Ek : nth_error (dkeys items) j = Some k)
    by (unfold dkeys; rewrite nth_error_map, En; reflexivity).
  destruct (Bw j k Ek L) as (p0 & kk0 & L0 & E0 & R0).
  assert (Lp : (p <= p0)%nat).
  { destruct (Nat.le_gt_cases p p0) as [Le|Gt]; [exact Le|].
    exfalso. exact (H4 p0 kk0 Gt E0 R0). }
  exists (Z.of_nat j + 1)%Z, dz. split; [reflexivity|].
  split; [reflexivity | lia].
Qed.

Lemma store_inv_resolvable items d :
  store_inv (dkeys items) items d ->
  (forall k v, In (k, v) items -> exists t, dget "exec" v = Some t) ->
  forall x, depends_value d x -> x <> VNone -> ~ dangling d x.
Proof.
  intros Inv Ex x (t & cols & deps & idx & G & Gd & Ed) Nx Dg.
  assert (Inv' := Inv). destruct Inv' as [I1 I2].
  destruct (I1 _ _ G) as (_ & A & _ & (deps' & C & FC) & _).
  rewrite Gd in C. inversion C; subst deps'. clear C.
  destruct (@Forall2_nth_r _ _ _ _ _ idx _ FC Ed) as ([j k] & Er & Dep).
  simpl in Dep.
  destruct (depends_of_cases _ _ Dep) as [->|[dz ->]]; [congruence|].
  destruct (@depends_of_int _ _ _ Dep) as [L S].
  destruct (@search_dependent_index_ok _ _ _ S)
    as (p & kk & H1 & H2 & H3 & H4).
  unfold dkeys in H1. rewrite nth_error_map in H1.
  destruct (nth_error items p) as [[kk' vp]|] eqn:Ep; [|discriminate].
  simpl in H1. inversion H1; subst kk'. clear H1.
  destruct (Ex kk vp (nth_error_In _ _ Ep)) as [t' Xp].
  assert (Ir := @records_of_complete t' _ 0%nat p kk vp Ep Xp).
  simpl in Ir.
  destruct (dget t' d) as [cols'|] eqn:G'.
  - destruct (I1 _ _ G') as (_ & A' & _).
    apply (Dg t' cols' _ G' A'). rewrite H3.
    apply in_map_iff. exists (p, kk). split; [reflexivity | exact Ir].
  - rewrite (I2 _ G') in Ir. contradiction.
Qed.

Lemma get_sequence_resolves d :
  wf_store d -> decreasing d ->
  (forall x, depends_value d x -> x <> VNone -> ~ dangling d x) ->
  forall t i idx fuel,
    record_at d t i idx -> (List.length (all_ids d) <= fuel)%nat ->
    exists c, get_sequence fuel d t i idx [] = Ok ((t, i) :: c).
Proof.
  intros Wf Dec Res t i idx fuel Rec L.
  destruct (@get_sequence_terminates d Wf Dec (List.length (all_ids d))
              t i idx [] fuel Rec (rank_lt_length Rec) L)
    as [(c & p & E & _)|(x & _ & Nx & Dv & Dg)].
  - destruct (@get_sequence_acc _ _ _ _ _ _ _ E) as (c' & Ec & _).
    exists c'. rewrite E. f_equal. exact Ec.
  - exfalso. exact (Res x Dv Nx Dg).
Qed.

Lemma tables_named files db :
  load_parameters files init = Ok db ->
  (forall k v, In (k, v) (dedup (load_sources files)) ->
               dget "exec" v <> Some VNone) ->
  ~ In VNone (dkeys (data db)).
Proof.
  intros E N I. destruct (@tables_inv_load _ _ E) as [_ T].
  apply T in I. destruct I as (k & v & I & X). exact (N k v I X).
Qed.

(** X9.  When every key of the deduplicated source that has more than
    two parts names last the return id of a key before it, and no [exec]
    is [None], a successful ingestion leaves a record store in which
    chain resolution returns for every record: the tables are named and
    have parallel [step_id] and [depends] columns, every [depends] that is
    not [None] is less than the step id of its record and is the step id
    of a record, and [__get_sequence] returns a chain from every record
    under a recursion limit of the number of step ids.  The raw blocks
    are dictionaries. *)
Theorem backward_dependencies_resolve :
  forall files db,
    blocks_ok (load_sources files) ->
    load_parameters files init = Ok db ->
    (forall k v, In (k, v) (dedup (load_sources files)) ->
                 dget "exec" v <> Some VNone) ->
    backward (dkeys (dedup (load_sources files))) ->
    wf_store (data db) /\ decreasing (data db) /\
    (forall x, depends_value (data db) x -> x <> VNone ->
               ~ dangling (data db) x) /\
    (forall t i idx fuel,
        record_at (data db) t i idx ->
        (List.length (all_ids (data db)) <= fuel)%nat ->
        exists c, get_sequence fuel (data db) t i idx [] = Ok ((t, i) :: c)).
Proof.
  intros files db B E N Bw.
  assert (Inv := load_parameters_inv files B E).
  assert (Wf := store_inv_wf Inv (tables_named _ E N)).
  assert (Dec := store_inv_decreasing Inv Bw).
  assert (Res := store_inv_resolvable Inv
                   (fun k v I =>
                      match @load_parameters_items _ _ E k v I with
                      | ex_intro _ t (ex_intro _ _ (ex_intro _ _ (conj X _)))
                        => ex_intro _ t X
                      end)).
  split; [exact Wf|]. split; [exact Dec|]. split; [exact Res|].
  intros t i idx fuel. apply get_sequence_resolves; assumption.
Qed.

Lemma source_chain_backward :
  backward (dkeys (dedup (load_sources [source_chain]))).
Proof.
  intros j k E L. cbn in E.
  destruct j as [|[|j]]; cbn in E; inversion E; subst;
    cbn in L; try lia; [|destruct j; discriminate].
  exists 0%nat, "1_a". split; [lia|]. split; reflexivity.
Qed.

Lemma source_chain_named :
  forall k v, In (k, v) (dedup (load_sources [source_chain])) ->
              dget "exec" v <> Some VNone.
Proof.
  intros k v I. cbn in I.
  destruct I as [E|[E|[]]]; inversion E; subst; discriminate.
Qed.

Lemma backward_dependencies_resolve_witness :
  blocks_ok (load_sources [source_chain]) /\
  load_parameters [source_chain] init
  = Ok (mkDB store_chain ["est"] [("sim", [VStr "A"]); ("est", [VStr "B"])])
  /\ backward (dkeys (dedup (load_sources [source_chain]))) /\
  (forall t i idx fuel,
      record_at store_chain t i idx ->
      (List.length (all_ids store_chain) <= fuel)%nat ->
      exists c, get_sequence fuel store_chain t i idx [] = Ok ((t, i) :: c)).
Proof.
  split; [exact source_chain_blocks_ok|]. split; [reflexivity|].
  split; [exact source_chain_backward|].
  apply (@backward_dependencies_resolve [source_chain]
           (mkDB store_chain ["est"]
              [("sim", [VStr "A"]); ("est", [VStr "B"])])
           source_chain_blocks_ok eq_refl source_chain_named
           source_chain_backward).
Defined.

(** ** The master table: one chain per record *)

Lemma in_combine_seq {A : Type} (l : list A) : forall n j x,
  In (j, x) (combine (seq n (List.length l)) l) <->
  (n <= j)%nat /\ nth_error l (j - n) = Some x.
Proof.
  induction l as [|a l IH]; intros n j x; simpl.
  - split; [intros [] | intros [_ E]; destruct (j - n)%nat; discriminate].
  - rewrite IH. split.
    + intros [E|[L E]].
      * inversion E; subst. rewrite Nat.sub_diag. split; [lia | reflexivity].
      * split; [lia|]. replace (j - n)%nat with (S (j - S n)) by lia.
        exact E.
    + intros [L E]. destruct (j - n)%nat as [|m] eqn:Ej.
      * left. simpl in E. inversion E. f_equal. lia.
      * right. split; [lia|]. simpl in E.
        replace (j - S n)%nat with m by lia. exact E.
Qed.

Lemma block_records_in d steps t i idx :
  In (t, i, idx) (block_records d steps) <->
  In t steps /\ record_at d t i idx.
Proof.
  unfold block_records. rewrite in_flat_map. split.
  - intros (step & Is & I).
    destruct (dget step d) as [cols|] eqn:G; [|contradiction].
    destruct (dget "step_id" cols) as [ids|] eqn:Gi; [|contradiction].
    apply in_map_iff in I. destruct I as ([j x] & E & I).
    simpl in E. inversion E; subst. apply in_combine_seq in I.
    rewrite Nat.sub_0_r in I. split; [exact Is|].
    exists cols, ids. tauto.
  - intros [Is (cols & ids & G & Gi & E)]. exists t. split; [exact Is|].
    rewrite G, Gi. apply in_map_iff. exists (idx, i).
    split; [reflexivity|]. apply in_combine_seq.
    rewrite Nat.sub_0_r. split; [lia | exact E].
Qed.

Lemma chains_of_table_spec fuel d step ids : forall n res out,
  chains_of_table fuel d step n ids res = Ok out ->
  exists new,
    out = res ++ new /\
    Forall2 (chain_of fuel d)
            (map (fun p => (step, snd p, fst p))
                 (combine (seq n (List.length ids)) ids)) new.
Proof.
  induction ids as [|i ids IH]; intros n res out E; simpl in E.
  - inversion E; subst. exists []. rewrite app_nil_r.
    split; [reflexivity | constructor].
  - bind_as E tmp Xt. destruct (IH _ _ _ E) as (new & -> & F).
    exists (rev tmp :: new). split; [rewrite <- app_assoc; reflexivity|].
    simpl. constructor; [|exact F].
    unfold chain_of. simpl. rewrite rev_involutive. exact Xt.
Qed.

Lemma chains_of_table_total fuel d step ids : forall n res,
  (forall p, In p (combine (seq n (List.length ids)) ids) ->
     exists c, get_sequence fuel d step (snd p) (fst p) [] = Ok c) ->
  exists out, chains_of_table fuel d step n ids res = Ok out.
Proof.
  induction ids as [|i ids IH]; intros n res A; simpl; [eauto|].
  destruct (A (n, i) (or_introl eq_refl)) as [c Ec]. simpl in Ec.
  rewrite Ec. cbn [bind]. apply IH. intros p I. apply A. right. exact I.
Qed.

Lemma chains_of_block_spec fuel d steps : forall res out,
  chains_of_block fuel d steps res = Ok out ->
  exists new,
    out = res ++ new /\
    Forall2 (chain_of fuel d) (block_records d steps) new.
Proof.
  induction steps as [|step steps IH]; intros res out E; simpl in E.
  - inversion E; subst. exists []. rewrite app_nil_r.
    split; [reflexivity | constructor].
  - bind_as E cols Xc. bind_as E ids Xi. bind_as E res' Xr.
    apply getitem_ok in Xc, Xi.
    destruct (@chains_of_table_spec _ _ _ _ _ _ _ Xr) as (new1 & -> & F1).
    destruct (IH _ _ E) as (new2 & -> & F2).
    exists (new1 ++ new2). split; [rewrite app_assoc; reflexivity|].
    simpl. rewrite Xc, Xi. apply Forall2_app; assumption.
Qed.

Lemma chains_of_block_total fuel d steps : forall res,
  (forall step, In step steps ->
     exists cols ids, dget step d = Some cols /\
                      dget "step_id" cols = Some ids) ->
  (forall t i idx, In (t, i, idx) (block_records d steps) ->
     exists c, get_sequence fuel d t i idx [] = Ok c) ->
  exists out, chains_of_block fuel d steps res = Ok out.
Proof.
  induction steps as [|step steps IH]; intros res T A; simpl; [eauto|].
  destruct (T step (or_introl eq_refl)) as (cols & ids & G & Gi).
  unfold getitem. rewrite G. cbn [bind]. rewrite Gi. cbn [bind].
  destruct (@chains_of_table_total fuel d step ids 0 res) as [res' E'].
  { intros [j x] I. simpl. apply (A step x j).
    simpl. rewrite G, Gi. apply in_or_app. left.
    apply in_map_iff. exists (j, x). split; [reflexivity | exact I]. }
  rewrite E'. cbn [bind]. apply IH.
  - intros s I. apply T. right. exact I.
  - intros t i idx I. apply A. simpl. apply in_or_app. right. exact I.
Qed.

(** X10.  [write_master_table] resolves one chain per record of the
    tables of the block, in the order of the tables in the block and of
    the records in their table: the chains that lines 133-139 collect
    are, one for one, the reversed walks of [__get_sequence] from these
    records, so every chain ends with its record. *)
Theorem one_chain_per_record :
  forall fuel d steps res,
    chains_of_block fuel d steps [] = Ok res ->
    Forall2 (chain_of fuel d) (block_records d steps) res /\
    List.length res = List.length (block_records d steps) /\
    (forall n t i idx c,
        nth_error (block_records d steps) n = Some (t, i, idx) ->
        nth_error res n = Some c ->
        In t steps /\ record_at d t i idx /\
        exists c', c = c' ++ [(t, i)]).
Proof.
  intros fuel d steps res E.
  destruct (@chains_of_block_spec _ _ _ _ _ E) as (new & -> & F).
  simpl. split; [exact F|]. split.
  - symmetry. eapply Forall2_length. exact F.
  - intros n t i idx c En Ec.
    destruct (proj1 (block_records_in d steps t i idx) (nth_error_In _ _ En))
      as [Is Rec].
    split; [exact Is|]. split; [exact Rec|].
    destruct (@Forall2_nth_l _ _ _ _ _ _ _ F En) as (c0 & Ec0 & Ch).
    simpl in Ec. rewrite Ec in Ec0. inversion Ec0; subst c0.
    unfold chain_of in Ch. simpl in Ch.
    destruct (@get_sequence_acc _ _ _ _ _ _ _ Ch) as (c1 & Er & _).
    simpl in Er. exists (rev c1).
    rewrite <- (rev_involutive c), Er. reflexivity.
Qed.

Lemma one_chain_per_record_witness :
  chains_of_block 2 store_two [VStr "B"] []
  = Ok [[(VStr "A", VInt 1); (VStr "B", VInt 2)];
        [(VStr "A", VInt 1); (VStr "B", VInt 3)]] /\
  List.length [[(VStr "A", VInt 1); (VStr "B", VInt 2)];
               [(VStr "A", VInt 1); (VStr "B", VInt 3)]]
  = List.length (block_records store_two [VStr "B"]).
Proof.
  split; [reflexivity|].
  apply (@one_chain_per_record 2 store_two [VStr "B"]
           [[(VStr "A", VInt 1); (VStr "B", VInt 2)];
            [(VStr "A", VInt 1); (VStr "B", VInt 3)]] eq_refl).
Defined.

(** ** The master table: when it is built *)

Lemma shape_total g (c : chain) :
  (forall p, In p c -> exists b, find_block g (fst p) = Ok b) ->
  exists key, shape g c = Ok key.
Proof.
  induction c as [|x c IH]; intros A; simpl; [eauto|].
  destruct (A x (or_introl eq_refl)) as [b Eb]. rewrite Eb. cbn [bind].
  destruct (IH (fun p I => A p (or_intror I))) as [key Ek].
  rewrite Ek. cbn [bind]. eauto.
Qed.

Lemma group_chains_total g res : forall acc,
  (forall c, In c res -> exists key, shape g c = Ok key) ->
  exists out, group_chains g res acc = Ok out.
Proof.
  induction res as [|c res IH]; intros acc A; simpl; [eauto|].
  destruct (A c (or_introl eq_refl)) as [key Ek]. rewrite Ek. cbn [bind].
  assert (G : exists gr,
             getitem key (if dmem key acc then acc
                          else dset key (header_of key, []) acc) = Ok gr).
  { unfold getitem, dmem. destruct (dget key acc) as [gr|] eqn:D.
    - rewrite D. eauto.
    - rewrite dget_dset_eq. eauto. }
  destruct G as [gr G]. rewrite G. cbn [bind].
  apply IH. intros c' I. apply A. right. exact I.
Qed.

Lemma map_nth_seq {A : Type} (l : list A) (f : nat -> A) :
  (forall i x, nth_error l i = Some x -> f i = x) ->
  map f (seq 0 (List.length l)) = l.
Proof.
  revert f. induction l as [|a l IH]; intros f H; simpl; [reflexivity|].
  f_equal; [apply (H 0%nat); reflexivity|].
  rewrite <- seq_shift, map_map. apply IH.
  intros i x E. apply (H (S i)). exact E.
Qed.

Lemma concat_columns_single f : concat_columns [f] = Ok f.
Proof.
  unfold concat_columns. f_equal. destruct f as [cs rs]. simpl.
  rewrite app_nil_r, Nat.max_0_r. f_equal. unfold nrows. simpl.
  apply map_nth_seq. intros i x E. rewrite app_nil_r. unfold row_at.
  simpl. apply nth_error_nth. exact E.
Qed.

Lemma grouped_as_keys g seen acc key :
  grouped_as g seen acc ->
  In key (dkeys acc) -> exists c, In c seen /\ shape g c = Ok key.
Proof.
  intros [_ Gr] I. destruct (in_keys_dget _ _ I) as [gr D].
  rewrite Gr in D.
  destruct (existsb (has_shape g key) seen) eqn:X; [|discriminate].
  apply existsb_exists in X. destruct X as (c & Ic & Hs).
  exists c. split; [exact Ic | apply has_shape_true; exact Hs].
Qed.

(** The groups of chains that all have one shape. *)
Lemma grouped_as_single g res key acc :
  grouped_as g res acc -> res <> [] ->
  (forall c, In c res -> shape g c = Ok key) ->
  acc = [(key, (header_of key, map flatten_list res))].
Proof.
  intros Gr N A. assert (Gr' := Gr). destruct Gr' as [ND D].
  assert (F : filter (has_shape g key) res = res).
  { apply forallb_filter_id. apply forallb_forall. intros c I.
    apply has_shape_true. exact (A c I). }
  assert (X : existsb (has_shape g key) res = true).
  { destruct res as [|c res]; [congruence|]. simpl.
    rewrite (proj2 (has_shape_true g key c) (A c (or_introl eq_refl))).
    reflexivity. }
  assert (Dk := D key). rewrite X, F in Dk.
  assert (K : forall k, In k (dkeys acc) -> k = key).
  { intros k I. destruct (@grouped_as_keys _ _ _ _ Gr I) as (c & Ic & Ec).
    rewrite (A c Ic) in Ec. congruence. }
  destruct acc as [|[k1 g1] acc]; [discriminate|].
  assert (E1 : k1 = key) by (apply K; left; reflexivity). subst k1.
  simpl in Dk. destruct (eq_dec key key) as [_|Nk]; [|congruence].
  inversion Dk; subst g1. f_equal.
  destruct acc as [|[k2 g2] acc]; [reflexivity|].
  exfalso. assert (E2 : k2 = key) by (apply K; right; left; reflexivity).
  subst k2. simpl in ND. inversion ND as [|? ? Hn _]. apply Hn. left.
  reflexivity.
Qed.

(** X11.  When all the chains of a block have one shape, the master
    table that [write_master_table] returns is the frame of that shape:
    its columns are [<block>_name], [<block>_id] for the blocks of the
    shape, and its rows are the chains of the records of the block, one
    row per record in their order, each the table name and the step id
    of every step of the chain. *)
Theorem master_table_single_shape :
  forall fuel db block t steps res key,
    write_master_table fuel db block = Ok t ->
    dget block (groups db) = Some steps ->
    chains_of_block fuel (data db) steps [] = Ok res ->
    (forall c, In c res -> shape (groups db) c = Ok key) ->
    t = mkDF (header_of key) (map flatten_list res) /\
    nrows t = List.length (block_records (data db) steps).
Proof.
  intros fuel db block t steps res key E Eb Er A.
  unfold write_master_table in E.
  bind_as E steps' Es. apply getitem_ok in Es.
  rewrite Eb in Es. inversion Es; subst steps'. clear Es.
  bind_as E res' Er'. rewrite Er in Er'. inversion Er'; subst res'.
  bind_as E grouped Eg. bind_as E frames Ef.
  destruct (@group_chains_grouped _ _ _ _ _ (grouped_as_nil _) Eg)
    as [Gr _].
  simpl in Gr.
  assert (Fr := @frames_of_groups_exact _ _ _ Gr grouped (incl_refl _)).
  change (map fst grouped) with (dkeys grouped) in Fr.
  rewrite Fr in Ef. inversion Ef; subst frames. clear Ef.
  assert (N : res <> []).
  { intros ->. destruct Gr as [_ D].
    destruct grouped as [|[k1 g1] grouped]; [discriminate E|].
    specialize (D k1). simpl in D.
    destruct (eq_dec k1 k1); [discriminate | congruence]. }
  rewrite (@grouped_as_single _ _ _ _ Gr N A) in E. cbn [map] in E.
  rewrite concat_columns_single in E. unfold frame_of_group in E.
  simpl in E. inversion E; subst t.
  split; [reflexivity|]. unfold nrows. simpl. rewrite length_map.
  destruct (@chains_of_block_spec _ _ _ _ _ Er) as (new & -> & F).
  simpl. symmetry. eapply Forall2_length. exact F.
Qed.

Lemma master_table_single_shape_witness :
  write_master_table 2 (mkDB store_two ["est"]
                          [("sim", [VStr "A"]); ("est", [VStr "B"])]) "est"
  = Ok master_two /\
  master_two
  = mkDF (header_of ["sim"; "est"])
         (map flatten_list
              [[(VStr "A", VInt 1); (VStr "B", VInt 2)];
               [(VStr "A", VInt 1); (VStr "B", VInt 3)]]) /\
  nrows master_two = List.length (block_records store_two [VStr "B"]).
Proof.
  split; [reflexivity|].
  apply (@master_table_single_shape 2
           (mkDB store_two ["est"] [("sim", [VStr "A"]); ("est", [VStr "B"])])
           "est" master_two [VStr "B"]
           [[(VStr "A", VInt 1); (VStr "B", VInt 2)];
            [(VStr "A", VInt 1); (VStr "B", VInt 3)]]
           ["sim"; "est"] eq_refl eq_refl eq_refl).
  intros c [<-|[<-|[]]]; reflexivity.
Defined.




Lemma load_parameters_find_block files db t :
  load_parameters files init = Ok db ->
  In t (dkeys (data db)) ->
  exists b, find_block (groups db) t = Ok b.
Proof.
  intros E I. destruct (@tables_inv_load _ _ E) as [_ T].
  apply T in I. destruct I as (k & v & I & Xe).
  destruct (@load_parameters_items _ _ E _ _ I)
    as (tbl & sname & ret & _ & Xs & _).
  destruct (@groups_inv_load _ _ E) as [_ G].
  specialize (G (hd "" (split underscore sname))).
  destruct (dget (hd "" (split underscore sname)) (groups db))
    as [m|] eqn:D.
  - destruct G as [_ Im].
    assert (Mt : In t m).
    { apply Im. exists k, v. split; [exact I|]. split; [exact Xe|].
      apply block_of_step_name. exact Xs. }
    destruct (@find_block_member _ _ _ _ D Mt) as (b & _ & Eb & _).
    exists b. exact Eb.
  - exfalso. apply (G k v I). apply block_of_step_name. exact Xs.
Qed.

(** X13.  After a successful ingestion of a source whose dependencies
    point backwards and whose [exec] are not [None],
    [write_master_table] returns a table for every terminal block, under
    a recursion limit of the number of step ids: the block is found, every
    record of its tables has a chain, every table of a chain has a block,
    and there is a frame to concatenate.  The raw blocks are
    dictionaries. *)
Theorem master_table_is_built :
  forall fuel files db block,
    blocks_ok (load_sources files) ->
    load_parameters files init = Ok db ->
    (forall k v, In (k, v) (dedup (load_sources files)) ->
                 dget "exec" v <> Some VNone) ->
    backward (dkeys (dedup (load_sources files))) ->
    In block (last_block db) ->
    (List.length (all_ids (data db)) <= fuel)%nat ->
    exists t, write_master_table fuel db block = Ok t.
Proof.
  intros fuel files db block B E N Bw Ib Lf.
  assert (Inv := load_parameters_inv files B E).
  assert (Wf := store_inv_wf Inv (tables_named _ E N)).
  assert (Dec := store_inv_decreasing Inv Bw).
  assert (Res := store_inv_resolvable Inv
                   (fun k v I =>
                      match @load_parameters_items _ _ E k v I with
                      | ex_intro _ t (ex_intro _ _ (ex_intro _ _ (conj X _)))
                        => ex_intro _ t X
                      end)).
  destruct (@tables_inv_load _ _ E) as [_ Tab].
  destruct (@last_block_inv_load _ _ E) as [_ Lb].
  apply Lb in Ib. destruct Ib as (k & v & I & Bk & _).
  destruct (@load_parameters_items _ _ E _ _ I)
    as (tbl & sname & ret & Xe & _).
  destruct (@groups_inv_load _ _ E) as [_ G]. specialize (G block).
  destruct (dget block (groups db)) as [steps|] eqn:D;
    [|exfalso; exact (G k v I Bk)].
  destruct G as [_ Im].
  assert (Tbl : forall step, In step steps ->
            exists cols ids, dget step (data db) = Some cols /\
                             dget "step_id" cols = Some ids).
  { intros step Is. apply Im in Is. destruct Is as (k1 & v1 & I1 & X1 & _).
    assert (It : In step (dkeys (data db))) by (apply Tab; eauto).
    destruct (in_keys_dget _ _ It) as [cols Gc].
    destruct Inv as [I1' _]. destruct (I1' _ _ Gc) as (_ & A & _). eauto. }
  unfold write_master_table, getitem. rewrite D. cbn [bind].
  destruct (@chains_of_block_total fuel (data db) steps [] Tbl)
    as [res Er].
  { intros t i idx Ir. apply block_records_in in Ir. destruct Ir as [_ Rec].
    destruct (@get_sequence_resolves _ Wf Dec Res t i idx fuel Rec Lf)
      as [c Ec].
    eauto. }
  rewrite Er. cbn [bind].
  destruct (@chains_of_block_spec _ _ _ _ _ Er) as (new & En & F).
  simpl in En. subst new.
  assert (Sh : forall c, In c res ->
             exists key, shape (groups db) c = Ok key).
  { intros c Ic. apply shape_total. intros p Ip.
    destruct (In_nth_error _ _ Ic) as [n Ec].
    destruct (@Forall2_nth_r _ _ _ _ _ n _ F Ec) as ([[t i] idx] & Eb & Ch).
    unfold chain_of in Ch. simpl in Ch.
    assert (Rec : record_at (data db) t i idx).
    { apply (proj1 (block_records_in (data db) steps t i idx)).
      eapply nth_error_In. exact Eb. }
    destruct (@get_sequence_links _ _ _ _ _ _ _ Rec Ch)
      as (c0 & Ec0 & P1 & _).
    simpl in Ec0. apply in_rev in Ip. rewrite Ec0 in Ip.
    assert (Rp : exists idx', record_at (data db) (fst p) (snd p) idx').
    { destruct Ip as [<-|Ip]; [exists idx; exact Rec | exact (P1 p Ip)]. }
    destruct Rp as (idx' & cols' & ids' & Gp & _).
    apply (@load_parameters_find_block files db (fst p) E).
    eapply dget_in_keys. exact Gp. }
  destruct (@group_chains_total (groups db) res [] Sh) as [grouped Eg].
  rewrite Eg. cbn [bind].
  destruct (@group_chains_grouped _ _ _ _ _ (grouped_as_nil _) Eg)
    as [Gr _].
  simpl in Gr.
  assert (Fr := @frames_of_groups_exact _ _ _ Gr grouped (incl_refl _)).
  change (map fst grouped) with (dkeys grouped) in Fr.
  rewrite Fr. cbn [bind].
  assert (Ng : grouped <> []).
  { destruct (In_nth_error _ _ I) as [j Ej].
    assert (Ir := @records_of_complete tbl _ 0%nat j k v Ej Xe).
    simpl in Ir.
    assert (Is : In tbl steps) by (apply Im; exists k, v; tauto).
    destruct (Tbl tbl Is) as (cols & ids & Gc & Gi).
    assert (Inv' := Inv). destruct Inv' as [I1' _].
    destruct (I1' _ _ Gc) as (_ & A & _).
    rewrite Gi in A. inversion A; subst ids. clear A.
    destruct (In_nth_error _ _ Ir) as [idx Ex].
    assert (Rec : record_at (data db) tbl (VInt (Z.of_nat j + 1)) idx).
    { exists cols. eexists. split; [exact Gc|]. split; [exact Gi|].
      rewrite nth_error_map, Ex. reflexivity. }
    assert (Ib : In (tbl, VInt (Z.of_nat j + 1), idx)
                    (block_records (data db) steps))
      by (apply block_records_in; tauto).
    destruct (In_nth_error _ _ Ib) as [n En].
    destruct (@Forall2_nth_l _ _ _ _ _ _ _ F En) as (c & Ec & _).
    destruct (Sh c (nth_error_In _ _ Ec)) as [key Ek].
    destruct Gr as [_ Dg]. specialize (Dg key).
    assert (X : existsb (has_shape (groups db) key) res = true).
    { apply existsb_exists. exists c.
      split; [eapply nth_error_In; exact Ec | apply has_shape_true, Ek]. }
    rewrite X in Dg. intros ->. discriminate. }
  destruct grouped as [|g0 grouped]; [congruence|].
  simpl. eauto.
Qed.

Lemma master_table_is_built_witness :
  blocks_ok (load_sources [source_chain]) /\
  load_parameters [source_chain] init
  = Ok (mkDB store_chain ["est"] [("sim", [VStr "A"]); ("est", [VStr "B"])])
  /\ backward (dkeys (dedup (load_sources [source_chain]))) /\
  exists t,
    write_master_table 2
      (mkDB store_chain ["est"] [("sim", [VStr "A"]); ("est", [VStr "B"])])
      "est" = Ok t.
Proof.
  split; [exact source_chain_blocks_ok|]. split; [reflexivity|].
  split; [exact source_chain_backward|].
  apply (@master_table_is_built 2 [source_chain]
           (mkDB store_chain ["est"]
              [("sim", [VStr "A"]); ("est", [VStr "B"])]) "est"
           source_chain_blocks_ok eq_refl source_chain_named
           source_chain_backward (or_introl eq_refl)).
  simpl. lia.
Defined.

(** ** Output enrichment: the values of the artifacts *)

(** What the loop of lines 176-197 makes of a pair with an artifact: its
    column names are the ones kept, and its values are a row. *)
Lemma cbind_loop_artifacts name isfile load_rds d pairs :
  forall acc cn acc' cn',
    cbind_loop name isfile load_rds d pairs acc cn = Ok (acc', cn') ->
    (forall c, cn = Some c -> cn' = Some c) /\
    exists new,
      acc' = acc ++ new /\
      forall step idx ret rdata cols vals,
        In (step, idx) pairs ->
        return_of d step idx = Ok ret ->
        isfile (rds_path name ret) = true ->
        load_rds (rds_path name ret) = Ok rdata ->
        artifact_columns rdata (sorted (dkeys rdata)) [] [] = Ok (cols, vals) ->
        cn' = Some cols /\ In (idx :: vals) new.
Proof.
  induction pairs as [|[step idx] pairs IH]; intros acc cn acc' cn' E.
  - simpl in E. inversion E; subst. split; [tauto|]. exists [].
    rewrite app_nil_r. split; [reflexivity|].
    intros step idx ret rdata cols vals [].
  - simpl in E. bind_as E ret Xr.
    destruct (isfile (rds_path name ret)) eqn:F; simpl in E.
    + bind_as E rdata Xl. bind_as E cv Xa. destruct cv as [cols vals].
      bind_as E cn1 Xc. simpl in *.
      assert (Ecn : cn1 = cols /\ forall c, cn = Some c -> c = cols).
      { destruct cn as [c|].
        - destruct (eq_dec c cols) as [->|]; [|discriminate].
          inversion Xc; subst. split; [reflexivity|].
          intros c' Ec. congruence.
        - inversion Xc; subst. split; [reflexivity | discriminate]. }
      destruct Ecn as [-> Old].
      destruct (IH _ _ _ _ E) as (Keep & new & -> & A).
      split.
      { intros c Ec. rewrite (Old c Ec). apply Keep. reflexivity. }
      exists ((idx :: vals) :: new).
      split; [rewrite <- app_assoc; reflexivity|].
      intros s i r rd cs vs [Ep|Ip] Hr Hf Hl Ha.
      * inversion Ep; subst s i. rewrite Xr in Hr. inversion Hr; subst r.
        rewrite Xl in Hl. inversion Hl; subst rd.
        rewrite Xa in Ha. inversion Ha; subst cs vs.
        split; [apply Keep; reflexivity | left; reflexivity].
      * destruct (A s i r rd cs vs Ip Hr Hf Hl Ha) as [H1 H2].
        split; [exact H1 | right; exact H2].
    + destruct (IH _ _ _ _ E) as (Keep & new & -> & A).
      split; [exact Keep|]. exists new. split; [reflexivity|].
      intros s i r rd cs vs [Ep|Ip] Hr Hf Hl Ha.
      * inversion Ep; subst s i. rewrite Xr in Hr. inversion Hr; subst r.
        rewrite F in Hf. discriminate.
      * exact (A s i r rd cs vs Ip Hr Hf Hl Ha).
Qed.

Lemma select_cells label f cells :
  select label f = Ok cells ->
  count_occ string_dec (columns f) label = 1%nat ->
  exists j, index_of label (columns f) = Some j /\
            cells = map (key_at j) (rows f).
Proof.
  unfold select. intros E C. rewrite C in E.
  destruct (index_of label (columns f)) as [j|]; [|discriminate].
  inversion E. eauto.
Qed.

Lemma merge_outer_left key l r t' :
  merge_outer key l r = Ok t' ->
  count_occ string_dec (columns l) key = 1%nat /\
  count_occ string_dec (columns r) key = 1%nat /\
  exists jl jr,
    index_of key (columns l) = Some jl /\
    index_of key (columns r) = Some jr /\
    columns t' = merged_columns key jr l r /\
    forall lr rr,
      In lr (rows l) -> In rr (rows r) ->
      key_at jr rr = key_at jl lr ->
      In (lr ++ drop_nth jr rr) (rows t').
Proof.
  unfold merge_outer. intros E.
  destruct (count_occ string_dec (columns l) key) as [|[|n]];
    [discriminate| |];
    destruct (count_occ string_dec (columns r) key) as [|[|m]];
    try discriminate.
  split; [reflexivity|]. split; [reflexivity|].
  destruct (index_of key (columns l)) as [jl|]; [|discriminate].
  destruct (index_of key (columns r)) as [jr|]; [|discriminate].
  inversion E; subst t'. clear E. exists jl, jr.
  split; [reflexivity|]. split; [reflexivity|]. split; [reflexivity|].
  intros lr rr Il Ir K. simpl. apply in_or_app. left.
  apply in_flat_map. exists lr. split; [exact Il|].
  unfold join_left.
  assert (M : In rr (filter (matches jl jr lr) (rows r))).
  { apply filter_In. split; [exact Ir|]. unfold matches.
    destruct (eq_dec (key_at jr rr) (key_at jl lr)); [reflexivity|].
    contradiction. }
  destruct (filter (matches jl jr lr) (rows r)) as [|m0 ms];
    [contradiction|].
  apply in_map_iff. exists rr. split; [reflexivity | exact M].
Qed.

Lemma count_occ_head_one (key : string) cn :
  count_occ string_dec (key :: cn) key = 1%nat -> ~ In key cn.
Proof.
  simpl. destruct (string_dec key key) as [_|N]; [|congruence].
  intros E I. apply (count_occ_In string_dec) in I. lia.
Qed.

Lemma index_of_head {A : Type} `{EqDec A} (x : A) l :
  index_of x (x :: l) = Some 0%nat.
Proof. simpl. destruct (eq_dec x x); [reflexivity | congruence]. Qed.

Lemma merged_columns_disjoint key (l : DataFrame) cn rs :
  (forall c, In c cn -> ~ In c (columns l)) ->
  merged_columns key 0 l (mkDF (key :: cn) rs) = columns l ++ cn.
Proof.
  intros Dj. unfold merged_columns, drop_nth. simpl. f_equal.
  - rewrite <- (map_id (columns l)) at 2. apply map_ext_in.
    intros c Ic. destruct (eq_dec c key); [reflexivity|].
    destruct (mem c cn) eqn:M; [|reflexivity].
    apply mem_true in M. exfalso. exact (Dj c M Ic).
  - rewrite <- (map_id cn) at 2. apply map_ext_in.
    intros c Ic. destruct (mem c (columns l)) eqn:M; [|reflexivity].
    apply mem_true in M. exfalso. exact (Dj c Ic M).
Qed.

(** X14.  When [cbind_output] returns, a row of the master table whose
    step has an artifact is in the result followed by the values of the
    artifact: one value under the name of a variable with one element,
    and the elements of a longer variable under its name with [_1],
    [_2], ...; the names, which all artifacts that are read share, are
    the columns that the result adds, after the columns of the table when
    no name is a column of the table. *)
Theorem enrichment_carries_artifact_values :
  forall name isfile load_rds d bname t t' names ids p row step idx ret
         rdata cols vals,
    cbind_output name isfile load_rds d bname t = Ok t' ->
    select (bname ++ "_name")%string t = Ok names ->
    select (bname ++ "_id")%string t = Ok ids ->
    nth_error (rows t) p = Some row ->
    nth_error names p = Some step -> nth_error ids p = Some idx ->
    return_of d step idx = Ok ret ->
    isfile (rds_path name ret) = true ->
    load_rds (rds_path name ret) = Ok rdata ->
    artifact_columns rdata (sorted (dkeys rdata)) [] [] = Ok (cols, vals) ->
    In (row ++ vals) (rows t') /\
    List.length vals = List.length cols /\
    width t' = (width t + List.length cols)%nat /\
    ((forall c, In c cols -> ~ In c (columns t)) ->
     columns t' = columns t ++ cols).
Proof.
  intros name isfile load_rds d bname t t' names ids p row step idx ret
         rdata cols vals E En Ei Er Es Ex Hr Hf Hl Ha.
  set (key := (bname ++ "_id")%string) in *.
  unfold cbind_output in E. rewrite En in E. cbn [bind] in E.
  fold key in E. rewrite Ei in E. cbn [bind] in E.
  bind_as E r Xl. destruct r as [new cn]. simpl in E.
  destruct (@cbind_loop_artifacts _ _ _ _ _ _ _ _ _ Xl) as (_ & new' & En' & A).
  simpl in En'. subst new'.
  destruct (A step idx ret rdata cols vals
              (@nth_error_combine_in _ _ _ _ _ _ _ Es Ex) Hr Hf Hl Ha)
    as [-> Inew].
  destruct (@cbind_loop_rows _ _ _ _ _ _ _ _ _ Xl) as (new' & En' & _ & _ & Fit).
  simpl in En'. subst new'. specialize (Fit eq_refl). simpl in Fit.
  bind_as E rf Xf.
  rewrite frame_of_rows_exact in Xf by exact Fit.
  inversion Xf; subst rf. clear Xf.
  destruct (@merge_outer_left _ _ _ _ E) as (Cl & Cr & jl & jr & Jl & Jr & Ec & Rows).
  cbn [columns] in Jr.
  rewrite index_of_head in Jr. inversion Jr; subst jr. clear Jr.
  destruct (@select_cells _ _ _ Ei Cl) as (j & Ej & ->).
  rewrite Jl in Ej. inversion Ej; subst j. clear Ej.
  rewrite nth_error_map, Er in Ex. simpl in Ex. inversion Ex.
  assert (L : List.length vals = List.length cols).
  { symmetry. eapply artifact_columns_lengths; [exact Ha | reflexivity]. }
  split.
  { apply (Rows row (idx :: vals) (nth_error_In _ _ Er) Inew).
    unfold key_at at 1. simpl. symmetry. assumption. }
  split; [exact L|]. split.
  - unfold width. rewrite Ec. unfold merged_columns, drop_nth. simpl.
    rewrite length_app, !length_map. reflexivity.
  - intros Dj. rewrite Ec. apply merged_columns_disjoint. exact Dj.
Qed.

Lemma enrichment_carries_artifact_values_witness :
  cbind_output "db" file_of_b rds_of_b store_two "est" master_two
  = Ok enriched_two /\
  In ([VStr "A"; VInt 1; VStr "B"; VInt 2] ++ [VInt 7; VInt 8; VInt 5])
     (rows enriched_two) /\
  List.length [VInt 7; VInt 8; VInt 5]
  = List.length ["beta_1"; "beta_2"; "score"] /\
  width enriched_two
  = (width master_two + List.length ["beta_1"; "beta_2"; "score"])%nat /\
  ((forall c, In c ["beta_1"; "beta_2"; "score"] ->
              ~ In c (columns master_two)) ->
   columns enriched_two
   = columns master_two ++ ["beta_1"; "beta_2"; "score"]).
Proof.
  split; [reflexivity|].
  apply (@enrichment_carries_artifact_values "db" file_of_b rds_of_b
           store_two "est" master_two enriched_two
           [VStr "B"; VStr "B"] [VInt 2; VInt 3] 0%nat
           [VStr "A"; VInt 1; VStr "B"; VInt 2] (VStr "B") (VInt 2)
           (VStr "b")
           [("score", [VInt 5]); ("beta", [VInt 7; VInt 8])]
           ["beta_1"; "beta_2"; "score"] [VInt 7; VInt 8; VInt 5]);
    reflexivity.
Defined.

Lemma cbind_loop_app name isfile load_rds d p1 : forall p2 acc cn,
  cbind_loop name isfile load_rds d (p1 ++ p2) acc cn
  = (r <- cbind_loop name isfile load_rds d p1 acc cn ;;
     cbind_loop name isfile load_rds d p2 (fst r) (snd r)).
Proof.
  induction p1 as [|[step idx] p1 IH]; intros p2 acc cn; [reflexivity|].
  simpl. destruct (return_of d step idx) as [ret|e]; [|reflexivity].
  cbn [bind]. destruct (negb (isfile (rds_path name ret))); [apply IH|].
  destruct (load_rds (rds_path name ret)) as [rdata|e]; [|reflexivity].
  cbn [bind].
  destruct (artifact_columns rdata (sorted (dkeys rdata)) [] [])
    as [cv|e]; [|reflexivity].
  cbn [bind].
  destruct (match cn with
            | Some c => if eq_dec c (fst cv) then Ok c
                        else Raise (ResultDBError
                                      (variables_msg (rds_path name ret)))
            | None => Ok (fst cv)
            end) as [cn1|e]; [|reflexivity].
  cbn [bind]. apply IH.
Qed.

(** X15.  The first artifact that is read fixes the names of the
    added columns.  When the rows before the first two rows with an
    artifact have none and the column names of the two artifacts differ,
    [cbind_output] raises the [ResultDBError] of line 195, which names
    the file of the second; and whenever [cbind_output] returns, the
    artifacts of any two rows have the same column names. *)
Theorem inconsistent_artifacts_raise :
  forall name isfile load_rds d bname t names ids,
    select (bname ++ "_name")%string t = Ok names ->
    select (bname ++ "_id")%string t = Ok ids ->
    (forall pre s1 i1 mid s2 i2 post ret1 rd1 cv1 ret2 rd2 cv2,
        combine names ids = pre ++ (s1, i1) :: mid ++ (s2, i2) :: post ->
        (forall step idx, In (step, idx) (pre ++ mid) ->
           exists ret, return_of d step idx = Ok ret /\
                       isfile (rds_path name ret) = false) ->
        return_of d s1 i1 = Ok ret1 -> isfile (rds_path name ret1) = true ->
        load_rds (rds_path name ret1) = Ok rd1 ->
        artifact_columns rd1 (sorted (dkeys rd1)) [] [] = Ok cv1 ->
        return_of d s2 i2 = Ok ret2 -> isfile (rds_path name ret2) = true ->
        load_rds (rds_path name ret2) = Ok rd2 ->
        artifact_columns rd2 (sorted (dkeys rd2)) [] [] = Ok cv2 ->
        fst cv1 <> fst cv2 ->
        cbind_output name isfile load_rds d bname t
        = Raise (ResultDBError (variables_msg (rds_path name ret2))) /\
        mentions (rds_path name ret2) (variables_msg (rds_path name ret2)))
    /\
    (forall t' s1 i1 s2 i2 ret1 rd1 cv1 ret2 rd2 cv2,
        cbind_output name isfile load_rds d bname t = Ok t' ->
        In (s1, i1) (combine names ids) -> In (s2, i2) (combine names ids) ->
        return_of d s1 i1 = Ok ret1 -> isfile (rds_path name ret1) = true ->
        load_rds (rds_path name ret1) = Ok rd1 ->
        artifact_columns rd1 (sorted (dkeys rd1)) [] [] = Ok cv1 ->
        return_of d s2 i2 = Ok ret2 -> isfile (rds_path name ret2) = true ->
        load_rds (rds_path name ret2) = Ok rd2 ->
        artifact_columns rd2 (sorted (dkeys rd2)) [] [] = Ok cv2 ->
        fst cv1 = fst cv2).
Proof.
  intros name isfile load_rds d bname t names ids En Ei. split.
  - intros pre s1 i1 mid s2 i2 post ret1 rd1 cv1 ret2 rd2 cv2 Ec No
           R1 F1 L1 A1 R2 F2 L2 A2 Ne.
    split; [|apply mentions_middle].
    unfold cbind_output. rewrite En. cbn [bind]. rewrite Ei. cbn [bind].
    rewrite Ec, cbind_loop_app.
    rewrite (@cbind_loop_no_artifact name isfile load_rds d pre)
      by (intros step idx I; apply No; apply in_or_app; left; exact I).
    cbn [bind fst snd cbind_loop]. rewrite R1. cbn [bind].
    rewrite F1. cbn [negb]. rewrite L1. cbn [bind]. rewrite A1.
    cbn [bind]. rewrite cbind_loop_app.
    rewrite (@cbind_loop_no_artifact name isfile load_rds d mid)
      by (intros step idx I; apply No; apply in_or_app; right; exact I).
    cbn [bind fst snd cbind_loop]. rewrite R2. cbn [bind].
    rewrite F2. cbn [negb]. rewrite L2. cbn [bind]. rewrite A2.
    cbn [bind]. destruct (eq_dec (fst cv1) (fst cv2)); [contradiction|].
    reflexivity.
  - intros t' s1 i1 s2 i2 ret1 rd1 cv1 ret2 rd2 cv2 E I1 I2
           R1 F1 L1 A1 R2 F2 L2 A2.
    unfold cbind_output in E. rewrite En in E. cbn [bind] in E.
    rewrite Ei in E. cbn [bind] in E. bind_as E r Xl. destruct r as [new cn].
    destruct (@cbind_loop_artifacts _ _ _ _ _ _ _ _ _ Xl) as (_ & new' & _ & A).
    destruct cv1 as [c1 v1], cv2 as [c2 v2].
    destruct (A s1 i1 ret1 rd1 c1 v1 I1 R1 F1 L1 A1) as [E1 _].
    destruct (A s2 i2 ret2 rd2 c2 v2 I2 R2 F2 L2 A2) as [E2 _].
    simpl. congruence.
Qed.

Lemma inconsistent_artifacts_raise_witness :
  select "est_name" master_two = Ok [VStr "B"; VStr "B"] /\
  select "est_id" master_two = Ok [VInt 2; VInt 3] /\
  cbind_output "db" files_of_b_c rds_of_b_c store_two "est" master_two
  = Raise (ResultDBError
             "Variables in ``db/c.rds`` are not consistent with existing variables!").
Proof.
  split; [reflexivity|]. split; [reflexivity|].
  refine (proj1 (proj1 (@inconsistent_artifacts_raise "db" files_of_b_c
                          rds_of_b_c store_two "est" master_two
                          [VStr "B"; VStr "B"] [VInt 2; VInt 3]
                          eq_refl eq_refl)
                   [] (VStr "B") (VInt 2) [] (VStr "B") (VInt 3) []
                   (VStr "b") [("score", [VInt 5])] (["score"], [VInt 5])
                   (VStr "c") [("beta", [VInt 7])] (["beta"], [VInt 7])
                   eq_refl _ eq_refl eq_refl eq_refl eq_refl
                   eq_refl eq_refl eq_refl eq_refl _)).
  - intros step idx [].
  - simpl. discriminate.
Defined.

(** X16.  A master table that has the name and id columns of the block
    more than once, as [pd.concat] makes of two groups whose shapes both
    hold the block, is not enriched: selecting such a label gives a frame,
    the loop of line 176 runs over its column labels, and the lookup of
    the label [<block>_name] in [self.data] raises [KeyError] (no table
    has that name). *)
Theorem duplicate_block_columns_raise :
  forall name isfile load_rds d bname t,
    (2 <= count_occ string_dec (columns t) (bname ++ "_name")%string)%nat ->
    (2 <= count_occ string_dec (columns t) (bname ++ "_id")%string)%nat ->
    dget (VStr (bname ++ "_name")) d = None ->
    cbind_output name isfile load_rds d bname t = Raise KeyError.
Proof.
  intros name isfile load_rds d bname t C1 C2 G.
  unfold cbind_output, select.
  destruct (count_occ string_dec (columns t) (bname ++ "_name")%string)
    as [|[|n1]]; [lia | lia |].
  destruct (count_occ string_dec (columns t) (bname ++ "_id")%string)
    as [|[|n2]]; [lia | lia |].
  cbn [bind repeat combine cbind_loop].
  unfold return_of, getitem. rewrite G. reflexivity.
Qed.

Lemma duplicate_block_columns_raise_witness :
  cbind_output "db" file_of_b rds_of_b store_two "est" master_two_shapes
  = Raise KeyError.
Proof.
  apply (@duplicate_block_columns_raise "db" file_of_b rds_of_b store_two
           "est" master_two_shapes); [simpl; lia | simpl; lia | reflexivity].
Defined.

(** ** [Build]: the frames of the tables *)

Lemma frame_of_columns_ok (t : table) cols n :
  NoDup (dkeys t) -> t <> [] ->
  (forall c xs, dget c t = Some xs -> List.length xs = n) ->
  frame_of_columns t cols
  = Ok (mkDF cols
          (map (fun i =>
                  map (fun c => match dget c t with
                                | Some xs => nth i xs VNone
                                | None => VNone
                                end) cols)
               (seq 0 n))).
Proof.
  intros ND Ne L. unfold frame_of_columns.
  assert (En : match t with [] => 0%nat
                          | (_, xs) :: _ => List.length xs end = n).
  { destruct t as [|[c xs] t]; [congruence|]. apply (L c).
    simpl. destruct (eq_dec c c); [reflexivity | congruence]. }
  rewrite En.
  assert (F : forallb (fun kv : string * list value =>
                         (List.length (snd kv) =? n)%nat) t = true).
  { apply forallb_forall. intros [c xs] I. simpl. apply Nat.eqb_eq.
    apply (L c). apply in_dget; assumption. }
  rewrite F. reflexivity.
Qed.

Lemma assemble_spec ks d : forall out frames,
  assemble ks d out = Ok frames ->
  NoDup ks ->
  (forall k, ~ In k ks -> dget k frames = dget k out) /\
  (forall k, In k ks ->
     exists t f,
       dget k d = Some t /\
       frame_of_columns t (["step_id"; "depends"; "return"]
                             ++ filter (not_in ["step_id"; "depends"; "return"])
                                       (dkeys t)) = Ok f /\
       dget k frames = Some f) /\
  (forall k, In k (dkeys frames) <-> In k (dkeys out) \/ In k ks).
Proof.
  induction ks as [|k0 ks IH]; intros out frames E ND; simpl in E.
  - inversion E; subst. split; [reflexivity|]. split; [intros k []|].
    intros k. simpl. tauto.
  - bind_as E t Xt. bind_as E f Xf. apply getitem_ok in Xt.
    inversion ND as [|? ? Hn ND']; subst.
    destruct (IH _ _ E ND') as (H1 & H2 & H3).
    split; [|split].
    + intros k N. rewrite H1 by (intros I; apply N; right; exact I).
      apply dget_dset_neq. intros ->. apply N. left. reflexivity.
    + intros k [<-|I].
      * exists t, f. split; [exact Xt|]. split; [exact Xf|].
        rewrite (H1 k0 Hn). apply dget_dset_eq.
      * exact (H2 k I).
    + intros k. rewrite H3, in_keys_dset. simpl. intuition.
Qed.

Lemma assemble_total ks d : forall out,
  (forall k, In k ks ->
     exists t f,
       dget k d = Some t /\
       frame_of_columns t (["step_id"; "depends"; "return"]
                             ++ filter (not_in ["step_id"; "depends"; "return"])
                                       (dkeys t)) = Ok f) ->
  exists frames, assemble ks d out = Ok frames.
Proof.
  induction ks as [|k0 ks IH]; intros out A; cbn [assemble]; [eauto|].
  destruct (A k0 (or_introl eq_refl)) as (t & f & G & F).
  unfold getitem. rewrite G. cbn [bind]. cbv zeta. rewrite F. cbn [bind].
  apply IH. intros k I. apply A. right. exact I.
Qed.

Lemma table_frame_cell (t : table) n c xs i x :
  dget c t = Some xs -> nth_error xs i = Some x -> (i < n)%nat ->
  exists row j,
    nth_error (rows (table_frame t n)) i = Some row /\
    nth_error (columns (table_frame t n)) j = Some c /\
    nth_error row j = Some x.
Proof.
  intros G E L. unfold table_frame. cbv zeta. cbn [rows columns].
  set (cols := ["step_id"; "depends"; "return"]
                 ++ filter (not_in ["step_id"; "depends"; "return"])
                           (dkeys t)).
  assert (Ic : In c cols).
  { unfold cols.
    destruct (in_dec string_dec c ["step_id"; "depends"; "return"])
      as [S|S]; apply in_or_app; [left; exact S | right].
    apply filter_In. split; [eapply dget_in_keys; exact G|].
    apply not_in_true. exact S. }
  destruct (In_nth_error _ _ Ic) as [j Ej].
  eexists. exists j. split; [|split; [exact Ej|]].
  - rewrite nth_error_map.
    assert (Es : nth_error (seq 0 n) i = Some i).
    { rewrite (nth_error_nth' _ 0%nat) by (rewrite length_seq; exact L).
      rewrite seq_nth by exact L. reflexivity. }
    rewrite Es. reflexivity.
  - rewrite nth_error_map, Ej. simpl. rewrite G. f_equal.
    apply nth_error_nth. exact E.
Qed.

(** X17.  After a successful ingestion the conversion of lines 208-211
    does not fail: every table of the store becomes a frame, under its
    name, whose columns are [step_id], [depends], [return] and then the
    other columns of the table in their order, with one row per record of
    the table, and a value of a column stands in the row of its position
    under the label of the column.  The raw blocks are dictionaries. *)
Theorem tables_become_frames :
  forall files db,
    blocks_ok (load_sources files) ->
    load_parameters files init = Ok db ->
    exists frames,
      assemble (dkeys (data db)) (data db) [] = Ok frames /\
      (forall t, In t (dkeys frames) <-> In t (dkeys (data db))) /\
      (forall t cols,
          dget t (data db) = Some cols ->
          exists f,
            dget t frames = Some f /\
            f = table_frame cols
                  (List.length (records_of t (dedup (load_sources files)) 0))
            /\
            nrows f
            = List.length (records_of t (dedup (load_sources files)) 0) /\
            forall c xs i x,
              dget c cols = Some xs -> nth_error xs i = Some x ->
              exists row j,
                nth_error (rows f) i = Some row /\
                nth_error (columns f) j = Some c /\
                nth_error row j = Some x).
Proof.
  intros files db B E.
  destruct (load_parameters_inv files B E) as [I1 _].
  destruct (@tables_inv_load _ _ E) as [NDt _].
  set (items := dedup (load_sources files)) in *.
  assert (Fr : forall t cols,
             dget t (data db) = Some cols ->
             frame_of_columns cols
               (["step_id"; "depends"; "return"]
                  ++ filter (not_in ["step_id"; "depends"; "return"])
                            (dkeys cols))
             = Ok (table_frame cols (List.length (records_of t items 0)))).
  { intros t cols G. destruct (I1 _ _ G) as (ND & A & _ & _ & L).
    apply frame_of_columns_ok; [exact ND | | exact L].
    intros ->. discriminate. }
  destruct (@assemble_total (dkeys (data db)) (data db) []) as [frames Ef].
  { intros k I. destruct (in_keys_dget _ _ I) as [cols G].
    exists cols. eexists. split; [exact G | exact (Fr k cols G)]. }
  exists frames. split; [exact Ef|].
  destruct (@assemble_spec _ _ _ _ Ef NDt) as (_ & H2 & H3).
  split; [intros t; rewrite H3; simpl; tauto|].
  intros t cols G.
  destruct (H2 t (dget_in_keys _ _ G)) as (cols' & f & G' & F & Gf).
  rewrite G in G'. inversion G'; subst cols'. clear G'.
  rewrite (Fr t cols G) in F. inversion F; subst f. clear F.
  eexists. split; [exact Gf|]. split; [reflexivity|]. split.
  - unfold nrows, table_frame. simpl. rewrite length_map, length_seq.
    reflexivity.
  - intros c xs i x Gc Ex. apply (@table_frame_cell cols _ c xs i x Gc Ex).
    destruct (I1 _ _ G) as (_ & _ & _ & _ & L).
    rewrite <- (L c xs Gc). apply nth_error_Some. congruence.
Qed.

Lemma tables_become_frames_witness :
  blocks_ok (load_sources [source_chain]) /\
  load_parameters [source_chain] init
  = Ok (mkDB store_chain ["est"] [("sim", [VStr "A"]); ("est", [VStr "B"])])
  /\ exists frames,
      assemble (dkeys store_chain) store_chain [] = Ok frames /\
      (forall t, In t (dkeys frames) <-> In t (dkeys store_chain)).
Proof.
  split; [exact source_chain_blocks_ok|]. split; [reflexivity|].
  destruct (@tables_become_frames [source_chain]
              (mkDB store_chain ["est"]
                 [("sim", [VStr "A"]); ("est", [VStr "B"])])
              source_chain_blocks_ok eq_refl) as (frames & H1 & H2 & _).
  exists frames. split; [exact H1 | exact H2].
Defined.

(** ** [Build]: the master tables and the result *)

Lemma master_name_inj b b' :
  ("master_" ++ b)%string = ("master_" ++ b')%string -> b = b'.
Proof. intros E. simpl in E. inversion E. reflexivity. Qed.

Lemma split_once_master b :
  getidx (split_once underscore ("master_" ++ b)) 1 = Ok b.
Proof. reflexivity. Qed.

Lemma build_masters_spec fuel db blocks : forall m0 m,
  build_masters fuel db blocks m0 = Ok m ->
  (forall b, In b blocks ->
     exists t, write_master_table fuel db b = Ok t /\
               dget ("master_" ++ b)%string m = Some t) /\
  (forall key, (forall b, In b blocks -> key <> ("master_" ++ b)%string) ->
               dget key m = dget key m0) /\
  (NoDup (dkeys m0) -> NoDup (dkeys m)).
Proof.
  induction blocks as [|b0 blocks IH]; intros m0 m E; simpl in E.
  - inversion E; subst. split; [intros b []|]. split; [reflexivity | tauto].
  - bind_as E t Xt. destruct (IH _ _ E) as (H1 & H2 & H3).
    split; [|split].
    + intros b [<-|I]; [|exact (H1 b I)].
      destruct (in_dec string_dec b0 blocks) as [I|N]; [exact (H1 b0 I)|].
      exists t. split; [exact Xt|]. rewrite H2; [apply dget_dset_eq|].
      intros b I Eb. apply master_name_inj in Eb. subst b. contradiction.
    + intros key N. rewrite H2 by (intros b I; apply N; right; exact I).
      apply dget_dset_neq. intros Ek. symmetry in Ek.
      exact (N b0 (or_introl eq_refl) Ek).
    + intros ND. apply H3. apply nodup_dset. exact ND.
Qed.

Lemma enrich_masters_spec name isfile load_rds d items : forall m m',
  enrich_masters name isfile load_rds d items m = Ok m' ->
  NoDup items ->
  (forall item, In item items ->
     exists bname t t',
       getidx (split_once underscore item) 1 = Ok bname /\
       dget item m = Some t /\
       cbind_output name isfile load_rds d bname t = Ok t' /\
       dget item m' = Some t') /\
  (forall k, ~ In k items -> dget k m' = dget k m) /\
  (NoDup (dkeys m) -> NoDup (dkeys m')).
Proof.
  induction items as [|item0 items IH]; intros m m' E ND; simpl in E.
  - inversion E; subst. split; [intros item []|].
    split; [reflexivity | tauto].
  - bind_as E bname Xb. bind_as E t Xt. bind_as E t' Xc.
    apply getitem_ok in Xt. inversion ND as [|? ? Hn ND']; subst.
    destruct (IH _ _ E ND') as (H1 & H2 & H3).
    split; [|split].
    + intros item [<-|I].
      * exists bname, t, t'. repeat (split; [assumption|]).
        rewrite (H2 item0 Hn). apply dget_dset_eq.
      * destruct (H1 item I) as (bn & t1 & t1' & A1 & A2 & A3 & A4).
        exists bn, t1, t1'. split; [exact A1|]. split; [|tauto].
        rewrite dget_dset_neq in A2; [exact A2|].
        intros <-. contradiction.
    + intros k N. rewrite H2 by (intros I; apply N; right; exact I).
      apply dget_dset_neq. intros ->. apply N. left. reflexivity.
    + intros NDm. apply H3. apply nodup_dset. exact NDm.
Qed.

Lemma nodup_map_inj {A B : Type} (f : A -> B) (l : list A) :
  (forall x y, f x = f y -> x = y) -> NoDup l -> NoDup (map f l).
Proof.
  intros Inj ND. induction ND as [|x l Hn ND IH]; simpl; constructor.
  - intros I. apply in_map_iff in I. destruct I as (y & Ey & Iy).
    apply Inj in Ey. subst y. contradiction.
  - exact IH.
Qed.

Lemma dget_rev {K V : Type} `{EqDec K} (k : K) (s : dict K V) :
  NoDup (dkeys s) -> dget k (rev s) = dget k s.
Proof.
  intros ND.
  assert (NDr : NoDup (dkeys (rev s))).
  { unfold dkeys. rewrite map_rev. apply NoDup_rev. exact ND. }
  destruct (dget k s) as [v|] eqn:G.
  - apply in_dget; [exact NDr|]. apply in_rev. rewrite rev_involutive.
    apply dget_in. exact G.
  - apply dget_none. apply dget_none in G. intros I. apply G.
    unfold dkeys in *. rewrite map_rev in I. apply in_rev in I. exact I.
Qed.

Lemma dget_named {V : Type} (k : value) (m : dict string V) :
  dget k (map (fun kf => (VStr (fst kf), snd kf)) m)
  = match k with
    | VStr s => dget s m
    | _ => None
    end.
Proof.
  induction m as [|[k0 v0] m IH]; simpl; [destruct k; reflexivity|].
  destruct (eq_dec k (VStr k0)) as [->|N].
  - destruct (eq_dec k0 k0); [reflexivity | congruence].
  - rewrite IH. destruct k as [| |s]; try reflexivity.
    destruct (eq_dec s k0); [congruence | reflexivity].
Qed.

(** What [Build] puts together: the database of [load_parameters], the
    frames of its tables and, for every terminal block, the master table
    enriched for that block. *)
Lemma Build_parts name isfile load_rds fuel files out :
  Build name isfile load_rds fuel files = Ok out ->
  exists db frames,
    load_parameters files init = Ok db /\
    assemble (dkeys (data db)) (data db) [] = Ok frames /\
    (forall b, In b (last_block db) ->
       exists t t',
         write_master_table fuel db b = Ok t /\
         cbind_output name isfile load_rds (data db) b t = Ok t' /\
         dget (VStr ("master_" ++ b)) out = Some t') /\
    (forall k, (forall b, In b (last_block db) ->
                          k <> VStr ("master_" ++ b)) ->
               dget k out = dget k frames).
Proof.
  unfold Build. intros E. bind_as E db Xd. bind_as E m Xm.
  bind_as E m' Xe. bind_as E frames Xf. inversion E; subst out. clear E.
  exists db, frames. split; [exact Xd|]. split; [exact Xf|].
  destruct (@build_masters_spec _ _ _ _ _ Xm) as (B1 & B2 & B3).
  assert (NDm : NoDup (dkeys m)) by (apply B3; constructor).
  destruct (@enrich_masters_spec _ _ _ _ _ _ _ Xe NDm) as (E1 & E2 & E3).
  assert (NDs : NoDup (dkeys (map (fun kf : string * DataFrame =>
                                     (VStr (fst kf), snd kf)) m'))).
  { unfold dkeys. rewrite map_map. simpl.
    rewrite <- (map_map fst VStr). apply nodup_map_inj.
    - intros x y Exy. inversion Exy. reflexivity.
    - apply E3. exact NDm. }
  split.
  - intros b Ib. destruct (B1 b Ib) as (t & Wt & Gt).
    destruct (E1 _ (dget_in_keys _ _ Gt)) as (bn & t1 & t' & A1 & A2 & A3 & A4).
    rewrite split_once_master in A1. inversion A1; subst bn.
    rewrite Gt in A2. inversion A2; subst t1.
    exists t, t'. split; [exact Wt|]. split; [exact A3|].
    rewrite dget_dupdate, (@dget_rev _ _ _ _ _ NDs), dget_named, A4.
    reflexivity.
  - intros k N. rewrite dget_dupdate, (@dget_rev _ _ _ _ _ NDs), dget_named.
    destruct k as [| |s]; try reflexivity.
    assert (Gm : dget s m = None).
    { rewrite B2; [reflexivity|]. intros b Ib Es. apply (N b Ib).
      congruence. }
    rewrite E2, Gm; [reflexivity|]. apply dget_none. exact Gm.
Qed.

(** X18.  What [Build] returns is made of the parts: when it returns,
    [load_parameters] has returned a database and the conversion of its
    tables has returned their frames; under [master_<block>], for every
    terminal block, stands the table that [cbind_output] returns for the
    block and the master table that [write_master_table] returns for it
    (the name passed at line 207 is the block of line 205); and every
    other key has what the frames have under it. *)
Theorem Build_output :
  forall name isfile load_rds fuel files out,
    Build name isfile load_rds fuel files = Ok out ->
    exists db frames,
      load_parameters files init = Ok db /\
      assemble (dkeys (data db)) (data db) [] = Ok frames /\
      (forall b, In b (last_block db) ->
         exists t t',
           write_master_table fuel db b = Ok t /\
           cbind_output name isfile load_rds (data db) b t = Ok t' /\
           dget (VStr ("master_" ++ b)) out = Some t') /\
      (forall k, (forall b, In b (last_block db) ->
                            k <> VStr ("master_" ++ b)) ->
                 dget k out = dget k frames).
Proof.
  intros name isfile load_rds fuel files out E.
  exact (@Build_parts name isfile load_rds fuel files out E).
Qed.

Lemma Build_output_witness :
  Build "db" file_of_b rds_of_b 2 [source_chain] = Ok built_chain /\
  exists db frames,
    load_parameters [source_chain] init = Ok db /\
    assemble (dkeys (data db)) (data db) [] = Ok frames /\
    (forall b, In b (last_block db) ->
       exists t t',
         write_master_table 2 db b = Ok t /\
         cbind_output "db" file_of_b rds_of_b (data db) b t = Ok t' /\
         dget (VStr ("master_" ++ b)) built_chain = Some t') /\
    (forall k, (forall b, In b (last_block db) ->
                          k <> VStr ("master_" ++ b)) ->
               dget k built_chain = dget k frames).
Proof.
  split; [reflexivity|].
  apply (@Build_output "db" file_of_b rds_of_b 2%nat [source_chain]
           built_chain eq_refl).
Defined.

Lemma cbind_loop_some name isfile load_rds d pairs : forall acc acc' c,
  cbind_loop name isfile load_rds d pairs acc None = Ok (acc', Some c) ->
  exists step idx,
    In (step, idx) pairs /\ has_artifact name isfile d step idx.
Proof.
  induction pairs as [|[step idx] pairs IH]; intros acc acc' c E;
    simpl in E; [discriminate|].
  bind_as E ret Xr. destruct (isfile (rds_path name ret)) eqn:F; simpl in E.
  - exists step, idx. split; [left; reflexivity|]. exists ret. tauto.
  - destruct (IH _ _ _ E) as (s & i & I & A).
    exists s, i. split; [right; exact I | exact A].
Qed.

(** X19.  [Build] returns only when every terminal block has an
    artifact: a row of the master table of the block names a step whose
    [.rds] file exists.  Without any artifact file, [Build] of a source
    with a terminal block does not return. *)
Theorem Build_needs_artifacts :
  forall name isfile load_rds fuel files db,
    load_parameters files init = Ok db ->
    (forall out b,
        Build name isfile load_rds fuel files = Ok out ->
        In b (last_block db) ->
        exists t names ids step idx,
          write_master_table fuel db b = Ok t /\
          select (b ++ "_name")%string t = Ok names /\
          select (b ++ "_id")%string t = Ok ids /\
          In (step, idx) (combine names ids) /\
          has_artifact name isfile (data db) step idx) /\
    ((forall path, isfile path = false) -> last_block db <> [] ->
     forall out, Build name isfile load_rds fuel files <> Ok out).
Proof.
  intros name isfile load_rds fuel files db Ed.
  assert (P : forall out b,
             Build name isfile load_rds fuel files = Ok out ->
             In b (last_block db) ->
             exists t names ids step idx,
               write_master_table fuel db b = Ok t /\
               select (b ++ "_name")%string t = Ok names /\
               select (b ++ "_id")%string t = Ok ids /\
               In (step, idx) (combine names ids) /\
               has_artifact name isfile (data db) step idx).
  { intros out b E Ib.
    destruct (@Build_parts _ _ _ _ _ _ E) as (db' & frames & Ed' & _ & M & _).
    rewrite Ed in Ed'. inversion Ed'; subst db'. clear Ed'.
    destruct (M b Ib) as (t & t' & Wt & Ct & _).
    unfold cbind_output in Ct. bind_as Ct names Xn. bind_as Ct ids Xi.
    bind_as Ct r Xl. destruct r as [acc' [c|]]; [|discriminate].
    destruct (@cbind_loop_some _ _ _ _ _ _ _ _ Xl) as (step & idx & I & A).
    exists t, names, ids, step, idx. tauto. }
  split; [exact P|].
  intros No Ne out E. destruct (last_block db) as [|b lb] eqn:Lb;
    [congruence|].
  destruct (P out b E (or_introl eq_refl))
    as (_ & _ & _ & step & idx & _ & _ & _ & _ & ret & _ & F).
  rewrite No in F. discriminate.
Qed.

Lemma Build_needs_artifacts_witness :
  load_parameters [source_chain] init
  = Ok (mkDB store_chain ["est"] [("sim", [VStr "A"]); ("est", [VStr "B"])])
  /\ (forall out, Build "db" no_file rds_of_b 2 [source_chain] <> Ok out).
Proof.
  split; [reflexivity|].
  apply (proj2 (@Build_needs_artifacts "db" no_file rds_of_b 2%nat
                  [source_chain]
                  (mkDB store_chain ["est"]
                     [("sim", [VStr "A"]); ("est", [VStr "B"])]) eq_refl)).
  - reflexivity.
  - discriminate.
Defined.

(** ** Keys: the suffix of a key holds its return id and its dependency *)

Lemma split_nonempty c s : split c s <> [].
Proof.
  destruct s as [|a s]; simpl; [discriminate|].
  destruct (Ascii.eqb a c); [discriminate|].
  destruct (split c s); discriminate.
Qed.

Lemma split_without c s : Forall (without c) (split c s).
Proof.
  induction s as [|a s IH]; simpl.
  - constructor; [intros [] | constructor].
  - destruct (Ascii.eqb a c) eqn:Ea.
    + constructor; [intros [] | exact IH].
    + apply Ascii.eqb_neq in Ea.
      destruct (split c s) as [|w ws]; [constructor; [|constructor]|].
      * simpl. intros [E|[]]. congruence.
      * inversion IH as [|? ? Hw Hws]; subst. constructor; [|exact Hws].
        simpl. intros [E|I]; [congruence | exact (Hw I)].
Qed.

Lemma split_whole c w : without c w -> split c w = [w].
Proof.
  induction w as [|a w IH]; intros N; simpl; [reflexivity|].
  assert (Na : a <> c) by (intros ->; apply N; left; reflexivity).
  apply Ascii.eqb_neq in Na. rewrite Na.
  rewrite IH; [reflexivity|]. intros I. apply N. right. exact I.
Qed.

Lemma split_app_sep c w r :
  without c w -> split c (w ++ String c r) = w :: split c r.
Proof.
  induction w as [|a w IH]; intros N; simpl.
  - rewrite Ascii.eqb_refl. reflexivity.
  - assert (Na : a <> c) by (intros ->; apply N; left; reflexivity).
    apply Ascii.eqb_neq in Na. rewrite Na.
    rewrite IH; [reflexivity|]. intros I. apply N. right. exact I.
Qed.

(** Splitting what was joined gives the parts back. *)
Lemma split_join c l :
  l <> [] -> Forall (without c) l ->
  split c (join (String c "") l) = l.
Proof.
  unfold join. induction l as [|w l IH]; intros Ne F; [congruence|].
  inversion F as [|? ? Hw Hl]; subst. destruct l as [|w' l].
  - simpl. apply split_whole. exact Hw.
  - change (String.concat (String c "") (w :: w' :: l))
      with (w ++ String c (String.concat (String c "") (w' :: l)))%string.
    rewrite split_app_sep by exact Hw. f_equal.
    apply IH; [discriminate | exact Hl].
Qed.

Lemma same_suffix_same_tail k1 k2 :
  key_suffix k1 = key_suffix k2 ->
  (2 <= List.length (split underscore k1))%nat ->
  (2 <= List.length (split underscore k2))%nat ->
  tl (split underscore k1) = tl (split underscore k2).
Proof.
  unfold key_suffix. intros E L1 L2.
  assert (T : forall k, (2 <= List.length (split underscore k))%nat ->
              split underscore (join "_" (tl (split underscore k)))
              = tl (split underscore k)).
  { intros k L. apply (@split_join underscore).
    - destruct (split underscore k) as [|a [|b l]]; simpl in *;
        [lia | lia | discriminate].
    - assert (F := split_without underscore k).
      destruct (split underscore k) as [|a l]; [constructor|].
      inversion F; assumption. }
  rewrite <- (T k1 L1), <- (T k2 L2), E. reflexivity.
Qed.

Lemma keep_first_twin d : forall seen k,
  In k (dkeys d) ->
  In (key_suffix k) seen \/
  exists k', In k' (dkeys (keep_first seen d)) /\
             key_suffix k' = key_suffix k.
Proof.
  induction d as [|[k0 v0] d IH]; intros seen k I; [contradiction|].
  simpl. destruct (mem (key_suffix k0) seen) eqn:M.
  - destruct I as [<-|I]; [left; apply mem_true; exact M|].
    exact (IH seen k I).
  - destruct I as [<-|I].
    + right. exists k0. split; [left; reflexivity | reflexivity].
    + destruct (IH (seen ++ [key_suffix k0]) k I) as [Is|(k' & I' & E')].
      * apply in_app_or in Is. destruct Is as [Is|[Es|[]]].
        -- left. exact Is.
        -- right. exists k0. split; [left; reflexivity | exact Es].
      * right. exists k'. split; [right; exact I' | exact E'].
Qed.

(** X20.  Deduplication keeps the identity of every raw block: a key
    of the merged sources has a key with the same suffix among the
    deduplicated ones, and two keys with the same suffix that both have a
    return id have the same return id, the same number of parts and name
    the same dependency last. *)
Theorem dropped_block_has_kept_twin :
  forall files k,
    In k (dkeys (load_sources files)) ->
    exists k',
      In k' (dkeys (dedup (load_sources files))) /\
      key_suffix k' = key_suffix k /\
      ((2 <= List.length (split underscore k))%nat ->
       (2 <= List.length (split underscore k'))%nat ->
       key_return k' = key_return k /\
       List.length (split underscore k')
       = List.length (split underscore k) /\
       key_last k' = key_last k).
Proof.
  intros files k I.
  rewrite (@dedup_keep_first _ (load_sources_nodup files)).
  destruct (@keep_first_twin (load_sources files) [] k I)
    as [[]|(k' & I' & E)].
  exists k'. split; [exact I'|]. split; [exact E|].
  intros L L'. assert (T := @same_suffix_same_tail k' k E L' L).
  destruct (split underscore k) as [|a [|b l]]; simpl in L; try lia.
  destruct (split underscore k') as [|a' [|b' l']]; simpl in L'; try lia.
  simpl in T. inversion T; subst. split; [reflexivity|].
  split; [reflexivity|].
  destruct l as [|c l]; reflexivity.
Qed.

Lemma dropped_block_has_kept_twin_witness :
  In "3_a" (dkeys (load_sources [source_chain; source_chain_again])) /\
  exists k',
    In k' (dkeys (dedup (load_sources [source_chain; source_chain_again])))
    /\ key_suffix k' = key_suffix "3_a" /\
    ((2 <= List.length (split underscore "3_a"))%nat ->
     (2 <= List.length (split underscore k'))%nat ->
     key_return k' = key_return "3_a" /\
     List.length (split underscore k')
     = List.length (split underscore "3_a") /\
     key_last k' = key_last "3_a").
Proof.
  split; [cbn; tauto|].
  apply (@dropped_block_has_kept_twin [source_chain; source_chain_again]
           "3_a").
  cbn. tauto.
Defined.

(** ** Merging the sources: the last file wins *)

(** X21.  The merge of lines 45-47 is last-wins by key, unlike the
    deduplication that follows it: the merged dictionary has pairwise
    distinct keys, which are the keys of the files, and under a key the
    raw block of the last file that has the key. *)
Theorem load_sources_last_file_wins :
  forall files,
    NoDup (dkeys (load_sources files)) /\
    (forall k, In k (dkeys (load_sources files)) <->
               exists f, In f files /\ In k (dkeys f)) /\
    (forall fs1 f fs2 k v,
        files = fs1 ++ f :: fs2 ->
        NoDup (dkeys f) -> In (k, v) f ->
        (forall f', In f' fs2 -> ~ In k (dkeys f')) ->
        dget k (load_sources files) = Some v).
Proof.
  intros files. split; [apply load_sources_nodup|]. split.
  - intros k. unfold load_sources. rewrite load_sources_fold.
    rewrite in_keys_dupdate. simpl. split.
    + intros [I|[]]. unfold dkeys in I. apply in_map_iff in I.
      destruct I as ([k' v'] & <- & I). apply in_concat in I.
      destruct I as (f & If & Ikv). exists f. split; [exact If|].
      apply in_map_iff. exists (k', v'). tauto.
    + intros (f & If & Ik). left. unfold dkeys in *.
      apply in_map_iff in Ik. destruct Ik as ([k' v'] & <- & Ikv).
      apply in_map_iff. exists (k', v'). split; [reflexivity|].
      apply in_concat. exists f. tauto.
  - intros fs1 f fs2 k v -> ND I No.
    unfold load_sources. rewrite load_sources_fold, dget_dupdate.
    rewrite concat_app. simpl. rewrite !rev_app_distr, !dget_app.
    assert (N2 : dget k (rev (List.concat fs2)) = None).
    { apply dget_none. intros Ik. unfold dkeys in Ik.
      apply in_map_iff in Ik. destruct Ik as ([k' v'] & E & Ikv).
      simpl in E. subst k'. apply in_rev in Ikv. apply in_concat in Ikv.
      destruct Ikv as (f' & If' & Ikv). apply (No f' If').
      apply in_map_iff. exists (k, v'). tauto. }
    rewrite N2, (@dget_rev _ _ _ _ _ ND), (@in_dget _ _ _ _ _ _ ND I).
    reflexivity.
Qed.

(** ** Fields named like a system column *)

Lemma rename_field_other (acc : raw) x c :
  NoDup (dkeys acc) -> c <> ("." ++ x)%string -> c <> x ->
  dget c (rename_field acc x) = dget c acc.
Proof.
  intros ND N1 N2. unfold rename_field.
  destruct (dget x acc) as [y|]; [|reflexivity].
  rewrite dget_dset_neq by congruence. apply dget_ddel_neq. congruence.
Qed.

Lemma rename_field_dot (acc : raw) x y :
  dget x acc = Some y ->
  dget ("." ++ x)%string (rename_field acc x) = Some y.
Proof.
  intros G. unfold rename_field. rewrite G. apply dget_dset_eq.
Qed.

Lemma rename_field_absent (acc : raw) x :
  dget x acc = None -> rename_field acc x = acc.
Proof. intros G. unfold rename_field. rewrite G. reflexivity. Qed.

(** X22.  Lines 69-71 move a field named [step_id], [return] or
    [depends] to the same name with a leading dot: afterwards no field has
    one of these names, the value of such a field stands under the dotted
    name, and a field with another name that is not the dotted name of a
    moved field has its value.  The raw block is a dictionary. *)
Theorem system_named_fields_are_dotted :
  forall v,
    NoDup (dkeys v) ->
    NoDup (dkeys (rename_fields v)) /\
    (forall x, In x system_cols -> dget x (rename_fields v) = None) /\
    (forall x y, In x system_cols -> dget x v = Some y ->
                 dget ("." ++ x)%string (rename_fields v) = Some y) /\
    (forall c, ~ In c system_cols ->
               (forall x, In x system_cols -> c = ("." ++ x)%string ->
                          dget x v = None) ->
               dget c (rename_fields v) = dget c v).
Proof.
  intros v ND.
  destruct (@rename_field_spec _ "step_id" ND) as (N1 & _ & _).
  destruct (@rename_field_spec _ "return" N1) as (N2 & _ & _).
  destruct (@rename_fields_spec _ ND) as [N3 NoSys].
  rewrite rename_fields_fold in *.
  set (v1 := rename_field v "step_id") in *.
  set (v2 := rename_field v1 "return") in *.
  assert (R1 : dget "return" v1 = dget "return" v)
    by (apply rename_field_other; [exact ND | discriminate | discriminate]).
  assert (D1 : dget "depends" v1 = dget "depends" v)
    by (apply rename_field_other; [exact ND | discriminate | discriminate]).
  assert (D2 : dget "depends" v2 = dget "depends" v).
  { rewrite <- D1.
    apply rename_field_other; [exact N1 | discriminate | discriminate]. }
  split; [exact N3|]. split; [|split].
  - intros x I. apply dget_none. apply NoSys. exact I.
  - intros x y [<-|[<-|[<-|[]]]] E; cbn [String.append].
    + rewrite (@rename_field_other v2 "depends" ".step_id" N2)
        by discriminate.
      unfold v2.
      rewrite (@rename_field_other v1 "return" ".step_id" N1)
        by discriminate.
      unfold v1. apply (@rename_field_dot v "step_id" y E).
    + rewrite (@rename_field_other v2 "depends" ".return" N2)
        by discriminate.
      unfold v2. apply (@rename_field_dot v1 "return" y).
      rewrite R1. exact E.
    + apply (@rename_field_dot v2 "depends" y). rewrite D2. exact E.
  - intros c S Dot.
    assert (S1 : c <> "step_id") by (intros ->; apply S; simpl; tauto).
    assert (S2 : c <> "return") by (intros ->; apply S; simpl; tauto).
    assert (S3 : c <> "depends") by (intros ->; apply S; simpl; tauto).
    assert (E1 : dget c v1 = dget c v).
    { destruct (eq_dec c ".step_id") as [->|N].
      - unfold v1. rewrite rename_field_absent; [reflexivity|].
        apply (Dot "step_id"); [simpl; tauto | reflexivity].
      - unfold v1. apply rename_field_other; assumption. }
    assert (E2 : dget c v2 = dget c v1).
    { destruct (eq_dec c ".return") as [->|N].
      - unfold v2. rewrite rename_field_absent; [reflexivity|].
        rewrite R1. apply (Dot "return"); [simpl; tauto | reflexivity].
      - unfold v2. apply rename_field_other; assumption. }
    rewrite <- E1, <- E2.
    destruct (eq_dec c ".depends") as [->|N].
    + rewrite rename_field_absent; [reflexivity|].
      rewrite D2. apply (Dot "depends"); [simpl; tauto | reflexivity].
    + apply rename_field_other; assumption.
Qed.

Lemma system_named_fields_are_dotted_witness :
  NoDup (dkeys [("exec", VStr "A"); ("step_id", VInt 7); ("x", VInt 1)]) /\
  dget "step_id"
       (rename_fields [("exec", VStr "A"); ("step_id", VInt 7); ("x", VInt 1)])
  = None /\
  dget ".step_id"
       (rename_fields [("exec", VStr "A"); ("step_id", VInt 7); ("x", VInt 1)])
  = Some (VInt 7).
Proof.
  assert (ND : NoDup (dkeys [("exec", VStr "A"); ("step_id", VInt 7);
                             ("x", VInt 1)])).
  { repeat constructor; simpl; intuition discriminate. }
  split; [exact ND|].
  destruct (@system_named_fields_are_dotted _ ND) as (_ & H2 & H3 & _).
  split.
  - apply H2. simpl. tauto.
  - apply (H3 "step_id" (VInt 7)); [simpl; tauto | reflexivity].
Defined.

(** ** The configuration database: the paths of an entry *)

Lemma last_in {A : Type} (l : list A) d : l <> [] -> In (last l d) l.
Proof.
  induction l as [|a l IH]; intros N; [congruence|].
  destruct l as [|b l]; [left; reflexivity|].
  right. apply IH. discriminate.
Qed.

Lemma basename_without item : without "/" (basename item).
Proof.
  unfold basename.
  assert (F := split_without "/" item).
  rewrite Forall_forall in F. apply F. apply last_in. apply split_nonempty.
Qed.

Lemma split_app_sep_last c a b :
  without c b ->
  exists l, l <> [] /\ split c (a ++ String c b) = l ++ [b].
Proof.
  intros N. induction a as [|x a IH]; simpl.
  - rewrite Ascii.eqb_refl. exists [""]. split; [discriminate|].
    rewrite (split_whole N). reflexivity.
  - destruct IH as (l & Nl & E). rewrite E.
    destruct (Ascii.eqb x c).
    + exists ("" :: l). split; [discriminate | reflexivity].
    + destruct l as [|w l]; [congruence|]. simpl.
      exists (String x w :: l). split; [discriminate | reflexivity].
Qed.

Lemma ends_with_app c a :
  ends_with c a = true -> exists a0, a = (a0 ++ String c "")%string.
Proof.
  induction a as [|x a IH]; simpl; [discriminate|].
  destruct a as [|y a].
  - intros E. apply Ascii.eqb_eq in E. subst x. exists "". reflexivity.
  - intros E. destruct (IH E) as [a0 E0]. exists (String x a0).
    simpl. rewrite <- E0. reflexivity.
Qed.

Lemma append_assoc (a b c : string) :
  ((a ++ b) ++ c)%string = (a ++ b ++ c)%string.
Proof. induction a as [|x a IH]; simpl; [reflexivity | rewrite IH; reflexivity]. Qed.

Lemma basename_join a b :
  without "/" b -> basename (path_join a b) = b.
Proof.
  intros N. unfold path_join.
  assert (S : starts_with "/" b = false).
  { destruct b as [|x b]; [reflexivity|]. simpl.
    apply Ascii.eqb_neq. intros ->. apply N. left. reflexivity. }
  rewrite S. unfold basename.
  assert (Sep : forall a0, last (split "/" (a0 ++ String "/" b)) "" = b).
  { intros a0. destruct (@split_app_sep_last "/"%char a0 b N) as (l & _ & E).
    rewrite E. apply last_last. }
  destruct (String.eqb a "") eqn:Ea.
  - apply String.eqb_eq in Ea. subst a. simpl.
    rewrite (split_whole N). reflexivity.
  - simpl. destruct (ends_with "/" a) eqn:Ee.
    + destruct (ends_with_app _ _ Ee) as [a0 ->].
      rewrite append_assoc. apply Sep.
    + apply Sep.
Qed.

(** X23.  The paths that [ConfigDB.Build] lists for an entry (lines
    232-235) are [os.path.join] of the database name and the base name of
    the non-empty items of the comma-separated list: their base names
    are, in order, the base names of these items, whatever directory an
    item named; and an empty list gives no path. *)
Theorem io_paths_keep_base_names :
  forall name x,
    map basename (ConfigDB.paths name x)
    = map basename (filter (fun item => negb (String.eqb item ""))
                           (split ","%char x)) /\
    (forall p, In p (ConfigDB.paths name x) <->
               exists item, In item (split ","%char x) /\ item <> "" /\
                            p = path_join name (basename item)) /\
    ConfigDB.paths name "" = [].
Proof.
  intros name x. split; [|split].
  - unfold ConfigDB.paths. rewrite map_map. apply map_ext.
    intros item. apply basename_join. apply basename_without.
  - intros p. unfold ConfigDB.paths. rewrite in_map_iff. split.
    + intros (item & <- & I). apply filter_In in I. destruct I as [I N].
      exists item. split; [exact I|]. split; [|reflexivity].
      intros ->. discriminate.
    + intros (item & I & N & ->). exists item. split; [reflexivity|].
      apply filter_In. split; [exact I|].
      apply negb_true_iff. apply String.eqb_neq. exact N.
  - reflexivity.
Qed.

(** ** The configuration database: the entries *)

Lemma unpack3_ok {A : Type} (l : list A) a b c :
  unpack3 l = Ok (a, b, c) <-> l = [a; b; c].
Proof.
  unfold unpack3. split.
  - destruct l as [|x [|y [|z [|w l]]]]; try discriminate.
    intros E. inversion E. reflexivity.
  - intros ->. reflexivity.
Qed.

(** What a turn of the loop of line 223 needs of its file, and what it
    leaves in [self.data]. *)
Lemma add_file_ok name read int (P : Type)
    (sos : list string -> result P) f data data' :
  ConfigDB.add_file name read int sos f data = Ok data' ->
  exists fid sid nm x y z n e,
    ConfigDB.name_parts f = [fid; sid; nm] /\
    split_pair ":" (read f) = [x; y; z] /\
    int z = Ok n /\
    ConfigDB.entry_at data' fid sid nm = Some e /\
    dget "output" e = Some (ConfigDB.Paths (ConfigDB.paths name y)) /\
    (n = 0%Z ->
     dget "input" e = Some (ConfigDB.Paths (ConfigDB.paths name x))) /\
    (n <> 0%Z ->
     exists p, sos (ConfigDB.paths name x) = Ok p /\
               dget "input" e = Some (ConfigDB.Paired p)) /\
    (forall fid' sid' nm',
        (fid', sid', nm') <> (fid, sid, nm) ->
        ConfigDB.entry_at data' fid' sid' nm'
        = ConfigDB.entry_at data fid' sid' nm').
Proof.
  unfold ConfigDB.add_file. intros E.
  bind_as E parts Xp. destruct parts as [[fid sid] nm].
  apply unpack3_ok in Xp. cbn [fst snd] in E.
  bind_as E by_sid Xs. bind_as E by_name Xn. bind_as E e Xe.
  bind_as E xyz Xc. destruct xyz as [[x y] z].
  apply unpack3_ok in Xc. cbn [fst snd] in E.
  bind_as E n Xi. bind_as E e3 X3. inversion E; subst data'. clear E.
  apply getitem_ok in Xs, Xn, Xe.
  exists fid, sid, nm, x, y, z, n, e3.
  split; [exact Xp|]. split; [exact Xc|]. split; [exact Xi|].
  split.
  { unfold ConfigDB.entry_at. rewrite !dget_dset_eq. reflexivity. }
  assert (Out : dget "output" e3
                = Some (ConfigDB.Paths (ConfigDB.paths name y))).
  { destruct (n =? 0)%Z.
    - inversion X3; subst e3. apply dget_dset_eq.
    - bind_as X3 p Xq. inversion X3; subst e3.
      rewrite dget_dset_neq by discriminate. apply dget_dset_eq. }
  split; [exact Out|]. split; [|split].
  - intros ->. simpl in X3. inversion X3; subst e3.
    rewrite dget_dset_neq by discriminate. apply dget_dset_eq.
  - intros N. apply Z.eqb_neq in N. rewrite N in X3.
    bind_as X3 p Xq. inversion X3; subst e3.
    exists p. split; [exact Xq | apply dget_dset_eq].
  - intros fid' sid' nm' N. unfold ConfigDB.entry_at.
    rewrite dget_dset. destruct (eq_dec fid fid') as [<-|Nf].
    + assert (Bs : dget fid data = Some by_sid \/
                   (dget fid data = None /\ by_sid = [])).
      { unfold dmem in Xs. destruct (dget fid data) as [a|] eqn:D.
        - left. rewrite D in Xs. exact Xs.
        - right. rewrite dget_dset_eq in Xs. inversion Xs. tauto. }
      rewrite dget_dset. destruct (eq_dec sid sid') as [<-|Ns].
      * assert (Bn : dget sid by_sid = Some by_name \/
                     (dget sid by_sid = None /\ by_name = [])).
        { unfold dmem in Xn. destruct (dget sid by_sid) as [a|] eqn:D.
          - left. rewrite D in Xn. exact Xn.
          - right. rewrite dget_dset_eq in Xn. inversion Xn. tauto. }
        assert (Nn : nm <> nm') by congruence.
        rewrite dget_dset_neq by exact Nn.
        assert (En : dget nm'
                       (if dmem nm by_name then by_name
                        else dset nm [] by_name) = dget nm' by_name).
        { destruct (dmem nm by_name); [reflexivity|].
          apply dget_dset_neq. exact Nn. }
        rewrite En.
        destruct Bs as [Bs|[Bs ->]]; rewrite Bs.
        -- destruct Bn as [Bn|[Bn ->]]; rewrite Bn; reflexivity.
        -- destruct Bn as [Bn|[Bn ->]]; [discriminate | reflexivity].
      * assert (Es : dget sid'
                       (if dmem sid by_sid then by_sid
                        else dset sid [] by_sid) = dget sid' by_sid).
        { destruct (dmem sid by_sid); [reflexivity|].
          apply dget_dset_neq. exact Ns. }
        rewrite Es. destruct Bs as [Bs|[Bs ->]]; rewrite Bs; reflexivity.
    + destruct (dmem fid data); [reflexivity|].
      rewrite dget_dset_neq by exact Nf. reflexivity.
Qed.

Lemma build_loop_app name read int (P : Type)
    (sos : list string -> result P) fs1 : forall fs2 data out,
  ConfigDB.build_loop name read int sos (fs1 ++ fs2) data = Ok out ->
  exists mid,
    ConfigDB.build_loop name read int sos fs1 data = Ok mid /\
    ConfigDB.build_loop name read int sos fs2 mid = Ok out.
Proof.
  induction fs1 as [|f fs1 IH]; intros fs2 data out E; simpl in *.
  - exists data. tauto.
  - bind_as E d1 X1. destruct (IH _ _ _ E) as (mid & E1 & E2).
    exists mid. rewrite X1. simpl. tauto.
Qed.

Lemma build_loop_other name read int (P : Type)
    (sos : list string -> result P) fs fid sid nm : forall data out,
  ConfigDB.build_loop name read int sos fs data = Ok out ->
  (forall f, In f fs -> ConfigDB.name_parts f <> [fid; sid; nm]) ->
  ConfigDB.entry_at out fid sid nm = ConfigDB.entry_at data fid sid nm.
Proof.
  induction fs as [|f fs IH]; intros data out E No; simpl in E.
  - inversion E. reflexivity.
  - bind_as E d1 X1.
    rewrite (IH _ _ E (fun f' I => No f' (or_intror I))).
    destruct (@add_file_ok _ _ _ _ _ _ _ _ X1)
      as (fid0 & sid0 & nm0 & x & y & z & n & e & Hp & _ & _ & _ & _ & _
          & _ & Oth).
    apply Oth. intros Eq. inversion Eq; subst.
    exact (No f (or_introl eq_refl) Hp).
Qed.

Lemma build_loop_files name read int (P : Type)
    (sos : list string -> result P) fs : forall data out,
  ConfigDB.build_loop name read int sos fs data = Ok out ->
  forall f, In f fs ->
    exists d d', ConfigDB.add_file name read int sos f d = Ok d'.
Proof.
  induction fs as [|f0 fs IH]; intros data out E f I; [contradiction|].
  simpl in E. bind_as E d1 X1. destruct I as [<-|I]; [eauto|].
  eapply IH; eassumption.
Qed.

Lemma getitem_default {V : Type} (k : string) (d : dict string (dict string V)) :
  exists a, getitem k (if dmem k d then d else dset k [] d) = Ok a.
Proof.
  unfold getitem, dmem. destruct (dget k d) as [a|] eqn:D.
  - rewrite D. eauto.
  - rewrite dget_dset_eq. eauto.
Qed.

Lemma unpack3_length {A : Type} (l : list A) :
  List.length l <> 3%nat -> unpack3 l = Raise ValueError.
Proof.
  unfold unpack3. destruct l as [|x [|y [|z [|w l]]]]; simpl; intros N;
    try reflexivity; congruence.
Qed.

Lemma split_length_cons c x s :
  List.length (split c (String x s))
  = if Ascii.eqb x c then S (List.length (split c s))
    else List.length (split c s).
Proof.
  simpl. destruct (Ascii.eqb x c); [reflexivity|].
  destruct (split c s) as [|w ws] eqn:E; [|reflexivity].
  exfalso. exact (split_nonempty c s E).
Qed.

Lemma split_length_app c a b :
  List.length (split c (a ++ String c b))
  = (List.length (split c a) + List.length (split c b))%nat.
Proof.
  induction a as [|x a IH].
  - cbn [String.append]. rewrite split_length_cons, Ascii.eqb_refl.
    reflexivity.
  - cbn [String.append]. rewrite !split_length_cons, IH.
    destruct (Ascii.eqb x c); reflexivity.
Qed.

Lemma split_length_pos c s : (1 <= List.length (split c s))%nat.
Proof.
  destruct (split c s) as [|w ws] eqn:E; [|simpl; lia].
  exfalso. exact (split_nonempty c s E).
Qed.

(** The base name of a match of the pattern has three parts between
    dots at least: line 224 finds its three names. *)
Lemma io_tmp_name_parts f :
  io_tmp f -> exists fid sid nm, ConfigDB.name_parts f = [fid; sid; nm].
Proof.
  intros [stem E]. unfold ConfigDB.name_parts. rewrite E.
  assert (L : (3 <= List.length (split "." (stem ++ ".io.tmp")))%nat).
  { change (stem ++ ".io.tmp")%string
      with (stem ++ String "." "io.tmp")%string.
    rewrite split_length_app. assert (P := split_length_pos "." stem).
    simpl. lia. }
  destruct (split "." (stem ++ ".io.tmp")) as [|a [|b [|c l]]];
    simpl in L; try lia.
  exists a, b, c. reflexivity.
Qed.

(** A file of the pattern whose content has three parts: the turn of
    the loop comes to [int], and what [int] raises the turn raises. *)
Lemma add_file_int name read int (P : Type)
    (sos : list string -> result P) f data e :
  io_tmp f ->
  List.length (split_pair ":" (read f)) = 3%nat ->
  int (last (split_pair ":" (read f)) "") = Raise e ->
  ConfigDB.add_file name read int sos f data = Raise e.
Proof.
  intros G L I. destruct (io_tmp_name_parts G) as (fid & sid & nm & Hp).
  unfold ConfigDB.add_file. rewrite Hp. cbn [unpack3 bind fst snd].
  cbv zeta.
  destruct (@getitem_default _ fid data) as [a A]. rewrite A. cbn [bind].
  destruct (@getitem_default _ sid a) as [b B]. rewrite B. cbn [bind].
  destruct (@getitem_default _ nm b) as [c Cc]. rewrite Cc. cbn [bind].
  destruct (split_pair ":" (read f)) as [|x [|y [|z [|w l]]]];
    simpl in L; try lia.
  cbn [unpack3 bind fst snd]. simpl in I. rewrite I. reflexivity.
Qed.

(** A file of the pattern whose content does not have three parts: the
    unpacking of line 231 fails. *)
Lemma add_file_content name read int (P : Type)
    (sos : list string -> result P) f data :
  io_tmp f ->
  List.length (split_pair ":" (read f)) <> 3%nat ->
  ConfigDB.add_file name read int sos f data = Raise ValueError.
Proof.
  intros G L. destruct (io_tmp_name_parts G) as (fid & sid & nm & Hp).
  unfold ConfigDB.add_file. rewrite Hp. cbn [unpack3 bind fst snd].
  cbv zeta.
  destruct (@getitem_default _ fid data) as [a A]. rewrite A. cbn [bind].
  destruct (@getitem_default _ sid a) as [b B]. rewrite B. cbn [bind].
  destruct (@getitem_default _ nm b) as [c Cc]. rewrite Cc. cbn [bind].
  rewrite (unpack3_length _ L). reflexivity.
Qed.

(** X24.  [ConfigDB.Build] needs well-formed contents.  Every file of
    the pattern of line 223 has a base name with three parts between
    dots, so that the unpacking of line 224 finds its three names.  A
    file of the pattern whose stripped content does not have exactly
    three parts between [::], or whose third part [int] does not take,
    makes [Build] not return; when it is the first file of the loop, a
    content without three parts raises the [ValueError] of the unpacking
    of line 231, and a third part that [int] rejects raises what [int]
    raises at line 236. *)
Theorem malformed_io_file_fails :
  forall name read int (P : Type) (sos : list string -> result P) files f,
    In f files ->
    io_tmp f ->
    List.length (split_pair ":" (read f)) <> 3%nat \/
    (forall n, int (last (split_pair ":" (read f)) "") <> Ok n) ->
    (exists fid sid nm, ConfigDB.name_parts f = [fid; sid; nm]) /\
    (forall out, ConfigDB.Build name read int sos files <> Ok out) /\
    (List.length (split_pair ":" (read f)) <> 3%nat ->
     forall fs data,
       ConfigDB.build_loop name read int sos (f :: fs) data
       = Raise ValueError) /\
    (List.length (split_pair ":" (read f)) = 3%nat ->
     exists e,
       int (last (split_pair ":" (read f)) "") = Raise e /\
       forall fs data,
         ConfigDB.build_loop name read int sos (f :: fs) data = Raise e).
Proof.
  intros name read int P sos files f I G C.
  split; [exact (io_tmp_name_parts G)|]. split; [|split].
  - intros out E. unfold ConfigDB.Build in E.
    destruct (@build_loop_files _ _ _ _ _ _ _ _ E f I) as (d & d' & Ea).
    destruct (@add_file_ok _ _ _ _ _ _ _ _ Ea)
      as (fid & sid & nm & x & y & z & n & e & Hp & Hc & Hi & _).
    destruct C as [C|C].
    + rewrite Hc in C. apply C. reflexivity.
    + rewrite Hc in C. simpl in C. exact (C n Hi).
  - intros L fs data. cbn [ConfigDB.build_loop].
    rewrite (@add_file_content name read int P sos f data G L).
    reflexivity.
  - intros L. destruct C as [C|C]; [contradiction|].
    destruct (int (last (split_pair ":" (read f)) "")) as [n|e] eqn:X.
    + exfalso. exact (C n eq_refl).
    + exists e. split; [reflexivity|]. intros fs data.
      cbn [ConfigDB.build_loop].
      rewrite (@add_file_int name read int P sos f data e G L X).
      reflexivity.
Qed.

Lemma malformed_io_file_fails_witness :
  (io_tmp io_file_short /\
   ConfigDB.name_parts io_file_short = ["1"; "3"; "est"] /\
   split_pair ":" (io_read_each io_file_short) = ["a.txt"; "out/d.rds"] /\
   (forall out,
       ConfigDB.Build "db" io_read_each io_int io_pair
                      [io_file; io_file_short] <> Ok out) /\
   (forall fs data,
       ConfigDB.build_loop "db" io_read_each io_int io_pair
                           (io_file_short :: fs) data
       = Raise ValueError)) /\
  (io_tmp io_file_count /\
   ConfigDB.name_parts io_file_count = ["2"; "1"; "sim"] /\
   split_pair ":" (io_read_each io_file_count)
   = ["a.txt"; "out/d.rds"; "x"] /\
   io_int "x" = Raise ValueError /\
   (forall out,
       ConfigDB.Build "db" io_read_each io_int io_pair
                      [io_file; io_file_count] <> Ok out) /\
   (forall fs data,
       ConfigDB.build_loop "db" io_read_each io_int io_pair
                           (io_file_count :: fs) data
       = Raise ValueError)).
Proof.
  assert (G1 : io_tmp io_file_short) by (exists "1.3.est"; reflexivity).
  assert (G2 : io_tmp io_file_count) by (exists "2.1.sim"; reflexivity).
  assert (I1 : In io_file_short [io_file; io_file_short])
    by (right; left; reflexivity).
  assert (I2 : In io_file_count [io_file; io_file_count])
    by (right; left; reflexivity).
  assert (L1 : List.length (split_pair ":" (io_read_each io_file_short))
               <> 3%nat) by (cbn; lia).
  assert (L2 : forall n,
             io_int (last (split_pair ":" (io_read_each io_file_count)) "")
             <> Ok n) by (intros n; cbn; discriminate).
  split.
  - destruct (@malformed_io_file_fails "db" io_read_each io_int
                (list string) io_pair [io_file; io_file_short]
                io_file_short I1 G1 (or_introl L1)) as (_ & H2 & H3 & _).
    split; [exact G1|]. split; [reflexivity|]. split; [reflexivity|].
    split; [exact H2 | exact (H3 L1)].
  - destruct (@malformed_io_file_fails "db" io_read_each io_int
                (list string) io_pair [io_file; io_file_count]
                io_file_count I2 G2 (or_intror L2)) as (_ & H2 & _ & H4).
    destruct (H4 eq_refl) as (e & He & H5).
    cbn in He. inversion He; subst e.
    split; [exact G2|]. split; [reflexivity|]. split; [reflexivity|].
    split; [reflexivity|]. split; [exact H2 | exact H5].
Defined.

(** X25.  The last file wins an entry of [ConfigDB.Build].  When
    [Build] returns, the entry under the three name parts of a file that
    no later file shares holds what that file says: under [output] the
    paths of the second part of its content, and under [input] the paths
    of the first part when the third part is the number zero, and
    otherwise what [sos_pair_input] makes of these paths. *)
Theorem last_io_file_wins :
  forall name read int (P : Type) (sos : list string -> result P)
         files out fs1 f fs2 fid sid nm,
    ConfigDB.Build name read int sos files = Ok out ->
    files = fs1 ++ f :: fs2 ->
    ConfigDB.name_parts f = [fid; sid; nm] ->
    (forall f', In f' fs2 -> ConfigDB.name_parts f' <> [fid; sid; nm]) ->
    exists x y z n e,
      split_pair ":" (read f) = [x; y; z] /\ int z = Ok n /\
      ConfigDB.entry_at out fid sid nm = Some e /\
      dget "output" e = Some (ConfigDB.Paths (ConfigDB.paths name y)) /\
      (n = 0%Z ->
       dget "input" e = Some (ConfigDB.Paths (ConfigDB.paths name x))) /\
      (n <> 0%Z ->
       exists p, sos (ConfigDB.paths name x) = Ok p /\
                 dget "input" e = Some (ConfigDB.Paired p)).
Proof.
  intros name read int P sos files out fs1 f fs2 fid sid nm E -> Hp No.
  unfold ConfigDB.Build in E.
  destruct (@build_loop_app _ _ _ _ _ _ _ _ _ E) as (mid & _ & E2).
  simpl in E2. bind_as E2 d1 X1.
  destruct (@add_file_ok _ _ _ _ _ _ _ _ X1)
    as (fid0 & sid0 & nm0 & x & y & z & n & e & Hp0 & Hc & Hi & He & Ho
        & Hz & Hn & _).
  rewrite Hp in Hp0. inversion Hp0; subst fid0 sid0 nm0. clear Hp0.
  exists x, y, z, n, e. split; [exact Hc|]. split; [exact Hi|].
  split; [|tauto].
  rewrite (@build_loop_other _ _ _ _ _ _ _ _ _ _ _ E2 No). exact He.
Qed.

Lemma last_io_file_wins_witness :
  ConfigDB.Build "db" io_read io_int io_pair [io_file]
  = Ok [("1", [("2", [("sim",
           [("input", ConfigDB.Paths ["db/a.txt"; "db/c.txt"]);
            ("output", ConfigDB.Paths ["db/d.rds"])])])])] /\
  exists x y z n e,
    split_pair ":" (io_read io_file) = [x; y; z] /\ io_int z = Ok n /\
    ConfigDB.entry_at
      [("1", [("2", [("sim",
           [("input", ConfigDB.Paths ["db/a.txt"; "db/c.txt"]);
            ("output", ConfigDB.Paths ["db/d.rds"])])])])]
      "1" "2" "sim" = Some e /\
    dget "output" e = Some (ConfigDB.Paths (ConfigDB.paths "db" y)) /\
    (n = 0%Z ->
     dget "input" e = Some (ConfigDB.Paths (ConfigDB.paths "db" x))) /\
    (n <> 0%Z ->
     exists p, io_pair (ConfigDB.paths "db" x) = Ok p /\
               dget "input" e = Some (ConfigDB.Paired p)).
Proof.
  split; [reflexivity|].
  apply (@last_io_file_wins "db" io_read io_int (list string) io_pair
           [io_file] _ [] io_file [] "1" "2" "sim" eq_refl eq_refl eq_refl).
  intros f' [].
Defined.

(** ** The master table: the groups side by side *)

Lemma skipn_length_app {A : Type} (l1 l2 : list A) n :
  skipn (List.length l1 + n) (l1 ++ l2) = skipn n l2.
Proof.
  induction l1 as [|a l1 IH]; simpl; [reflexivity | exact IH].
Qed.

Lemma firstn_length_app {A : Type} (l1 l2 : list A) :
  firstn (List.length l1) (l1 ++ l2) = l1.
Proof.
  induction l1 as [|a l1 IH]; simpl; [reflexivity | rewrite IH; reflexivity].
Qed.

(** The part of a concatenation that one of the lists makes. *)
Lemma concat_segment {A : Type} (ls : list (list A)) : forall g l,
  nth_error ls g = Some l ->
  segment (List.length (List.concat (firstn g ls))) (List.length l)
          (List.concat ls) = l.
Proof.
  unfold segment.
  induction ls as [|a ls IH]; intros [|g] l E; simpl in E; try discriminate.
  - inversion E; subst. simpl. apply firstn_length_app.
  - simpl. rewrite length_app, skipn_length_app. apply IH. exact E.
Qed.

Lemma concat_map_length {A B C : Type} (f : A -> list B) (h : A -> list C)
    (l : list A) :
  (forall x, In x l -> List.length (f x) = List.length (h x)) ->
  List.length (List.concat (map f l)) = List.length (List.concat (map h l)).
Proof.
  induction l as [|a l IH]; intros E; [reflexivity|].
  simpl. rewrite !length_app, IH.
  - rewrite (E a); [reflexivity | left; reflexivity].
  - intros x I. apply E. right. exact I.
Qed.

Lemma in_firstn {A : Type} (x : A) n : forall l,
  In x (firstn n l) -> In x l.
Proof.
  induction n as [|n IH]; intros [|a l] I; simpl in I; try contradiction.
  destruct I as [<-|I]; [left; reflexivity | right; apply IH, I].
Qed.

(** The cells of the chains of the shape [key] on the row [i] of the
    master table: the row of the chain at position [i] among them, nulls
    below the last one. *)
Lemma row_at_group key (fl : list chain) i :
  row_at (mkDF (header_of key) (map flatten_list fl)) i
  = match nth_error fl i with
    | Some c => flatten_list c
    | None => repeat VNone (2 * List.length key)
    end.
Proof.
  unfold row_at, width, nulls. cbn [rows columns].
  rewrite header_of_length.
  destruct (nth_error fl i) as [c|] eqn:E.
  - apply nth_error_nth. rewrite nth_error_map, E. reflexivity.
  - apply nth_overflow. rewrite length_map.
    apply nth_error_None. exact E.
Qed.

Lemma concat_columns_ok fs t :
  concat_columns fs = Ok t ->
  fs <> [] /\
  t = mkDF (List.concat (map columns fs))
           (map (fun i => List.concat (map (fun f => row_at f i) fs))
                (seq 0 (list_max (map nrows fs)))).
Proof.
  unfold concat_columns. destruct fs as [|f fs]; intros E; [discriminate|].
  inversion E. split; [discriminate | reflexivity].
Qed.

Lemma list_max_nth l : forall i n,
  nth_error l i = Some n -> (n <= list_max l)%nat.
Proof.
  induction l as [|m l IH]; intros [|i] n E; simpl in E; try discriminate.
  - inversion E; subst. simpl. lia.
  - specialize (IH i n E). simpl. lia.
Qed.

Lemma by_first_chain_seen g seen item keys :
  by_first_chain g seen keys -> by_first_chain g (seen ++ [item]) keys.
Proof.
  intros O g1 g2 k1 k2 L N1 N2.
  destruct (O g1 g2 k1 k2 L N1 N2) as (p1 & c1 & P1 & S1 & F).
  assert (L1 : (p1 < List.length seen)%nat)
    by (apply nth_error_Some; congruence).
  exists p1, c1. split; [rewrite nth_error_app1; assumption|].
  split; [exact S1|]. intros p2 c2 P2 S2.
  destruct (Nat.lt_ge_cases p2 (List.length seen)) as [L2|L2]; [|lia].
  rewrite nth_error_app1 in P2 by exact L2. exact (F p2 c2 P2 S2).
Qed.

(** The keys of the groups stand in the order of the first chains of
    their shapes. *)
Lemma group_chains_order g res : forall seen acc out,
  grouped_as g seen acc -> by_first_chain g seen (dkeys acc) ->
  group_chains g res acc = Ok out ->
  by_first_chain g (seen ++ res) (dkeys out).
Proof.
  induction res as [|item res IH]; intros seen acc out GA O E.
  - simpl in E. inversion E; subst. rewrite app_nil_r. exact O.
  - assert (E' := E). simpl in E. bind_inv E. rename a into key.
    bind_inv E. rename a into gr.
    match type of E with
    | group_chains _ _ ?a = _ => set (acc2 := a) in *
    end.
    assert (E2 : group_chains g [item] acc = Ok acc2).
    { simpl. rewrite E0. cbn [bind]. rewrite E1. reflexivity. }
    destruct (@group_chains_grouped _ _ _ _ _ GA E2) as [G2 _].
    assert (O2 : by_first_chain g (seen ++ [item]) (dkeys acc2)).
    { unfold acc2. apply getitem_ok in E1.
      rewrite dkeys_dset_in by (eapply dget_in_keys; exact E1).
      destruct (dmem key acc) eqn:M.
      - apply by_first_chain_seen, O.
      - assert (NI : ~ In key (dkeys acc)).
        { intros I. apply dmem_true in I. congruence. }
        rewrite dkeys_dset_notin by exact NI.
        intros g1 g2 k1 k2 L N1 N2.
        destruct (Nat.lt_ge_cases g2 (List.length (dkeys acc))) as [L2|L2].
        + rewrite nth_error_app1 in N1 by lia.
          rewrite nth_error_app1 in N2 by lia.
          apply (@by_first_chain_seen g seen item (dkeys acc) O
                   g1 g2 k1 k2 L N1 N2).
        + assert (L3 : (g2 < List.length (dkeys acc ++ [key]))%nat)
            by (apply nth_error_Some; congruence).
          rewrite length_app in L3. simpl in L3.
          assert (g2 = List.length (dkeys acc)) by lia. subst g2.
          rewrite nth_error_app2, Nat.sub_diag in N2 by lia.
          simpl in N2. inversion N2; subst k2.
          rewrite nth_error_app1 in N1 by lia.
          apply nth_error_In in N1.
          destruct GA as [_ G]. assert (G1 := G k1).
          destruct (existsb (has_shape g k1) seen) eqn:X.
          * apply existsb_exists in X. destruct X as (c1 & I1 & S1).
            apply has_shape_true in S1.
            destruct (In_nth_error _ _ I1) as [p1 P1].
            assert (L1 : (p1 < List.length seen)%nat)
              by (apply nth_error_Some; congruence).
            exists p1, c1. split; [rewrite nth_error_app1; assumption|].
            split; [exact S1|]. intros p2 c2 P2 S2.
            destruct (Nat.lt_ge_cases p2 (List.length seen)) as [L4|L4];
              [|lia].
            exfalso. rewrite nth_error_app1 in P2 by exact L4.
            apply nth_error_In in P2. assert (G0 := G key).
            assert (X0 : existsb (has_shape g key) seen = true).
            { apply existsb_exists. exists c2. split; [exact P2|].
              apply has_shape_true. exact S2. }
            rewrite X0 in G0. apply NI. eapply dget_in_keys. exact G0.
          * exfalso. apply dget_none in G1. contradiction. }
    specialize (IH _ _ _ G2 O2 E). rewrite <- app_assoc in IH. exact IH.
Qed.

Lemma by_first_chain_nil g : by_first_chain g [] (@dkeys _ group []).
Proof. intros g1 g2 k1 k2 _ N1. destruct g1; discriminate. Qed.

(** C4.  Grouping by shape is an exhaustive and disjoint partition, and
    the master table is the groups side by side.  When
    [write_master_table] returns [t] for a block, the chains [res] of the
    block are grouped into a dictionary with one key per shape that
    occurs: every chain has a shape, and its shape is a key; the group of
    a key holds the header of the key and the rows of exactly the chains
    of that shape, in their order, so that the rows of all groups are the
    rows of the chains, each once; headers and rows hold, per position of
    the chain, [<block>_name], [<block>_id] and the table name, the step
    id; and [t] is [pd.concat(axis = 1)] of the frames of the groups.
    There is a group, the groups stand in the order of the first chains
    of their shapes, and [t] is this table: its labels are the headers of
    the groups one after the other; it has as many rows as the largest
    group has chains; its row [i] is, group after group, the row of the
    chain at position [i] among the chains of the shape, and nulls under
    a group that has fewer chains.  So every row is as long as the
    labels; the columns of the group at position [g] start after those
    of the groups before it, carry its header and, on the row [i], that
    chain or nulls; and every chain is found on a row, under the columns
    of the group of its shape.  A header has two labels per block and a
    row two cells per position of the chain. *)
Theorem master_table_partition :
  forall fuel db block t,
    write_master_table fuel db block = Ok t ->
    exists steps res grouped,
      dget block (groups db) = Some steps /\
      chains_of_block fuel (data db) steps [] = Ok res /\
      group_chains (groups db) res [] = Ok grouped /\
      NoDup (dkeys grouped) /\
      (forall c, In c res ->
         exists key, shape (groups db) c = Ok key /\ In key (dkeys grouped)) /\
      (forall key gr, In (key, gr) grouped ->
         fst gr = header_of key /\
         snd gr = map flatten_list
                      (filter (has_shape (groups db) key) res)) /\
      Permutation (group_rows grouped) (map flatten_list res) /\
      (forall key p b, nth_error key p = Some b ->
         nth_error (header_of key) (2 * p) = Some (b ++ "_name")%string /\
         nth_error (header_of key) (2 * p + 1) = Some (b ++ "_id")%string) /\
      (forall (c : chain) p s i, nth_error c p = Some (s, i) ->
         nth_error (flatten_list c) (2 * p) = Some s /\
         nth_error (flatten_list c) (2 * p + 1) = Some i) /\
      concat_columns (map frame_of_group grouped) = Ok t /\
      columns t = List.concat (map header_of (dkeys grouped)) /\
      dkeys grouped <> [] /\
      by_first_chain (groups db) res (dkeys grouped) /\
      t = mkDF
            (List.concat (map header_of (dkeys grouped)))
            (map (fun i =>
                    List.concat
                      (map (fun key =>
                              match nth_error
                                      (filter (has_shape (groups db) key) res)
                                      i with
                              | Some c => flatten_list c
                              | None => repeat VNone (2 * List.length key)
                              end)
                           (dkeys grouped)))
                 (seq 0 (list_max
                           (map (fun key =>
                                   List.length
                                     (filter (has_shape (groups db) key)
                                             res))
                                (dkeys grouped))))) /\
      (forall row, In row (rows t) ->
         List.length row = List.length (columns t)) /\
      (forall g key, nth_error (dkeys grouped) g = Some key ->
         segment (offset_of (dkeys grouped) g) (2 * List.length key)
                 (columns t) = header_of key /\
         forall i row, nth_error (rows t) i = Some row ->
           segment (offset_of (dkeys grouped) g) (2 * List.length key) row
           = match nth_error (filter (has_shape (groups db) key) res) i with
             | Some c => flatten_list c
             | None => repeat VNone (2 * List.length key)
             end) /\
      (forall c, In c res ->
         exists g key i row,
           nth_error (dkeys grouped) g = Some key /\
           shape (groups db) c = Ok key /\
           nth_error (filter (has_shape (groups db) key) res) i = Some c /\
           nth_error (rows t) i = Some row /\
           segment (offset_of (dkeys grouped) g) (2 * List.length key) row
           = flatten_list c) /\
      (forall key,
         List.length (header_of key) = (2 * List.length key)%nat) /\
      (forall c : chain,
         List.length (flatten_list c) = (2 * List.length c)%nat).
Proof.
  intros fuel db block t E. unfold write_master_table in E.
  bind_inv E. rename a into steps. bind_inv E. rename a into res.
  bind_inv E. rename a into grouped. bind_inv E. rename a into frames.
  apply getitem_ok in E0.
  destruct (@group_chains_grouped _ _ _ _ _ (grouped_as_nil (groups db)) E2)
    as [GA S].
  simpl in GA.
  assert (EF : frames = map frame_of_group grouped).
  { unfold dkeys in E3.
    rewrite (@frames_of_groups_exact _ _ _ GA _ (incl_refl grouped)) in E3.
    inversion E3. reflexivity. }
  subst frames.
  set (cell := fun (i : nat) (key : list string) =>
                 match nth_error (filter (has_shape (groups db) key) res) i
                 with
                 | Some c => flatten_list c
                 | None => repeat VNone (2 * List.length key)
                 end).
  set (size := fun key : list string =>
                 List.length (filter (has_shape (groups db) key) res)).
  assert (Gr : forall key gr, In (key, gr) grouped ->
             fst gr = header_of key /\
             snd gr = map flatten_list
                          (filter (has_shape (groups db) key) res)).
  { intros key gr I. apply in_dget in I; [|apply GA].
    destruct (@grouped_rows_width _ _ _ _ _ GA I) as (H1 & H2 & _). tauto. }
  assert (Key : forall c, In c res ->
             exists key, shape (groups db) c = Ok key /\
                         In key (dkeys grouped)).
  { intros c I. destruct (S c I) as [key Ek]. exists key.
    split; [exact Ek|].
    destruct GA as [_ G]. specialize (G key).
    assert (X : existsb (has_shape (groups db) key) res = true).
    { apply existsb_exists. exists c. split; [exact I|].
      apply has_shape_true. exact Ek. }
    rewrite X in G. eapply dget_in_keys. exact G. }
  assert (Cols : List.concat (map columns (map frame_of_group grouped))
                 = List.concat (map header_of (dkeys grouped))).
  { f_equal. unfold dkeys. rewrite !map_map. apply map_ext_in.
    intros [key gr] I. simpl. exact (proj1 (Gr key gr I)). }
  assert (Rows : forall i,
             map (fun f => row_at f i) (map frame_of_group grouped)
             = map (cell i) (dkeys grouped)).
  { intros i. unfold dkeys. rewrite !map_map. apply map_ext_in.
    intros [key [h rs]] I. destruct (Gr key (h, rs) I) as [H1 H2].
    simpl in H1, H2. subst h rs. unfold frame_of_group. cbn [fst snd].
    apply row_at_group. }
  assert (Sizes : map nrows (map frame_of_group grouped)
                  = map size (dkeys grouped)).
  { unfold dkeys. rewrite !map_map. apply map_ext_in.
    intros [key [h rs]] I. destruct (Gr key (h, rs) I) as [_ H2].
    simpl in H2. subst rs. unfold frame_of_group, nrows, size.
    cbn [fst snd rows]. apply length_map. }
  destruct (@concat_columns_ok _ _ E) as [NE Et].
  rewrite Cols, Sizes in Et.
  assert (Et' : t = mkDF (List.concat (map header_of (dkeys grouped)))
                         (map (fun i => List.concat
                                          (map (cell i) (dkeys grouped)))
                              (seq 0 (list_max
                                        (map size (dkeys grouped)))))).
  { rewrite Et. f_equal. apply map_ext. intros i. f_equal. apply Rows. }
  clear Et.
  assert (CellLen : forall i key, In key (dkeys grouped) ->
             List.length (cell i key) = List.length (header_of key)).
  { intros i key I. unfold cell. rewrite header_of_length.
    destruct (nth_error (filter (has_shape (groups db) key) res) i)
      as [c|] eqn:N.
    - apply nth_error_In, filter_In in N. destruct N as [_ N].
      apply has_shape_true in N. rewrite flatten_list_length.
      rewrite (@shape_length _ _ _ N). reflexivity.
    - apply repeat_length. }
  assert (RowAt : forall i row, nth_error (rows t) i = Some row ->
             row = List.concat (map (cell i) (dkeys grouped))).
  { intros i row N. rewrite Et' in N. cbn [rows] in N.
    rewrite nth_error_map in N.
    destruct (nth_error (seq 0 (list_max (map size (dkeys grouped)))) i)
      as [j|] eqn:Nj; [|discriminate].
    assert (Lj : (i < List.length
                         (seq 0 (list_max (map size (dkeys grouped)))))%nat)
      by (apply nth_error_Some; congruence).
    rewrite length_seq in Lj.
    rewrite (nth_error_nth' _ 0%nat) in Nj by (rewrite length_seq; exact Lj).
    rewrite seq_nth in Nj by exact Lj. inversion Nj; subst j.
    simpl in N. inversion N. reflexivity. }
  assert (Seg : forall g key, nth_error (dkeys grouped) g = Some key ->
             segment (offset_of (dkeys grouped) g) (2 * List.length key)
                     (columns t) = header_of key /\
             forall i row, nth_error (rows t) i = Some row ->
               segment (offset_of (dkeys grouped) g) (2 * List.length key)
                       row = cell i key).
  { intros g key N. unfold offset_of. split.
    - rewrite Et'. cbn [columns]. rewrite <- header_of_length.
      rewrite <- firstn_map. apply concat_segment.
      rewrite nth_error_map, N. reflexivity.
    - intros i row Nr. rewrite (RowAt i row Nr).
      rewrite (@concat_map_length _ _ _ header_of (cell i)
                 (firstn g (dkeys grouped))).
      + rewrite <- header_of_length.
        rewrite <- (CellLen i key) by (eapply nth_error_In; exact N).
        rewrite <- firstn_map. apply concat_segment.
        rewrite nth_error_map, N. reflexivity.
      + intros x I. symmetry. apply CellLen. eapply in_firstn. exact I. }
  exists steps, res, grouped.
  split; [exact E0|]. split; [exact E1|]. split; [exact E2|].
  split; [apply GA|]. split; [exact Key|]. split; [exact Gr|].
  split; [apply (@group_chains_rows _ _ _ _ E2)|].
  split; [intros key p b; apply header_of_nth|].
  split; [intros c p s i; apply flatten_list_nth|].
  split; [exact E|].
  split; [rewrite (@concat_columns_columns _ _ E); exact Cols|].
  split.
  { intros X. apply NE. unfold dkeys in X. apply map_eq_nil in X.
    rewrite X. reflexivity. }
  split.
  { apply (@group_chains_order _ _ [] [] grouped
             (grouped_as_nil (groups db)) (by_first_chain_nil (groups db))
             E2). }
  split; [exact Et'|].
  split.
  { intros row I. destruct (In_nth_error _ _ I) as [i N].
    rewrite (RowAt i row N). rewrite Et'. cbn [columns].
    apply concat_map_length. intros x Ix. apply CellLen. exact Ix. }
  split; [exact Seg|].
  split; [|split; [apply header_of_length | apply flatten_list_length]].
  intros c I. destruct (Key c I) as (key & Sk & Ik).
  destruct (In_nth_error _ _ Ik) as [g Ng].
  assert (If : In c (filter (has_shape (groups db) key) res)).
  { apply filter_In. split; [exact I | apply has_shape_true; exact Sk]. }
  destruct (In_nth_error _ _ If) as [i Ni].
  assert (Li : (i < list_max (map size (dkeys grouped)))%nat).
  { assert (L1 : (i < size key)%nat)
      by (unfold size; apply nth_error_Some; congruence).
    assert (L2 : (size key <= list_max (map size (dkeys grouped)))%nat).
    { apply (@list_max_nth _ g). rewrite nth_error_map, Ng. reflexivity. }
    lia. }
  assert (Nr : nth_error (rows t) i
               = Some (List.concat (map (cell i) (dkeys grouped)))).
  { rewrite Et'. cbn [rows]. rewrite nth_error_map.
    rewrite (nth_error_nth' _ 0%nat) by (rewrite length_seq; exact Li).
    rewrite seq_nth by exact Li. reflexivity. }
  exists g, key, i, (List.concat (map (cell i) (dkeys grouped))).
  split; [exact Ng|]. split; [exact Sk|]. split; [exact Ni|].
  split; [exact Nr|].
  rewrite (proj2 (Seg g key Ng) i _ Nr). unfold cell. rewrite Ni.
  reflexivity.
Qed.

Lemma master_table_partition_witness :
  load_parameters [source_shapes] init = Ok db_shapes /\
  write_master_table 5 db_shapes "est" = Ok master_shapes /\
  exists res grouped,
    chains_of_block 5 store_shapes [VStr "B"] [] = Ok res /\
    res = [[(VStr "A", VInt 1); (VStr "B", VInt 3)];
           [(VStr "A", VInt 1); (VStr "M", VInt 2); (VStr "B", VInt 4)];
           [(VStr "A", VInt 1); (VStr "B", VInt 5)]] /\
    group_chains (groups db_shapes) res [] = Ok grouped /\
    dkeys grouped = [["sim"; "est"]; ["sim"; "mid"; "est"]] /\
    Permutation (group_rows grouped) (map flatten_list res) /\
    by_first_chain (groups db_shapes) res (dkeys grouped) /\
    segment 0 4 (columns master_shapes)
    = ["sim_name"; "sim_id"; "est_name"; "est_id"] /\
    segment 4 6 (columns master_shapes)
    = ["sim_name"; "sim_id"; "mid_name"; "mid_id"; "est_name"; "est_id"] /\
    (forall row, nth_error (rows master_shapes) 0 = Some row ->
       segment 0 4 row = [VStr "A"; VInt 1; VStr "B"; VInt 3] /\
       segment 4 6 row
       = [VStr "A"; VInt 1; VStr "M"; VInt 2; VStr "B"; VInt 4]) /\
    (forall row, nth_error (rows master_shapes) 1 = Some row ->
       segment 0 4 row = [VStr "A"; VInt 1; VStr "B"; VInt 5] /\
       segment 4 6 row = [VNone; VNone; VNone; VNone; VNone; VNone]).
Proof.
  split; [reflexivity|]. split; [reflexivity|].
  destruct (@master_table_partition 5 db_shapes "est" master_shapes eq_refl)
    as (steps & res & grouped & H1 & H2 & H3 & _ & _ & _ & H4 & _ & _ & _
        & _ & _ & H5 & _ & _ & H6 & _).
  vm_compute in H1. inversion H1; subst steps. clear H1.
  assert (R : res
              = [[(VStr "A", VInt 1); (VStr "B", VInt 3)];
                 [(VStr "A", VInt 1); (VStr "M", VInt 2); (VStr "B", VInt 4)];
                 [(VStr "A", VInt 1); (VStr "B", VInt 5)]]).
  { vm_compute in H2. inversion H2. reflexivity. }
  assert (K : dkeys grouped = [["sim"; "est"]; ["sim"; "mid"; "est"]]).
  { rewrite R in H3. vm_compute in H3. inversion H3. reflexivity. }
  exists res, grouped.
  split; [exact H2|]. split; [exact R|]. split; [exact H3|].
  split; [exact K|]. split; [exact H4|]. split; [exact H5|].
  rewrite K, R in H6.
  destruct (H6 0%nat ["sim"; "est"] eq_refl) as [C0 R0].
  destruct (H6 1%nat ["sim"; "mid"; "est"] eq_refl) as [C1 R1].
  split; [exact C0|]. split; [exact C1|].
  split; intros row N; split.
  - exact (R0 0%nat row N).
  - exact (R1 0%nat row N).
  - exact (R0 1%nat row N).
  - exact (R1 1%nat row N).
Defined.
(** ** Chain resolution on an ingested store: termination *)







(** ** A dependency that cannot be resolved: the walk and the build *)

Lemma Build_results name isfile load_rds fuel files :
  Build name isfile load_rds fuel files
  = (db <- load_parameters files init ;;
     build_results name isfile load_rds fuel db).
Proof. reflexivity. Qed.

(** A walk that comes to a record for whose [depends] lines 113-119 find
    no table, because no record has that step id or because the table
    that has it is named [None], stops there with the error of line
    120. *)
Lemma get_sequence_unresolved fuel d t i idx acc cols deps x :
  dget t d = Some cols -> dget "depends" cols = Some deps ->
  nth_error deps idx = Some x -> x <> VNone ->
  (forall k, In k (dkeys d) ->
     exists cols' ids, dget k d = Some cols' /\
                       dget "step_id" cols' = Some ids /\ ~ In x ids) \/
  (exists idx', find_step d (dkeys d) x = Ok (Some (VNone, idx'))) ->
  get_sequence (S fuel) d t i idx acc
  = Raise (ResultDBError (step_id_msg x)).
Proof.
  intros E1 E2 E3 N [A|[idx' F]].
  - eapply get_sequence_dangling; eassumption.
  - rewrite get_sequence_S. unfold getitem. rewrite E1. cbn [bind].
    rewrite E2. cbn [bind]. unfold getidx. rewrite E3. cbn [bind].
    destruct x; [congruence | |]; rewrite F; reflexivity.
Qed.

Lemma get_sequence_walk_unresolved d n t0 idx0 t idx :
  walks d n t0 idx0 t idx ->
  forall cols deps x,
    dget t d = Some cols -> dget "depends" cols = Some deps ->
    nth_error deps idx = Some x -> x <> VNone ->
    (forall k, In k (dkeys d) ->
       exists cols' ids, dget k d = Some cols' /\
                         dget "step_id" cols' = Some ids /\ ~ In x ids) \/
    (exists idx', find_step d (dkeys d) x = Ok (Some (VNone, idx'))) ->
    forall fuel i0 acc,
      (n < fuel)%nat ->
      get_sequence fuel d t0 i0 idx0 acc
      = Raise (ResultDBError (step_id_msg x)).
Proof.
  induction 1 as [t idx | n t idx cols1 deps1 x1 k idx1 t' idx' G1 Gd1 E1
                             N1 F1 Nk W IH];
    intros cols deps x G Gd Ed Nx A fuel i0 acc L.
  - destruct fuel as [|fuel]; [lia|].
    eapply get_sequence_unresolved; eassumption.
  - destruct fuel as [|fuel]; [lia|].
    rewrite get_sequence_S. unfold getitem. rewrite G1. cbn [bind].
    rewrite Gd1. cbn [bind]. unfold getidx. rewrite E1. cbn [bind].
    assert (Rec : get_sequence fuel d k x1 idx1 (acc ++ [(t, i0)])
                  = Raise (ResultDBError (step_id_msg x))).
    { apply (IH cols deps x G Gd Ed Nx A). lia. }
    destruct x1 as [|z|s]; [congruence | |];
      rewrite F1; cbn [bind]; (destruct k; [congruence | |]); exact Rec.
Qed.

Lemma get_sequence_never d t0 i0 idx0 e :
  (exists n, forall fuel acc, (n < fuel)%nat ->
     get_sequence fuel d t0 i0 idx0 acc = Raise e) ->
  forall fuel acc r, get_sequence fuel d t0 i0 idx0 acc <> Ok r.
Proof.
  intros [n R] fuel acc r E.
  assert (E' := @get_sequence_mono _ _ _ _ _ _ _ E (fuel + S n)%nat
                  ltac:(lia)).
  rewrite R in E' by lia. discriminate.
Qed.

Lemma chains_of_table_raise fuel d step ids : forall n res j i e,
  nth_error ids j = Some i ->
  get_sequence fuel d step i (n + j) [] = Raise e ->
  (forall j' i', (j' < j)%nat -> nth_error ids j' = Some i' ->
     exists c, get_sequence fuel d step i' (n + j') [] = Ok c) ->
  chains_of_table fuel d step n ids res = Raise e.
Proof.
  induction ids as [|i0 ids IH]; intros n res j i e Ej R Before;
    [destruct j; discriminate|].
  simpl. destruct j as [|j]; simpl in Ej.
  - inversion Ej; subst i0. rewrite Nat.add_0_r in R. rewrite R.
    reflexivity.
  - destruct (Before 0%nat i0 ltac:(lia) eq_refl) as [c Ec].
    rewrite Nat.add_0_r in Ec. rewrite Ec. cbn [bind].
    apply (IH (S n) _ j i e Ej).
    + replace (S n + j)%nat with (n + S j)%nat by lia. exact R.
    + intros j' i' Lj Ej'.
      replace (S n + j')%nat with (n + S j')%nat by lia.
      apply (Before (S j') i'); [lia | exact Ej'].
Qed.

Lemma chains_of_block_app fuel d s1 : forall s2 res,
  chains_of_block fuel d (s1 ++ s2) res
  = (res' <- chains_of_block fuel d s1 res ;;
     chains_of_block fuel d s2 res').
Proof.
  induction s1 as [|s s1 IH]; intros s2 res; [reflexivity|].
  simpl. destruct (getitem s d) as [cols|e]; [|reflexivity]. cbn [bind].
  destruct (getitem "step_id" cols) as [ids|e]; [|reflexivity]. cbn [bind].
  destruct (chains_of_table fuel d s 0 ids res) as [res'|e];
    [|reflexivity].
  cbn [bind]. apply IH.
Qed.

Lemma chains_of_block_raise fuel d s_pre t0 s_post cols0 ids0 idx0 i0 e :
  (forall step, In step s_pre ->
     exists cols ids,
       dget step d = Some cols /\ dget "step_id" cols = Some ids /\
       forall j i, nth_error ids j = Some i ->
         exists c, get_sequence fuel d step i j [] = Ok c) ->
  dget t0 d = Some cols0 -> dget "step_id" cols0 = Some ids0 ->
  nth_error ids0 idx0 = Some i0 ->
  get_sequence fuel d t0 i0 idx0 [] = Raise e ->
  (forall j i, (j < idx0)%nat -> nth_error ids0 j = Some i ->
     exists c, get_sequence fuel d t0 i j [] = Ok c) ->
  forall res,
    chains_of_block fuel d (s_pre ++ t0 :: s_post) res = Raise e.
Proof.
  intros Pre G Gi Ei R Before res. rewrite chains_of_block_app.
  destruct (@chains_of_block_total fuel d s_pre res) as [res' E'].
  - intros step I. destruct (Pre step I) as (cols & ids & H1 & H2 & _).
    eauto.
  - intros t i idx I. apply block_records_in in I.
    destruct I as [Is (cols & ids & H1 & H2 & H3)].
    destruct (Pre t Is) as (cols' & ids' & H1' & H2' & H3').
    rewrite H1 in H1'. inversion H1'; subst cols'.
    rewrite H2 in H2'. inversion H2'; subst ids'.
    exact (H3' idx i H3).
  - rewrite E'. cbn [bind chains_of_block]. unfold getitem.
    rewrite G. cbn [bind]. rewrite Gi. cbn [bind].
    rewrite (@chains_of_table_raise fuel d t0 ids0 0 res' idx0 i0 e Ei R
               Before).
    reflexivity.
Qed.

Lemma build_masters_raise fuel db lb1 block lb2 e : forall m,
  (forall b, In b lb1 -> exists tb, write_master_table fuel db b = Ok tb) ->
  write_master_table fuel db block = Raise e ->
  build_masters fuel db (lb1 ++ block :: lb2) m = Raise e.
Proof.
  induction lb1 as [|b lb1 IH]; intros m Pre R; simpl.
  - rewrite R. reflexivity.
  - destruct (Pre b (or_introl eq_refl)) as [tb Eb]. rewrite Eb.
    cbn [bind]. apply IH; [|exact R].
    intros b' I. apply Pre. right. exact I.
Qed.

(** A walk that comes to a [depends] for which no table is found fails
    the chains of its block and what [Build] does after ingestion. *)
Lemma unresolved_walk_fails :
  forall name isfile load_rds db block steps t0 i0 idx0 n t idx cols deps x,
  dget block (groups db) = Some steps -> In t0 steps ->
  record_at (data db) t0 i0 idx0 ->
  walks (data db) n t0 idx0 t idx ->
  dget t (data db) = Some cols -> dget "depends" cols = Some deps ->
  nth_error deps idx = Some x -> x <> VNone ->
  (forall k, In k (dkeys (data db)) ->
     exists cols' ids', dget k (data db) = Some cols' /\
                        dget "step_id" cols' = Some ids' /\
                        ~ In x ids') \/
  (exists idx',
     find_step (data db) (dkeys (data db)) x
     = Ok (Some (VNone, idx'))) ->
  (forall fuel acc, (n < fuel)%nat ->
     get_sequence fuel (data db) t0 i0 idx0 acc
     = Raise (ResultDBError (step_id_msg x))) /\
  (forall fuel acc r,
     get_sequence fuel (data db) t0 i0 idx0 acc <> Ok r) /\
  mentions (str_of_value x) (step_id_msg x) /\
  (forall fuel out, write_master_table fuel db block <> Ok out) /\
  (In block (last_block db) ->
   forall fuel out,
     build_results name isfile load_rds fuel db <> Ok out) /\
  (forall fuel s_pre s_post,
      (n < fuel)%nat -> steps = s_pre ++ t0 :: s_post ->
      (forall step, In step s_pre ->
         exists cols1 ids1,
           dget step (data db) = Some cols1 /\
           dget "step_id" cols1 = Some ids1 /\
           forall j i, nth_error ids1 j = Some i ->
             exists c, get_sequence fuel (data db) step i j [] = Ok c) ->
      (forall j i, (j < idx0)%nat -> record_at (data db) t0 i j ->
         exists c, get_sequence fuel (data db) t0 i j [] = Ok c) ->
      write_master_table fuel db block
      = Raise (ResultDBError (step_id_msg x)) /\
      forall lb1 lb2,
        last_block db = lb1 ++ block :: lb2 ->
        (forall b, In b lb1 ->
           exists tb, write_master_table fuel db b = Ok tb) ->
        build_results name isfile load_rds fuel db
        = Raise (ResultDBError (step_id_msg x))).
Proof.
  intros name isfile load_rds db block steps t0 i0 idx0 n t idx cols deps
         x Eb It Rec W Et Ed Nd Nx A.
  assert (Raises : forall fuel i acc, (n < fuel)%nat ->
             get_sequence fuel (data db) t0 i idx0 acc
             = Raise (ResultDBError (step_id_msg x))).
  { intros fuel i acc L.
    apply (@get_sequence_walk_unresolved _ _ _ _ _ _ W cols deps x Et Ed Nd
             Nx A fuel i acc L). }
  assert (Never : forall fuel acc r,
             get_sequence fuel (data db) t0 i0 idx0 acc <> Ok r).
  { apply (@get_sequence_never (data db) t0 i0 idx0
             (ResultDBError (step_id_msg x))).
    exists n. intros fuel acc L. apply Raises. exact L. }
  assert (NoTable : forall fuel out,
             write_master_table fuel db block <> Ok out).
  { intros fuel out E. unfold write_master_table in E.
    bind_as E steps' Es. apply getitem_ok in Es.
    rewrite Eb in Es. inversion Es; subst steps'.
    bind_as E res Er.
    destruct (@chains_of_block_ok _ _ _ _ _ Er t0 It)
      as (cols' & ids' & G1 & G2 & G3).
    destruct Rec as (cols0 & ids0 & H1 & H2 & H3).
    rewrite H1 in G1. inversion G1; subst cols'.
    rewrite H2 in G2. inversion G2; subst ids'.
    destruct (G3 idx0 i0 H3) as [c Ec]. exact (Never _ _ _ Ec). }
  split; [intros fuel acc L; apply Raises; exact L|].
  split; [exact Never|]. split; [apply mentions_middle|].
  split; [exact NoTable|]. split.
  - intros Ib fuel out E. unfold build_results in E. bind_as E m Xm.
    destruct (@build_masters_spec _ _ _ _ _ Xm) as (B1 & _).
    destruct (B1 block Ib) as (tb & Wt & _). exact (NoTable _ _ Wt).
  - intros fuel s_pre s_post L Es Pre Before.
    assert (Wr : write_master_table fuel db block
                 = Raise (ResultDBError (step_id_msg x))).
    { unfold write_master_table, getitem. rewrite Eb. cbn [bind].
      destruct Rec as (cols0 & ids0 & H1 & H2 & H3). rewrite Es.
      rewrite (@chains_of_block_raise fuel (data db) s_pre t0 s_post
                 cols0 ids0 idx0 i0 (ResultDBError (step_id_msg x))
                 Pre H1 H2 H3 (Raises fuel i0 [] L)).
      + reflexivity.
      + intros j i Lj Ej. apply (Before j i Lj).
        exists cols0, ids0. tauto. }
    split; [exact Wr|].
    intros lb1 lb2 El PreB. unfold build_results. rewrite El.
    rewrite (@build_masters_raise fuel db lb1 block lb2
               (ResultDBError (step_id_msg x)) [] PreB Wr).
    reflexivity.
Qed.

(** C1.  A [depends] that cannot be resolved fails the build with a
    [ResultDBError] that names it, and no result is produced.
    Ingestion: when the key of an item names last a return id [x] that no
    key of [data] has, [load_parameters] and [Build] do not return; and
    when the loop reaches the lookup of that item (the items before it
    are ingested, its own turn comes to line 91) and every key has a
    return id, they raise the error of line 41, whose message holds [x].
    Chain resolution: when the walk from a record of a table of a block
    comes, after any number of hops, to a record whose [depends] is the
    step id of no record, or of a record for which lines 113-119 find no
    table because its table is named [None], [__get_sequence] from the
    first record raises the error of line 120, whose message holds the
    value, under every recursion limit above the number of hops, and
    returns under none; [write_master_table] for the block does not
    return, and when the block is a terminal block neither does the rest
    of [Build], lines 204-213; when the records before that record in the
    block have chains, [write_master_table] raises that error, and so
    does the rest of [Build] when the terminal blocks before the block
    have master tables.  [Build] is [load_parameters] followed by that
    rest: it does not return when the database that [load_parameters]
    returns has such a walk from a record of a terminal block. *)
Theorem dangling_depends_fails :
  (forall name isfile load_rds fuel files pre k v post,
      dedup (load_sources files) = pre ++ (k, v) :: post ->
      (2 < List.length (split underscore k))%nat ->
      (forall kk, In kk (dkeys (dedup (load_sources files))) ->
         key_return kk <> Ok (key_last k)) ->
      (forall db, load_parameters files init <> Ok db) /\
      (forall out, Build name isfile load_rds fuel files <> Ok out) /\
      (forall db1 p,
          load_loop (dkeys (dedup (load_sources files))) 0 pre init = Ok db1 ->
          record_head (List.length pre) k v db1 = Ok p ->
          (forall kk, In kk (dkeys (dedup (load_sources files))) ->
             exists r, key_return kk = Ok r) ->
          load_parameters files init
          = Raise (ResultDBError (dependency_msg (key_last k))) /\
          Build name isfile load_rds fuel files
          = Raise (ResultDBError (dependency_msg (key_last k))) /\
          mentions (key_last k)
                   (dependency_msg (key_last k)))) /\
  (forall name isfile load_rds db block steps t0 i0 idx0 n t idx cols deps x,
      dget block (groups db) = Some steps -> In t0 steps ->
      record_at (data db) t0 i0 idx0 ->
      walks (data db) n t0 idx0 t idx ->
      dget t (data db) = Some cols -> dget "depends" cols = Some deps ->
      nth_error deps idx = Some x -> x <> VNone ->
      (forall k, In k (dkeys (data db)) ->
         exists cols' ids', dget k (data db) = Some cols' /\
                            dget "step_id" cols' = Some ids' /\
                            ~ In x ids') \/
      (exists idx',
         find_step (data db) (dkeys (data db)) x
         = Ok (Some (VNone, idx'))) ->
      (forall fuel acc, (n < fuel)%nat ->
         get_sequence fuel (data db) t0 i0 idx0 acc
         = Raise (ResultDBError (step_id_msg x))) /\
      (forall fuel acc r,
         get_sequence fuel (data db) t0 i0 idx0 acc <> Ok r) /\
      mentions (str_of_value x) (step_id_msg x) /\
      (forall fuel out, write_master_table fuel db block <> Ok out) /\
      (In block (last_block db) ->
       forall fuel out,
         build_results name isfile load_rds fuel db <> Ok out) /\
      (forall fuel s_pre s_post,
          (n < fuel)%nat -> steps = s_pre ++ t0 :: s_post ->
          (forall step, In step s_pre ->
             exists cols1 ids1,
               dget step (data db) = Some cols1 /\
               dget "step_id" cols1 = Some ids1 /\
               forall j i, nth_error ids1 j = Some i ->
                 exists c, get_sequence fuel (data db) step i j [] = Ok c) ->
          (forall j i, (j < idx0)%nat -> record_at (data db) t0 i j ->
             exists c, get_sequence fuel (data db) t0 i j [] = Ok c) ->
          write_master_table fuel db block
          = Raise (ResultDBError (step_id_msg x)) /\
          forall lb1 lb2,
            last_block db = lb1 ++ block :: lb2 ->
            (forall b, In b lb1 ->
               exists tb, write_master_table fuel db b = Ok tb) ->
            build_results name isfile load_rds fuel db
            = Raise (ResultDBError (step_id_msg x)))) /\
  (forall name isfile load_rds fuel files db,
      load_parameters files init = Ok db ->
      Build name isfile load_rds fuel files
      = build_results name isfile load_rds fuel db) /\
  (forall name isfile load_rds fuel files db block steps t0 i0 idx0 n t idx
          cols deps x,
      load_parameters files init = Ok db ->
      In block (last_block db) ->
      dget block (groups db) = Some steps -> In t0 steps ->
      record_at (data db) t0 i0 idx0 ->
      walks (data db) n t0 idx0 t idx ->
      dget t (data db) = Some cols -> dget "depends" cols = Some deps ->
      nth_error deps idx = Some x -> x <> VNone ->
      (forall k, In k (dkeys (data db)) ->
         exists cols' ids', dget k (data db) = Some cols' /\
                            dget "step_id" cols' = Some ids' /\
                            ~ In x ids') \/
      (exists idx',
         find_step (data db) (dkeys (data db)) x
         = Ok (Some (VNone, idx'))) ->
      forall out, Build name isfile load_rds fuel files <> Ok out).
Proof.
  split; [|split; [|split]].
  - intros name isfile load_rds fuel files pre k v post Ei L A.
    set (keys := dkeys (dedup (load_sources files))) in *.
    assert (NoLoad : forall db, load_parameters files init <> Ok db).
    { intros db E. unfold load_parameters, load_data in E. fold keys in E.
      rewrite Ei in E.
      destruct (@load_loop_split _ _ _ _ _ _ E) as (db1 & db2 & _ & L2 & _).
      unfold load_step in L2. bind_as L2 p Eh.
      unfold record_tail in L2. bind_as L2 dep Xdep.
      rewrite (@record_head_key _ _ _ _ _ Eh) in Xdep.
      unfold depends_of in Xdep.
      apply Nat.ltb_lt in L. rewrite L in Xdep. bind_as Xdep z Xz.
      exact (@search_dependent_index_not_ok _ _ _ A Xz). }
    split; [exact NoLoad|]. split.
    { intros out E. destruct (@Build_load_ok _ _ _ _ _ _ E) as [db Ed].
      exact (NoLoad db Ed). }
    intros db1 p L1 Eh R.
    assert (El : load_parameters files init
                 = Raise (ResultDBError
                            (dependency_msg (key_last k)))).
    { unfold load_parameters, load_data. fold keys. rewrite Ei.
      rewrite load_loop_app_eq, L1. cbn [bind load_loop Nat.add].
      unfold load_step. rewrite Eh. cbn [bind]. unfold record_tail.
      rewrite (@record_head_key _ _ _ _ _ Eh). unfold depends_of.
      apply Nat.ltb_lt in L. rewrite L.
      rewrite search_dependent_index_dangling; [reflexivity|].
      intros kk I. destruct (R kk I) as [r Er]. exists r.
      split; [exact Er|]. intros ->. exact (A kk I Er). }
    split; [exact El|]. split; [apply Build_load_raise, El|].
    apply mentions_middle.
  - exact unresolved_walk_fails.
  - intros name isfile load_rds fuel files db E.
    rewrite Build_results, E. reflexivity.
  - intros name isfile load_rds fuel files db block steps t0 i0 idx0 n t idx
           cols deps x E Ib Eb It Rec W Et Ed Nd Nx A out.
    rewrite Build_results, E. cbn [bind].
    destruct (@unresolved_walk_fails name isfile load_rds db block steps t0
                i0 idx0 n t idx cols deps x Eb It Rec W Et Ed Nd Nx A)
      as (_ & _ & _ & _ & H5 & _).
    exact (H5 Ib fuel out).
Qed.

Lemma store_chain_99_walk :
  walks store_chain_99 1 (VStr "B") 0 (VStr "A") 0.
Proof.
  apply (@walks_on store_chain_99 0 (VStr "B") 0
           [("y", [VInt 2]); ("step_id", [VInt 2]);
            ("return", [VStr "b"]); ("depends", [VInt 1])]
           [VInt 1] (VInt 1) (VStr "A") 0 (VStr "A") 0);
    try reflexivity; try discriminate.
  apply walks_here.
Qed.

Lemma dangling_depends_fails_witness :
  load_parameters [source_dangling] init
  = Raise (ResultDBError "Cannot find dependency step for output ``zz``!") /\
  Build "db" no_file rds_of_b 1 [source_dangling]
  = Raise (ResultDBError "Cannot find dependency step for output ``zz``!") /\
  (forall acc,
      get_sequence 2 store_chain_99 (VStr "B") (VInt 2) 0 acc
      = Raise (ResultDBError "Cannot find step_id ``99`` in any tables!")) /\
  write_master_table 2 db_chain_99 "est"
  = Raise (ResultDBError "Cannot find step_id ``99`` in any tables!") /\
  build_results "db" no_file rds_of_b 2 db_chain_99
  = Raise (ResultDBError "Cannot find step_id ``99`` in any tables!") /\
  (forall fuel out,
      build_results "db" no_file rds_of_b fuel db_chain_99 <> Ok out) /\
  load_parameters [source_unnamed] init = Ok db_unnamed /\
  Build "db" no_file rds_of_b 1 [source_unnamed]
  = Raise (ResultDBError "Cannot find step_id ``1`` in any tables!").
Proof.
  assert (I := proj1 dangling_depends_fails "db" no_file rds_of_b 1%nat
                 [source_dangling] [("1_a", raw_A)] "2_b_zz" raw_B []
                 eq_refl).
  assert (I1 : (2 < List.length (split underscore "2_b_zz"))%nat)
    by (cbn; lia).
  assert (I2 : forall kk,
             In kk (dkeys (dedup (load_sources [source_dangling]))) ->
             key_return kk <> Ok (key_last "2_b_zz")).
  { cbn. intros kk [<-|[<-|[]]]; cbn; discriminate. }
  assert (I3 : forall kk,
             In kk (dkeys (dedup (load_sources [source_dangling]))) ->
             exists r, key_return kk = Ok r).
  { cbn. intros kk [<-|[<-|[]]]; cbn; eauto. }
  destruct (I I1 I2) as (_ & _ & Ing).
  destruct (Ing _ _ eq_refl eq_refl I3) as (L1 & L2 & _).
  split; [exact L1|]. split; [exact L2|].
  assert (R : record_at store_chain_99 (VStr "B") (VInt 2) 0).
  { do 2 eexists. repeat split; reflexivity. }
  assert (N : VInt 99 <> VNone) by discriminate.
  assert (A : forall k, In k (dkeys (data db_chain_99)) ->
              exists cols' ids', dget k (data db_chain_99) = Some cols' /\
                                 dget "step_id" cols' = Some ids' /\
                                 ~ In (VInt 99) ids').
  { cbn. intros k [<-|[<-|[]]]; do 2 eexists; cbn;
      (split; [reflexivity|]); (split; [reflexivity|]);
      intros [E|[]]; discriminate. }
  destruct (proj1 (proj2 dangling_depends_fails) "db" no_file rds_of_b
              db_chain_99 "est" [VStr "B"] (VStr "B") (VInt 2) 0%nat 1%nat
              (VStr "A") 0%nat
              [("x", [VInt 1]); ("step_id", [VInt 1]);
               ("return", [VStr "a"]); ("depends", [VInt 99])]
              [VInt 99] (VInt 99)
              eq_refl (or_introl eq_refl) R store_chain_99_walk
              eq_refl eq_refl eq_refl N (or_introl A))
    as (H1 & _ & _ & _ & H5 & H6).
  split; [intros acc; apply (H1 2%nat acc); lia|].
  destruct (H6 2%nat [] [] ltac:(lia) eq_refl) as [H7 H8].
  { intros step []. }
  { intros j i Lj. lia. }
  split; [exact H7|]. split; [apply (H8 [] [] eq_refl); intros b []|].
  split; [apply H5; left; reflexivity|].
  split; [reflexivity|].
  rewrite (proj1 (proj2 (proj2 dangling_depends_fails)) "db" no_file
             rds_of_b 1%nat [source_unnamed] db_unnamed eq_refl).
  assert (R' : record_at (data db_unnamed) (VStr "B") (VInt 2) 0).
  { do 2 eexists. repeat split; reflexivity. }
  assert (N' : VInt 1 <> VNone) by discriminate.
  destruct (proj1 (proj2 dangling_depends_fails) "db" no_file rds_of_b
              db_unnamed "est" [VStr "B"] (VStr "B") (VInt 2) 0%nat 0%nat
              (VStr "B") 0%nat
              [("y", [VInt 2]); ("step_id", [VInt 2]);
               ("return", [VStr "b"]); ("depends", [VInt 1])]
              [VInt 1] (VInt 1)
              eq_refl (or_introl eq_refl) R'
              (walks_here (data db_unnamed) (VStr "B") 0)
              eq_refl eq_refl eq_refl N'
              (or_intror (ex_intro _ 0%nat eq_refl)))
    as (_ & _ & _ & _ & _ & K6).
  destruct (K6 1%nat [] [] ltac:(lia) eq_refl) as [_ K8].
  { intros step []. }
  { intros j i Lj. lia. }
  apply (K8 [] [] eq_refl). intros b [].
Defined.
